(* ===== verification/_CoqProject ===== *)
-Q . S2P
Prelude.v
GoHash.v
Checksum.v
Bloom.v
SkipList.v
Model.v
VectorClock.v
Float64.v
Errors.v
Ring.v
Consistency.v
Routing.v
MemTable.v
KeyRange.v
Utf8.v
Validator.v
Codec.v
Json.v
JsonCut.v
SSTable.v
SSTableService.v
CommitLog.v
Cache.v
DiskManager.v
Streaming.v
Storage.v
Compaction.v
StorageHandler.v
StorageClient.v
Conflict.v
HintedHandoff.v
Tenant.v
Idempotency.v
Coordinator.v
MetadataStore.v
StorageNodeClient.v
HintReplay.v
NodeHandler.v
NodeLifecycle.v
Migrations.v
Cleanup.v
WorkerPool.v
Health.v
GoJson.v
CoordinatorHandlers.v
CoordinatorProcess.v
GatewayClient.v
GatewayConvert.v
Gateway.v
EndToEnd.v
Registration.v
CoordinatorConfig.v
NodeConfig.v
GatewayConfig.v
Endpoints.v
Prometheus.v
NodeMetrics.v
CoordinatorMetrics.v
GatewayMetrics.v
