(* ===== verification/Prelude.v ===== *)
(** * A verification library of PairDB

    PairDB is a distributed key-value store in three Go programs under [src/].
    The _API gateway_ ([api-gateway]) turns HTTP requests into calls of the
    _coordinator_ ([coordinator]), which finds the replicas of a key on a
    consistent hash ring, sends reads and writes to the _storage nodes_
    ([storage-node]) holding them, waits for as many answers as the consistency
    level asks for, and keeps hints for nodes that did not answer.  A storage
    node appends a write to a commit log, puts it in a memtable, flushes
    memtables to SSTables and compacts those.  Nodes join and leave under
    control of the coordinator, whose metadata is in PostgreSQL and whose
    idempotency keys are in Redis.

    ** Conventions

    A Go function that returns an error is a function to [res]; [option] is used
    for functions that may panic or not return, [None] being that.  State is
    passed explicitly; where the code shares objects by pointer (skip-list
    nodes, tenants, hints) the state has a heap.  Machine integers are [Z] with
    their wrap-around written out ([u64], [i64], [i32]); strings and bytes are
    lists of bytes underneath; [float64] is IEEE binary64 (Float64.v).  The order
    in which Go ranges over a map is the class [MapRange], of which only that
    it visits every entry once is known.  Code outside the repository is an
    argument: the answers of the network ([link]), the faults of the database,
    the replies of Redis, the file system's figures, the clock, random coin
    flips, the YAML decoders, the router of gorilla/mux (class [Mux]), and the
    Prometheus client (class [Prometheus], with a table as an instance).
    Goroutines are steps, in an order that is an argument or in any order of a
    step relation.

    ** Files, by the part of the program they model

    - _Common_: Prelude (results, bytes, integers, tactics and hints), GoHash
      (SHA-256, CRC-32, FNV-1), Utf8, Float64, Json and GoJson
      ([encoding/json]), Codec (what a stored record's encoding promises, also of
      its beginnings; Json and JsonCut discharge it), Model (the data types of
      both services).
    - _Storage node_, [src/storage-node/internal]: Checksum ([util]), Bloom,
      SSTable ([storage/sstable]), SkipList ([storage/memtable]), MemTable,
      SSTableService, CommitLog, Cache, Streaming, Compaction and Storage
      ([service], one file each; [boot] in Storage is the start of a node in
      [cmd/storage/main.go]), DiskManager ([storage/diskmanager]), Errors
      ([errors] and the disk manager's errors), Validator ([validation]),
      StorageHandler ([handler]), WorkerPool ([util/workerpool]), Health
      ([health]), Registration ([client]), NodeConfig ([config]), NodeMetrics
      ([metrics]), and parts of Endpoints ([server], gossip).
    - _Coordinator_, [src/coordinator/internal]: VectorClock, Ring and
      Consistency ([algorithm] and the services over it), Routing, KeyRange,
      Conflict, HintedHandoff, Tenant, Idempotency and Cleanup ([service] and
      the stores they use), HintReplay ([service/hint_replay_service.go] and the
      hint table), Coordinator ([service/coordinator_service_v2.go]),
      MetadataStore and Migrations ([store] and the SQL constraints),
      StorageClient and StorageNodeClient ([client]), NodeHandler
      ([handler/node_handler_v2.go]), NodeLifecycle (its composition with the
      ring refresh), CoordinatorHandlers ([handler], key-value and tenants),
      CoordinatorProcess (the services and the dispatch of
      [cmd/coordinator/main.go], and runs of the whole process),
      CoordinatorConfig ([config]), CoordinatorMetrics ([metrics]), and the
      probes in Endpoints ([health]).
    - _Gateway_, [src/api-gateway/internal]: GatewayClient ([grpc], [errors]),
      GatewayConvert ([converter]), Gateway ([handler], [middleware], [server],
      [health]), GatewayConfig ([config]), GatewayMetrics ([metrics]).
    - _All three_: EndToEnd composes the gateway, the coordinator and the
      storage nodes; Prometheus is what the metrics of each rely on.

    A Rocq definition has the name of the Go function it models, with a prefix
    where two files would clash.

    ** What is proved

    - _Data structures against specifications_: the skip list refines a finite
      map, whatever the random levels; the ring returns the first distinct nodes
      clockwise of a key and a new node moves as little as possible; vector
      clock comparison is the causal order and merge its least upper bound;
      no false negatives of the Bloom filter; checksums detect bursts.
    - _Files_: SSTables give back what was written, and a lookup over flushed
      tables the newest version; the commit log gives back every whole line,
      after any run of appends that succeed or fail in the middle of a line,
      rotations and restarts ([log_run]).
    - _A storage node_: over every run of writes, deletes and repairs, failed
      ones included, reads, rotations, flushes, crashes and restarts
      ([storage_run]) a read returns the last mutation that returned no error, a
      write that passes the checks succeeds and is read back, and a node started
      after a crash has the last mutation of every key in its memtable.
    - _The coordinator process_: over every interleaving of its RPCs, node
      changes and background work, and of the statements of other coordinators
      ([process_run]), the shared state stays sound, and an acknowledged write
      was accepted by enough distinct registered nodes.
    - _The cluster_: an HTTP read at quorum never shows a version older than an
      HTTP write at quorum that was answered 200 and that the nodes which
      acknowledged it still hold; a replica that could not be reached has a
      hint; a refused write has no effect; no hint is lost without a reason; the
      replay of stored hints ends when the writes succeed.
    - _Topology and metadata_: the ranges computed for a joining or leaving node
      are those whose owner changes, up to their end points; a node is made
      NORMAL only after its streams and hints are done; the outcomes of a
      removal; no update of a tenant is lost between coordinators.
    - _The gateway_: every request is answered; a 200 for a write means that the
      coordinator acknowledged it; retries deliver a request a bounded number
      of times; a value is read back through it exactly when it is UTF-8 text.
    - _The worker pool_: every accepted task is accounted for, and no reachable
      state of a running pool is stuck with work left.
    - _Metrics_: registration succeeds once, and every recorder changes exactly
      the metrics it names.
    - _Configuration_: what a loaded configuration guarantees to the services
      built from it.
    - _Defects_: where the code does not do what it means to, a theorem states
      what it does (oversized cache entries, endless hint replay, compaction
      that hides keys, the probe deadlock, refresh before streaming ends,
      missing keys reported as errors, re-registration, the entry lost behind a
      torn append, the table dropped after a failed flush, a refused replication
      factor that is served).

    ** Bounds and fuel

    Loops that are not structural take fuel, and [None] is a loop that has not
    ended.  Where the code's loop terminates the fuel is fixed and shown to be
    enough: the height and number of nodes for skip list traversals, the number
    of entries plus one for cache eviction, the length of the text for parsers
    and UTF-8, the number of words for SHA-256.  For [ReplayHintsForNode] the
    number of rounds is part of the theorem, and the diverging case is stated for
    every fuel.  Sizes are bounded only where the code computes with fixed
    width, by hypotheses of the form [_ < 2 ^ 63].

    ** Assumptions of the run relations

    [log_run] has a clock of ten digits that does not go back; every write of a
    line may succeed, be cut anywhere or fail to sync.  [storage_run] allows the
    same, but a restart is a step of it only while the log has no remains of
    failed writes (its index [Some es]; afterwards it is [None]), because an entry
    behind such remains is lost.  In it a mutation is stamped in a later second
    than the start of the last flush, the worker pool accepts the flushes, and no
    flush starts after one that failed, because it would drop the table of the
    failed one.  [process_run] starts from any well-formed tables, such as those of
    the migrations ([initial_db]).  NodeHandler runs one
    operation at a time (the code's mutex orders only those on one node), and
    nobody else writes the tables between two polls of a monitor;
    CoordinatorProcess runs every RPC and every monitor as one step, between
    which other coordinators may run any statement.

    ** Not modelled

    Logging; generated protobuf code and test doubles; dialling options,
    listeners, the HTTP servers of the metrics, signal handling and shutdown in
    the three [main]s; viper, yaml, memberlist, gorilla/mux, promhttp, the rate
    limiter and the PostgreSQL and Redis servers, which are arguments or only
    called; the logarithms in [NewBloomFilter], whose results are arguments; the
    [Stop] and [Close] methods other than the log's and the pool's, which end a
    loop or release a handle; what a failed call of the operating system says,
    where a message ends with it; mutexes where one operation holds the lock from
    start to end, so that operations are atomic steps. *)

From stdpp Require Export base tactics option list gmap strings sorting numbers pretty.
From Stdlib Require Export ZArith Lia.
From Stdlib Require Export Strings.Byte.

(** ** Results of fallible Go functions

    A Go function that returns [(T, error)] becomes a function to [res E T]:
    [Ok v] is [(v, nil)] and [Err e] is [(_, e)]. *)

Inductive res (E A : Type) : Type :=
| Ok (a : A)
| Err (e : E).
Arguments Ok {E A} a.
Arguments Err {E A} e.

#[global] Instance res_ret {E} : MRet (res E) := λ A a, Ok a.
#[global] Instance res_bind {E} : MBind (res E) := λ A B f m,
  match m with
  | Ok a => f a
  | Err e => Err e
  end.

(** [if err := g(); err != nil { return err }] for a guard [b] that fails with [e]. *)
Definition ensure {E} (b : bool) (e : E) : res E unit := if b then Ok tt else Err e.

Definition is_ok {E A} (r : res E A) : bool := if r is Ok _ then true else false.

Lemma res_bind_ok {E A B} (m : res E A) (f : A → res E B) b :
  m ≫= f = Ok b ↔ ∃ a, m = Ok a ∧ f a = Ok b.
Proof. destruct m; naive_solver. Qed.

Lemma ensure_ok {E} b (e : E) u : ensure b e = Ok u ↔ b = true.
Proof. destruct b, u; naive_solver. Qed.

Lemma ensure_err {E} b (e e' : E) : ensure b e = Err e' ↔ b = false ∧ e = e'.
Proof. destruct b; naive_solver. Qed.

(** ** Machine integers *)

Definition u64 (z : Z) : Z := (z mod 2 ^ 64)%Z.
Definition u32 (z : Z) : Z := (z mod 2 ^ 32)%Z.
Definition i64 (z : Z) : Z := ((z + 2 ^ 63) mod 2 ^ 64 - 2 ^ 63)%Z.
Definition i32 (z : Z) : Z := ((z + 2 ^ 31) mod 2 ^ 32 - 2 ^ 31)%Z.

Lemma u64_range z : (0 ≤ u64 z < 2 ^ 64)%Z.
Proof. apply Z.mod_pos_bound. lia. Qed.

Lemma u64_small z : (0 ≤ z < 2 ^ 64)%Z → u64 z = z.
Proof. apply Z.mod_small. Qed.

Lemma u32_range z : (0 ≤ u32 z < 2 ^ 32)%Z.
Proof. apply Z.mod_pos_bound. lia. Qed.

Lemma i64_small z : (- 2 ^ 63 ≤ z < 2 ^ 63)%Z → i64 z = z.
Proof. intros. unfold i64. rewrite Z.mod_small; lia. Qed.

Lemma i32_small z : (- 2 ^ 31 ≤ z < 2 ^ 31)%Z → i32 z = z.
Proof. intros. unfold i32. rewrite Z.mod_small; lia. Qed.

Lemma i64_range z : (- 2 ^ 63 ≤ i64 z < 2 ^ 63)%Z.
Proof. unfold i64. pose proof (Z.mod_pos_bound (z + 2 ^ 63) (2 ^ 64)). lia. Qed.

Lemma i64_add_l a b : i64 (i64 a + b) = i64 (a + b).
Proof.
  unfold i64. f_equal.
  replace ((a + 2 ^ 63) mod 2 ^ 64 - 2 ^ 63 + b + 2 ^ 63)%Z with ((a + 2 ^ 63) mod 2 ^ 64 + b)%Z by lia.
  rewrite Zplus_mod_idemp_l. f_equal. lia.
Qed.

(** ** Bytes and their encodings *)

Definition byte_val (b : byte) : Z := Z.of_N (Byte.to_N b).

Definition byte_of (z : Z) : byte :=
  default x00 (Byte.of_N (Z.to_N (z mod 256))).

Lemma byte_val_range b : (0 ≤ byte_val b < 256)%Z.
Proof. unfold byte_val. pose proof (Byte.to_N_bounded b). lia. Qed.

Lemma byte_val_of z : byte_val (byte_of z) = (z mod 256)%Z.
Proof.
  unfold byte_val, byte_of.
  pose proof (Z.mod_pos_bound z 256 ltac:(lia)) as Hz.
  destruct (Byte.of_N _) as [b|] eqn:Hb; simpl.
  - apply Byte.to_of_N in Hb. lia.
  - apply Byte.of_N_None_iff in Hb. lia.
Qed.

Lemma byte_val_inj b1 b2 : byte_val b1 = byte_val b2 → b1 = b2.
Proof.
  unfold byte_val. intros H%N2Z.inj.
  apply (f_equal Byte.of_N) in H. rewrite !Byte.of_to_N in H. by simplify_eq.
Qed.

Lemma byte_of_val b : byte_of (byte_val b) = b.
Proof.
  apply byte_val_inj. rewrite byte_val_of.
  apply Z.mod_small, byte_val_range.
Qed.

#[global] Instance byte_eq_decision : EqDecision byte := byte_eq_dec.

(** [binary.LittleEndian]: the low byte first. *)
Fixpoint le_bytes (n : nat) (z : Z) : list byte :=
  match n with
  | O => []
  | S n => byte_of z :: le_bytes n (z / 256)
  end.

Fixpoint le_val (l : list byte) : Z :=
  match l with
  | [] => 0
  | b :: l => byte_val b + 256 * le_val l
  end.

Lemma length_le_bytes n z : length (le_bytes n z) = n.
Proof. revert z. induction n; simpl; auto. Qed.

Lemma le_val_bytes n z : le_val (le_bytes n z) = (z mod 256 ^ Z.of_nat n)%Z.
Proof.
  revert z. induction n as [|n IH]; intros z.
  - simpl. by rewrite Z.mod_1_r.
  - cbn [le_bytes le_val]. rewrite IH, byte_val_of.
    rewrite Nat2Z.inj_succ, Z.pow_succ_r by lia.
    rewrite Z.rem_mul_r by lia. lia.
Qed.

Lemma le_val_range l : (0 ≤ le_val l < 256 ^ Z.of_nat (length l))%Z.
Proof.
  induction l as [|b l IH]; cbn [le_val length]; [lia|].
  pose proof (byte_val_range b).
  rewrite Nat2Z.inj_succ, Z.pow_succ_r by lia. lia.
Qed.

Lemma le_bytes_val l : le_bytes (length l) (le_val l) = l.
Proof.
  induction l as [|b l IH]; cbn [le_val length le_bytes]; [done|].
  pose proof (byte_val_range b). f_equal.
  - apply byte_val_inj. rewrite byte_val_of.
    rewrite (Z.mul_comm 256), Z.mod_add, Z.mod_small by lia. done.
  - rewrite (Z.mul_comm 256), Z.div_add, Z.div_small, Z.add_0_l by lia. done.
Qed.

(** [binary.BigEndian]: the high byte first. *)
Definition be_val (l : list byte) : Z := foldl (λ acc b, 256 * acc + byte_val b)%Z 0%Z l.

(** ** Strings

    Go strings are byte strings; [<] compares them byte by byte, which is
    [String.le] of stdpp. *)

Definition bytes (s : string) : list byte := String.list_byte_of_string s.
Definition string_of (l : list byte) : string := String.string_of_list_byte l.

Lemma string_of_bytes s : string_of (bytes s) = s.
Proof. apply String.string_of_list_byte_of_string. Qed.

Lemma bytes_string_of l : bytes (string_of l) = l.
Proof. apply String.list_byte_of_string_of_list_byte. Qed.

Lemma length_bytes s : length (bytes s) = String.length s.
Proof. unfold bytes. induction s; simpl; auto. Qed.

Lemma bytes_inj s1 s2 : bytes s1 = bytes s2 → s1 = s2.
Proof. intros H. by rewrite <-(string_of_bytes s1), H, string_of_bytes. Qed.

Definition str_lt (s1 s2 : string) : Prop := String.le s1 s2 ∧ s1 ≠ s2.

#[global] Instance str_lt_dec : RelDecision str_lt.
Proof. intros s1 s2. unfold str_lt. apply _. Defined.

#[global] Instance str_lt_trans : Transitive str_lt.
Proof.
  intros a b c [Hab Hne1] [Hbc Hne2]. split; [by transitivity b|].
  intros ->. apply Hne1. by apply (anti_symm String.le).
Qed.

#[global] Instance str_lt_irrefl : Irreflexive str_lt.
Proof. intros a [_ Hne]. done. Qed.

Lemma str_lt_le_trans a b c : str_lt a b → String.le b c → str_lt a c.
Proof.
  intros [Hab Hne] Hbc. split; [by transitivity b|].
  intros ->. apply Hne. by apply (anti_symm String.le).
Qed.

Lemma str_le_lt_trans a b c : String.le a b → str_lt b c → str_lt a c.
Proof.
  intros Hab [Hbc Hne]. split; [by transitivity b|].
  intros ->. apply Hne. by apply (anti_symm String.le).
Qed.

Lemma str_not_lt a b : ¬ str_lt a b ↔ String.le b a.
Proof.
  split.
  - intros Hn. destruct (total String.le a b) as [Hab|]; [|done].
    destruct (decide (a = b)) as [->|]; [done|]. by destruct Hn.
  - intros Hba [Hab Hne]. apply Hne. by apply (anti_symm String.le).
Qed.

Lemma str_lt_ne a b : str_lt a b → a ≠ b.
Proof. by intros [_ ?]. Qed.

Lemma str_lt_asym a b : str_lt a b → str_lt b a → False.
Proof. intros H1 H2. apply (str_lt_irrefl a). by transitivity b. Qed.

(** ** Ranging over a Go map

    Go visits the entries of a map in an unspecified order.  A definition that
    ranges over a map takes the order from an instance of [MapRange], so that a
    theorem about it holds for every order; [canonical_range] is one instance. *)

Class MapRange := {
  map_range {K} `{Countable K} {V} : gmap K V → list (K * V);
  map_range_perm {K} `{Countable K} {V} (m : gmap K V) : map_range m ≡ₚ map_to_list m;
}.

#[global] Instance canonical_range : MapRange | 100.
Proof.
  refine {| map_range K _ _ V m := map_to_list m |}. done.
Defined.

Section map_range.
Context `{MapRange}.
Context {K} `{Countable K} {V : Type}.
Implicit Types (m : gmap K V) (k : K) (v : V).

Lemma elem_of_map_range m k v : (k, v) ∈ map_range m ↔ m !! k = Some v.
Proof. rewrite map_range_perm. apply elem_of_map_to_list. Qed.

Lemma NoDup_map_range m : NoDup (map_range m).*1.
Proof. rewrite map_range_perm. apply NoDup_fst_map_to_list. Qed.

Lemma list_to_map_range m : list_to_map (map_range m) = m.
Proof.
  rewrite <-(list_to_map_to_list m) at 2.
  apply list_to_map_proper; [apply NoDup_map_range|apply map_range_perm].
Qed.

Lemma length_map_range m : length (map_range m) = size m.
Proof. rewrite map_range_perm. apply length_map_to_list. Qed.
End map_range.

(** ** Automation *)

Create HintDb pairdb discriminated.
#[export] Hint Resolve u64_range u32_range byte_val_range : pairdb.
#[export] Hint Resolve str_lt_ne : pairdb.

(** Case analysis on every [if], [match] and [bool_decide] in sight. *)
Ltac cases :=
  repeat (case_match || case_bool_decide || case_decide); simplify_eq/=.

(** ** Lists *)

Section lists.
Context {A : Type}.
Implicit Types (l : list A) (x : A).

(** The elements of [l] up to and excluding the first that fails [P]. *)
Fixpoint take_while (P : A → bool) l : list A :=
  match l with
  | [] => []
  | x :: l => if P x then x :: take_while P l else []
  end.

Fixpoint drop_while (P : A → bool) l : list A :=
  match l with
  | [] => []
  | x :: l => if P x then drop_while P l else x :: l
  end.

Lemma take_drop_while P l : take_while P l ++ drop_while P l = l.
Proof. induction l as [|x l IH]; simpl; [done|]. destruct (P x); simpl; by rewrite ?IH. Qed.

Lemma take_while_Forall P l : Forall (λ x, P x = true) (take_while P l).
Proof. induction l as [|x l IH]; simpl; [done|]. destruct (P x) eqn:?; auto. Qed.

Lemma drop_while_head P l x l' : drop_while P l = x :: l' → P x = false.
Proof. induction l as [|y l IH]; simpl; [done|]. destruct (P y) eqn:?; naive_solver. Qed.

Lemma drop_while_all P l : Forall (λ x, P x = true) l → drop_while P l = [].
Proof. induction 1 as [|x l Hx _ IH]; simpl; [done|]. by rewrite Hx. Qed.

Lemma StronglySorted_lookup_lt (R : relation A) l i j x y :
  StronglySorted R l → i < j → l !! i = Some x → l !! j = Some y → R x y.
Proof.
  intros Hs. revert i j. induction Hs as [|z l _ IH Hall]; intros i j Hij Hi Hj; [done|].
  destruct i as [|i], j as [|j]; try lia; simplify_eq/=.
  - rewrite Forall_lookup in Hall. eauto.
  - apply (IH i j); [lia|done|done].
Qed.

Lemma StronglySorted_filter (R : relation A) (P : A → Prop) `{!∀ x, Decision (P x)} l :
  StronglySorted R l → StronglySorted R (filter P l).
Proof.
  induction 1 as [|x l _ IH Hall]; [constructor|]. rewrite filter_cons. case_decide; [|done].
  constructor; [done|]. rewrite Forall_forall in Hall |- *. intros y [_ Hy]%list_elem_of_filter. auto.
Qed.

Lemma StronglySorted_snoc (R : relation A) l x :
  StronglySorted R l → Forall (λ y, R y x) l → StronglySorted R (l ++ [x]).
Proof.
  induction 1 as [|y l _ IH Hall]; intros Hx; simpl; [by repeat constructor|].
  apply Forall_cons in Hx as [Hy Hx]. constructor; [by apply IH|]. apply Forall_app. by repeat constructor.
Qed.

Lemma filter_all (P : A → Prop) `{!∀ x, Decision (P x)} l : Forall P l → filter P l = l.
Proof. induction 1 as [|x l Hx _ IH]; [done|]. by rewrite filter_cons_True, IH. Qed.

Lemma filter_none (P : A → Prop) `{!∀ x, Decision (P x)} l :
  Forall (λ x, ¬ P x) l → filter P l = [].
Proof. induction 1 as [|x l Hx _ IH]; [done|]. by rewrite filter_cons_False, IH. Qed.

Lemma filter_nil_inv (P : A → Prop) `{!∀ x, Decision (P x)} l :
  filter P l = [] → Forall (λ x, ¬ P x) l.
Proof.
  induction l as [|x l IH]; [done|]. rewrite filter_cons. case_decide; [done|]. constructor; auto.
Qed.

(** A counting loop. *)
Lemma foldl_count (f : A → bool) l :
  foldl (λ n x, if f x then n + 1 else n)%Z 0%Z l = Z.of_nat (length (filter (λ x, f x = true) l)).
Proof.
  assert (∀ n, foldl (λ n x, if f x then n + 1 else n)%Z n l = (n + Z.of_nat (length (filter (λ x, f x = true) l)))%Z)
    as Hgen; [|by rewrite Hgen].
  induction l as [|x l IH]; intros n; simpl; [lia|].
  rewrite IH, filter_cons. destruct (f x); case_decide; simpl; try done; lia.
Qed.

(** A filter on images is a filter on the arguments. *)
Lemma filter_fmap_iff {B} (f : A → B) (P : B → Prop) (Q : A → Prop)
    `{!∀ y : B, Decision (P y), !∀ x, Decision (Q x)} l :
  Forall (λ x, P (f x) ↔ Q x) l → filter P (f <$> l) = f <$> filter Q l.
Proof.
  induction 1 as [|x l Hx _ IH]; [done|]. rewrite fmap_cons, !filter_cons.
  do 2 case_decide; rewrite ?fmap_cons, ?IH; naive_solver.
Qed.
End lists.

(** ** Decimal numerals ([%d]) *)

Definition is_digit (b : byte) : Prop := (48 ≤ byte_val b ≤ 57)%Z.

#[global] Instance is_digit_dec b : Decision (is_digit b).
Proof. unfold is_digit. apply _. Defined.

Lemma bytes_app s1 s2 : bytes (s1 +:+ s2) = bytes s1 ++ bytes s2.
Proof.
  induction s1 as [|a s1 IH]; [done|].
  change (bytes (String a (s1 +:+ s2)) = Ascii.byte_of_ascii a :: bytes s1 ++ bytes s2).
  by rewrite <-IH.
Qed.

Lemma pretty_N_go_digits x s :
  Forall is_digit (bytes s) → Forall is_digit (bytes (pretty_N_go x s)).
Proof.
  revert s. induction (N.lt_wf_0 x) as [x _ IH]; intros s Hs.
  destruct (decide (x = 0%N)) as [->|Hx]; [by rewrite pretty_N_go_0|].
  rewrite pretty_N_go_step by lia. apply IH; [apply N.div_lt; lia|].
  unfold bytes. simpl. constructor; [|done].
  unfold pretty_N_char. by repeat case_match.
Qed.

Lemma pretty_nat_digits (n : nat) : Forall is_digit (bytes (pretty n)).
Proof.
  unfold pretty, pretty_nat, pretty, pretty_N. case_decide; [by repeat constructor|].
  apply pretty_N_go_digits. constructor.
Qed.

(** ** Loops whose body may panic *)

Fixpoint foldM {A B} (f : B → A → option B) (acc : B) (l : list A) : option B :=
  match l with
  | [] => Some acc
  | x :: l => f acc x ≫= λ acc, foldM f acc l
  end.

Lemma foldM_app {A B} (f : B → A → option B) acc l1 l2 :
  foldM f acc (l1 ++ l2) = foldM f acc l1 ≫= λ acc, foldM f acc l2.
Proof. revert acc. induction l1 as [|x l1 IH]; intros acc; simpl; [done|]. destruct (f acc x); simpl; auto. Qed.

(** A loop whose body never panics is a fold of what the body computes. *)
Lemma foldM_total {A B C} (f : B → A → option B) (g : B → C → B) (R : A → C → Prop) acc l l' :
  (∀ acc x y, R x y → f acc x = Some (g acc y)) → Forall2 R l l' →
  foldM f acc l = Some (foldl g acc l').
Proof.
  intros Hf Hall. revert acc. induction Hall as [|x y l l' Hxy _ IH]; intros acc; simpl; [done|].
  rewrite (Hf _ _ _ Hxy). apply IH.
Qed.

(** An invariant of a loop whose body keeps it and does not panic. *)
Lemma foldM_inv {A B} (f : B → A → option B) (I : B → Prop) acc l :
  (∀ acc x, x ∈ l → I acc → ∃ acc', f acc x = Some acc' ∧ I acc') → I acc →
  ∃ acc', foldM f acc l = Some acc' ∧ I acc'.
Proof.
  intros Hf. revert acc. induction l as [|x l IH]; intros acc HI; simpl; [by exists acc|].
  destruct (Hf acc x ltac:(left) HI) as (acc1 & -> & HI1). simpl.
  apply IH; [|done]. intros acc2 y Hy. apply Hf. by right.
Qed.

Lemma StronglySorted_NoDup {A} (R : relation A) `{!Irreflexive R} (l : list A) : StronglySorted R l → NoDup l.
Proof.
  induction 1 as [|x l _ IH Hall]; constructor; [|done].
  intros Hin. rewrite Forall_forall in Hall. by apply (irreflexivity R x), Hall.
Qed.

Lemma sorted_keys_NoDup (ks : list string) : StronglySorted str_lt ks → NoDup ks.
Proof. apply StronglySorted_NoDup, _. Qed.

Lemma NoDup_fmap_elem {A B} (f : A → B) (l : list A) x y :
  NoDup (f <$> l) → x ∈ l → y ∈ l → f x = f y → x = y.
Proof.
  intros Hnd (i & Hi)%list_elem_of_lookup (j & Hj)%list_elem_of_lookup Heq.
  assert (i = j) as ->; [|congruence].
  eapply (NoDup_lookup (f <$> l) i j (f x)); [done|by rewrite list_lookup_fmap, Hi|].
  by rewrite list_lookup_fmap, Hj, Heq.
Qed.
