(* ===== verification/GoHash.v ===== *)
(** * The hash functions of Go's standard library that PairDB uses

    [crypto/sha256] (the hash ring and the storage node's key hash),
    [hash/crc32] with the IEEE polynomial (the checksums of the commit log and
    the SSTables) and [hash/fnv] in its 64-bit FNV-1 variant (the Bloom
    filter).  All three are executable, and checked against published test
    vectors at the end of the file. *)

From S2P Require Import Prelude.
#[local] Open Scope Z_scope.

(** ** CRC-32, IEEE polynomial, reflected

    [crc32.Update] keeps the register complemented; the table of
    [crc32.MakeTable] holds [crc_byte 0 i], and the table-driven update
    [tab[byte(crc) ^ v] ^ (crc >> 8)] is eight steps of the bit-serial register. *)

Definition crc_poly : Z := 0xedb88320.

Definition crc_bit (s : Z) : Z :=
  if Z.odd s then Z.lxor (Z.shiftr s 1) crc_poly else Z.shiftr s 1.

Definition crc_byte (s : Z) (b : byte) : Z :=
  Nat.iter 8 crc_bit (Z.lxor s (byte_val b)).

Definition crc_not (s : Z) : Z := Z.lxor s 0xffffffff.

Definition crc32 (l : list byte) : Z := crc_not (foldl crc_byte 0xffffffff l).

(** ** FNV-1, 64 bits *)

Definition fnv_offset64 : Z := 14695981039346656037.
Definition fnv_prime64 : Z := 1099511628211.

Definition fnv64 (l : list byte) : Z :=
  foldl (λ h b, Z.lxor (u64 (h * fnv_prime64)) (byte_val b)) fnv_offset64 l.

(** ** SHA-256 *)

Definition rotr32 (x : Z) (n : Z) : Z :=
  Z.lor (Z.shiftr x n) (u32 (Z.shiftl x (32 - n))).

Definition sha_ssig0 x := Z.lxor (Z.lxor (rotr32 x 7) (rotr32 x 18)) (Z.shiftr x 3).
Definition sha_ssig1 x := Z.lxor (Z.lxor (rotr32 x 17) (rotr32 x 19)) (Z.shiftr x 10).
Definition sha_bsig0 x := Z.lxor (Z.lxor (rotr32 x 2) (rotr32 x 13)) (rotr32 x 22).
Definition sha_bsig1 x := Z.lxor (Z.lxor (rotr32 x 6) (rotr32 x 11)) (rotr32 x 25).
Definition sha_ch x y z := Z.lxor (Z.land x y) (Z.land (Z.lxor x 0xffffffff) z).
Definition sha_maj x y z := Z.lxor (Z.lxor (Z.land x y) (Z.land x z)) (Z.land y z).

(** The constants of the standard: the first 32 bits of the fractional parts of
    the cube roots of the first 64 primes (the 64th is 311), and of the square
    roots of the first eight. *)
Definition sha_primes : list Z :=
  filter (λ p, Forall (λ d, p mod d ≠ 0) (seqZ 2 (p - 2))) (seqZ 2 310).

(** The integer cube root of [n], for [n < 2 ^ 123], one bit at a time. *)
Definition cube_root (n : Z) : Z :=
  foldl (λ r b, let r' := r + 2 ^ b in if r' * r' * r' <=? n then r' else r) 0 (reverse (seqZ 0 41)).

Definition sha_k : list Z :=
  Eval vm_compute in ((λ p, u32 (cube_root (p * 2 ^ 96))) <$> sha_primes).

Definition sha_init : list Z :=
  Eval vm_compute in ((λ p, u32 (Z.sqrt (p * 2 ^ 64))) <$> take 8 sha_primes).

Fixpoint sha_words (l : list byte) : list Z :=
  match l with
  | a :: b :: c :: d :: l => be_val [a; b; c; d] :: sha_words l
  | _ => []
  end.

(** The message schedule, latest word first. *)
Definition sha_schedule (block : list Z) : list Z :=
  Nat.iter 48 (λ w,
    u32 (sha_ssig1 (nth 1 w 0) + nth 6 w 0 + sha_ssig0 (nth 14 w 0) + nth 15 w 0) :: w)
    (reverse block).

Definition sha_round (st : list Z) (kw : Z * Z) : list Z :=
  match st with
  | [a; b; c; d; e; f; g; h] =>
     let t1 := h + sha_bsig1 e + sha_ch e f g + kw.1 + kw.2 in
     let t2 := sha_bsig0 a + sha_maj a b c in
     [u32 (t1 + t2); a; b; c; u32 (d + t1); e; f; g]
  | _ => st
  end.

Definition sha_block (st : list Z) (block : list Z) : list Z :=
  zip_with (λ x y, u32 (x + y)) st
    (foldl sha_round st (zip sha_k (reverse (sha_schedule block)))).

Definition sha_pad (l : list byte) : list byte :=
  let n := Z.of_nat (length l) in
  l ++ [x80] ++ replicate (Z.to_nat ((55 - n) mod 64)) x00
    ++ reverse (le_bytes 8 (8 * n)).

Fixpoint sha_blocks (fuel : nat) (st : list Z) (words : list Z) : list Z :=
  match fuel, words with
  | S fuel, _ :: _ => sha_blocks fuel (sha_block st (take 16 words)) (drop 16 words)
  | _, _ => st
  end.

Definition sha256 (l : list byte) : list byte :=
  let words := sha_words (sha_pad l) in
  mjoin ((λ w, reverse (le_bytes 4 w)) <$> sha_blocks (length words) sha_init words).

Lemma crc32_check : crc32 (bytes "123456789") = 0xcbf43926.
Proof. vm_compute. reflexivity. Qed.

Lemma fnv64_check : fnv64 (bytes "a") = 0xaf63bd4c8601b7be.
Proof. vm_compute. reflexivity. Qed.

Lemma sha256_check :
  be_val (take 8 (sha256 (bytes "abc"))) = 0xba7816bf8f01cfea.
Proof. vm_compute. reflexivity. Qed.

Lemma sha256_check_two_blocks :
  be_val (sha256 (bytes "abcdbcdecdefdefgefghfghighijhijkijkljklmklmnlmnomnopnopq"))
  = 0x248d6a61d20638b8e5c026930c3e6039a33ce45964ff2167f6ecedd419db06c1.
Proof. vm_compute. reflexivity. Qed.
