(* ===== verification/Checksum.v ===== *)
(** * Checksums: [storage-node/internal/util/checksum.go]

    The four functions of the file over the CRC-32 of [GoHash], the round trip
    of [AppendChecksum] with [ValidateAndStripChecksum], and the error
    detection the commit log and the SSTables rely on: a change confined to
    four consecutive bytes always changes the checksum. *)

From S2P Require Import Prelude GoHash.
#[local] Open Scope Z_scope.

(** ** Definitions *)

Definition ComputeChecksum (data : list byte) : Z := crc32 data.

Definition ValidateChecksum (data : list byte) (expected : Z) : bool :=
  bool_decide (ComputeChecksum data = expected).

Definition AppendChecksum (data : list byte) : list byte :=
  let checksum := ComputeChecksum data in
  data ++ [byte_of checksum; byte_of (Z.shiftr checksum 8);
           byte_of (Z.shiftr checksum 16); byte_of (Z.shiftr checksum 24)].

(** [nil] for the data of a buffer that is too short is the empty list here. *)
Definition ValidateAndStripChecksum (dataWithChecksum : list byte) : list byte * bool :=
  if decide (length dataWithChecksum < 4)%nat then ([], false)
  else
    let dataLen := (length dataWithChecksum - 4)%nat in
    let data := take dataLen dataWithChecksum in
    let at_ i := byte_val (nth (dataLen + i) dataWithChecksum x00) in
    let expectedChecksum :=
      Z.lor (Z.lor (Z.lor (at_ 0%nat) (u32 (Z.shiftl (at_ 1%nat) 8)))
                   (u32 (Z.shiftl (at_ 2%nat) 16)))
            (u32 (Z.shiftl (at_ 3%nat) 24)) in
    (data, ValidateChecksum data expectedChecksum).

(** ** The CRC register *)

Lemma testbit_small n x k : 0 ≤ x < 2 ^ n → n ≤ k → Z.testbit x k = false.
Proof.
  intros Hx Hk. destruct (decide (x = 0)) as [->|]; [apply Z.bits_0|].
  apply Z.bits_above_log2; [lia|].
  apply Z.lt_le_trans with n; [apply Z.log2_lt_pow2; lia|done].
Qed.

Lemma lxor_range n a b : 0 ≤ n → 0 ≤ a < 2 ^ n → 0 ≤ b < 2 ^ n → 0 ≤ Z.lxor a b < 2 ^ n.
Proof.
  intros Hn Ha Hb. split; [apply Z.lxor_nonneg; lia|].
  destruct (decide (Z.lxor a b = 0)) as [->|]; [lia|].
  apply Z.log2_lt_cancel. rewrite Z.log2_pow2 by done.
  destruct (decide (Z.log2 (Z.lxor a b) < n)); [done|].
  assert (0 < Z.lxor a b) by (pose proof (proj2 (Z.lxor_nonneg a b)); lia).
  pose proof (Z.bit_log2 (Z.lxor a b) ltac:(lia)) as Hbit.
  rewrite Z.lxor_spec, !(testbit_small n) in Hbit by lia. done.
Qed.

(** The bits of [x] below [n] and those of [y * 2 ^ n] do not meet. *)
Lemma land_disjoint n x y : 0 ≤ n → 0 ≤ x < 2 ^ n → Z.land x (y * 2 ^ n) = 0.
Proof.
  intros Hn Hx. apply Z.bits_inj'. intros k Hk. rewrite Z.land_spec, Z.bits_0.
  destruct (decide (k < n)).
  - rewrite Z.mul_pow2_bits_low by lia. apply andb_false_r.
  - rewrite (testbit_small n) by lia. done.
Qed.

Lemma crc_bit_range s : 0 ≤ s < 2 ^ 32 → 0 ≤ crc_bit s < 2 ^ 32.
Proof.
  intros Hs. unfold crc_bit.
  assert (0 ≤ Z.shiftr s 1 < 2 ^ 32) by (rewrite Z.shiftr_div_pow2 by lia; change (2 ^ 1) with 2; Z.to_euclidean_division_equations; lia).
  destruct (Z.odd s); [|done]. apply lxor_range; [lia|done|unfold crc_poly; lia].
Qed.

(** Bit 31 of the shifted register is the bit that was shifted out. *)
Lemma crc_bit_top s : 0 ≤ s < 2 ^ 32 → Z.testbit (crc_bit s) 31 = Z.odd s.
Proof.
  intros Hs. assert (Z.testbit (Z.shiftr s 1) 31 = false) as H31.
  { rewrite Z.shiftr_spec by lia. by apply (testbit_small 32). }
  unfold crc_bit. destruct (Z.odd s); [|done].
  rewrite Z.lxor_spec, H31. reflexivity.
Qed.

Lemma crc_bit_inj s1 s2 :
  0 ≤ s1 < 2 ^ 32 → 0 ≤ s2 < 2 ^ 32 → crc_bit s1 = crc_bit s2 → s1 = s2.
Proof.
  intros H1 H2 Heq.
  assert (Hodd : Z.odd s1 = Z.odd s2) by (rewrite <-!crc_bit_top by done; congruence).
  assert (Hsh : Z.shiftr s1 1 = Z.shiftr s2 1).
  { unfold crc_bit in Heq. rewrite Hodd in Heq. destruct (Z.odd s2); [|done].
    apply (f_equal (λ x, Z.lxor x crc_poly)) in Heq.
    by rewrite !Z.lxor_assoc, !Z.lxor_nilpotent, !Z.lxor_0_r in Heq. }
  rewrite !Z.shiftr_div_pow2 in Hsh by lia.
  rewrite (Z.div_mod s1 2), (Z.div_mod s2 2), !Zmod_odd, Hodd by lia.
  change (2 ^ 1) with 2 in Hsh. lia.
Qed.

Lemma crc_iter_range k s :
  0 ≤ s < 2 ^ 32 → 0 ≤ Nat.iter k crc_bit s < 2 ^ 32.
Proof. induction k; simpl; auto using crc_bit_range. Qed.

Lemma crc_iter_inj k s1 s2 :
  0 ≤ s1 < 2 ^ 32 → 0 ≤ s2 < 2 ^ 32 →
  Nat.iter k crc_bit s1 = Nat.iter k crc_bit s2 → s1 = s2.
Proof.
  intros H1 H2. induction k as [|k IH]; simpl; [done|].
  intros Heq. apply IH, crc_bit_inj; auto using crc_iter_range.
Qed.

(** Bits above the lowest pass through a step of the register unchanged. *)
Lemma crc_bit_high s x : crc_bit (Z.lxor s (2 * x)) = Z.lxor (crc_bit s) x.
Proof.
  unfold crc_bit.
  replace (Z.odd (Z.lxor s (2 * x))) with (Z.odd s).
  2:{ rewrite <-!Z.bit0_odd, Z.lxor_spec, Z.testbit_even_0. by destruct (Z.testbit s 0). }
  assert (Z.shiftr (Z.lxor s (2 * x)) 1 = Z.lxor (Z.shiftr s 1) x) as ->.
  { rewrite Z.shiftr_lxor. f_equal. rewrite Z.shiftr_div_pow2 by lia.
    rewrite Z.mul_comm. apply Z.div_mul. lia. }
  destruct (Z.odd s); [|done].
  rewrite !Z.lxor_assoc. f_equal. apply Z.lxor_comm.
Qed.

Lemma crc_iter_high k s x :
  Nat.iter k crc_bit (Z.lxor s (2 ^ Z.of_nat k * x)) = Z.lxor (Nat.iter k crc_bit s) x.
Proof.
  revert x. induction k as [|k IH]; intros x.
  - simpl. destruct x; reflexivity.
  - rewrite !Nat.iter_succ.
    replace (2 ^ Z.of_nat (S k) * x) with (2 ^ Z.of_nat k * (2 * x))
      by (rewrite Nat2Z.inj_succ, Z.pow_succ_r by lia; lia).
    rewrite IH. apply crc_bit_high.
Qed.

Lemma add_lxor_byte b x : byte_val b + 256 * x = Z.lxor (byte_val b) (256 * x).
Proof.
  rewrite (Z.mul_comm 256). change 256 with (2 ^ 8).
  apply Z.add_nocarry_lxor, land_disjoint; [lia|apply byte_val_range].
Qed.

(** Feeding bytes one by one is feeding their bits at once. *)
Lemma crc_fold s l :
  foldl crc_byte s l = Nat.iter (8 * length l) crc_bit (Z.lxor s (le_val l)).
Proof.
  revert s. induction l as [|b l IH]; intros s; cbn [foldl le_val length].
  - by rewrite Z.lxor_0_r.
  - rewrite IH. unfold crc_byte.
    rewrite add_lxor_byte, <-Z.lxor_assoc.
    change 256 with (2 ^ Z.of_nat 8).
    replace (8 * S (length l))%nat with (8 * length l + 8)%nat by lia.
    rewrite Nat.iter_add. by rewrite crc_iter_high.
Qed.

Lemma crc_fold_range s l : 0 ≤ s < 2 ^ 32 → 0 ≤ foldl crc_byte s l < 2 ^ 32.
Proof.
  revert s. induction l as [|b l IH]; intros s Hs; cbn [foldl]; [done|].
  apply IH. apply crc_iter_range, lxor_range; [lia|done|].
  pose proof (byte_val_range b). lia.
Qed.

Lemma crc32_range l : 0 ≤ crc32 l < 2 ^ 32.
Proof. apply lxor_range; [lia|apply crc_fold_range; lia|lia]. Qed.

Lemma le_val_inj l1 l2 : length l1 = length l2 → le_val l1 = le_val l2 → l1 = l2.
Proof. intros Hl Hv. by rewrite <-(le_bytes_val l1), <-(le_bytes_val l2), Hl, Hv. Qed.

Lemma lxor_cancel_l a b c : Z.lxor a b = Z.lxor a c → b = c.
Proof.
  intros H. apply (f_equal (Z.lxor a)) in H.
  by rewrite <-!Z.lxor_assoc, !Z.lxor_nilpotent, !Z.lxor_0_l in H.
Qed.

(** A burst of at most four bytes leaves different registers different. *)
Lemma crc_fold_burst s l1 l2 :
  0 ≤ s < 2 ^ 32 → length l1 = length l2 → (length l1 ≤ 4)%nat →
  foldl crc_byte s l1 = foldl crc_byte s l2 → l1 = l2.
Proof.
  intros Hs Hlen H4. rewrite !crc_fold, <-Hlen. intros Heq.
  apply le_val_inj; [done|]. apply (lxor_cancel_l s).
  assert (Hr : ∀ l, (length l ≤ 4)%nat → 0 ≤ Z.lxor s (le_val l) < 2 ^ 32).
  { intros l Hl. apply lxor_range; [lia|done|].
    pose proof (le_val_range l) as [? Hlt]. split; [done|].
    eapply Z.lt_le_trans; [done|]. replace (2 ^ 32) with (256 ^ 4) by done.
    apply Z.pow_le_mono_r; lia. }
  eapply crc_iter_inj; [..|done]; apply Hr; lia.
Qed.

Lemma crc_fold_inj_state s1 s2 l :
  0 ≤ s1 < 2 ^ 32 → 0 ≤ s2 < 2 ^ 32 →
  foldl crc_byte s1 l = foldl crc_byte s2 l → s1 = s2.
Proof.
  revert s1 s2. induction l as [|b l IH]; intros s1 s2 H1 H2; cbn [foldl]; [done|].
  pose proof (byte_val_range b).
  intros Heq%IH; [|by apply crc_iter_range, lxor_range; lia..].
  apply crc_iter_inj in Heq; [|by apply lxor_range; lia..].
  rewrite !(Z.lxor_comm _ (byte_val b)) in Heq. by apply lxor_cancel_l in Heq.
Qed.

Lemma crc32_burst pre post l1 l2 :
  length l1 = length l2 → (length l1 ≤ 4)%nat →
  crc32 (pre ++ l1 ++ post) = crc32 (pre ++ l2 ++ post) → l1 = l2.
Proof.
  intros Hlen H4. unfold crc32, crc_not. rewrite !(Z.lxor_comm _ 0xffffffff).
  intros Heq%lxor_cancel_l. rewrite !foldl_app in Heq.
  assert (0 ≤ foldl crc_byte 0xffffffff pre < 2 ^ 32) by (apply crc_fold_range; lia).
  apply crc_fold_inj_state in Heq; [|by apply crc_fold_range..].
  by apply crc_fold_burst in Heq.
Qed.

#[global] Opaque crc32.

(** ** Appended checksums *)

Lemma shiftr_le_bytes z :
  [byte_of z; byte_of (Z.shiftr z 8); byte_of (Z.shiftr z 16); byte_of (Z.shiftr z 24)]
  = le_bytes 4 z.
Proof.
  rewrite !Z.shiftr_div_pow2 by lia. cbn [le_bytes].
  rewrite !Z.div_div by lia. reflexivity.
Qed.

Lemma AppendChecksum_le data :
  AppendChecksum data = data ++ le_bytes 4 (ComputeChecksum data).
Proof. unfold AppendChecksum. by rewrite shiftr_le_bytes. Qed.

Lemma lor_shl_add b n x :
  0 ≤ n → n + 8 ≤ 32 → 0 ≤ x < 2 ^ n →
  Z.lor x (u32 (Z.shiftl (byte_val b) n)) = x + byte_val b * 2 ^ n.
Proof.
  intros Hn H32 Hx. pose proof (byte_val_range b).
  rewrite Z.shiftl_mul_pow2 by lia. unfold u32. rewrite Z.mod_small.
  2:{ split; [nia|]. apply Z.lt_le_trans with (2 ^ 8 * 2 ^ n); [nia|].
      rewrite <-Z.pow_add_r by lia. apply Z.pow_le_mono_r; lia. }
  rewrite <-Z.lxor_lor by by apply land_disjoint.
  symmetry. by apply Z.add_nocarry_lxor, land_disjoint.
Qed.

Lemma lor_le_val a b c d :
  Z.lor (Z.lor (Z.lor (byte_val a) (u32 (Z.shiftl (byte_val b) 8)))
               (u32 (Z.shiftl (byte_val c) 16)))
        (u32 (Z.shiftl (byte_val d) 24))
  = le_val [a; b; c; d].
Proof.
  pose proof (byte_val_range a). pose proof (byte_val_range b).
  pose proof (byte_val_range c). pose proof (byte_val_range d).
  rewrite (lor_shl_add b 8), (lor_shl_add c 16), (lor_shl_add d 24) by lia. cbn [le_val]. lia.
Qed.

Lemma ValidateAndStripChecksum_app data tl :
  length tl = 4%nat →
  ValidateAndStripChecksum (data ++ tl) = (data, ValidateChecksum data (le_val tl)).
Proof.
  destruct tl as [|a [|b [|c [|d [|]]]]]; intros [=].
  unfold ValidateAndStripChecksum. rewrite length_app. cbn [length].
  rewrite decide_False by lia.
  replace (length data + 4 - 4)%nat with (length data) by lia.
  rewrite take_app_length, !app_nth2 by lia.
  replace (length data + 0 - length data)%nat with 0%nat by lia.
  replace (length data + 1 - length data)%nat with 1%nat by lia.
  replace (length data + 2 - length data)%nat with 2%nat by lia.
  replace (length data + 3 - length data)%nat with 3%nat by lia.
  cbn [nth]. by rewrite lor_le_val.
Qed.

Lemma le_bytes_inj n z1 z2 :
  0 ≤ z1 < 256 ^ Z.of_nat n → 0 ≤ z2 < 256 ^ Z.of_nat n →
  le_bytes n z1 = le_bytes n z2 → z1 = z2.
Proof.
  intros H1 H2 Heq%(f_equal le_val). by rewrite !le_val_bytes, !Z.mod_small in Heq.
Qed.

(** the checksum of a buffer is accepted exactly when the buffer is one
    that [AppendChecksum] produced, and the data comes back unchanged. *)
Theorem checksum_strip_iff buf data :
  ValidateAndStripChecksum buf = (data, true) ↔ buf = AppendChecksum data.
Proof.
  rewrite AppendChecksum_le. split.
  - destruct (decide (length buf < 4)%nat) as [|Hlen].
    { unfold ValidateAndStripChecksum. by rewrite decide_True. }
    rewrite <-(take_drop (length buf - 4) buf) at 1.
    rewrite ValidateAndStripChecksum_app by (rewrite length_drop; lia).
    intros [= <- Hv%bool_decide_eq_true].
    rewrite <-(take_drop (length buf - 4) buf) at 1. f_equal.
    rewrite Hv. symmetry.
    replace 4%nat with (length (drop (length buf - 4) buf)) at 1
      by (rewrite length_drop; lia).
    apply le_bytes_val.
  - intros ->. rewrite ValidateAndStripChecksum_app by apply length_le_bytes.
    f_equal. apply bool_decide_eq_true. rewrite le_val_bytes.
    symmetry. apply Z.mod_small, crc32_range.
Qed.

(** C22: overwriting up to four consecutive bytes of the data under an appended
    checksum with different ones is always detected. *)
Theorem checksum_detects_burst pre old new post :
  length new = length old → (length old ≤ 4)%nat → new ≠ old →
  ValidateAndStripChecksum
    (pre ++ new ++ post ++ le_bytes 4 (ComputeChecksum (pre ++ old ++ post)))
  = (pre ++ new ++ post, false).
Proof.
  intros Hlen H4 Hne. rewrite !app_assoc.
  rewrite ValidateAndStripChecksum_app by apply length_le_bytes.
  rewrite <-!app_assoc. f_equal. apply bool_decide_eq_false.
  rewrite le_val_bytes, Z.mod_small by apply crc32_range.
  intros Heq. apply Hne. by apply (crc32_burst pre post); [..|lia|].
Qed.

Lemma checksum_detects_burst_witness :
  ValidateAndStripChecksum
    ([x01] ++ [x02; x03] ++ [x04] ++ le_bytes 4 (ComputeChecksum ([x01] ++ [x02; x05] ++ [x04])))
  = ([x01] ++ [x02; x03] ++ [x04], false).
Proof.
  apply (checksum_detects_burst [x01] [x02; x05] [x02; x03] [x04]); [done|simpl; lia|done].
Defined.
