(* ===== verification/Bloom.v ===== *)
(** * The Bloom filter: [storage-node/internal/storage/sstable/bloom_filter.go]

    [Add], [MayContain] and [getHashes] with their wrap-around arithmetic on
    uint64, and the packed file format of [WriteTo] and [LoadBloomFilter].
    [None] is a run-time panic (a division by zero or an index out of range). *)

From S2P Require Import Prelude GoHash Checksum.
#[local] Open Scope Z_scope.

(** ** Definitions *)

Record BloomFilter := mkBloomFilter {
  bits : list bool;
  size : Z;
  hashCount : Z;
}.

(** The optimal size and hash count are computed with floating-point logarithms:
    the two converted results are the arguments here. *)
Definition NewBloomFilter (size hashCount : Z) : BloomFilter :=
  mkBloomFilter (replicate (Z.to_nat size) false) size
    (if decide (hashCount = 0) then 1 else hashCount).

Definition getHashes (bf : BloomFilter) (key : string) : list Z :=
  let hash1 := fnv64 (bytes key) in
  let hash2 := fnv64 (bytes (key +:+ "salt")) in
  (λ i, u64 (hash1 + u64 (Z.of_nat i * hash2))) <$> seq 0 (Z.to_nat (hashCount bf)).

(** The index expression [hash % bf.size]: it panics for size 0. *)
Definition slot (bf : BloomFilter) (hash : Z) : option nat :=
  if decide (size bf = 0) then None
  else
    let i := Z.to_nat (hash mod size bf) in
    if decide (i < length (bits bf))%nat then Some i else None.

Definition set_slot (bf : BloomFilter) (hash : Z) : option BloomFilter :=
  i ← slot bf hash;
  Some (mkBloomFilter (<[i := true]> (bits bf)) (size bf) (hashCount bf)).

Definition Add (bf : BloomFilter) (key : string) : option BloomFilter :=
  foldl (λ acc hash, acc ≫= λ bf, set_slot bf hash) (Some bf) (getHashes bf key).

Fixpoint all_set (bf : BloomFilter) (hashes : list Z) : option bool :=
  match hashes with
  | [] => Some true
  | hash :: hashes =>
     i ← slot bf hash;
     if nth i (bits bf) false then all_set bf hashes else Some false
  end.

Definition MayContain (bf : BloomFilter) (key : string) : option bool :=
  all_set bf (getHashes bf key).

Definition byte_count (size : Z) : nat := Z.to_nat (u64 (size + 7) / 8).

(** [bytes[i/8] |= 1 << (i%8)] for every set bit [i]. *)
Definition pack_step (bs : list bool) (packed : list byte) (i : nat) : list byte :=
  if nth i bs false
  then alter (λ b, byte_of (Z.lor (byte_val b) (Z.shiftl 1 (Z.of_nat (i mod 8))))) (i / 8)%nat packed
  else packed.

Definition pack (bs : list bool) (size : Z) : list byte :=
  foldl (pack_step bs) (replicate (byte_count size) x00) (seq 0 (Z.to_nat size)).

(** The bytes [WriteTo] appends to the file. *)
Definition WriteTo (bf : BloomFilter) : list byte :=
  le_bytes 8 (size bf) ++ le_bytes 8 (hashCount bf) ++ pack (bits bf) (size bf).

Definition unpack (packed : list byte) (size : Z) : list bool :=
  (λ i, bool_decide (Z.land (byte_val (nth (i / 8)%nat packed x00))
                            (Z.shiftl 1 (Z.of_nat (i mod 8))) ≠ 0))
  <$> seq 0 (Z.to_nat size).

(** Reading the file's contents; [None] is a short read. *)
Definition LoadBloomFilter (file : list byte) : option BloomFilter :=
  if decide (length file < 16)%nat then None
  else
    let size := le_val (take 8 file) in
    let hashCount := le_val (take 8 (drop 8 file)) in
    let packed := drop 16 file in
    if decide (length packed < byte_count size)%nat then None
    else Some (mkBloomFilter (unpack packed size) size hashCount).

(** ** Well-formed filters *)

Record bloom_wf (bf : BloomFilter) : Prop := {
  wf_bits : length (bits bf) = Z.to_nat (size bf);
  wf_size : 0 < size bf < 2 ^ 63;
  wf_hashCount : 0 ≤ hashCount bf < 2 ^ 64;
}.

(** Every bit set in the first filter is set in the second. *)
Definition bits_le (bf bf' : BloomFilter) : Prop :=
  size bf' = size bf ∧ hashCount bf' = hashCount bf ∧
  ∀ i, nth i (bits bf) false = true → nth i (bits bf') false = true.

#[global] Instance bits_le_refl : Reflexive bits_le.
Proof. by intros bf. Qed.

#[global] Instance bits_le_trans : Transitive bits_le.
Proof.
  intros a b c (? & ? & Hab) (? & ? & Hbc).
  split; [congruence|]. split; [congruence|]. auto.
Qed.

Lemma NewBloomFilter_wf sz hc :
  0 < sz < 2 ^ 63 → 0 ≤ hc < 2 ^ 64 → bloom_wf (NewBloomFilter sz hc).
Proof.
  intros Hsz Hhc. split; simpl; [by rewrite length_replicate|done|].
  case_decide; lia.
Qed.

Lemma getHashes_congr bf bf' key : hashCount bf = hashCount bf' → getHashes bf key = getHashes bf' key.
Proof. unfold getHashes. by intros ->. Qed.

Lemma slot_wf bf hash :
  bloom_wf bf → slot bf hash = Some (Z.to_nat (hash mod size bf)) ∧
                (Z.to_nat (hash mod size bf) < length (bits bf))%nat.
Proof.
  intros [Hb Hs Hh]. unfold slot. rewrite decide_False by lia.
  pose proof (Z.mod_pos_bound hash (size bf) ltac:(lia)).
  assert (Z.to_nat (hash mod size bf) < length (bits bf))%nat by (rewrite Hb; lia).
  by rewrite decide_True.
Qed.

Lemma nth_insert {A} (l : list A) i j x d :
  (i < length l)%nat → nth j (<[i := x]> l) d = if decide (i = j) then x else nth j l d.
Proof.
  intros Hi. rewrite !nth_lookup. case_decide; subst.
  - by rewrite list_lookup_insert_eq.
  - by rewrite list_lookup_insert_ne.
Qed.

Lemma set_slot_spec bf hash :
  bloom_wf bf → ∃ bf', set_slot bf hash = Some bf' ∧ bloom_wf bf' ∧ bits_le bf bf' ∧
    nth (Z.to_nat (hash mod size bf)) (bits bf') false = true.
Proof.
  intros Hwf. destruct (slot_wf bf hash Hwf) as [Hslot Hlt].
  unfold set_slot. rewrite Hslot. simpl. eexists. split; [done|].
  destruct Hwf as [Hb Hs Hh]. split_and!; simpl.
  - split; simpl; [by rewrite length_insert|done|done].
  - split; [done|]. split; [done|]. intros i Hi. simpl. rewrite nth_insert by done.
    by case_decide.
  - rewrite nth_insert by done. by rewrite decide_True.
Qed.

Lemma add_loop_spec bf hashes :
  bloom_wf bf →
  ∃ bf', foldl (λ acc hash, acc ≫= λ bf, set_slot bf hash) (Some bf) hashes = Some bf' ∧
    bloom_wf bf' ∧ bits_le bf bf' ∧
    Forall (λ hash, nth (Z.to_nat (hash mod size bf)) (bits bf') false = true) hashes.
Proof.
  revert bf. induction hashes as [|h hs IH]; intros bf Hwf; simpl.
  - eauto using bits_le_refl.
  - destruct (set_slot_spec bf h Hwf) as (bf1 & -> & Hwf1 & Hle1 & Hset).
    simpl. destruct (IH bf1 Hwf1) as (bf2 & -> & Hwf2 & Hle2 & Hall).
    exists bf2. destruct Hle1 as (Hs1 & Hc1 & Hb1). destruct Hle2 as (Hs2 & Hc2 & Hb2).
    split_and!; [done|done| |].
    + split; [congruence|]. split; [congruence|]. auto.
    + rewrite Hs1 in Hall. constructor; auto.
Qed.

Lemma Add_spec bf key :
  bloom_wf bf → ∃ bf', Add bf key = Some bf' ∧ bloom_wf bf' ∧ bits_le bf bf' ∧
    MayContain bf' key = Some true.
Proof.
  intros Hwf. destruct (add_loop_spec bf (getHashes bf key) Hwf)
    as (bf' & Hadd & Hwf' & Hle & Hall).
  exists bf'. split_and!; [done|done|done|]. destruct Hle as (Hs & Hc & _).
  unfold MayContain. rewrite (getHashes_congr bf' bf) by done.
  rewrite <-Hs in Hall. clear Hadd. induction Hall as [|h hs Hh _ IH]; simpl; [done|].
  destruct (slot_wf bf' h Hwf') as [-> _]. simpl. by rewrite Hh.
Qed.

Lemma MayContain_mono bf bf' key :
  bloom_wf bf → bloom_wf bf' → bits_le bf bf' →
  MayContain bf key = Some true → MayContain bf' key = Some true.
Proof.
  intros Hwf Hwf' (Hs & Hc & Hb). unfold MayContain.
  rewrite (getHashes_congr bf' bf) by done.
  induction (getHashes bf key) as [|h hs IH]; simpl; [done|].
  destruct (slot_wf bf h Hwf) as [-> _]. destruct (slot_wf bf' h Hwf') as [-> _]. simpl.
  rewrite Hs. destruct (nth (Z.to_nat (h mod size bf)) (bits bf) false) eqn:Hn; [|done].
  by rewrite (Hb _ Hn).
Qed.

Lemma MayContain_total bf key : bloom_wf bf → is_Some (MayContain bf key).
Proof.
  intros Hwf. unfold MayContain. induction (getHashes bf key) as [|h hs IH]; simpl; [done|].
  destruct (slot_wf bf h Hwf) as [-> _]. simpl. by destruct (nth _ _ _).
Qed.

(** ** The packed format *)

Definition packed_bit (packed : list byte) (i : nat) : bool :=
  Z.testbit (byte_val (nth (i / 8)%nat packed x00)) (Z.of_nat (i mod 8)).

Lemma land_bit_testbit x n :
  0 ≤ n → bool_decide (Z.land x (Z.shiftl 1 n) ≠ 0) = Z.testbit x n.
Proof.
  intros Hn. rewrite Z.shiftl_1_l.
  destruct (Z.testbit x n) eqn:Hx.
  - apply bool_decide_eq_true. intros Hz. apply (f_equal (λ z, Z.testbit z n)) in Hz.
    rewrite Z.land_spec, Hx, Z.pow2_bits_true, Z.bits_0 in Hz by done. done.
  - apply bool_decide_eq_false. intros Hz. apply Hz. apply Z.bits_inj'. intros k Hk.
    rewrite Z.land_spec, Z.bits_0, Z.pow2_bits_eqb by done.
    destruct (Z.eqb_spec n k) as [<-|]; [by rewrite Hx|apply andb_false_r].
Qed.

Lemma unpack_packed_bit packed sz :
  unpack packed sz = packed_bit packed <$> seq 0 (Z.to_nat sz).
Proof.
  apply list_fmap_ext. intros i j _. rewrite land_bit_testbit by lia. done.
Qed.

Lemma or_bit_testbit b n k :
  0 ≤ n < 8 → 0 ≤ k < 8 →
  Z.testbit (byte_val (byte_of (Z.lor (byte_val b) (Z.shiftl 1 n)))) k
  = Z.testbit (byte_val b) k || bool_decide (n = k).
Proof.
  intros Hn Hk. rewrite byte_val_of. change 256 with (2 ^ 8).
  rewrite Z.mod_pow2_bits_low, Z.lor_spec, Z.shiftl_1_l, Z.pow2_bits_eqb by lia.
  f_equal. destruct (Z.eqb_spec n k); symmetry;
    [by apply bool_decide_eq_true|by apply bool_decide_eq_false].
Qed.

Lemma div_mod_8_inj i j : (i / 8 = j / 8 → i mod 8 = j mod 8 → i = j)%nat.
Proof. intros. rewrite (Nat.div_mod_eq i 8), (Nat.div_mod_eq j 8). lia. Qed.

Lemma length_pack_step bs packed i : length (pack_step bs packed i) = length packed.
Proof. unfold pack_step. destruct (nth i bs false); [apply length_alter|done]. Qed.

Lemma pack_step_bit bs packed i j :
  (i / 8 < length packed)%nat →
  packed_bit (pack_step bs packed i) j
  = packed_bit packed j || (bool_decide (i = j) && nth i bs false).
Proof.
  intros Hi. unfold pack_step, packed_bit.
  destruct (nth i bs false) eqn:Hn; [|by rewrite andb_false_r, orb_false_r].
  rewrite andb_true_r, !nth_lookup.
  destruct (decide (i / 8 = j / 8)%nat) as [Hd|Hd].
  - rewrite <-Hd, list_lookup_alter_eq.
    destruct (lookup_lt_is_Some_2 packed (i / 8) Hi) as [b Hb]. rewrite Hb. simpl.
    pose proof (Nat.mod_upper_bound i 8). pose proof (Nat.mod_upper_bound j 8).
    rewrite or_bit_testbit by lia. f_equal.
    apply bool_decide_ext. split; [|by intros ->].
    intros Hm%Nat2Z.inj. by apply div_mod_8_inj.
  - rewrite list_lookup_alter_ne by done.
    rewrite bool_decide_eq_false_2 by congruence. by rewrite orb_false_r.
Qed.

Lemma pack_loop_bit bs packed n j :
  (∀ i, i < n → i / 8 < length packed)%nat →
  packed_bit (foldl (pack_step bs) packed (seq 0 n)) j
  = packed_bit packed j || (bool_decide (j < n)%nat && nth j bs false).
Proof.
  intros Hlen. induction n as [|n IH].
  - simpl. by rewrite orb_false_r.
  - rewrite seq_S, foldl_app. cbn [foldl].
    assert (Hl : ∀ l p, length (foldl (pack_step bs) p l) = length p).
    { induction l; simpl; [done|]. intros p. by rewrite IHl, length_pack_step. }
    rewrite pack_step_bit by (rewrite Hl; apply Hlen; simpl; lia).
    rewrite IH by (intros; apply Hlen; lia). rewrite <-orb_assoc. f_equal. simpl.
    destruct (decide (n = j)) as [->|Hne].
    + rewrite bool_decide_eq_false_2, !bool_decide_eq_true_2 by lia. done.
    + rewrite (bool_decide_eq_false_2 (n = j)) by done.
      rewrite orb_false_r. f_equal. apply bool_decide_ext. lia.
Qed.

Lemma packed_bit_zeros n j : packed_bit (replicate n x00) j = false.
Proof.
  unfold packed_bit. rewrite nth_lookup.
  destruct (replicate n x00 !! (j / 8)%nat) as [b|] eqn:Hb; simpl.
  - apply lookup_replicate in Hb as [-> _]. apply Z.bits_0.
  - apply Z.bits_0.
Qed.

Lemma byte_count_spec sz :
  0 ≤ sz < 2 ^ 63 → Z.of_nat (byte_count sz) = (sz + 7) / 8.
Proof.
  intros. unfold byte_count. rewrite u64_small by lia.
  rewrite Z2Nat.id; [done|]. Z.to_euclidean_division_equations; lia.
Qed.

Lemma length_pack bs sz : length (pack bs sz) = byte_count sz.
Proof.
  unfold pack. assert (Hl : ∀ l p, length (foldl (pack_step bs) p l) = length p).
  { induction l; simpl; [done|]. intros p. by rewrite IHl, length_pack_step. }
  by rewrite Hl, length_replicate.
Qed.

Lemma unpack_pack bs sz :
  0 ≤ sz < 2 ^ 63 → length bs = Z.to_nat sz → unpack (pack bs sz) sz = bs.
Proof.
  intros Hsz Hlen. rewrite unpack_packed_bit. unfold pack.
  apply list_eq. intros i. rewrite list_lookup_fmap.
  destruct (decide (i < Z.to_nat sz)%nat) as [Hi|Hi].
  - rewrite lookup_seq_lt by done. simpl. rewrite pack_loop_bit.
    + rewrite packed_bit_zeros, bool_decide_eq_true_2 by done. simpl.
      rewrite nth_lookup. destruct (lookup_lt_is_Some_2 bs i) as [b ->]; [lia|done].
    + intros k Hk. rewrite length_replicate. apply Nat2Z.inj_lt.
      rewrite byte_count_spec by done. rewrite Nat2Z.inj_div.
      Z.to_euclidean_division_equations; lia.
  - rewrite lookup_seq_ge by lia. symmetry. apply lookup_ge_None. lia.
Qed.

Lemma LoadBloomFilter_WriteTo bf : bloom_wf bf → LoadBloomFilter (WriteTo bf) = Some bf.
Proof.
  intros [Hb Hs Hh]. unfold LoadBloomFilter, WriteTo.
  rewrite decide_False by (rewrite !length_app, !length_le_bytes; lia).
  set (a := le_bytes 8 (size bf)). set (b := le_bytes 8 (hashCount bf)).
  set (p := pack (bits bf) (size bf)).
  assert (Ha : length a = 8%nat) by apply length_le_bytes.
  assert (Hb8 : length b = 8%nat) by apply length_le_bytes.
  replace (take 8 (a ++ b ++ p)) with a by (by rewrite take_app_length').
  replace (drop 16 (a ++ b ++ p)) with p
    by (rewrite app_assoc, drop_app_length'; [done|by rewrite length_app, Ha, Hb8]).
  replace (drop 8 (a ++ b ++ p)) with (b ++ p) by (by rewrite drop_app_length').
  rewrite take_app_length' by done. subst a b p.
  rewrite !le_val_bytes. change (256 ^ Z.of_nat 8) with (2 ^ 64).
  rewrite !Z.mod_small by lia.
  rewrite decide_False by (rewrite length_pack; lia).
  rewrite unpack_pack by lia || done. by destruct bf.
Qed.

Definition add_all (bf : BloomFilter) (keys : list string) : option BloomFilter :=
  foldl (λ acc key, acc ≫= λ bf, Add bf key) (Some bf) keys.

Lemma add_all_spec bf keys :
  bloom_wf bf → ∃ bf', add_all bf keys = Some bf' ∧ bloom_wf bf' ∧ bits_le bf bf' ∧
    ∀ key, key ∈ keys → MayContain bf' key = Some true.
Proof.
  revert bf. induction keys as [|k ks IH]; intros bf Hwf; unfold add_all; simpl.
  - exists bf. split_and!; [done..|]. by intros key ?%elem_of_nil.
  - destruct (Add_spec bf k Hwf) as (bf1 & -> & Hwf1 & Hle1 & Hk). simpl.
    destruct (IH bf1 Hwf1) as (bf2 & Hadd & Hwf2 & Hle2 & Hks).
    exists bf2. split_and!; [done|done|by transitivity bf1|].
    intros key [->|Hin]%elem_of_cons; [|by apply Hks].
    by apply (MayContain_mono bf1).
Qed.

(** C21: no false negatives across a restart.  Adding keys to a fresh filter of
    positive size never panics; the filter survives being written to its file
    and loaded back; and it then answers true for every key that was added. *)
Theorem bloom_no_false_negatives sz hc keys :
  0 < sz < 2 ^ 63 → 0 ≤ hc < 2 ^ 64 →
  ∃ bf, add_all (NewBloomFilter sz hc) keys = Some bf ∧
    LoadBloomFilter (WriteTo bf) = Some bf ∧
    ∀ key, key ∈ keys → MayContain bf key = Some true.
Proof.
  intros Hsz Hhc.
  destruct (add_all_spec (NewBloomFilter sz hc) keys) as (bf & Hadd & Hwf & _ & Hall).
  { by apply NewBloomFilter_wf. }
  exists bf. split_and!; [done| |done]. by apply LoadBloomFilter_WriteTo.
Qed.

Lemma bloom_no_false_negatives_witness :
  (0 < 96 < 2 ^ 63 ∧ 0 ≤ 6 < 2 ^ 64) ∧
  ∃ bf, add_all (NewBloomFilter 96 6) ["t1:alpha"; "t1:beta"] = Some bf ∧
    LoadBloomFilter (WriteTo bf) = Some bf ∧
    ∀ key, key ∈ ["t1:alpha"; "t1:beta"] → MayContain bf key = Some true.
Proof.
  split; [lia|]. apply (bloom_no_false_negatives 96 6); lia.
Defined.
