(* ===== verification/SkipList.v ===== *)
(** * The skip list: [storage-node/internal/storage/memtable/skiplist.go]

    The pointer structure is modelled as it is: nodes live in a heap, [Forward]
    holds pointers or nil, and [Insert], [Search], [Delete] and the iterator
    follow and update those pointers the way the code does.  [None] as the
    result of an operation is a run-time panic (a nil dereference or an index
    out of range) or a traversal that does not end; the theorems show that
    neither happens, and that the structure behaves as a finite map whose
    iterator visits the keys in order.

    The random level of a new node is computed from the outcomes of
    [rand.Float64() < Probability], which are an argument of [Insert]. *)

From S2P Require Import Prelude.

Definition loc := nat.
Definition MaxLevel : nat := 16.

(** ** Definitions *)

Record SkipListNode (V : Type) := mkNode {
  Key : string;
  Value : option V;
  Forward : list (option loc);
}.
Arguments mkNode {V}.
Arguments Key {V}.
Arguments Value {V}.
Arguments Forward {V}.

Record SkipList (V : Type) := mkSkipList {
  heap : gmap loc (SkipListNode V);
  next_loc : loc;
  Head : loc;
  Level : nat;
  Size : Z;
}.
Arguments mkSkipList {V}.
Arguments heap {V}.
Arguments next_loc {V}.
Arguments Head {V}.
Arguments Level {V}.
Arguments Size {V}.

Section skiplist.
Context {V : Type}.
Implicit Types (h : gmap loc (SkipListNode V)) (sl : SkipList V).
Implicit Types (key : string) (v : V) (x y cur : loc) (i : nat).

Definition NewSkipList : SkipList V :=
  mkSkipList {[ 0 := mkNode "" None (replicate MaxLevel None) ]} 1 0 0 0.

Fixpoint randomLevel (coins : list bool) (level : nat) : nat :=
  match coins with
  | true :: coins => if decide (level < MaxLevel - 1) then randomLevel coins (S level) else level
  | _ => level
  end.

(** The expression [x.Forward[i]]. *)
Definition forward h x i : option (option loc) := n ← h !! x; Forward n !! i.

Definition set_forward h x i (p : option loc) : option (gmap loc (SkipListNode V)) :=
  n ← h !! x;
  if decide (i < length (Forward n))
  then Some (<[x := mkNode (Key n) (Value n) (<[i := p]> (Forward n))]> h)
  else None.

(** [for current.Forward[i] != nil && current.Forward[i].Key < key]. *)
Fixpoint walk (fuel : nat) h key i cur : option loc :=
  match fuel with
  | O => None
  | S fuel =>
     p ← forward h cur i;
     match p with
     | None => Some cur
     | Some y => n ← h !! y;
        if decide (str_lt (Key n) key) then walk fuel h key i y else Some cur
     end
  end.

(** [for i := sl.Level; i >= 0; i--], recording the last node of every level. *)
Fixpoint descend (fuel : nat) h key i cur (update : list (option loc))
    : option (loc * list (option loc)) :=
  cur' ← walk fuel h key i cur;
  let update' := <[i := Some cur']> update in
  match i with
  | O => Some (cur', update')
  | S j => descend fuel h key j cur' update'
  end.

Definition fuel_of sl : nat := S (size (heap sl)).

Definition find_path sl key : option (loc * list (option loc)) :=
  descend (fuel_of sl) (heap sl) key (Level sl) (Head sl) (replicate MaxLevel None).

Definition pointer_at (update : list (option loc)) i : option loc := mjoin (update !! i).

(** [newNode.Forward[i] = update[i].Forward[i]; update[i].Forward[i] = newNode]
    for [i] from [0] to [n - 1]. *)
Fixpoint link (n : nat) h (update : list (option loc)) (new : loc)
    : option (gmap loc (SkipListNode V)) :=
  match n with
  | O => Some h
  | S i =>
     h ← link i h update new;
     u ← pointer_at update i;
     p ← forward h u i;
     h ← set_forward h new i p;
     set_forward h u i (Some new)
  end.

Definition Insert (coins : list bool) key v sl : option (SkipList V) :=
  '(current, update) ← find_path sl key;
  p ← forward (heap sl) current 0;
  let insert_new :=
    let newLevel := randomLevel coins 0 in
    let update :=
      if decide (Level sl < newLevel)
      then foldl (λ u i, <[i := Some (Head sl)]> u) update (seq (S (Level sl)) (newLevel - Level sl))
      else update in
    let new := next_loc sl in
    let h := <[new := mkNode key (Some v) (replicate (S newLevel) None)]> (heap sl) in
    h ← link (S newLevel) h update new;
    Some (mkSkipList h (S new) (Head sl) (Nat.max (Level sl) newLevel) (Size sl + 1)) in
  match p with
  | Some y =>
     n ← heap sl !! y;
     if decide (Key n = key)
     then Some (mkSkipList (<[y := mkNode (Key n) (Some v) (Forward n)]> (heap sl))
                  (next_loc sl) (Head sl) (Level sl) (Size sl))
     else insert_new
  | None => insert_new
  end.

(** The value and whether it was found; the outer option is a panic. *)
Definition Search sl key : option (option V) :=
  '(current, _) ← find_path sl key;
  p ← forward (heap sl) current 0;
  match p with
  | Some y => n ← heap sl !! y; Some (if decide (Key n = key) then Value n else None)
  | None => Some None
  end.

(** [for i := 0; i <= sl.Level; i++] with its [break], from index [i] on;
    [n] counts the iterations left. *)
Fixpoint unlink (n : nat) i h (update : list (option loc)) (cur : loc)
    : option (gmap loc (SkipListNode V)) :=
  match n with
  | O => Some h
  | S n =>
     u ← pointer_at update i;
     p ← forward h u i;
     if decide (p = Some cur)
     then q ← forward h cur i; h ← set_forward h u i q; unlink n (S i) h update cur
     else Some h
  end.

(** [for sl.Level > 0 && sl.Head.Forward[sl.Level] == nil { sl.Level-- }]. *)
Fixpoint shrink_level h (head : loc) (level : nat) : option nat :=
  match level with
  | O => Some O
  | S level' =>
     p ← forward h head level;
     match p with
     | None => shrink_level h head level'
     | Some _ => Some level
     end
  end.

Definition Delete key sl : option (bool * SkipList V) :=
  '(current, update) ← find_path sl key;
  p ← forward (heap sl) current 0;
  match p with
  | None => Some (false, sl)
  | Some y =>
     n ← heap sl !! y;
     if decide (Key n = key) then
       h ← unlink (S (Level sl)) 0 (heap sl) update y;
       level ← shrink_level h (Head sl) (Level sl);
       Some (true, mkSkipList h (next_loc sl) (Head sl) level (Size sl - 1))
     else Some (false, sl)
  end.

Definition Len sl : Z := Size sl.

(** The iterator: [Next] from the head until it returns false, collecting
    [Key()] and [Value()]. *)
Definition Iterator sl : loc := Head sl.

Definition Next h (it : option loc) : option (option loc) :=
  match it with
  | None => Some None
  | Some cur => forward h cur 0
  end.

Fixpoint collect (fuel : nat) h (it : option loc) : option (list (string * option V)) :=
  match fuel with
  | O => None
  | S fuel =>
     it ← Next h it;
     match it with
     | None => Some []
     | Some cur => n ← h !! cur; rest ← collect fuel h it; Some ((Key n, Value n) :: rest)
     end
  end.

Definition entries sl : option (list (string * option V)) :=
  collect (fuel_of sl) (heap sl) (Some (Iterator sl)).

(** ** The reference: sorted association lists *)

Definition kv_lo key (kvs : list (string * V)) := take_while (λ kv, bool_decide (str_lt kv.1 key)) kvs.
Definition kv_hi key (kvs : list (string * V)) := drop_while (λ kv, bool_decide (str_lt kv.1 key)) kvs.

(** The entries after the position of [key], without [key] itself. *)
Definition kv_rest key (kvs : list (string * V)) :=
  match kv_hi key kvs with
  | (k, _) :: r => if decide (k = key) then r else kv_hi key kvs
  | [] => []
  end.

Definition kv_insert key v kvs := kv_lo key kvs ++ (key, v) :: kv_rest key kvs.
Definition kv_delete key kvs := kv_lo key kvs ++ kv_rest key kvs.

Definition kv_map (kvs : list (string * V)) : gmap string V := list_to_map kvs.

Abbreviation kv_sorted kvs := (StronglySorted str_lt (fst <$> kvs)).

Lemma kv_split key kvs : kvs = kv_lo key kvs ++ kv_hi key kvs.
Proof. symmetry. apply take_drop_while. Qed.

Lemma kv_lo_lt key kvs : Forall (λ kv, str_lt kv.1 key) (kv_lo key kvs).
Proof.
  eapply Forall_impl; [apply take_while_Forall|].
  intros kv. simpl. apply bool_decide_eq_true.
Qed.

Lemma kv_hi_ge key kvs : kv_sorted kvs → Forall (λ kv, String.le key kv.1) (kv_hi key kvs).
Proof.
  intros Hs. unfold kv_hi.
  destruct (drop_while _ kvs) as [|kv r] eqn:Hd; [constructor|].
  pose proof (drop_while_head _ _ _ _ Hd) as Hk%bool_decide_eq_false.
  apply str_not_lt in Hk.
  rewrite (kv_split key kvs), fmap_app in Hs. unfold kv_hi in Hs. rewrite Hd in Hs.
  apply StronglySorted_app_1_r in Hs. inversion Hs as [|? ? _ Hall]; subst.
  constructor; [done|]. rewrite Forall_fmap in Hall.
  eapply Forall_impl; [exact Hall|]. intros kv' [Hle _]. by transitivity kv.1.
Qed.

Lemma kv_rest_gt key kvs : kv_sorted kvs → Forall (λ kv, str_lt key kv.1) (kv_rest key kvs).
Proof.
  intros Hs. pose proof (kv_hi_ge key kvs Hs) as Hge.
  rewrite (kv_split key kvs), fmap_app in Hs. apply StronglySorted_app_1_r in Hs.
  unfold kv_rest. destruct (kv_hi key kvs) as [|[k w] r] eqn:Hhi; [constructor|].
  inversion Hs as [|? ? _ Hall]; subst. rewrite Forall_fmap in Hall.
  inversion Hge as [|? ? Hk _]; subst. case_decide as Hkk; [by subst|].
  constructor; [split; [done|simpl; congruence]|].
  eapply Forall_impl; [exact Hall|]. intros kv' Hlt.
  by eapply str_le_lt_trans.
Qed.

Lemma kv_lo_rest_sorted key kvs :
  kv_sorted kvs → kv_sorted (kv_lo key kvs) ∧ kv_sorted (kv_rest key kvs).
Proof.
  intros Hs. rewrite (kv_split key kvs), fmap_app in Hs. split.
  - by apply StronglySorted_app_1_l in Hs.
  - apply StronglySorted_app_1_r in Hs. unfold kv_rest.
    destruct (kv_hi key kvs) as [|[k w] r] eqn:?; [constructor|].
    case_decide; [|done]. by inversion Hs.
Qed.

Lemma kv_insert_sorted key v kvs : kv_sorted kvs → kv_sorted (kv_insert key v kvs).
Proof.
  intros Hs. destruct (kv_lo_rest_sorted key kvs Hs) as [Hlo Hrest].
  pose proof (kv_lo_lt key kvs) as Hlt. pose proof (kv_rest_gt key kvs Hs) as Hgt.
  unfold kv_insert. rewrite fmap_app, fmap_cons. simpl.
  apply StronglySorted_app_2; [|done|constructor; [done|by rewrite Forall_fmap]].
  intros a b (kv & -> & Hin)%list_elem_of_fmap Hb.
  rewrite Forall_forall in Hlt. specialize (Hlt _ Hin).
  apply elem_of_cons in Hb as [->|(kv' & -> & Hin')%list_elem_of_fmap]; [done|].
  rewrite Forall_forall in Hgt. specialize (Hgt _ Hin'). by transitivity key.
Qed.

Lemma kv_delete_sorted key kvs : kv_sorted kvs → kv_sorted (kv_delete key kvs).
Proof.
  intros Hs. destruct (kv_lo_rest_sorted key kvs Hs) as [Hlo Hrest].
  pose proof (kv_lo_lt key kvs) as Hlt. pose proof (kv_rest_gt key kvs Hs) as Hgt.
  unfold kv_delete. rewrite fmap_app.
  apply StronglySorted_app_2; [|done|done].
  intros a b (kv & -> & Hin)%list_elem_of_fmap (kv' & -> & Hin')%list_elem_of_fmap.
  rewrite Forall_forall in Hlt, Hgt.
  transitivity key; [by apply Hlt|by apply Hgt].
Qed.

Lemma kv_map_cons k v (l : list (string * V)) : kv_map ((k, v) :: l) = <[k := v]> (kv_map l).
Proof. done. Qed.

Lemma kv_map_app k (l1 l2 : list (string * V)) :
  kv_map (l1 ++ l2) !! k = match kv_map l1 !! k with Some v => Some v | None => kv_map l2 !! k end.
Proof.
  unfold kv_map. rewrite list_to_map_app. rewrite lookup_union.
  by destruct (list_to_map l1 !! k), (list_to_map l2 !! k).
Qed.

Lemma kv_map_split key k kvs :
  kv_map kvs !! k = match kv_map (kv_lo key kvs) !! k with
                    | Some v => Some v
                    | None => kv_map (kv_hi key kvs) !! k
                    end.
Proof. rewrite <-kv_map_app. by rewrite <-kv_split. Qed.

Lemma kv_map_none k (l : list (string * V)) :
  Forall (λ kv, kv.1 ≠ k) l → kv_map l !! k = None.
Proof.
  intros Hall. apply not_elem_of_list_to_map_1.
  intros (kv & -> & Hin)%list_elem_of_fmap.
  rewrite Forall_forall in Hall. by apply (Hall kv).
Qed.

Lemma kv_lo_none key kvs : kv_map (kv_lo key kvs) !! key = None.
Proof.
  apply kv_map_none. eapply Forall_impl; [apply kv_lo_lt|].
  intros kv ?. by apply str_lt_ne.
Qed.

Lemma kv_rest_none key kvs : kv_sorted kvs → kv_map (kv_rest key kvs) !! key = None.
Proof.
  intros Hs. apply kv_map_none. eapply Forall_impl; [by apply kv_rest_gt|].
  intros kv Hlt%str_lt_ne. congruence.
Qed.

Lemma kv_rest_ne key k kvs : k ≠ key → kv_map (kv_rest key kvs) !! k = kv_map (kv_hi key kvs) !! k.
Proof.
  intros Hne. unfold kv_rest. destruct (kv_hi key kvs) as [|[k' w] r]; [done|].
  case_decide; [|done]. subst. unfold kv_map. simpl. by rewrite lookup_insert_ne.
Qed.

Lemma kv_insert_map key v kvs : kv_map (kv_insert key v kvs) = <[key := v]> (kv_map kvs).
Proof.
  apply map_eq. intros k. unfold kv_insert. rewrite kv_map_app.
  destruct (decide (k = key)) as [->|Hne].
  - by rewrite kv_lo_none, kv_map_cons, !lookup_insert_eq.
  - rewrite lookup_insert_ne, (kv_map_split key k kvs) by done.
    by rewrite kv_map_cons, lookup_insert_ne, kv_rest_ne.
Qed.

Lemma kv_delete_map key kvs : kv_sorted kvs → kv_map (kv_delete key kvs) = delete key (kv_map kvs).
Proof.
  intros Hs. apply map_eq. intros k. unfold kv_delete. rewrite kv_map_app.
  destruct (decide (k = key)) as [->|Hne].
  - rewrite kv_lo_none, lookup_delete_eq. by apply kv_rest_none.
  - rewrite lookup_delete_ne, (kv_map_split key k kvs) by done. by rewrite kv_rest_ne.
Qed.

Lemma kv_lookup_hi key kvs :
  kv_map kvs !! key = match kv_hi key kvs with
                      | (k, v) :: _ => if decide (k = key) then Some v else kv_map (kv_hi key kvs) !! key
                      | [] => None
                      end.
Proof.
  rewrite (kv_map_split key key kvs), kv_lo_none.
  destruct (kv_hi key kvs) as [|[k v] r]; [done|].
  case_decide; [|done]. subst. unfold kv_map. simpl. apply lookup_insert_eq.
Qed.

Lemma length_kv_map kvs : kv_sorted kvs → size (kv_map kvs) = length kvs.
Proof.
  intros Hs. unfold kv_map. rewrite <-(length_fmap fst).
  induction kvs as [|[k v] r IH]; [done|]. simpl in *.
  inversion Hs as [|? ? Hs' Hall]; subst.
  rewrite map_size_insert_None, IH by first [done|
    apply not_elem_of_list_to_map_1; intros Hin; rewrite Forall_forall in Hall;
    by apply Hall, str_lt_irrefl in Hin].
  done.
Qed.

(** ** The representation invariant *)

(** The height of a node: the number of levels it is linked in. *)
Definition height h x : nat := from_option (λ n, length (Forward n)) 0 (h !! x).

(** The first node of [l] that is linked at level [i]. *)
Fixpoint next_at (t : loc → nat) i (l : list loc) : option loc :=
  match l with
  | [] => None
  | y :: l => if decide (i < t y) then Some y else next_at t i l
  end.

Definition node_is h x (kv : string * V) : Prop :=
  ∃ n, h !! x = Some n ∧ Key n = kv.1 ∧ Value n = Some kv.2.

(** Every pointer of the chain [head :: l] goes to the next node of its level. *)
Definition linked h (head : loc) (l : list loc) : Prop :=
  ∀ p x s i, head :: l = p ++ x :: s → i < height h x →
    forward h x i = Some (next_at (height h) i s).

Record rep sl (l : list loc) (kvs : list (string * V)) : Prop := {
  rep_nodes : Forall2 (node_is (heap sl)) l kvs;
  rep_sorted : kv_sorted kvs;
  rep_nodup : NoDup (Head sl :: l);
  rep_head : height (heap sl) (Head sl) = MaxLevel;
  rep_height : Forall (λ x, 1 ≤ height (heap sl) x ≤ S (Level sl)) l;
  rep_level : Level sl < MaxLevel;
  rep_linked : linked (heap sl) (Head sl) l;
  rep_alloc : ∀ x, next_loc sl ≤ x → heap sl !! x = None;
  rep_size : Size sl = Z.of_nat (length l);
}.

(** [sl] holds exactly the entries [kvs]. *)
Definition is_skiplist sl kvs : Prop := ∃ l, rep sl l kvs.

(** *** Levels *)

Lemma next_at_app t i l1 l2 :
  next_at t i (l1 ++ l2) = match next_at t i l1 with Some y => Some y | None => next_at t i l2 end.
Proof. induction l1 as [|y l1 IH]; simpl; [done|]. by case_decide. Qed.

Lemma next_at_None t i l : next_at t i l = None ↔ Forall (λ y, t y ≤ i) l.
Proof.
  induction l as [|y l IH]; simpl; [split; auto|].
  case_decide; rewrite Forall_cons; [|rewrite IH]; split; intros; simplify_eq; try lia.
  - split; [lia|done].
  - by destruct_and?.
Qed.

Lemma next_at_Some t i l y :
  next_at t i l = Some y →
  ∃ l1 l2, l = l1 ++ y :: l2 ∧ i < t y ∧ next_at t i l1 = None.
Proof.
  induction l as [|z l IH]; simpl; [done|]. case_decide as Hz.
  - intros [= ->]. by exists [], l.
  - intros (l1 & l2 & -> & Hy & Hn)%IH. exists (z :: l1), l2. simpl.
    by rewrite decide_False.
Qed.

Lemma next_at_ext t t' i l : (∀ y, y ∈ l → t y = t' y) → next_at t i l = next_at t' i l.
Proof.
  induction l as [|y l IH]; intros Ht; simpl; [done|].
  rewrite (Ht y) by by left. case_decide; [done|].
  apply IH. intros z Hz. apply Ht. by right.
Qed.

Lemma next_at_0 t l : Forall (λ y, 1 ≤ t y) l → next_at t 0 l = head l.
Proof. destruct 1; simpl; [done|]. by rewrite decide_True by lia. Qed.

Lemma forward_height h x i p : forward h x i = Some p → i < height h x.
Proof.
  unfold forward, height. destruct (h !! x); simpl; [|done].
  apply lookup_lt_Some.
Qed.

(** *** Positions: a node of [head :: lo] and the nodes of [lo] after it *)

Definition position (head : loc) (lo : list loc) (x : loc) (s : list loc) : Prop :=
  ∃ p, head :: lo = p ++ x :: s.

(** [x] is the last node of [head :: lo] linked at level [i]. *)
Definition pred_at h (head : loc) (lo : list loc) i (x : loc) : Prop :=
  ∃ s, position head lo x s ∧ i < height h x ∧ next_at (height h) i s = None.

Lemma position_head head lo : position head lo head lo.
Proof. by exists []. Qed.

Lemma position_elem head lo x s : position head lo x s → x ∈ head :: lo.
Proof. intros [p ->]. rewrite elem_of_app. right. by left. Qed.

Lemma position_next head lo x s1 y s2 :
  position head lo x (s1 ++ y :: s2) → position head lo y s2.
Proof. intros [p Hp]. exists (p ++ x :: s1). rewrite Hp. by rewrite <-(assoc (++)). Qed.

Lemma position_suffix head lo x s : position head lo x s → ∀ y, y ∈ s → y ∈ lo.
Proof.
  intros [[|z p] Hp] y Hy; simplify_eq/=; [done|].
  rewrite elem_of_app. right. by right.
Qed.

Lemma app_split_unique {A} (p1 p2 s1 s2 : list A) a :
  NoDup (p1 ++ a :: s1) → p1 ++ a :: s1 = p2 ++ a :: s2 → p1 = p2 ∧ s1 = s2.
Proof.
  revert p2. induction p1 as [|b p1 IH]; intros [|c p2] Hnd Heq; simplify_eq/=.
  - done.
  - exfalso. apply NoDup_cons in Hnd as [Hni _]. apply Hni.
    rewrite elem_of_app. right. by left.
  - exfalso. apply NoDup_cons in Hnd as [Hni _]. apply Hni.
    rewrite elem_of_app. right. by left.
  - apply NoDup_cons in Hnd as [_ Hnd]. by destruct (IH p2 Hnd) as [-> ->].
Qed.

Lemma position_unique head lo x s1 s2 :
  NoDup (head :: lo) → position head lo x s1 → position head lo x s2 → s1 = s2.
Proof.
  intros Hnd [p1 Hp1] [p2 Hp2]. rewrite Hp1 in Hnd, Hp2.
  by destruct (app_split_unique p1 p2 s1 s2 x Hnd Hp2).
Qed.

(** Of two positions, one is further along the chain. *)
Lemma position_compare head lo x s y t :
  position head lo x s → position head lo y t → x = y ∧ s = t ∨ x ∈ t ∨ y ∈ s.
Proof.
  intros [p Hp] [q Hq]. rewrite Hp in Hq. clear Hp.
  revert q Hq. induction p as [|a p IH]; intros [|b q] Heq; simplify_eq/=.
  - by left.
  - right; right. rewrite elem_of_app. right. by left.
  - right; left. rewrite elem_of_app. right. by left.
  - naive_solver.
Qed.

Lemma pred_at_unique h head lo i x y :
  NoDup (head :: lo) → pred_at h head lo i x → pred_at h head lo i y → x = y.
Proof.
  intros Hnd (s & Hx & Hhx & Hs) (t & Hy & Hhy & Ht).
  apply next_at_None in Hs, Ht. rewrite Forall_forall in Hs, Ht.
  destruct (position_compare _ _ _ _ _ _ Hx Hy) as [[-> _]|[Hin|Hin]]; [done|..].
  - specialize (Ht _ Hin). lia.
  - specialize (Hs _ Hin). lia.
Qed.

(** *** The search path *)

(** The chain [lo ++ hi] is cut at the first key that is not below [key]. *)
Record cut h (head : loc) (lo hi : list loc) key : Prop := {
  cut_linked : linked h head (lo ++ hi);
  cut_lo : Forall (λ x, ∃ n, h !! x = Some n ∧ str_lt (Key n) key) lo;
  cut_hi : Forall (λ x, ∃ n, h !! x = Some n ∧ ¬ str_lt (Key n) key) hi;
  cut_tall : Forall (λ x, 1 ≤ height h x) (lo ++ hi);
}.

Lemma cut_forward h head lo hi key x s i :
  cut h head lo hi key → position head lo x s → i < height h x →
  forward h x i = Some (next_at (height h) i (s ++ hi)).
Proof.
  intros Hcut [p Hp] Hi. apply (cut_linked _ _ _ _ _ Hcut p); [|done].
  rewrite app_comm_cons, Hp. by rewrite <-(assoc (++)).
Qed.

Lemma walk_spec h head lo hi key i fuel cur s :
  cut h head lo hi key → position head lo cur s → i < height h cur → length s < fuel →
  ∃ cur', walk fuel h key i cur = Some cur' ∧ pred_at h head lo i cur'.
Proof.
  intros Hcut. revert cur s. induction fuel as [|fuel IH]; intros cur s Hpos Hi Hf; [lia|].
  simpl. rewrite (cut_forward _ _ _ _ _ _ _ _ Hcut Hpos Hi). simpl. rewrite next_at_app.
  destruct (next_at (height h) i s) as [y|] eqn:Hy.
  - apply next_at_Some in Hy as (s1 & s2 & -> & Hiy & _).
    pose proof (position_next _ _ _ _ _ _ Hpos) as Hposy.
    assert (y ∈ lo) as Hin by (eapply position_suffix; [exact Hpos|set_solver]).
    pose proof (cut_lo _ _ _ _ _ Hcut) as Hlo. rewrite Forall_forall in Hlo.
    destruct (Hlo _ Hin) as (n & Hn & Hlt). rewrite Hn. simpl. rewrite decide_True by done.
    rewrite length_app in Hf. simpl in Hf. apply (IH y s2); [done|done|lia].
  - assert (pred_at h head lo i cur) as Hpred by (by exists s).
    destruct (next_at (height h) i hi) as [y|] eqn:Hyhi; [|by exists cur].
    apply next_at_Some in Hyhi as (s1 & s2 & -> & _).
    pose proof (cut_hi _ _ _ _ _ Hcut) as Hhi. rewrite Forall_forall in Hhi.
    destruct (Hhi y) as (n & Hn & Hnlt); [set_solver|].
    rewrite Hn. simpl. rewrite decide_False by done. by exists cur.
Qed.

Lemma position_length head lo x s : position head lo x s → length s ≤ length lo.
Proof. intros [p Hp]. apply (f_equal length) in Hp. rewrite length_app in Hp. simpl in Hp. lia. Qed.

Lemma descend_spec h head lo hi key i fuel cur s update :
  cut h head lo hi key → position head lo cur s → i < height h cur →
  length lo < fuel → i < length update →
  ∃ cur' update', descend fuel h key i cur update = Some (cur', update') ∧
    pred_at h head lo 0 cur' ∧
    (∀ j, j ≤ i → ∃ x, pointer_at update' j = Some x ∧ pred_at h head lo j x) ∧
    (∀ j, i < j → update' !! j = update !! j) ∧ length update' = length update.
Proof.
  intros Hcut. revert cur s update. induction i as [|i IH];
    intros cur s update Hpos Hi Hf Hlen; simpl;
    (destruct (walk_spec _ _ _ _ _ _ fuel _ _ Hcut Hpos Hi) as (cur' & -> & Hpred);
      [apply position_length in Hpos; lia|]); simpl.
  - exists cur', (<[0 := Some cur']> update). split_and!; [done|done|..].
    + intros j Hj. exists cur'. assert (j = 0) as -> by lia.
      unfold pointer_at. by rewrite list_lookup_insert_eq by lia.
    + intros j Hj. by rewrite list_lookup_insert_ne by lia.
    + apply length_insert.
  - destruct Hpred as (s' & Hpos' & Hi' & Hn).
    destruct (IH cur' s' (<[S i := Some cur']> update)) as (c & u & Hd & Hc & Hu & Hhi & Hl);
      [done|lia|done|rewrite length_insert; lia|].
    exists c, u. rewrite length_insert in Hl. split_and!; [done|done| |..|done].
    + intros j Hj. destruct (decide (j = S i)) as [->|]; [|apply Hu; lia].
      exists cur'. split; [|by exists s']. unfold pointer_at.
      by rewrite Hhi, list_lookup_insert_eq by lia.
    + intros j Hj. by rewrite Hhi, list_lookup_insert_ne by lia.
Qed.

Lemma pred_at_0 h head lo x :
  Forall (λ x, 1 ≤ height h x) lo → pred_at h head lo 0 x → position head lo x [].
Proof.
  intros Ht (s & Hpos & _ & Hn). destruct s as [|y s]; [done|].
  apply next_at_None in Hn. inversion Hn as [|? ? Hy _]; subst.
  rewrite Forall_forall in Ht. assert (1 ≤ height h y); [|lia].
  apply Ht. eapply position_suffix; [exact Hpos|by left].
Qed.

(** *** What the invariant gives for a key *)

Lemma node_is_key h key (P : string → Prop) l kvs :
  Forall2 (node_is h) l kvs → Forall (λ kv, P kv.1) kvs →
  Forall (λ x, ∃ n, h !! x = Some n ∧ P (Key n)) l.
Proof.
  induction 1 as [|x kv l kvs (n & Hn & Hk & _) _ IH]; intros Hall; constructor.
  - inversion Hall; subst. exists n. by rewrite Hk.
  - inversion Hall; subst. auto.
Qed.

Lemma rep_cut sl l kvs key :
  rep sl l kvs →
  ∃ lo hi, l = lo ++ hi ∧ Forall2 (node_is (heap sl)) lo (kv_lo key kvs) ∧
    Forall2 (node_is (heap sl)) hi (kv_hi key kvs) ∧ cut (heap sl) (Head sl) lo hi key.
Proof.
  intros Hrep. pose proof (rep_nodes _ _ _ Hrep) as Hn.
  rewrite (kv_split key kvs) in Hn.
  apply Forall2_app_inv_r in Hn as (lo & hi & Hlo & Hhi & ->).
  exists lo, hi. split_and!; [done..|]. constructor.
  - apply (rep_linked _ _ _ Hrep).
  - apply (node_is_key _ key (λ k, str_lt k key) _ _ Hlo), kv_lo_lt.
  - apply (node_is_key _ key (λ k, ¬ str_lt k key) _ _ Hhi).
    eapply Forall_impl; [apply kv_hi_ge, (rep_sorted _ _ _ Hrep)|].
    intros kv Hle Hlt. by apply str_not_lt in Hle.
  - eapply Forall_impl; [apply (rep_height _ _ _ Hrep)|]. simpl. lia.
Qed.

Lemma height_pos_elem h x : 1 ≤ height h x → x ∈ dom h.
Proof. unfold height. intros H. apply elem_of_dom. destruct (h !! x); simpl in H; [done|lia]. Qed.

Lemma rep_fuel sl l kvs : rep sl l kvs → length l < fuel_of sl.
Proof.
  intros Hrep. unfold fuel_of. rewrite <-size_dom.
  assert (length (Head sl :: l) ≤ size (dom (heap sl))) as Hle; [|simpl in Hle; lia].
  rewrite <-(size_list_to_set (C := gset loc) (Head sl :: l)) by apply (rep_nodup _ _ _ Hrep).
  apply subseteq_size. intros x Hx. apply elem_of_list_to_set, elem_of_cons in Hx as [->|Hx].
  - apply height_pos_elem. rewrite (rep_head _ _ _ Hrep). unfold MaxLevel. lia.
  - pose proof (rep_height _ _ _ Hrep) as Hh. rewrite Forall_forall in Hh.
    apply height_pos_elem. apply (Hh _ Hx).
Qed.

(** [update[i]] is the predecessor of the cut at every level below [n]. *)
Definition update_ok h (head : loc) (lo : list loc) (update : list (option loc)) (n : nat) : Prop :=
  ∀ i, i < n → ∃ x, pointer_at update i = Some x ∧ pred_at h head lo i x.

Lemma find_path_spec sl lo hi kvs key :
  rep sl (lo ++ hi) kvs → cut (heap sl) (Head sl) lo hi key →
  ∃ cur update, find_path sl key = Some (cur, update) ∧
    forward (heap sl) cur 0 = Some (head hi) ∧
    update_ok (heap sl) (Head sl) lo update (S (Level sl)) ∧ length update = MaxLevel.
Proof.
  intros Hrep Hcut. pose proof (rep_level _ _ _ Hrep) as Hlev.
  pose proof (rep_head _ _ _ Hrep) as Hhead. pose proof (rep_fuel _ _ _ Hrep) as Hf.
  rewrite length_app in Hf. pose proof (cut_tall _ _ _ _ _ Hcut) as Ht.
  apply Forall_app in Ht as [Hlo Hhi].
  destruct (descend_spec (heap sl) (Head sl) lo hi key (Level sl) (fuel_of sl) (Head sl) lo
    (replicate MaxLevel None)) as (cur & u & Hd & Hcur & Hu & _ & Hl);
    [done|apply position_head|lia|lia|by rewrite length_replicate|].
  rewrite length_replicate in Hl. exists cur, u. split_and!; [done|..|done].
  - destruct Hcur as (s & Hpos & Hi & Hn) eqn:Heq.
    rewrite (cut_forward _ _ _ _ _ _ _ _ Hcut (pred_at_0 _ _ _ _ Hlo Hcur) Hi). simpl.
    by rewrite next_at_0.
  - intros i Hi. apply Hu. lia.
Qed.

(** The head of the part after the cut is the node of the first entry not below [key]. *)
Lemma cut_head h hi kvs key :
  Forall2 (node_is h) hi (kv_hi key kvs) →
  match head hi with
  | None => kv_hi key kvs = []
  | Some y => ∃ n k v r hi', hi = y :: hi' ∧ kv_hi key kvs = (k, v) :: r ∧
                h !! y = Some n ∧ Key n = k ∧ Value n = Some v ∧ Forall2 (node_is h) hi' r
  end.
Proof.
  destruct 1 as [|y [k v] hi' r (n & Hn & Hk & Hv) Hr]; simpl in *; [done|].
  by exists n, k, v, r, hi'.
Qed.

Lemma kv_hi_lookup_none key kvs k v r :
  kv_sorted kvs → kv_hi key kvs = (k, v) :: r → k ≠ key → kv_map kvs !! key = None.
Proof.
  intros Hs Hhi Hne. rewrite (kv_map_split key key kvs), kv_lo_none.
  replace (kv_hi key kvs) with (kv_rest key kvs); [by apply kv_rest_none|].
  unfold kv_rest. rewrite Hhi. by rewrite decide_False.
Qed.

Lemma Search_spec sl kvs key :
  is_skiplist sl kvs → Search sl key = Some (kv_map kvs !! key).
Proof.
  intros [l Hrep]. destruct (rep_cut _ _ _ key Hrep) as (lo & hi & -> & Hlo & Hhi & Hcut).
  destruct (find_path_spec _ _ _ _ _ Hrep Hcut) as (cur & u & Hfp & Hfw & _).
  unfold Search. rewrite Hfp. simpl. rewrite Hfw. simpl.
  pose proof (cut_head _ _ _ _ Hhi) as Hh. destruct (head hi) as [y|].
  - destruct Hh as (n & k & v & r & hi' & -> & Hkv & Hn & Hk & Hv & _).
    rewrite Hn. simpl. f_equal. case_decide as Hkey.
    + rewrite kv_lookup_hi, Hkv. rewrite decide_True by congruence. done.
    + symmetry. eapply kv_hi_lookup_none; [apply (rep_sorted _ _ _ Hrep)|done|congruence].
  - by rewrite kv_lookup_hi, Hh.
Qed.

(** *** Pointer updates *)

(** The two heaps have the same nodes up to their pointers. *)
Definition same_nodes h h' : Prop :=
  ∀ x, (λ n, (Key n, Value n, length (Forward n))) <$> h !! x
     = (λ n, (Key n, Value n, length (Forward n))) <$> h' !! x.

Lemma same_nodes_refl h : same_nodes h h.
Proof. done. Qed.

Lemma same_nodes_trans h1 h2 h3 : same_nodes h1 h2 → same_nodes h2 h3 → same_nodes h1 h3.
Proof. intros H1 H2 x. by rewrite H1. Qed.

Lemma same_nodes_height h h' x : same_nodes h h' → height h x = height h' x.
Proof. intros Hs. specialize (Hs x). unfold height. by destruct (h !! x), (h' !! x); simplify_eq/=. Qed.

Lemma same_nodes_node_is h h' x kv : same_nodes h h' → node_is h x kv → node_is h' x kv.
Proof.
  intros Hs (n & Hn & Hk & Hv). specialize (Hs x). rewrite Hn in Hs.
  destruct (h' !! x) as [n'|] eqn:Hn'; simplify_eq/=. exists n'. split_and!; congruence.
Qed.

Lemma same_nodes_None h h' x : same_nodes h h' → h !! x = None → h' !! x = None.
Proof. intros Hs Hx. specialize (Hs x). rewrite Hx in Hs. by destruct (h' !! x). Qed.

Lemma set_forward_spec h x i p :
  i < height h x →
  ∃ h', set_forward h x i p = Some h' ∧ same_nodes h h' ∧
    ∀ y j, forward h' y j = if decide (y = x ∧ j = i) then Some p else forward h y j.
Proof.
  unfold height, set_forward. destruct (h !! x) as [n|] eqn:Hx; simpl; [|lia]. intros Hi.
  rewrite decide_True by done. eexists. split_and!; [done|..].
  - intros y. destruct (decide (y = x)) as [->|].
    + rewrite lookup_insert_eq, Hx. simpl. by rewrite length_insert.
    + by rewrite lookup_insert_ne.
  - intros y j. unfold forward. destruct (decide (y = x)) as [->|].
    + rewrite lookup_insert_eq, Hx. simpl. case_decide as Hj.
      * destruct Hj as [_ ->]. by apply list_lookup_insert_eq.
      * apply list_lookup_insert_ne. naive_solver.
    + rewrite lookup_insert_ne by done. rewrite decide_False by naive_solver. done.
Qed.

Lemma link_spec h update new n :
  n ≤ height h new →
  (∀ i, i < n → ∃ u, pointer_at update i = Some u ∧ u ≠ new ∧ i < height h u) →
  ∃ h', link n h update new = Some h' ∧ same_nodes h h' ∧
    (∀ x i, x ≠ new → forward h' x i =
       if decide (i < n ∧ pointer_at update i = Some x) then Some (Some new) else forward h x i) ∧
    (∀ i, forward h' new i =
       if decide (i < n) then u ← pointer_at update i; forward h u i else forward h new i).
Proof.
  induction n as [|n IH]; intros Hnew Hu.
  { exists h. split_and!; [done|apply same_nodes_refl|..]; intros; by rewrite decide_False by lia. }
  destruct IH as (h1 & Hl & Hs1 & Hx1 & Hn1); [lia|intros; apply Hu; lia|].
  destruct (Hu n) as (u & Hun & Hune & Hut); [lia|].
  simpl. rewrite Hl. simpl. rewrite Hun. simpl.
  assert (forward h1 u n = forward h u n) as Hfu
    by (rewrite Hx1 by done; by rewrite decide_False by lia).
  destruct (forward h u n) as [p|] eqn:Hp; [|exfalso].
  2: { unfold forward, height in *. destruct (h !! u); simpl in *; [|lia].
       apply lookup_ge_None in Hp. lia. }
  rewrite Hfu. simpl.
  destruct (set_forward_spec h1 new n p) as (h2 & -> & Hs2 & Hf2);
    [rewrite <-(same_nodes_height _ _ _ Hs1); lia|]. simpl.
  destruct (set_forward_spec h2 u n (Some new)) as (h3 & -> & Hs3 & Hf3);
    [rewrite <-(same_nodes_height _ _ _ Hs2), <-(same_nodes_height _ _ _ Hs1); lia|].
  exists h3. split_and!; [done|eauto using same_nodes_trans|..].
  - intros x i Hx. rewrite Hf3, Hf2, Hx1 by done.
    rewrite (decide_False (P := x = new ∧ i = n)) by naive_solver.
    destruct (decide (i = n)) as [->|Hi].
    + rewrite (decide_False (P := n < n ∧ _)) by lia.
      repeat case_decide; naive_solver lia.
    + rewrite (decide_False (P := x = u ∧ i = n)) by naive_solver.
      apply decide_ext. split; intros [? ?]; split; (done || lia).
  - intros i. rewrite Hf3, Hf2, Hn1. rewrite (decide_False (P := new = u ∧ i = n)) by naive_solver.
    destruct (decide (i = n)) as [->|Hi].
    + rewrite decide_True, (decide_True (P := n < S n)) by (done || lia). rewrite Hun. simpl. done.
    + rewrite (decide_False (P := new = new ∧ i = n)) by naive_solver.
      apply decide_ext. lia.
Qed.

Lemma unlink_spec h update y n i :
  (∀ j, i ≤ j < i + n → ∃ u p, pointer_at update j = Some u ∧ u ≠ y ∧
     forward h u j = Some p ∧ (p = Some y ↔ j < height h y)) →
  height h y ≤ i + n →
  ∃ h', unlink n i h update y = Some h' ∧ same_nodes h h' ∧
    ∀ x j, forward h' x j =
      if decide (i ≤ j < height h y ∧ pointer_at update j = Some x) then forward h y j
      else forward h x j.
Proof.
  revert h i. induction n as [|n IH]; intros h i Hu Hy.
  { exists h. split_and!; [done|done|]. intros. by rewrite decide_False by lia. }
  destruct (Hu i) as (u & p & Hui & Hune & Hp & Hiff); [lia|].
  simpl. rewrite Hui. simpl. rewrite Hp. simpl. case_decide as Hpy.
  2: { exists h. split_and!; [done|done|]. intros. rewrite decide_False; [done|].
       intros [? _]. apply Hpy, Hiff. lia. }
  apply Hiff in Hpy as Hiy. destruct (forward h y i) as [q|] eqn:Hq; [|exfalso].
  2: { unfold forward, height in *. destruct (h !! y); simpl in *; [|lia].
       apply lookup_ge_None in Hq. lia. }
  simpl. destruct (set_forward_spec h u i q) as (h1 & -> & Hs1 & Hf1);
    [by eapply forward_height|]. simpl.
  assert (∀ j, forward h1 y j = forward h y j) as Hfy
    by (intros; rewrite Hf1; by rewrite decide_False by naive_solver).
  pose proof (same_nodes_height _ _ y Hs1) as Hhy.
  destruct (IH h1 (S i)) as (h2 & Hun & Hs2 & Hf2).
  - intros j Hj. destruct (Hu j) as (u' & p' & ? & ? & ? & ?); [lia|].
    exists u', p'. rewrite <-Hhy, Hf1, decide_False by lia. done.
  - lia.
  - exists h2. split_and!; [done|eauto using same_nodes_trans|].
    intros x j. rewrite Hf2, Hfy, Hf1, <-Hhy.
    destruct (decide (j = i)) as [->|Hj].
    + rewrite (decide_False (P := S i ≤ i < _ ∧ _)) by lia.
      destruct (decide (x = u)) as [->|Hx].
      * by rewrite !decide_True by (done || (split; [lia|done])).
      * rewrite !decide_False; naive_solver.
    + rewrite (decide_False (P := x = u ∧ j = i)) by naive_solver.
      apply decide_ext. split; intros [? ?]; (split; [lia|done]).
Qed.

Lemma shrink_level_spec h head l level :
  linked h head l → level < height h head → Forall (λ x, height h x ≤ S level) l →
  ∃ level', shrink_level h head level = Some level' ∧ level' ≤ level ∧
    Forall (λ x, height h x ≤ S level') l.
Proof.
  intros Hl. induction level as [|level IH]; intros Hlt Hall; [by exists 0|].
  simpl. rewrite (Hl [] head l (S level) eq_refl Hlt). simpl.
  destruct (next_at (height h) (S level) l) as [y|] eqn:Hn; [by exists (S level)|].
  apply next_at_None in Hn. destruct IH as (level' & -> & ? & ?); [lia|done|].
  exists level'. split_and!; [done|lia|done].
Qed.

(** *** Splicing the chain *)

Lemma chain_cases (head : loc) lo y hi p x s :
  head :: lo ++ y :: hi = p ++ x :: s →
  (∃ s0, position head lo x s0 ∧ s = s0 ++ y :: hi) ∨ (x = y ∧ s = hi) ∨
  (∃ p', hi = p' ++ x :: s).
Proof.
  intros Heq. change (head :: lo ++ y :: hi) with ((head :: lo) ++ y :: hi) in Heq.
  apply app_eq_inv in Heq as [([|a k] & H1 & H2)|(k & H1 & H2)]; simplify_eq/=.
  - by right; left.
  - left. exists k. split; [by exists p|done].
  - destruct k as [|a k]; simplify_eq/=; [by right; left|]. right; right. by exists k.
Qed.

Lemma linked_insert h h' head lo new hi update n :
  NoDup (head :: lo ++ new :: hi) →
  linked h head (lo ++ hi) → update_ok h head lo update n →
  height h' new = n → (∀ x, x ≠ new → height h' x = height h x) →
  (∀ x i, x ≠ new → forward h' x i =
     if decide (i < n ∧ pointer_at update i = Some x) then Some (Some new) else forward h x i) →
  (∀ i, i < n → forward h' new i = u ← pointer_at update i; forward h u i) →
  linked h' head (lo ++ new :: hi).
Proof.
  intros Hnd Hl Hu Hn Hh Hx Hnew p x s i Heq Hi.
  assert (∀ z, z ∈ head :: lo ++ hi → z ≠ new) as Hne.
  { intros z Hz ->. apply NoDup_cons in Hnd as [Hni Hnd].
    apply NoDup_app in Hnd as (_ & Hd & Hnd). apply NoDup_cons in Hnd as [? _]. set_solver. }
  assert (∀ l, (∀ z, z ∈ l → z ∈ lo ++ hi) → next_at (height h') i l = next_at (height h) i l) as Hext.
  { intros l Hin. apply next_at_ext. intros z Hz. apply Hh, Hne. right. auto. }
  assert (NoDup (head :: lo)) as Hndlo.
  { change (NoDup ((head :: lo) ++ new :: hi)) in Hnd. by apply NoDup_app in Hnd as [? _]. }
  apply chain_cases in Heq as [(s0 & Hpos & ->)|[[-> ->]|(p' & ->)]].
  - pose proof (position_elem _ _ _ _ Hpos) as Hxin.
    assert (x ≠ new) as Hxn by (apply Hne; set_solver).
    rewrite Hh in Hi by done. rewrite Hx by done. rewrite next_at_app. simpl.
    rewrite (Hext s0), (Hext hi) by (intros z Hz; try apply (position_suffix _ _ _ _ Hpos) in Hz; set_solver).
    rewrite Hn. destruct Hpos as [p0 Hp0] eqn:HposE.
    assert (forward h x i = Some (next_at (height h) i (s0 ++ hi))) as Hold.
    { apply (Hl p0); [|done]. rewrite app_comm_cons, Hp0. by rewrite <-(assoc (++)). }
    rewrite next_at_app in Hold. clear HposE.
    destruct (decide (i < n)) as [Hin|Hin].
    + destruct (Hu i Hin) as (u & Hui & Hpu). destruct (next_at (height h) i s0) as [z|] eqn:Hz.
      * rewrite decide_False; [done|]. intros [_ Hux]. rewrite Hui in Hux. injection Hux as ->.
        destruct Hpu as (s1 & Hpos1 & _ & Hs1).
        rewrite (position_unique _ _ _ _ _ Hndlo Hpos1 (ex_intro _ p0 Hp0)) in Hs1. congruence.
      * assert (u = x) as ->.
        { eapply pred_at_unique; [done|exact Hpu|]. exists s0. split_and!; [by exists p0|done|done]. }
        by rewrite decide_True.
    + rewrite decide_False by lia. done.
  - rewrite Hn in Hi. rewrite Hnew by done. destruct (Hu i Hi) as (u & -> & (s1 & Hpos & Hiu & Hs1)).
    simpl. destruct Hpos as [p0 Hp0].
    rewrite (Hl p0 u (s1 ++ hi)); [|by rewrite app_comm_cons, Hp0, <-(assoc (++))|done].
    rewrite next_at_app, Hs1. f_equal. symmetry. apply Hext. set_solver.
  - assert (x ≠ new) as Hxn by (apply Hne; set_solver).
    rewrite Hx, Hext by set_solver. rewrite Hh in Hi by done. rewrite decide_False.
    + apply (Hl (head :: lo ++ p')); [|done]. by rewrite <-app_comm_cons, <-(assoc (++)).
    + intros [Hin Hux]. destruct (Hu i Hin) as (u & Hui & (s1 & Hpos & _)).
      rewrite Hui in Hux. injection Hux as ->. apply position_elem in Hpos.
      change (NoDup ((head :: lo) ++ new :: p' ++ x :: s)) in Hnd.
      apply NoDup_app in Hnd as (_ & Hd & _). apply (Hd x Hpos). set_solver.
Qed.

Lemma linked_delete h h' head lo y hi update :
  NoDup (head :: lo ++ y :: hi) →
  linked h head (lo ++ y :: hi) → update_ok h head lo update (height h y) →
  (∀ x, height h' x = height h x) →
  (∀ x j, forward h' x j =
     if decide (0 ≤ j < height h y ∧ pointer_at update j = Some x) then forward h y j
     else forward h x j) →
  linked h' head (lo ++ hi).
Proof.
  intros Hnd Hl Hu Hh Hx p x s i Heq Hi.
  rewrite Hh in Hi. rewrite (next_at_ext _ (height h)) by auto. rewrite Hx.
  change (NoDup ((head :: lo) ++ y :: hi)) in Hnd. apply NoDup_app in Hnd as (Hndlo & Hd & _).
  change (head :: lo ++ hi) with ((head :: lo) ++ hi) in Heq.
  assert ((∃ s0, position head lo x s0 ∧ s = s0 ++ hi) ∨ (∃ p', hi = p' ++ x :: s))
    as [(s0 & [p0 Hp0] & ->)|(p' & ->)].
  { apply app_eq_inv in Heq as [([|a k] & H1 & H2)|(k & H1 & H2)]; simplify_eq/=.
    - right. by exists [].
    - left. exists k. split; [by exists p|done].
    - right. by exists k. }
  - pose proof (Hl p0 x (s0 ++ y :: hi) i) as Hold. rewrite app_comm_cons, Hp0, <-(assoc (++)) in Hold.
    specialize (Hold eq_refl Hi). rewrite next_at_app in Hold |- *. simpl in Hold.
    destruct (decide (i < height h y)) as [Hin|Hin]; [|by rewrite decide_False by lia].
    destruct (Hu i Hin) as (u & Hui & Hpu). destruct (next_at (height h) i s0) as [z|] eqn:Hz.
    + rewrite decide_False; [done|]. intros [_ Hux]. rewrite Hui in Hux. injection Hux as ->.
      destruct Hpu as (s1 & Hpos1 & _ & Hs1).
      rewrite (position_unique _ _ _ _ _ Hndlo Hpos1 (ex_intro _ p0 Hp0)) in Hs1. congruence.
    + assert (u = x) as ->.
      { eapply pred_at_unique; [done|exact Hpu|]. exists s0. split_and!; [by exists p0|done|done]. }
      rewrite decide_True by (split; [lia|done]). by apply (Hl (head :: lo)).
  - rewrite decide_False.
    + apply (Hl (head :: lo ++ y :: p')); [|done].
      by rewrite <-app_comm_cons, <-(assoc (++)), <-app_comm_cons.
    + intros [[_ Hin] Hux]. destruct (Hu i Hin) as (u & Hui & (s1 & Hpos & _)).
      rewrite Hui in Hux. injection Hux as ->. apply position_elem in Hpos.
      apply (Hd x Hpos). set_solver.
Qed.

(** *** Insert *)

Lemma randomLevel_lt coins level : level < MaxLevel → randomLevel coins level < MaxLevel.
Proof.
  revert level. induction coins as [|[] coins IH]; intros level H; simpl; [done| |done].
  case_decide; [apply IH; unfold MaxLevel in *; lia|done].
Qed.

Lemma raise_update (update : list (option loc)) (p : option loc) a m i :
  foldl (λ u i, <[i := p]> u) update (seq a m) !! i =
  if decide (a ≤ i < a + m ∧ i < length update) then Some p else update !! i.
Proof.
  revert a update. induction m as [|m IH]; intros a update; simpl.
  { by rewrite decide_False by lia. }
  rewrite IH, length_insert. case_decide.
  - by rewrite decide_True by lia.
  - destruct (decide (i = a)) as [->|].
    + case_decide; [apply list_lookup_insert_eq; lia|].
      rewrite list_insert_ge by lia. done.
    + rewrite list_lookup_insert_ne, decide_False by lia. done.
Qed.

Lemma pred_at_above sl lo hi kvs i :
  rep sl (lo ++ hi) kvs → Level sl < i → i < MaxLevel →
  pred_at (heap sl) (Head sl) lo i (Head sl).
Proof.
  intros Hrep Hi Hm. exists lo. split_and!; [apply position_head|by rewrite (rep_head _ _ _ Hrep)|].
  apply next_at_None. pose proof (rep_height _ _ _ Hrep) as Hh.
  apply Forall_app in Hh as [Hh _]. eapply Forall_impl; [exact Hh|]. simpl. lia.
Qed.

Lemma update_ok_raise sl lo hi kvs update newLevel :
  rep sl (lo ++ hi) kvs → length update = MaxLevel → newLevel < MaxLevel →
  update_ok (heap sl) (Head sl) lo update (S (Level sl)) →
  update_ok (heap sl) (Head sl) lo
    (if decide (Level sl < newLevel)
     then foldl (λ u i, <[i := Some (Head sl)]> u) update (seq (S (Level sl)) (newLevel - Level sl))
     else update) (S newLevel).
Proof.
  intros Hrep Hlen Hnl Hu i Hi. case_decide; [|apply Hu; lia].
  unfold pointer_at. rewrite raise_update. case_decide.
  - exists (Head sl). split; [done|]. eapply pred_at_above; [done|lia|lia].
  - apply Hu. lia.
Qed.

Lemma rep_fresh sl l kvs : rep sl l kvs → next_loc sl ∉ Head sl :: l.
Proof.
  intros Hrep Hin. pose proof (rep_alloc _ _ _ Hrep (next_loc sl) (le_n _)) as Hnone.
  assert (1 ≤ height (heap sl) (next_loc sl)) as H.
  { apply elem_of_cons in Hin as [->|Hin].
    - rewrite (rep_head _ _ _ Hrep). unfold MaxLevel. lia.
    - pose proof (rep_height _ _ _ Hrep) as Hh. rewrite Forall_forall in Hh. apply Hh, Hin. }
  unfold height in H. rewrite Hnone in H. simpl in H. lia.
Qed.

Lemma node_is_mono h h' l kvs :
  (∀ x, x ∈ l → ∀ kv, node_is h x kv → node_is h' x kv) →
  Forall2 (node_is h) l kvs → Forall2 (node_is h') l kvs.
Proof.
  intros Hm. induction 1 as [|x kv l kvs Hx _ IH]; constructor.
  - apply Hm; [by left|done].
  - apply IH. intros z Hz. apply Hm. by right.
Qed.

Lemma NoDup_fresh_chain (head : loc) lo new hi :
  NoDup (head :: lo ++ hi) → new ∉ head :: lo ++ hi → NoDup (head :: lo ++ new :: hi).
Proof.
  intros Hnd Hni. change (NoDup ((head :: lo) ++ hi)) in Hnd.
  change (NoDup ((head :: lo) ++ new :: hi)). change (head :: lo ++ hi) with ((head :: lo) ++ hi) in Hni.
  apply NoDup_app in Hnd as (H1 & H2 & H3). rewrite elem_of_app in Hni.
  apply NoDup_app. split_and!; [done| |by apply NoDup_cons; naive_solver].
  intros x Hx Hin. apply elem_of_cons in Hin as [->|Hin]; [naive_solver|by eapply H2].
Qed.

(** Linking a new node of height [S newLevel] at the cut. *)
Lemma insert_new_spec sl lo hi kvs key v update newLevel :
  rep sl (lo ++ hi) kvs → kv_rest key kvs = kv_hi key kvs →
  Forall2 (node_is (heap sl)) lo (kv_lo key kvs) →
  Forall2 (node_is (heap sl)) hi (kv_hi key kvs) →
  newLevel < MaxLevel → update_ok (heap sl) (Head sl) lo update (S newLevel) →
  let new := next_loc sl in
  ∃ h', link (S newLevel) (<[new := mkNode key (Some v) (replicate (S newLevel) None)]> (heap sl))
          update new = Some h' ∧
    is_skiplist (mkSkipList h' (S new) (Head sl) (Nat.max (Level sl) newLevel) (Size sl + 1))
      (kv_insert key v kvs).
Proof.
  intros Hrep Hrest Hlo Hhi Hnl Hu new.
  set (h := <[new := _]> (heap sl)).
  pose proof (rep_fresh _ _ _ Hrep) as Hfresh. fold new in Hfresh.
  assert (height h new = S newLevel) as Hhn.
  { unfold height, h. rewrite lookup_insert_eq. simpl. by rewrite length_replicate. }
  assert (∀ x, x ≠ new → h !! x = heap sl !! x) as Hlk by (intros; unfold h; by rewrite lookup_insert_ne).
  assert (∀ x, x ≠ new → height h x = height (heap sl) x) as Hht by (intros; unfold height; by rewrite Hlk).
  assert (∀ x, x ∈ Head sl :: lo ++ hi → x ≠ new) as Hne by (intros x Hx ->; done).
  assert (∀ i, i < S newLevel → ∃ u, pointer_at update i = Some u ∧ u ≠ new ∧ i < height (heap sl) u) as Hpre.
  { intros i Hi. destruct (Hu i Hi) as (u & ? & (s & Hpos & Hlt & _)). exists u.
    split_and!; [done| |done]. apply Hne. apply position_elem in Hpos. set_solver. }
  destruct (link_spec h update new (S newLevel)) as (h' & Hl & Hs & Hf & Hfn); [lia| |].
  { intros i Hi. destruct (Hpre i Hi) as (u & ? & ? & ?). exists u. by rewrite Hht. }
  exists h'. split; [done|]. exists (lo ++ new :: hi).
  assert (∀ x, x ≠ new → height h' x = height (heap sl) x) as Hht'
    by (intros; rewrite <-(same_nodes_height _ _ _ Hs); auto).
  assert (height h' new = S newLevel) as Hhn' by by rewrite <-(same_nodes_height _ _ _ Hs).
  assert (NoDup (Head sl :: lo ++ new :: hi)) as Hnd
    by (apply NoDup_fresh_chain; [apply (rep_nodup _ _ _ Hrep)|done]).
  assert (∀ x, x ∈ lo ++ hi → ∀ kv, node_is (heap sl) x kv → node_is h' x kv) as Hmono.
  { intros x Hx kv (n & Hn & Hkv). apply (same_nodes_node_is h); [done|]. exists n.
    by rewrite Hlk by (apply Hne; by right). }
  constructor; simpl.
  - unfold kv_insert. rewrite Hrest. apply Forall2_app; [|constructor].
    + eapply node_is_mono; [|done]. intros x Hx. apply Hmono. set_solver.
    + apply (same_nodes_node_is h); [done|]. eexists. unfold h. by rewrite lookup_insert_eq.
    + eapply node_is_mono; [|done]. intros x Hx. apply Hmono. set_solver.
  - apply kv_insert_sorted, (rep_sorted _ _ _ Hrep).
  - done.
  - rewrite Hht' by (apply Hne; by left). apply (rep_head _ _ _ Hrep).
  - pose proof (rep_height _ _ _ Hrep) as Hh. rewrite Forall_forall in Hh. rewrite Forall_forall.
    intros x Hx. destruct (decide (x = new)) as [->|Hxn]; [rewrite Hhn'; lia|].
    rewrite Hht' by done. assert (x ∈ lo ++ hi) as Hin by set_solver. specialize (Hh x Hin). lia.
  - pose proof (rep_level _ _ _ Hrep). lia.
  - apply (linked_insert (heap sl) h' _ _ _ _ update (S newLevel)); auto;
      [apply (rep_linked _ _ _ Hrep)|..].
    + intros x i Hx. rewrite Hf by done. unfold forward. by rewrite Hlk.
    + intros i Hi. rewrite Hfn, decide_True by done.
      destruct (Hpre i Hi) as (u & -> & Hun & _). simpl. unfold forward. by rewrite Hlk.
  - intros x Hx. apply (same_nodes_None h); [done|]. rewrite Hlk by (unfold new in *; lia).
    apply (rep_alloc _ _ _ Hrep). unfold new in *. lia.
  - rewrite (rep_size _ _ _ Hrep), !length_app. simpl. lia.
Qed.

(** Replacing the value of a node. *)
Lemma replace_spec sl lo y hi kvs key v v0 n r :
  rep sl (lo ++ y :: hi) kvs → heap sl !! y = Some n → Key n = key →
  kv_hi key kvs = (key, v0) :: r →
  Forall2 (node_is (heap sl)) lo (kv_lo key kvs) → Forall2 (node_is (heap sl)) hi r →
  is_skiplist (mkSkipList (<[y := mkNode (Key n) (Some v) (Forward n)]> (heap sl))
                 (next_loc sl) (Head sl) (Level sl) (Size sl)) (kv_insert key v kvs).
Proof.
  intros Hrep Hn Hk Hhi Hlo Hr. set (h' := <[y := _]> (heap sl)).
  assert (∀ x, height h' x = height (heap sl) x) as Hht.
  { intros x. unfold height, h'. destruct (decide (x = y)) as [->|].
    - by rewrite lookup_insert_eq, Hn.
    - by rewrite lookup_insert_ne. }
  assert (∀ x i, forward h' x i = forward (heap sl) x i) as Hf.
  { intros x i. unfold forward, h'. destruct (decide (x = y)) as [->|].
    - by rewrite lookup_insert_eq, Hn.
    - by rewrite lookup_insert_ne. }
  pose proof (rep_nodup _ _ _ Hrep) as Hnd. apply NoDup_cons in Hnd as [_ Hnd].
  apply NoDup_app in Hnd as (_ & Hd & Hnd). apply NoDup_cons in Hnd as [Hyhi _].
  assert (∀ x, x ≠ y → ∀ kv, node_is (heap sl) x kv → node_is h' x kv) as Hmono.
  { intros x Hx kv (m & Hm & Hkv). exists m. unfold h'. by rewrite lookup_insert_ne. }
  exists (lo ++ y :: hi). destruct Hrep. constructor; simpl; try done.
  - unfold kv_insert, kv_rest. rewrite Hhi, decide_True by done.
    apply Forall2_app; [|constructor].
    + eapply node_is_mono; [|done]. intros x Hx. apply Hmono. intros ->. apply (Hd y Hx). by left.
    + eexists. unfold h'. by rewrite lookup_insert_eq.
    + eapply node_is_mono; [|done]. intros x Hx. apply Hmono. by intros ->.
  - by apply kv_insert_sorted.
  - by rewrite Hht.
  - eapply Forall_impl; [done|]. intros x. by rewrite Hht.
  - intros p x s i Heq Hi. rewrite Hf, (next_at_ext _ (height (heap sl))) by auto.
    rewrite Hht in Hi. eauto.
  - intros x Hx. unfold h'. rewrite lookup_insert_ne; [auto|].
    intros ->. rewrite rep_alloc0 in Hn by done. done.
Qed.

(** [Insert] never panics or loops, and adds or replaces exactly one entry. *)
Lemma Insert_spec coins sl kvs key v :
  is_skiplist sl kvs →
  ∃ sl', Insert coins key v sl = Some sl' ∧ is_skiplist sl' (kv_insert key v kvs).
Proof.
  intros [l Hrep]. destruct (rep_cut _ _ _ key Hrep) as (lo & hi & -> & Hlo & Hhi & Hcut).
  destruct (find_path_spec _ _ _ _ _ Hrep Hcut) as (cur & u & Hfp & Hfw & Hu & Hlen).
  pose proof (randomLevel_lt coins 0) as Hnl. specialize (Hnl ltac:(unfold MaxLevel; lia)).
  pose proof (update_ok_raise _ _ _ _ _ _ Hrep Hlen Hnl Hu) as Hu'.
  pose proof (cut_head _ _ _ _ Hhi) as Hh.
  assert (kv_rest key kvs = kv_hi key kvs → ∃ h', _ ∧ _) as Hins
    by (intros Hr; exact (insert_new_spec _ _ _ _ key v _ _ Hrep Hr Hlo Hhi Hnl Hu')).
  unfold Insert. rewrite Hfp. cbn [mbind option_bind]. rewrite Hfw. cbn [mbind option_bind].
  destruct (head hi) as [y|].
  - destruct Hh as (n & k & v0 & r & hi' & -> & Hkv & Hn & Hk & Hv & Hr).
    rewrite Hn. cbn [mbind option_bind]. destruct (decide (Key n = key)) as [Hkey|Hkey].
    + eexists. split; [done|]. eapply replace_spec; try done. by rewrite Hkv, <-Hkey, Hk.
    + destruct Hins as (h' & -> & ?); [|by eexists].
      unfold kv_rest. rewrite Hkv. by rewrite decide_False by congruence.
  - destruct Hins as (h' & -> & ?); [|by eexists]. unfold kv_rest. by rewrite Hh.
Qed.

(** *** Delete *)

Lemma delete_unlink sl lo y hi kvs update :
  rep sl (lo ++ y :: hi) kvs → update_ok (heap sl) (Head sl) lo update (S (Level sl)) →
  ∃ h', unlink (S (Level sl)) 0 (heap sl) update y = Some h' ∧ same_nodes (heap sl) h' ∧
    linked h' (Head sl) (lo ++ hi).
Proof.
  intros Hrep Hu. pose proof (rep_nodup _ _ _ Hrep) as Hnd.
  pose proof Hnd as Hnd'. change (NoDup ((Head sl :: lo) ++ y :: hi)) in Hnd'.
  apply NoDup_app in Hnd' as (_ & Hd & Hnd'). apply NoDup_cons in Hnd' as [Hyhi _].
  pose proof (rep_height _ _ _ Hrep) as Hh. apply Forall_app in Hh as [_ Hh].
  inversion Hh as [|? ? Hhy _]; subst.
  destruct (unlink_spec (heap sl) update y (S (Level sl)) 0) as (h' & Hun & Hs & Hf); [|lia|].
  - intros j Hj. destruct (Hu j) as (u & Huj & (s & [p Hp] & Hju & Hn)); [lia|].
    exists u, (next_at (height (heap sl)) j (s ++ y :: hi)). split_and!; [done|..].
    + intros ->. apply (Hd y); [|by left]. rewrite Hp. set_solver.
    + apply (rep_linked _ _ _ Hrep p); [|done]. by rewrite app_comm_cons, Hp, <-(assoc (++)).
    + rewrite next_at_app, Hn. simpl. case_decide; [done|]. split; [|lia].
      intros (l1 & l2 & -> & _)%next_at_Some. set_solver.
  - exists h'. split_and!; [done..|].
    apply (linked_delete (heap sl) h' _ _ y _ update Hnd); [apply (rep_linked _ _ _ Hrep)|..|done].
    + intros i Hi. apply Hu. lia.
    + intros x. symmetry. by apply same_nodes_height.
Qed.

Lemma delete_found_spec sl lo y hi kvs key v0 r update :
  rep sl (lo ++ y :: hi) kvs → kv_hi key kvs = (key, v0) :: r →
  Forall2 (node_is (heap sl)) lo (kv_lo key kvs) → Forall2 (node_is (heap sl)) hi r →
  update_ok (heap sl) (Head sl) lo update (S (Level sl)) →
  ∃ h' level, unlink (S (Level sl)) 0 (heap sl) update y = Some h' ∧
    shrink_level h' (Head sl) (Level sl) = Some level ∧
    is_skiplist (mkSkipList h' (next_loc sl) (Head sl) level (Size sl - 1)) (kv_delete key kvs).
Proof.
  intros Hrep Hhi Hlo Hr Hu.
  destruct (delete_unlink _ _ _ _ _ _ Hrep Hu) as (h' & Hun & Hs & Hl).
  assert (∀ x, height h' x = height (heap sl) x) as Hht
    by (intros; symmetry; by apply same_nodes_height).
  assert (Forall (λ x, 1 ≤ height (heap sl) x ≤ S (Level sl)) (lo ++ hi)) as Hh.
  { pose proof (rep_height _ _ _ Hrep) as Hh. rewrite Forall_app, Forall_cons in Hh.
    rewrite Forall_app. naive_solver. }
  pose proof (rep_level _ _ _ Hrep) as Hlev. pose proof (rep_head _ _ _ Hrep) as Hhead.
  destruct (shrink_level_spec h' (Head sl) (lo ++ hi) (Level sl)) as (level & Hsl & Hle & Hall);
    [done|rewrite Hht; lia|eapply Forall_impl; [exact Hh|]; intros x; simpl; rewrite Hht; lia|].
  exists h', level. split_and!; [done..|]. exists (lo ++ hi). constructor; simpl.
  - unfold kv_delete, kv_rest. rewrite Hhi, decide_True by done.
    apply Forall2_app; (eapply node_is_mono; [|done]); intros; by eapply same_nodes_node_is.
  - apply kv_delete_sorted, (rep_sorted _ _ _ Hrep).
  - pose proof (rep_nodup _ _ _ Hrep) as Hnd. change (NoDup ((Head sl :: lo) ++ y :: hi)) in Hnd.
    change (NoDup ((Head sl :: lo) ++ hi)). apply NoDup_app in Hnd as (? & Hd & [_ ?]%NoDup_cons).
    apply NoDup_app. split_and!; [done| |done]. intros x Hx Hin. apply (Hd x Hx). by right.
  - by rewrite Hht.
  - rewrite Forall_forall in Hh, Hall |- *. intros x Hx. split; [rewrite Hht|auto]. by apply Hh.
  - lia.
  - done.
  - intros x Hx. apply (same_nodes_None _ _ _ Hs), (rep_alloc _ _ _ Hrep), Hx.
  - rewrite (rep_size _ _ _ Hrep), !length_app. simpl. lia.
Qed.

Lemma kv_delete_absent key kvs : kv_sorted kvs → kv_map kvs !! key = None → kv_delete key kvs = kvs.
Proof.
  intros Hs Hn. unfold kv_delete. rewrite (kv_split key kvs) at 3. f_equal.
  rewrite kv_lookup_hi in Hn. unfold kv_rest.
  destruct (kv_hi key kvs) as [|[k v] r]; [done|]. by case_decide.
Qed.

(** [Delete] never panics or loops, says whether the key was there, and
    removes exactly that entry. *)
Lemma Delete_spec sl kvs key :
  is_skiplist sl kvs →
  ∃ sl', Delete key sl = Some (bool_decide (is_Some (kv_map kvs !! key)), sl') ∧
    is_skiplist sl' (kv_delete key kvs).
Proof.
  intros [l Hrep]. destruct (rep_cut _ _ _ key Hrep) as (lo & hi & -> & Hlo & Hhi & Hcut).
  destruct (find_path_spec _ _ _ _ _ Hrep Hcut) as (cur & u & Hfp & Hfw & Hu & Hlen).
  pose proof (rep_sorted _ _ _ Hrep) as Hs. pose proof (cut_head _ _ _ _ Hhi) as Hh.
  unfold Delete. rewrite Hfp. cbn [mbind option_bind]. rewrite Hfw. cbn [mbind option_bind].
  assert (kv_map kvs !! key = None → ∃ sl', Some (false, sl) = Some (bool_decide
    (is_Some (kv_map kvs !! key)), sl') ∧ is_skiplist sl' (kv_delete key kvs)) as Habsent.
  { intros Hn. exists sl. rewrite bool_decide_eq_false_2 by (rewrite Hn; by intros [? ?]).
    rewrite kv_delete_absent by done. split; [done|]. by eexists. }
  destruct (head hi) as [y|].
  - destruct Hh as (n & k & v0 & r & hi' & -> & Hkv & Hn & Hk & Hv & Hr).
    rewrite Hn. cbn [mbind option_bind]. case_decide as Hkey.
    + rewrite Hkey in Hk. subst k.
      destruct (delete_found_spec _ _ _ _ _ _ _ _ _ Hrep Hkv Hlo Hr Hu) as (h' & lv & -> & Hsl & Hrep').
      cbn [mbind option_bind]. rewrite Hsl. cbn [mbind option_bind].
      rewrite bool_decide_eq_true_2; [by eexists|].
      rewrite kv_lookup_hi, Hkv, decide_True by done. by eexists.
    + apply Habsent. eapply kv_hi_lookup_none; [done..|congruence].
  - apply Habsent. by rewrite kv_lookup_hi, Hh.
Qed.

(** *** The iterator *)

Lemma collect_spec h head l p x s kvs' fuel :
  linked h head l → Forall (λ x, 1 ≤ height h x) (head :: l) →
  head :: l = p ++ x :: s → Forall2 (node_is h) s kvs' → length s < fuel →
  collect fuel h (Some x) = Some ((λ kv, (kv.1, Some kv.2)) <$> kvs').
Proof.
  intros Hl Ht. revert p x s kvs'. induction fuel as [|fuel IH]; intros p x s kvs' Heq Hs Hf; [lia|].
  simpl. rewrite Heq, Forall_app, Forall_cons in Ht. destruct Ht as (Htp & Htx & Hts).
  rewrite (Hl p x s 0 Heq) by lia. simpl. rewrite next_at_0 by done.
  destruct Hs as [|y [k v] s kvs' (n & Hn & Hk & Hv) Hs]; simpl in *; [done|].
  rewrite Hn. simpl. rewrite (IH (p ++ [x]) y s kvs').
  - simpl. by rewrite Hk, Hv.
  - by rewrite Heq, <-(assoc (++)).
  - done.
  - lia.
Qed.

Lemma entries_spec sl kvs :
  is_skiplist sl kvs → entries sl = Some ((λ kv, (kv.1, Some kv.2)) <$> kvs).
Proof.
  intros [l Hrep]. apply (collect_spec _ (Head sl) l [] (Head sl) l kvs).
  - apply (rep_linked _ _ _ Hrep).
  - constructor; [rewrite (rep_head _ _ _ Hrep); unfold MaxLevel; lia|].
    eapply Forall_impl; [apply (rep_height _ _ _ Hrep)|]. simpl. lia.
  - done.
  - apply (rep_nodes _ _ _ Hrep).
  - apply (rep_fuel _ _ _ Hrep).
Qed.

Lemma is_skiplist_sorted sl kvs : is_skiplist sl kvs → kv_sorted kvs.
Proof. intros [l Hrep]. apply (rep_sorted _ _ _ Hrep). Qed.

Lemma is_skiplist_Len sl kvs : is_skiplist sl kvs → Len sl = Z.of_nat (length kvs).
Proof.
  intros [l Hrep]. unfold Len. rewrite (rep_size _ _ _ Hrep).
  by rewrite (Forall2_length _ _ _ (rep_nodes _ _ _ Hrep)).
Qed.

Lemma NewSkipList_spec : is_skiplist NewSkipList [].
Proof.
  exists []. constructor; simpl; try done.
  - constructor.
  - apply NoDup_singleton.
  - unfold MaxLevel. lia.
  - intros p x s i Heq Hi. destruct p as [|a p]; [|by destruct p].
    injection Heq as <- <-. unfold forward, height, NewSkipList in *. cbn [heap Head] in *.
    rewrite lookup_singleton_eq in Hi |- *. cbn [from_option mbind option_bind Forward] in *.
    apply (lookup_replicate_2 MaxLevel). unfold MaxLevel. simpl in Hi. lia.
  - intros x Hx. apply lookup_singleton_ne. lia.
Qed.

(** ** The contract: a finite map with an ordered iterator *)

Inductive sl_op :=
  | OpInsert (coins : list bool) (key : string) (v : V)
  | OpDelete (key : string).

Definition run_op (o : sl_op) sl : option (SkipList V) :=
  match o with
  | OpInsert coins key v => Insert coins key v sl
  | OpDelete key => snd <$> Delete key sl
  end.

Fixpoint run_ops (os : list sl_op) sl : option (SkipList V) :=
  match os with
  | [] => Some sl
  | o :: os => sl ← run_op o sl; run_ops os sl
  end.

Definition map_op (m : gmap string V) (o : sl_op) : gmap string V :=
  match o with
  | OpInsert _ key v => <[key := v]> m
  | OpDelete key => delete key m
  end.

Lemma run_ops_spec os sl kvs :
  is_skiplist sl kvs →
  ∃ sl' kvs', run_ops os sl = Some sl' ∧ is_skiplist sl' kvs' ∧
    kv_map kvs' = foldl map_op (kv_map kvs) os.
Proof.
  revert sl kvs. induction os as [|o os IH]; intros sl kvs Hsl; [by exists sl, kvs|].
  destruct o as [coins key v|key]; simpl.
  - destruct (Insert_spec coins sl kvs key v Hsl) as (sl1 & -> & H1). simpl.
    destruct (IH _ _ H1) as (sl' & kvs' & ? & ? & Hm). rewrite kv_insert_map in Hm. by exists sl', kvs'.
  - destruct (Delete_spec sl kvs key Hsl) as (sl1 & -> & H1). simpl.
    destruct (IH _ _ H1) as (sl' & kvs' & ? & ? & Hm).
    rewrite kv_delete_map in Hm by by eapply is_skiplist_sorted. by exists sl', kvs'.
Qed.

(** C5: the skip list is a correct ordered map.  Any sequence of insertions
    (whatever the random levels) and deletions on a new skip list ends without
    a panic and without looping, and afterwards [Search] finds exactly the
    keys of the abstract map with their values, [Len] is the number of keys,
    and the iterator visits every entry once, in strictly increasing key order. *)
Theorem skiplist_refines_map (os : list sl_op) :
  ∃ sl kvs, run_ops os NewSkipList = Some sl ∧
    (∀ key, Search sl key = Some (foldl map_op ∅ os !! key)) ∧
    Len sl = Z.of_nat (size (foldl map_op (∅ : gmap string V) os)) ∧
    entries sl = Some ((λ kv, (kv.1, Some kv.2)) <$> kvs) ∧
    StronglySorted str_lt (fst <$> kvs) ∧
    (list_to_map kvs : gmap string V) = foldl map_op ∅ os.
Proof.
  destruct (run_ops_spec os _ _ NewSkipList_spec) as (sl & kvs & Hrun & Hsl & Hm).
  pose proof (is_skiplist_sorted _ _ Hsl) as Hs.
  change (kv_map []) with (∅ : gmap string V) in Hm.
  exists sl, kvs. rewrite <-Hm. split_and!; try done.
  - intros key. by apply Search_spec.
  - by rewrite length_kv_map, (is_skiplist_Len _ _ Hsl).
  - by apply entries_spec.
Qed.

(** [Delete] reports whether the key was present. *)
Theorem skiplist_delete_reports (os : list sl_op) (key : string) :
  ∃ sl sl', run_ops os NewSkipList = Some sl ∧
    Delete key sl = Some (bool_decide (is_Some (foldl map_op (∅ : gmap string V) os !! key)), sl').
Proof.
  destruct (run_ops_spec os _ _ NewSkipList_spec) as (sl & kvs & Hrun & Hsl & Hm).
  destruct (Delete_spec sl kvs key Hsl) as (sl' & Hd & _).
  exists sl, sl'. split; [done|]. rewrite Hd, Hm. done.
Qed.
End skiplist.
