(* ===== verification/Model.v ===== *)
(** * Shared data: [storage-node/internal/model] and [coordinator/internal/model]

    The records both services exchange: vector clocks, stored entries, commit
    log records, SSTable metadata, and the topology the coordinator keeps. *)

From S2P Require Import Prelude.

(** ** Vector clocks (the same type in both services) *)

Record VectorClockEntry := mkVCE {
  CoordinatorNodeID : string;
  LogicalTimestamp : Z;
}.

Record VectorClock := mkVC { Entries : list VectorClockEntry }.

Inductive VectorClockComparison := Identical | Before | After | Concurrent.

#[global] Instance VectorClockEntry_eq_dec : EqDecision VectorClockEntry.
Proof. solve_decision. Defined.
#[global] Instance VectorClock_eq_dec : EqDecision VectorClock.
Proof. solve_decision. Defined.
#[global] Instance VectorClockComparison_eq_dec : EqDecision VectorClockComparison.
Proof. solve_decision. Defined.

(** ** The storage node's records ([entry.go]) *)

Record KeyValueEntry := mkKVE {
  kv_TenantID : string;
  kv_Key : string;
  kv_Value : list byte;
  kv_VectorClock : VectorClock;
  kv_Timestamp : Z;
  kv_IsTombstone : bool;
}.

Inductive OperationType := OperationTypeWrite | OperationTypeRepair | OperationTypeDelete.

Record CommitLogEntry := mkCLE {
  cl_SequenceNumber : Z;
  cl_TenantID : string;
  cl_Key : string;
  cl_Value : list byte;
  cl_VectorClock : VectorClock;
  cl_Timestamp : Z;
  cl_OperationType : OperationType;
  cl_Checksum : Z;
}.

Record MemTableEntry := mkMTE {
  mt_Key : string;
  mt_Value : list byte;
  mt_VectorClock : VectorClock;
  mt_Timestamp : Z;
  mt_IsTombstone : bool;
}.

#[global] Instance KeyValueEntry_eq_dec : EqDecision KeyValueEntry.
Proof. solve_decision. Defined.
#[global] Instance OperationType_eq_dec : EqDecision OperationType.
Proof. solve_decision. Defined.
#[global] Instance CommitLogEntry_eq_dec : EqDecision CommitLogEntry.
Proof. solve_decision. Defined.
#[global] Instance MemTableEntry_eq_dec : EqDecision MemTableEntry.
Proof. solve_decision. Defined.

(** ** SSTable metadata ([sstable.go]) *)

Record KeyRange := mkKeyRange { StartKey : string; EndKey : string }.

Record SSTableMetadata := mkSSTableMetadata {
  SSTableID : string;
  sst_TenantID : string;
  sst_Level : Z;
  sst_Size : Z;
  sst_KeyRange : KeyRange;
  CreatedAt : Z;
  FilePath : string;
  IndexPath : string;
  BloomPath : string;
}.

(** ** The coordinator's topology ([hashring.go], [topology.go], [tenant.go]) *)

Inductive NodeStatus :=
  NodeStatusActive | NodeStatusBootstrapping | NodeStatusDraining | NodeStatusInactive.

Inductive NodeState := NodeStateNormal | NodeStateBootstrapping | NodeStateLeaving | NodeStateDown.

#[global] Instance NodeStatus_eq_dec : EqDecision NodeStatus.
Proof. solve_decision. Defined.
#[global] Instance NodeState_eq_dec : EqDecision NodeState.
Proof. solve_decision. Defined.

(** A hash range; the source writes it as [[Start, End)]. *)
Record TokenRange := mkTokenRange { Start : Z; End_ : Z }.

(** [PendingRangeInfo] and [LeavingRangeInfo] have the same fields. *)
Record RangeInfo := mkRangeInfo {
  Range : TokenRange;
  OldOwnerID : string;
  NewOwnerID : string;
  StreamingState : string;
}.

Record StorageNode := mkStorageNode {
  NodeID : string;
  Host : string;
  Port : Z;
  Status : NodeStatus;
  State : NodeState;
  VirtualNodes : Z;
  Tokens : list Z;
  PendingRanges : list RangeInfo;
  LeavingRanges : list RangeInfo;
  node_CreatedAt : Z;
  node_UpdatedAt : Z;
}.

Record VirtualNode := mkVirtualNode {
  VNodeID : string;
  Hash : Z;
  vn_NodeID : string;
}.

Record Tenant := mkTenant {
  TenantID : string;
  ReplicationFactor : Z;
  t_CreatedAt : Z;
  t_UpdatedAt : Z;
  Version : Z;
}.

Inductive PendingChangeStatus :=
  PendingChangeInProgress | PendingChangeCompleted | PendingChangeFailed | PendingChangeRolledBack.

#[global] Instance TokenRange_eq_dec : EqDecision TokenRange.
Proof. solve_decision. Defined.
#[global] Instance RangeInfo_eq_dec : EqDecision RangeInfo.
Proof. solve_decision. Defined.
#[global] Instance StorageNode_eq_dec : EqDecision StorageNode.
Proof. solve_decision. Defined.
#[global] Instance VirtualNode_eq_dec : EqDecision VirtualNode.
Proof. solve_decision. Defined.
#[global] Instance Tenant_eq_dec : EqDecision Tenant.
Proof. solve_decision. Defined.
#[global] Instance PendingChangeStatus_eq_dec : EqDecision PendingChangeStatus.
Proof. solve_decision. Defined.
