(* ===== verification/VectorClock.v ===== *)
(** * Vector clocks

    - [Ops]: [coordinator/internal/algorithm/vectorclock_ops.go] and [Equals]
      of [coordinator/internal/model/vectorclock.go];
    - [Service]: [coordinator/internal/service/vectorclock_service.go];
    - [Node]: [storage-node/internal/service/vectorclock_service.go] and the
      comparison of [storage-node/internal/service/compaction_service.go].

    Every function that ranges over a Go map does so in the order of the
    [MapRange] instance, about which the theorems assume nothing. *)

From S2P Require Import Prelude Model.
#[local] Open Scope Z_scope.

(** ** Definitions *)

Definition to_map_step (m : gmap string Z) (e : VectorClockEntry) : gmap string Z :=
  <[CoordinatorNodeID e := LogicalTimestamp e]> m.

(** [toMap]: a later entry of a node overwrites an earlier one. *)
Definition toMap (vc : VectorClock) : gmap string Z := foldl to_map_step ∅ (Entries vc).

(** [m[nodeID]] of a [map[string]int64]: zero when absent. *)
Definition get0 (m : gmap string Z) (n : string) : Z := default 0 (m !! n).

Section definitions.
Context `{MapRange}.

Definition fromMap (m : gmap string Z) : VectorClock :=
  mkVC ((λ kv, mkVCE kv.1 kv.2) <$> map_range m).

(** *** [VectorClockOps] *)

Definition all_nodes (m1 m2 : gmap string Z) : gmap string bool :=
  let nodes := foldl (λ s kv, <[kv.1 := true]> s) ∅ (map_range m1) in
  foldl (λ s kv, <[kv.1 := true]> s) nodes (map_range m2).

(** The flags [allBefore] and [allAfter] after one node. *)
Definition compare_step (m1 m2 : gmap string Z) (flags : bool * bool) (nodeID : string) : bool * bool :=
  let '(allBefore, allAfter) := flags in
  let ts1 := get0 m1 nodeID in
  let ts2 := get0 m2 nodeID in
  if ts1 <? ts2 then (allBefore, false)
  else if ts2 <? ts1 then (false, allAfter)
  else (allBefore, allAfter).

Definition Compare (vc1 vc2 : VectorClock) : VectorClockComparison :=
  let map1 := toMap vc1 in
  let map2 := toMap vc2 in
  let '(allBefore, allAfter) :=
    foldl (compare_step map1 map2) (true, true) (map_range (all_nodes map1 map2)).*1 in
  if allBefore && allAfter then Identical
  else if allBefore then Before
  else if allAfter then After
  else Concurrent.

Definition merge_step (merged : gmap string Z) (e : VectorClockEntry) : gmap string Z :=
  match merged !! CoordinatorNodeID e with
  | None => <[CoordinatorNodeID e := LogicalTimestamp e]> merged
  | Some existing =>
      if existing <? LogicalTimestamp e
      then <[CoordinatorNodeID e := LogicalTimestamp e]> merged else merged
  end.

Definition Merge (clocks : list VectorClock) : VectorClock :=
  fromMap (foldl (λ merged clock, foldl merge_step merged (Entries clock)) ∅ clocks).

Definition Increment (vc : VectorClock) (nodeID : string) : VectorClock :=
  let vcMap := toMap vc in
  fromMap (<[nodeID := i64 (get0 vcMap nodeID + 1)]> vcMap).

Definition GetMaxTimestamp (vc : VectorClock) : Z :=
  foldl (λ max e, if max <? LogicalTimestamp e then LogicalTimestamp e else max) 0 (Entries vc).

(** [VectorClock.Equals] of the coordinator's model. *)
Definition Equals (vc other : VectorClock) : bool :=
  if negb (length (Entries vc) =? length (Entries other))%nat then false
  else forallb (λ e, bool_decide (toMap vc !! CoordinatorNodeID e = Some (LogicalTimestamp e)))
         (Entries other).

(** *** The coordinator's [VectorClockService] *)

Record VectorClockService := mkVCService { nodeID : string; localTimestamp : Z }.

Definition NewVectorClockService (id : string) : VectorClockService := mkVCService id 0.

(** The parameter [nodeID] of the method is not used by the code. *)
Definition svc_Increment (s : VectorClockService) : VectorClock * VectorClockService :=
  let ts := i64 (localTimestamp s + 1) in
  (mkVC [mkVCE (nodeID s) ts], mkVCService (nodeID s) ts).

Definition svc_IncrementFrom (s : VectorClockService) (existing : VectorClock)
    : VectorClock * VectorClockService :=
  let ts := i64 (localTimestamp s + 1) in
  let vcMap := toMap existing in
  let ts := match vcMap !! nodeID s with
            | Some existingTS => if ts <=? existingTS then i64 (existingTS + 1) else ts
            | None => ts
            end in
  (fromMap (<[nodeID s := ts]> vcMap), mkVCService (nodeID s) ts).

(** *** The storage node's [VectorClockService] *)

Definition node_step_a (bMap : gmap string Z) (flags : bool * bool) (kv : string * Z) : bool * bool :=
  let '(aGreater, bGreater) := flags in
  match bMap !! kv.1 with
  | None => (true, bGreater)
  | Some bTS => if bTS <? kv.2 then (true, bGreater)
                else if kv.2 <? bTS then (aGreater, true) else (aGreater, bGreater)
  end.

Definition node_step_b (aMap : gmap string Z) (flags : bool * bool) (kv : string * Z) : bool * bool :=
  let '(aGreater, bGreater) := flags in
  if bool_decide (aMap !! kv.1 = None) && (0 <? kv.2) then (aGreater, true)
  else (aGreater, bGreater).

Definition verdict (flags : bool * bool) : Z :=
  let '(aGreater, bGreater) := flags in
  if aGreater && negb bGreater then 1
  else if negb aGreater && bGreater then -1 else 0.

Definition node_Compare (a b : VectorClock) : Z :=
  let aMap := toMap a in
  let bMap := toMap b in
  let flags := foldl (node_step_a bMap) (false, false) (map_range aMap) in
  verdict (foldl (node_step_b aMap) flags (map_range bMap)).

Definition node_Merge (a b : VectorClock) : VectorClock :=
  let merged := foldl (λ m kv, <[kv.1 := kv.2]> m) ∅ (map_range (toMap a)) in
  fromMap (foldl (λ m kv, merge_step m (mkVCE kv.1 kv.2)) merged (map_range (toMap b))).

Definition node_Increment (vc : VectorClock) (id : string) : VectorClock :=
  let vcMap := toMap vc in
  fromMap (<[id := i64 (get0 vcMap id + 1)]> vcMap).

(** *** [compareVectorClocks] of the compaction service *)

Definition compaction_step (map2 : gmap string Z) (flags : bool * bool) (kv : string * Z) : bool * bool :=
  let '(vc1Greater, vc2Greater) := flags in
  let ts2 := get0 map2 kv.1 in
  if ts2 <? kv.2 then (true, vc2Greater)
  else if kv.2 <? ts2 then (vc1Greater, true) else (vc1Greater, vc2Greater).

Definition compareVectorClocks (vc1 vc2 : VectorClock) : Z :=
  let map1 := toMap vc1 in
  let map2 := toMap vc2 in
  let flags := foldl (compaction_step map2) (false, false) (map_range map1) in
  verdict (foldl (node_step_b map1) flags (map_range map2)).
End definitions.

(** ** The order on clocks *)

(** The timestamp of a node in a clock. *)
Definition ts (vc : VectorClock) (n : string) : Z := get0 (toMap vc) n.

Definition vc_le (a b : VectorClock) : Prop := ∀ n, ts a n ≤ ts b n.

(** Clocks with the same timestamps; the order of the entries does not matter. *)
Definition vc_eq (a b : VectorClock) : Prop := ∀ n, ts a n = ts b n.

#[global] Instance vc_le_preorder : PreOrder vc_le.
Proof. split; [intros a n; lia|]. intros a b c H1 H2 n. specialize (H1 n). specialize (H2 n). lia. Qed.

#[global] Instance vc_eq_equivalence : Equivalence vc_eq.
Proof. split; [by intros a n|by intros a b H n|]. intros a b c H1 H2 n. by rewrite H1. Qed.

#[global] Instance vc_le_proper : Proper (vc_eq ==> vc_eq ==> iff) vc_le.
Proof. intros a a' Ha b b' Hb. split; intros H n; specialize (H n); by rewrite ?Ha, ?Hb in *. Qed.

(** A clock with one entry per node and no negative timestamp, which is what
    the coordinator issues. *)
Record vc_wf (vc : VectorClock) : Prop := {
  vc_nodup : NoDup (CoordinatorNodeID <$> Entries vc);
  vc_nonneg : Forall (λ e, 0 ≤ LogicalTimestamp e) (Entries vc);
}.

#[global] Instance vc_wf_dec vc : Decision (vc_wf vc).
Proof.
  refine (cast_if (decide (NoDup (CoordinatorNodeID <$> Entries vc) ∧
    Forall (λ e, 0 ≤ LogicalTimestamp e) (Entries vc)))); [by destruct_and!|].
  intros []. naive_solver.
Defined.

(** Every timestamp is positive. *)
Definition vc_pos (vc : VectorClock) : Prop := Forall (λ e, 0 < LogicalTimestamp e) (Entries vc).

Section lemmas.
Context `{MapRange}.

Lemma foldl_and {A} (step : bool * bool → A → bool * bool) (f g : A → bool) l b a :
  (∀ p q x, step (p, q) x = (p && f x, q && g x)) →
  foldl step (b, a) l = (b && forallb f l, a && forallb g l).
Proof.
  intros Hstep. revert b a. induction l as [|x l IH]; intros b a; simpl.
  - by rewrite !andb_true_r.
  - by rewrite Hstep, IH, !andb_assoc.
Qed.

Lemma foldl_or {A} (step : bool * bool → A → bool * bool) (f g : A → bool) l b a :
  (∀ p q x, step (p, q) x = (p || f x, q || g x)) →
  foldl step (b, a) l = (b || existsb f l, a || existsb g l).
Proof.
  intros Hstep. revert b a. induction l as [|x l IH]; intros b a; simpl.
  - by rewrite !orb_false_r.
  - by rewrite Hstep, IH, !orb_assoc.
Qed.

Lemma toMap_fromMap m : toMap (fromMap m) = m.
Proof.
  unfold toMap, fromMap. simpl. rewrite <-(list_to_map_range m) at 2.
  pose proof (NoDup_map_range m) as Hnd. revert Hnd.
  assert (∀ l (m0 : gmap string Z), NoDup l.*1 → (∀ k, k ∈ l.*1 → m0 !! k = None) →
    foldl to_map_step m0 ((λ kv, mkVCE kv.1 kv.2) <$> l) = list_to_map l ∪ m0) as Hgen.
  { induction l as [|[k v] l IH]; intros m0 Hnd Hdis; simpl; [by rewrite (left_id_L ∅ (∪))|].
    apply NoDup_cons in Hnd as [Hni Hnd]. rewrite IH; [|done|].
    - unfold to_map_step. simpl. rewrite <-insert_union_r.
      + by rewrite insert_union_l.
      + by apply not_elem_of_list_to_map_1.
    - intros k' Hk'. unfold to_map_step. simpl. rewrite lookup_insert_ne; [|by intros ->].
      apply Hdis. by right. }
  intros Hnd. rewrite Hgen; [by rewrite (right_id_L ∅ (∪))|done|]. intros. apply lookup_empty.
Qed.

Lemma elem_of_all_nodes m1 m2 n :
  n ∈ (map_range (all_nodes m1 m2)).*1 ↔ is_Some (m1 !! n) ∨ is_Some (m2 !! n).
Proof.
  assert (∀ l (s : gmap string bool), is_Some (foldl (λ s kv, <[kv.1 := true]> s) s l !! n)
    ↔ is_Some (s !! n) ∨ n ∈ (l : list (string * Z)).*1) as Hgen.
  { induction l as [|[k v] l IH]; intros s; simpl.
    - rewrite elem_of_nil. tauto.
    - rewrite IH, lookup_insert_is_Some', elem_of_cons. naive_solver. }
  assert (∀ {V} (m : gmap string V), n ∈ (map_range m).*1 ↔ is_Some (m !! n)) as Hm.
  { intros V m. rewrite list_elem_of_fmap. split.
    - intros ([k v] & -> & Hin%elem_of_map_range). by eexists.
    - intros [v Hv]. exists (n, v). split; [done|by apply elem_of_map_range]. }
  rewrite Hm. unfold all_nodes. rewrite !Hgen, !Hm, lookup_empty.
  split; [intros [[[? ?]|?]|?]; naive_solver|naive_solver].
Qed.

Lemma forallb_all_nodes m1 m2 (f : Z → Z → bool) :
  f 0 0 = true →
  forallb (λ n, f (get0 m1 n) (get0 m2 n)) (map_range (all_nodes m1 m2)).*1 = true ↔
  ∀ n, f (get0 m1 n) (get0 m2 n) = true.
Proof.
  intros H0. rewrite forallb_forall. split; [|auto]. intros Hall n.
  destruct (m1 !! n) eqn:H1, (m2 !! n) eqn:H2;
    try (apply Hall, list_elem_of_In, elem_of_all_nodes; rewrite H1, H2; by eauto).
  unfold get0. by rewrite H1, H2.
Qed.

Lemma Compare_le vc1 vc2 :
  (Compare vc1 vc2 = Identical ∨ Compare vc1 vc2 = Before ↔ vc_le vc1 vc2) ∧
  (Compare vc1 vc2 = Identical ∨ Compare vc1 vc2 = After ↔ vc_le vc2 vc1).
Proof.
  unfold Compare. rewrite (foldl_and _ (λ n, get0 (toMap vc1) n <=? get0 (toMap vc2) n)
    (λ n, get0 (toMap vc2) n <=? get0 (toMap vc1) n)).
  2: { intros p q n. unfold compare_step.
       destruct (Z.ltb_spec (get0 (toMap vc1) n) (get0 (toMap vc2) n)),
         (Z.ltb_spec (get0 (toMap vc2) n) (get0 (toMap vc1) n)),
         (Z.leb_spec (get0 (toMap vc1) n) (get0 (toMap vc2) n)),
         (Z.leb_spec (get0 (toMap vc2) n) (get0 (toMap vc1) n));
         rewrite ?andb_true_r, ?andb_false_r; try done; lia. }
  simpl.
  pose proof (forallb_all_nodes (toMap vc1) (toMap vc2) Z.leb eq_refl) as H1.
  pose proof (forallb_all_nodes (toMap vc1) (toMap vc2) (λ x y, Z.leb y x) eq_refl) as H2.
  assert (vc_le vc1 vc2 ↔ ∀ n, (get0 (toMap vc1) n <=? get0 (toMap vc2) n) = true) as ->.
  { unfold vc_le, ts. split; intros Hn n; specialize (Hn n); lia. }
  assert (vc_le vc2 vc1 ↔ ∀ n, (get0 (toMap vc2) n <=? get0 (toMap vc1) n) = true) as ->.
  { unfold vc_le, ts. split; intros Hn n; specialize (Hn n); lia. }
  rewrite <-H1, <-H2. destruct (forallb _ _), (forallb _ _); simpl; naive_solver.
Qed.

Lemma Compare_spec vc1 vc2 :
  (Compare vc1 vc2 = Identical ↔ vc_eq vc1 vc2) ∧
  (Compare vc1 vc2 = Before ↔ vc_le vc1 vc2 ∧ ¬ vc_le vc2 vc1) ∧
  (Compare vc1 vc2 = After ↔ vc_le vc2 vc1 ∧ ¬ vc_le vc1 vc2) ∧
  (Compare vc1 vc2 = Concurrent ↔ ¬ vc_le vc1 vc2 ∧ ¬ vc_le vc2 vc1).
Proof.
  destruct (Compare_le vc1 vc2) as [H1 H2].
  assert (vc_eq vc1 vc2 ↔ vc_le vc1 vc2 ∧ vc_le vc2 vc1) as ->.
  { split; [intros He; split; intros n; rewrite (He n); lia|].
    intros [Ha Hb] n. specialize (Ha n). specialize (Hb n). lia. }
  rewrite <-H1, <-H2. destruct (Compare vc1 vc2); naive_solver.
Qed.

(** *** Entries and the map they denote *)

Lemma toMap_elem_gen (m : gmap string Z) es n x :
  foldl to_map_step m es !! n = Some x → m !! n = Some x ∨ mkVCE n x ∈ es.
Proof.
  revert m. induction es as [|[k y] es IH]; intros m Hm; simpl in *; [by left|].
  apply IH in Hm as [Hm|Hm]; [|right; by right].
  unfold to_map_step in Hm. simpl in Hm. destruct (decide (k = n)) as [->|].
  - rewrite lookup_insert_eq in Hm. simplify_eq. right. by left.
  - rewrite lookup_insert_ne in Hm by done. by left.
Qed.

Lemma toMap_elem vc n x : toMap vc !! n = Some x → mkVCE n x ∈ Entries vc.
Proof. intros [Hm|Hm]%toMap_elem_gen; [|done]. by rewrite lookup_empty in Hm. Qed.

Lemma toMap_notin (m : gmap string Z) es n :
  n ∉ CoordinatorNodeID <$> es → foldl to_map_step m es !! n = m !! n.
Proof.
  revert m. induction es as [|[k y] es IH]; intros m Hni; simpl in *; [done|].
  apply not_elem_of_cons in Hni as [Hne Hni]. rewrite IH by done.
  by apply lookup_insert_ne.
Qed.

Lemma elem_toMap vc e : vc_wf vc → e ∈ Entries vc → ts vc (CoordinatorNodeID e) = LogicalTimestamp e.
Proof.
  intros [Hnd _]. unfold ts, get0, toMap. generalize (∅ : gmap string Z).
  revert Hnd. induction (Entries vc) as [|e' es IH]; intros Hnd m Hin; simpl in *; [by apply elem_of_nil in Hin|].
  apply NoDup_cons in Hnd as [Hni Hnd]. apply elem_of_cons in Hin as [->|Hin]; [|by apply IH].
  rewrite toMap_notin by done. unfold to_map_step. by rewrite lookup_insert_eq.
Qed.

Lemma ts_nonneg vc n : vc_wf vc → 0 ≤ ts vc n.
Proof.
  intros [_ Hn]. unfold ts, get0. destruct (_ !! n) as [x|] eqn:Hx; simpl; [|lia].
  apply toMap_elem in Hx. rewrite Forall_forall in Hn. apply (Hn _ Hx).
Qed.

Lemma fromMap_wf m : map_Forall (λ _ x, 0 ≤ x) m → vc_wf (fromMap m).
Proof.
  intros Hm. split; unfold fromMap; simpl.
  - rewrite <-list_fmap_compose. apply NoDup_map_range.
  - rewrite Forall_fmap, Forall_forall. intros [k x] Hin%elem_of_map_range. simpl. by apply (Hm k).
Qed.

Lemma ts_fromMap m n : ts (fromMap m) n = get0 m n.
Proof. unfold ts. by rewrite toMap_fromMap. Qed.

(** *** Merging *)

Lemma merge_step_lookup m e n :
  merge_step m e !! n =
    if decide (n = CoordinatorNodeID e)
    then Some (from_option (Z.max (LogicalTimestamp e)) (LogicalTimestamp e) (m !! n)) else m !! n.
Proof.
  unfold merge_step. case_decide as Hn; [subst n|].
  - destruct (m !! _) as [y|] eqn:Hm; [|by rewrite lookup_insert_eq].
    simpl. destruct (Z.ltb_spec y (LogicalTimestamp e)).
    + rewrite lookup_insert_eq. f_equal. lia.
    + rewrite Hm. f_equal. lia.
  - destruct (m !! _); [destruct (_ <? _)|]; by rewrite ?lookup_insert_ne.
Qed.

Lemma merge_upper m es :
  (∀ n x, m !! n = Some x → ∃ y, foldl merge_step m es !! n = Some y ∧ x ≤ y) ∧
  (∀ e, e ∈ es → ∃ y, foldl merge_step m es !! CoordinatorNodeID e = Some y ∧ LogicalTimestamp e ≤ y).
Proof.
  revert m. induction es as [|e es IH]; intros m; simpl.
  { split; [eauto with lia|]. by intros e ?%elem_of_nil. }
  destruct (IH (merge_step m e)) as [IH1 IH2]. split.
  - intros n x Hx. destruct (decide (n = CoordinatorNodeID e)) as [->|Hne].
    + edestruct IH1 as (y & Hy & Hle); [by rewrite merge_step_lookup, decide_True by done|].
      exists y. rewrite Hx in Hle. simpl in Hle. split; [done|lia].
    + apply IH1. rewrite merge_step_lookup. by rewrite decide_False.
  - intros e' [->|Hin]%elem_of_cons; [|auto].
    edestruct IH1 as (y & Hy & Hle); [by rewrite merge_step_lookup, decide_True by done|].
    exists y. split; [done|]. destruct (m !! _); simpl in Hle; lia.
Qed.

Lemma merge_source m es n x :
  foldl merge_step m es !! n = Some x → m !! n = Some x ∨ mkVCE n x ∈ es.
Proof.
  revert m. induction es as [|e es IH]; intros m Hx; simpl in *; [by left|].
  apply IH in Hx as [Hx|Hx]; [|right; by right].
  rewrite merge_step_lookup in Hx. case_decide as Hn; [|by left]. subst n.
  destruct (m !! _) as [y|] eqn:Hm; simplify_eq/=.
  - destruct (Z.max_spec (LogicalTimestamp e) y) as [[_ ->]|[_ ->]]; [by left|].
    right. destruct e. by left.
  - right. destruct e. by left.
Qed.

Lemma merge_concat m clocks :
  foldl (λ m c, foldl merge_step m (Entries c)) m clocks = foldl merge_step m (clocks ≫= Entries).
Proof.
  revert m. induction clocks as [|c clocks IH]; intros m; simpl; [done|].
  by rewrite foldl_app, IH.
Qed.

Lemma ts_Merge_source clocks n :
  ts (Merge clocks) n = 0 ∨ ∃ c, c ∈ clocks ∧ mkVCE n (ts (Merge clocks) n) ∈ Entries c.
Proof.
  unfold Merge. rewrite ts_fromMap, merge_concat. unfold get0.
  destruct (foldl _ _ _ !! n) as [x|] eqn:Hx; simpl; [right|by left].
  apply merge_source in Hx as [Hx|Hx]; [by rewrite lookup_empty in Hx|].
  apply list_elem_of_bind in Hx as (c & ? & ?). by exists c.
Qed.

Lemma Merge_wf clocks : Forall vc_wf clocks → vc_wf (Merge clocks).
Proof.
  intros Hall. apply fromMap_wf. rewrite merge_concat. intros n x Hx.
  apply merge_source in Hx as [Hx|Hx]; [by rewrite lookup_empty in Hx|].
  apply list_elem_of_bind in Hx as (c & Hx & Hc). rewrite Forall_forall in Hall.
  destruct (Hall c Hc) as [_ Hn]. rewrite Forall_forall in Hn. apply (Hn _ Hx).
Qed.

Lemma Merge_upper clocks c : Forall vc_wf clocks → c ∈ clocks → vc_le c (Merge clocks).
Proof.
  intros Hall Hc n. pose proof (ts_nonneg _ n (Merge_wf _ Hall)) as H0.
  unfold ts at 1, get0. destruct (toMap c !! n) as [x|] eqn:Hx; simpl; [|done].
  apply toMap_elem in Hx. unfold Merge. rewrite ts_fromMap, merge_concat.
  destruct (merge_upper ∅ (clocks ≫= Entries)) as [_ Hup].
  destruct (Hup (mkVCE n x)) as (y & Hy & Hle); [apply list_elem_of_bind; by exists c|].
  unfold get0. simpl in *. by rewrite Hy.
Qed.

Lemma Merge_least clocks d :
  Forall vc_wf clocks → vc_wf d → (∀ c, c ∈ clocks → vc_le c d) → vc_le (Merge clocks) d.
Proof.
  intros Hall Hd Hle n. destruct (ts_Merge_source clocks n) as [->|(c & Hc & Hin)].
  - by apply ts_nonneg.
  - rewrite Forall_forall in Hall. pose proof (elem_toMap _ _ (Hall c Hc) Hin) as Ht.
    simpl in Ht. rewrite <-Ht. by apply Hle.
Qed.

(** *** Incrementing *)

Lemma vc_le_insert vc n x :
  ts vc n < x → vc_le vc (fromMap (<[n := x]> (toMap vc))) ∧
                ¬ vc_le (fromMap (<[n := x]> (toMap vc))) vc.
Proof.
  intros Hx. split.
  - intros k. rewrite ts_fromMap. unfold ts, get0 in *. destruct (decide (n = k)) as [->|].
    + rewrite lookup_insert_eq. simpl. lia.
    + rewrite lookup_insert_ne by done. lia.
  - intros Hle. specialize (Hle n). rewrite ts_fromMap in Hle. unfold get0 in Hle.
    rewrite lookup_insert_eq in Hle. simpl in Hle. lia.
Qed.

Lemma Compare_insert vc n x : ts vc n < x → Compare (fromMap (<[n := x]> (toMap vc))) vc = After.
Proof. intros Hx. apply Compare_spec. by apply vc_le_insert. Qed.

Lemma insert_wf vc n x : vc_wf vc → 0 ≤ x → vc_wf (fromMap (<[n := x]> (toMap vc))).
Proof.
  intros [_ Hn] Hx. apply fromMap_wf. apply map_Forall_insert_2; [done|].
  intros k y Hy%toMap_elem. rewrite Forall_forall in Hn. apply (Hn _ Hy).
Qed.

(** *** The storage node's comparisons *)

Lemma verdict_Compare a b (fa fb : bool) :
  (fa = true ↔ ∃ n, ts b n < ts a n) → (fb = true ↔ ∃ n, ts a n < ts b n) →
  verdict (fa, fb) = match Compare a b with After => 1 | Before => -1 | _ => 0 end.
Proof.
  intros Ha Hb. destruct (Compare_le a b) as [H1 H2].
  assert (vc_le a b ↔ fa = false) as Ha'.
  { rewrite <-not_true_iff_false, Ha. split; [intros Hle [n Hn]; specialize (Hle n); lia|].
    intros Hne n. destruct (Z.le_gt_cases (ts a n) (ts b n)); [done|]. destruct Hne. by exists n. }
  assert (vc_le b a ↔ fb = false) as Hb'.
  { rewrite <-not_true_iff_false, Hb. split; [intros Hle [n Hn]; specialize (Hle n); lia|].
    intros Hne n. destruct (Z.le_gt_cases (ts b n) (ts a n)); [done|]. destruct Hne. by exists n. }
  destruct (Compare a b), fa, fb; naive_solver.
Qed.

Lemma existsb_range {V} (m : gmap string V) (f : string * V → bool) :
  existsb f (map_range m) = true ↔ ∃ n x, m !! n = Some x ∧ f (n, x) = true.
Proof.
  rewrite existsb_exists. split.
  - intros ([n x] & Hin & Hf). exists n, x. split; [|done].
    by apply elem_of_map_range, list_elem_of_In.
  - intros (n & x & Hm & Hf). exists (n, x). split; [|done].
    by apply list_elem_of_In, elem_of_map_range.
Qed.

Lemma ts_Some vc n x : toMap vc !! n = Some x → ts vc n = x.
Proof. unfold ts, get0. by intros ->. Qed.

Lemma ts_None vc n : toMap vc !! n = None → ts vc n = 0.
Proof. unfold ts, get0. by intros ->. Qed.

(** The nodes on which [b] is ahead: those [a] has too, and those only [b] has. *)
Lemma b_ahead a b :
  vc_wf a →
  existsb (λ kv, kv.2 <? ts b kv.1) (map_range (toMap a))
    || existsb (λ kv, bool_decide (toMap a !! kv.1 = None) && (0 <? kv.2)) (map_range (toMap b)) = true
  ↔ ∃ n, ts a n < ts b n.
Proof.
  intros Hwf. rewrite orb_true_iff, !existsb_range. split.
  - intros [(n & x & Hm & Hlt)|(n & x & Hm & Hlt)]; exists n; simpl in Hlt.
    + rewrite (ts_Some _ _ _ Hm). lia.
    + apply andb_true_iff in Hlt as [Hn%bool_decide_eq_true Hx].
      rewrite (ts_Some _ _ _ Hm), (ts_None _ _ Hn). lia.
  - intros [n Hlt]. destruct (toMap a !! n) as [x|] eqn:Ha.
    + left. exists n, x. split; [done|]. simpl. rewrite (ts_Some _ _ _ Ha) in Hlt. lia.
    + right. rewrite (ts_None _ _ Ha) in Hlt. destruct (toMap b !! n) as [y|] eqn:Hb.
      * exists n, y. split; [done|]. simpl. rewrite bool_decide_eq_true_2 by done.
        rewrite (ts_Some _ _ _ Hb) in Hlt. simpl. lia.
      * rewrite (ts_None _ _ Hb) in Hlt. lia.
Qed.

Lemma compaction_Compare a b :
  vc_wf a → vc_wf b →
  compareVectorClocks a b = match Compare a b with After => 1 | Before => -1 | _ => 0 end.
Proof.
  intros Ha Hb. unfold compareVectorClocks.
  rewrite (foldl_or (compaction_step _) (λ kv, get0 (toMap b) kv.1 <? kv.2)
    (λ kv, kv.2 <? ts b kv.1)).
  2: { intros p q [n x]. unfold compaction_step, ts. simpl.
       destruct (Z.ltb_spec (get0 (toMap b) n) x), (Z.ltb_spec x (get0 (toMap b) n));
         rewrite ?orb_true_r, ?orb_false_r; try done; lia. }
  rewrite (foldl_or (node_step_b _) (λ _, false)
    (λ kv, bool_decide (toMap a !! kv.1 = None) && (0 <? kv.2))).
  2: { intros p q [n x]. unfold node_step_b. simpl. rewrite orb_false_r.
       destruct (_ && _); by rewrite ?orb_true_r, ?orb_false_r. }
  apply verdict_Compare; [|rewrite orb_false_l; by apply b_ahead].
  rewrite orb_false_l, orb_true_iff, !existsb_range. split.
  - intros [(n & x & Hm & Hlt)|(n & x & _ & ?)]; [|done]. exists n.
    rewrite (ts_Some _ _ _ Hm). simpl in Hlt. unfold ts. lia.
  - intros [n Hlt]. left. destruct (toMap a !! n) as [x|] eqn:Hx.
    + exists n, x. split; [done|]. rewrite (ts_Some _ _ _ Hx) in Hlt. unfold ts in Hlt. simpl. lia.
    + rewrite (ts_None _ _ Hx) in Hlt. pose proof (ts_nonneg b n Hb). lia.
Qed.

Lemma node_Compare_Compare a b :
  vc_wf a → vc_wf b → vc_pos a →
  node_Compare a b = match Compare a b with After => 1 | Before => -1 | _ => 0 end.
Proof.
  intros Ha Hb Hpos. unfold node_Compare.
  assert (∀ n x, toMap a !! n = Some x → 0 < x) as Hp.
  { intros n x Hx%toMap_elem. unfold vc_pos in Hpos. rewrite Forall_forall in Hpos. apply (Hpos _ Hx). }
  rewrite (foldl_or (node_step_a _)
    (λ kv, match toMap b !! kv.1 with None => true | Some y => y <? kv.2 end)
    (λ kv, match toMap b !! kv.1 with None => false | Some y => kv.2 <? y end)).
  2: { intros p q [n x]. unfold node_step_a. simpl. destruct (toMap b !! n) as [y|];
         [|by rewrite orb_true_r, orb_false_r].
       destruct (Z.ltb_spec y x), (Z.ltb_spec x y);
         rewrite ?orb_true_r, ?orb_false_r; try done; lia. }
  rewrite (foldl_or (node_step_b _) (λ _, false)
    (λ kv, bool_decide (toMap a !! kv.1 = None) && (0 <? kv.2))).
  2: { intros p q [n x]. unfold node_step_b. simpl. rewrite orb_false_r.
       destruct (_ && _); by rewrite ?orb_true_r, ?orb_false_r. }
  apply verdict_Compare.
  - rewrite orb_false_l, orb_true_iff, !existsb_range. split.
    + intros [(n & x & Hm & Hlt)|(n & x & _ & ?)]; [|done]. exists n.
      rewrite (ts_Some _ _ _ Hm). simpl in Hlt. destruct (toMap b !! n) as [y|] eqn:Hy.
      * rewrite (ts_Some _ _ _ Hy). lia.
      * rewrite (ts_None _ _ Hy). by apply (Hp n).
    + intros [n Hlt]. left. destruct (toMap a !! n) as [x|] eqn:Hx.
      * exists n, x. split; [done|]. rewrite (ts_Some _ _ _ Hx) in Hlt. simpl.
        destruct (toMap b !! n) as [y|] eqn:Hy; [|done]. rewrite (ts_Some _ _ _ Hy) in Hlt. lia.
      * rewrite (ts_None _ _ Hx) in Hlt. pose proof (ts_nonneg b n Hb). lia.
  - rewrite orb_false_l, <-b_ahead by done. rewrite !orb_true_iff, !existsb_range.
    apply or_iff_compat_r. split; intros (n & x & Hm & Hlt); exists n, x;
      (split; [done|]); simpl in *; unfold ts, get0 in *; destruct (toMap b !! n) eqn:Hy; simpl in *;
      try done. pose proof (Hp n x Hm). lia.
Qed.

(** *** Clocks issued by one coordinator *)

(** A request to the clock service: a blind write ([None]) or an update of an
    entry with a clock. *)
Definition svc_step (s : VectorClockService) (req : option VectorClock)
    : VectorClock * VectorClockService :=
  match req with
  | None => svc_Increment s
  | Some existing => svc_IncrementFrom s existing
  end.

Fixpoint svc_run (s : VectorClockService) (reqs : list (option VectorClock)) : list VectorClock :=
  match reqs with
  | [] => []
  | req :: reqs => let '(vc, s') := svc_step s req in vc :: svc_run s' reqs
  end.

(** The timestamps stay below [2 ^ 63] during the next [k] requests. *)
Definition fits (s : VectorClockService) (req : option VectorClock) (k : Z) : Prop :=
  match req with
  | None => True
  | Some existing => vc_wf existing ∧ ts existing (nodeID s) + k < 2 ^ 63
  end.

Lemma svc_step_spec s req k :
  1 ≤ k → 0 ≤ localTimestamp s → localTimestamp s + k < 2 ^ 63 → fits s req k →
  let '(vc, s') := svc_step s req in
  nodeID s' = nodeID s ∧ localTimestamp s < localTimestamp s' ∧
  localTimestamp s' + (k - 1) < 2 ^ 63 ∧ ts vc (nodeID s) = localTimestamp s' ∧
  match req with Some existing => Compare vc existing = After | None => True end.
Proof.
  intros Hk H0 Hb Hfit. destruct req as [existing|]; simpl in *.
  - destruct Hfit as [Hwf Hts]. pose proof (ts_nonneg existing (nodeID s) Hwf) as Hnn.
    unfold svc_IncrementFrom. rewrite (i64_small (localTimestamp s + 1)) by lia.
    set (t := match toMap existing !! nodeID s with Some _ => _ | None => _ end).
    assert (ts existing (nodeID s) < t ∧ localTimestamp s < t ∧ t + (k - 1) < 2 ^ 63) as (H1 & H2 & H3).
    { subst t. destruct (toMap existing !! nodeID s) as [x|] eqn:Hx.
      - rewrite (ts_Some _ _ _ Hx) in *. rewrite i64_small by lia.
        destruct (Z.leb_spec (localTimestamp s + 1) x); lia.
      - rewrite (ts_None _ _ Hx) in *. lia. }
    simpl. split_and!; [done|lia|lia| |by apply Compare_insert].
    rewrite ts_fromMap. unfold get0. by rewrite lookup_insert_eq.
  - rewrite i64_small by lia. split_and!; [done|lia|lia| |done].
    unfold ts, get0, toMap, to_map_step. simpl. by rewrite lookup_insert_eq.
Qed.

(** The clocks a service issues are after the versions they replace and carry
    increasing timestamps of its own node. *)
Lemma svc_run_spec s reqs k :
  0 ≤ localTimestamp s → Z.of_nat (length reqs) ≤ k → localTimestamp s + k < 2 ^ 63 →
  Forall (λ req, fits s req k) reqs →
  Forall2 (λ req vc, match req with Some e => Compare vc e = After | None => True end)
    reqs (svc_run s reqs) ∧
  Forall (λ vc, localTimestamp s < ts vc (nodeID s)) (svc_run s reqs) ∧
  StronglySorted Z.lt ((λ vc, ts vc (nodeID s)) <$> svc_run s reqs).
Proof.
  revert s k. induction reqs as [|req reqs IH]; intros s k H0 Hlen Hb Hall; [repeat constructor|].
  inversion Hall as [|? ? Hfit Hall']; subst. simpl length in Hlen.
  pose proof (svc_step_spec s req k ltac:(lia) H0 Hb Hfit) as Hstep. simpl.
  destruct (svc_step s req) as [vc s']. destruct Hstep as (Hid & Hlt & Hb' & Hts & Hc).
  destruct (IH s' (k - 1)) as (IH0 & IH1 & IH2); [lia|lia|lia| |].
  { eapply Forall_impl; [exact Hall'|]. intros [e|] Hf; simpl in *; [|done].
    rewrite Hid. destruct Hf as [? ?]. split; [done|lia]. }
  rewrite Hid in IH1, IH2. rewrite fmap_cons.
  split_and!; constructor; auto; [lia|..].
  - eapply Forall_impl; [exact IH1|]. simpl. lia.
  - rewrite Forall_fmap. eapply Forall_impl; [exact IH1|]. simpl. lia.
Qed.
End lemmas.

(** ** Properties *)

Section properties.
Context `{MapRange}.

(** C17: [Compare] decides the causal order.  Whatever the order of map
    iteration, the verdict is [Identical] exactly when the two clocks have the
    same timestamp for every node, [Before] (resp. [After]) exactly when the
    first is pointwise below (above) and they differ, and [Concurrent]
    exactly when neither is below the other. *)
Theorem vectorclock_compare_spec (vc1 vc2 : VectorClock) :
  match Compare vc1 vc2 with
  | Identical => ∀ n, ts vc1 n = ts vc2 n
  | Before => (∀ n, ts vc1 n ≤ ts vc2 n) ∧ ¬ (∀ n, ts vc2 n ≤ ts vc1 n)
  | After => (∀ n, ts vc2 n ≤ ts vc1 n) ∧ ¬ (∀ n, ts vc1 n ≤ ts vc2 n)
  | Concurrent => ¬ (∀ n, ts vc1 n ≤ ts vc2 n) ∧ ¬ (∀ n, ts vc2 n ≤ ts vc1 n)
  end.
Proof.
  destruct (Compare_spec vc1 vc2) as (H1 & H2 & H3 & H4).
  destruct (Compare vc1 vc2); [by apply H1|by apply H2|by apply H3|by apply H4].
Qed.

(** C18: [Merge] is the least upper bound.  For well-formed clocks the merge is
    not causally before any of its inputs and not concurrent with it, and it
    is below every clock that is above all the inputs. *)
Theorem vectorclock_merge_lub (clocks : list VectorClock) (d : VectorClock) :
  Forall vc_wf clocks → vc_wf d →
  (∀ c, c ∈ clocks → Compare c (Merge clocks) = Identical ∨ Compare c (Merge clocks) = Before) ∧
  ((∀ c, c ∈ clocks → Compare c d = Identical ∨ Compare c d = Before) →
   Compare (Merge clocks) d = Identical ∨ Compare (Merge clocks) d = Before).
Proof.
  intros Hall Hd. split.
  - intros c Hc. apply Compare_le. by apply Merge_upper.
  - intros Hle. apply Compare_le. apply Merge_least; [done..|].
    intros c Hc. apply (proj1 (Compare_le c d)), Hle, Hc.
Qed.

(** C19: the clocks a coordinator issues are never reused or reordered.  Over
    any run of requests that keeps the timestamps below 2^63, the clock issued
    for an existing version is causally after that version, and a clock issued
    later is neither identical to nor before one issued earlier. *)
Theorem coordinator_clocks_advance (id : string) (reqs : list (option VectorClock)) :
  Forall (λ req, fits (NewVectorClockService id) req (Z.of_nat (length reqs))) reqs →
  Z.of_nat (length reqs) < 2 ^ 63 →
  (∀ i existing vc, reqs !! i = Some (Some existing) →
     svc_run (NewVectorClockService id) reqs !! i = Some vc → Compare vc existing = After) ∧
  (∀ (i j : nat) vci vcj, (i < j)%nat →
     svc_run (NewVectorClockService id) reqs !! i = Some vci →
     svc_run (NewVectorClockService id) reqs !! j = Some vcj →
     Compare vcj vci = After ∨ Compare vcj vci = Concurrent).
Proof.
  intros Hall Hlen.
  destruct (svc_run_spec (NewVectorClockService id) reqs (Z.of_nat (length reqs)))
    as (Hc & _ & Hs); simpl; [lia|lia|lia|done|]. split.
  - intros i existing vc Hr Hvc. by destruct (Forall2_lookup_lr _ _ _ _ _ _ Hc Hr Hvc).
  - intros i j vci vcj Hij Hi Hj.
    assert (ts vci id < ts vcj id) as Hlt.
    { eapply (StronglySorted_lookup_lt _ _ i j); [exact Hs|lia|..]; rewrite list_lookup_fmap.
      - by rewrite Hi.
      - by rewrite Hj. }
    destruct (Compare_le vcj vci) as [Hle _].
    assert (¬ (Compare vcj vci = Identical ∨ Compare vcj vci = Before)) as Hn.
    { rewrite Hle. intros Hle'. specialize (Hle' id). lia. }
    destruct (Compare vcj vci); naive_solver.
Qed.

(** C20: the three comparison routines agree.  On clocks with one entry per
    node and positive timestamps, the storage node's [Compare] and the
    compaction's [compareVectorClocks] return the sign of the coordinator's
    verdict. *)
Theorem vectorclock_comparisons_agree (a b : VectorClock) :
  vc_wf a → vc_wf b → vc_pos a →
  let sign := match Compare a b with After => 1 | Before => -1 | _ => 0 end in
  node_Compare a b = sign ∧ compareVectorClocks a b = sign.
Proof. intros Ha Hb Hp sign. split; [by apply node_Compare_Compare|by apply compaction_Compare]. Qed.
End properties.

Definition vc_example (x y : Z) : VectorClock := mkVC [mkVCE "c1" x; mkVCE "c2" y].

Lemma vectorclock_merge_lub_witness :
  (∀ c, c ∈ [vc_example 1 2; vc_example 3 1] →
     Compare c (Merge [vc_example 1 2; vc_example 3 1]) = Identical ∨
     Compare c (Merge [vc_example 1 2; vc_example 3 1]) = Before) ∧
  Compare (Merge [vc_example 1 2; vc_example 3 1]) (vc_example 4 4) = Before.
Proof.
  split.
  - apply (vectorclock_merge_lub [vc_example 1 2; vc_example 3 1] (vc_example 4 4));
      [by apply (bool_decide_unpack _)|by apply (bool_decide_unpack _)].
  - by vm_compute.
Defined.

Definition demo_reqs : list (option VectorClock) := [None; Some (vc_example 5 7); None].

Lemma coordinator_clocks_advance_witness :
  ∃ vc, svc_run (NewVectorClockService "c1") demo_reqs !! 1%nat = Some vc ∧
    Compare vc (vc_example 5 7) = After.
Proof.
  eexists. split; [by vm_compute|].
  eapply (coordinator_clocks_advance "c1" demo_reqs); [|by vm_compute| |].
  - repeat constructor; simpl; try (by vm_compute); by apply (bool_decide_unpack _).
  - instantiate (1 := 1%nat). done.
  - by vm_compute.
Defined.

Lemma vectorclock_comparisons_agree_witness :
  node_Compare (vc_example 3 2) (vc_example 2 2) = 1 ∧
  compareVectorClocks (vc_example 3 2) (vc_example 2 2) = 1.
Proof.
  change 1 with (match Compare (vc_example 3 2) (vc_example 2 2) with After => 1 | Before => -1 | _ => 0 end).
  apply (vectorclock_comparisons_agree (vc_example 3 2) (vc_example 2 2));
    by apply (bool_decide_unpack _).
Defined.
