(* ===== verification/Float64.v ===== *)
(** * Go's [float64]

    IEEE binary64 as the standard library's [SpecFloat] computes it: 53 bits
    of precision, exponent up to 1024, rounding to nearest even. *)

From Stdlib Require Import Floats.SpecFloat.
From S2P Require Import Prelude.
#[local] Open Scope Z_scope.

Definition float64 : Type := spec_float.

(** [float64(n)]. *)
Definition f64_of (n : Z) : float64 := binary_normalize 53 1024 n 0 false.

Definition f64_add (x y : float64) : float64 := SFadd 53 1024 x y.
Definition f64_sub (x y : float64) : float64 := SFsub 53 1024 x y.
Definition f64_mul (x y : float64) : float64 := SFmul 53 1024 x y.
Definition f64_div (x y : float64) : float64 := SFdiv 53 1024 x y.
Definition f64_lt (x y : float64) : bool := SFltb x y.
Definition f64_le (x y : float64) : bool := SFleb x y.

(** The literal [n/d], which division rounds as the compiler does. *)
Definition f64_lit (n d : Z) : float64 := f64_div (f64_of n) (f64_of d).

(** [Duration.Seconds]. *)
Definition second : Z := 10 ^ 9.
Definition seconds (d : Z) : float64 :=
  f64_add (f64_of (Z.quot d second)) (f64_div (f64_of (Z.rem d second)) (f64_of second)).

(** [int64(x)], which truncates; [None] where the language leaves the result
    to the implementation. *)
Definition f64_to_int64 (x : float64) : option Z :=
  let clip n := if (- 2 ^ 63 <=? n) && (n <? 2 ^ 63) then Some n else None in
  match x with
  | S754_zero _ => Some 0
  | S754_finite s m e =>
      let n := if 0 <=? e then Z.pos m * 2 ^ e else Z.pos m / 2 ^ (- e) in
      clip (if s then - n else n)
  | _ => None
  end.

(** [fmt]'s verb [%.2f]: the decimal nearest to the exact value, ties to even. *)
Definition round_half_even (n d : Z) : Z :=
  let q := n / d in
  match 2 * (n mod d) ?= d with
  | Lt => q
  | Gt => q + 1
  | Eq => if Z.even q then q else q + 1
  end.

Definition hundredths (m : positive) (e : Z) : Z :=
  if 0 <=? e then Z.pos m * 100 * 2 ^ e else round_half_even (Z.pos m * 100) (2 ^ (- e)).

Definition fixed2 (s : bool) (n : Z) : string :=
  (if s then "-" else EmptyString) +:+ pretty (n / 100) +:+ "." +:+ pretty (n mod 100 / 10) +:+ pretty (n mod 10).

Definition sprintf_2f (x : float64) : string :=
  match x with
  | S754_zero s => fixed2 s 0
  | S754_finite s m e => fixed2 s (hundredths m e)
  | S754_infinity s => if s then "-Inf" else "+Inf"
  | S754_nan => "NaN"
  end.

Lemma round_half_even_near n d : 0 < d → Z.abs (2 * (d * round_half_even n d - n)) ≤ d.
Proof.
  intros Hd. unfold round_half_even. pose proof (Z.div_mod n d) as Hm. pose proof (Z.mod_pos_bound n d Hd).
  destruct (Z.compare_spec (2 * (n mod d)) d); [destruct (Z.even (n / d))|..]; lia.
Qed.

Lemma sprintf_2f_examples :
  sprintf_2f (f64_lit 19 20) = "0.95" ∧ sprintf_2f (f64_lit 1 8) = "0.12" ∧ sprintf_2f (f64_lit 3 8) = "0.38" ∧
  sprintf_2f (f64_of 95) = "95.00" ∧ sprintf_2f (f64_div (f64_of 0) (f64_of 0)) = "NaN".
Proof. by vm_compute. Qed.
