(* ===== verification/Errors.v ===== *)
(** * The storage node's errors: [storage-node/internal/errors/codes.go]

    A Go [error] of the storage node holds one of three dynamic types: the
    structured error of this package, the disk manager's, or one that only
    has a text.  [nil] is [None]. *)

From S2P Require Import Prelude Float64.
#[local] Open Scope Z_scope.

(** ** Definitions *)

Inductive ErrorCode :=
  | ErrCodeOK
  | ErrCodeInvalidArgument | ErrCodeKeyNotFound | ErrCodeKeyTooLarge | ErrCodeValueTooLarge
  | ErrCodeInvalidTenantID | ErrCodeInvalidKey | ErrCodeChecksumFailed
  | ErrCodeInternal | ErrCodeUnavailable | ErrCodeDiskFull | ErrCodeDiskThrottled
  | ErrCodeCommitLogFailed | ErrCodeMemTableFailed | ErrCodeSSTableFailed
  | ErrCodeCorruptedData | ErrCodeResourceExhausted.

#[global] Instance ErrorCode_eq_dec : EqDecision ErrorCode.
Proof. solve_decision. Defined.

Definition code_number (c : ErrorCode) : Z :=
  match c with
  | ErrCodeOK => 0
  | ErrCodeInvalidArgument => 1000 | ErrCodeKeyNotFound => 1001 | ErrCodeKeyTooLarge => 1002
  | ErrCodeValueTooLarge => 1003 | ErrCodeInvalidTenantID => 1004 | ErrCodeInvalidKey => 1005
  | ErrCodeChecksumFailed => 1006
  | ErrCodeInternal => 2000 | ErrCodeUnavailable => 2001 | ErrCodeDiskFull => 2002
  | ErrCodeDiskThrottled => 2003 | ErrCodeCommitLogFailed => 2004 | ErrCodeMemTableFailed => 2005
  | ErrCodeSSTableFailed => 2006 | ErrCodeCorruptedData => 2007 | ErrCodeResourceExhausted => 2008
  end.

(** The values the details hold, an [interface{}] in the code. *)
Inductive detail := DString (s : string) | DInt (n : Z) | DFloat64 (x : float64).

(** The codes of the disk manager's own errors. *)
Inductive DiskErrorCode := DiskFullCode | DiskThrottledCode | InsufficientSpaceCode.

Record DiskSpaceError := mkDiskSpaceError {
  dse_Code : DiskErrorCode;
  dse_Message : string;
  dse_UsagePercent : float64;
  dse_AvailableBytes : Z;
  dse_IsThrottled : bool;
  dse_IsCircuitBroken : bool;
}.

(** The structured error, whose cause may be any error value. *)
Inductive StorageError :=
  | mkStorageError (code : ErrorCode) (message : string) (details : gmap string detail) (cause : option error)
with error :=
  | ErrStorage (e : StorageError)
  | ErrDisk (e : DiskSpaceError)
  | ErrText (text : string).

Definition Code (e : StorageError) : ErrorCode := let 'mkStorageError c _ _ _ := e in c.
Definition Message (e : StorageError) : string := let 'mkStorageError _ m _ _ := e in m.
Definition Details (e : StorageError) : gmap string detail := let 'mkStorageError _ _ d _ := e in d.
Definition Cause (e : StorageError) : option error := let 'mkStorageError _ _ _ c := e in c.

(** [Error()] of an error value, and of a structured one. *)
Fixpoint error_Error (err : error) : string :=
  match err with
  | ErrStorage (mkStorageError _ message _ (Some cause)) => message +:+ ": " +:+ error_Error cause
  | ErrStorage (mkStorageError _ message _ None) => message
  | ErrDisk e => dse_Message e
  | ErrText text => text
  end.

Definition StorageError_Error (e : StorageError) : string :=
  match Cause e with
  | Some cause => Message e +:+ ": " +:+ error_Error cause
  | None => Message e
  end.

Definition Unwrap (e : StorageError) : option error := Cause e.

(** The gRPC codes the mapping uses. *)
Inductive grpc_code :=
  GrpcOK | GrpcInvalidArgument | GrpcNotFound | GrpcResourceExhausted | GrpcUnavailable |
  GrpcDataLoss | GrpcInternal.

Definition toGRPCCode (c : ErrorCode) : grpc_code :=
  match c with
  | ErrCodeOK => GrpcOK
  | ErrCodeInvalidArgument | ErrCodeKeyTooLarge | ErrCodeValueTooLarge
  | ErrCodeInvalidTenantID | ErrCodeInvalidKey => GrpcInvalidArgument
  | ErrCodeKeyNotFound => GrpcNotFound
  | ErrCodeDiskFull | ErrCodeResourceExhausted => GrpcResourceExhausted
  | ErrCodeDiskThrottled => GrpcUnavailable
  | ErrCodeChecksumFailed | ErrCodeCorruptedData => GrpcDataLoss
  | ErrCodeUnavailable => GrpcUnavailable
  | _ => GrpcInternal
  end.

(** [status.New]: a code and a message. *)
Definition ToGRPCStatus (e : StorageError) : grpc_code * string :=
  (toGRPCCode (Code e), StorageError_Error e).

Definition NewStorageError (code : ErrorCode) (message : string) (cause : option error) : StorageError :=
  mkStorageError code message ∅ cause.

Definition WithDetail (key : string) (value : detail) (e : StorageError) : StorageError :=
  mkStorageError (Code e) (Message e) (<[key := value]> (Details e)) (Cause e).

(** ** Constructors *)

Definition InvalidArgument (message : string) (cause : option error) : StorageError :=
  NewStorageError ErrCodeInvalidArgument message cause.

Definition KeyNotFound (tenantID key : string) : StorageError :=
  WithDetail "key" (DString key) (WithDetail "tenant_id" (DString tenantID)
    (NewStorageError ErrCodeKeyNotFound ("key not found: " +:+ tenantID +:+ ":" +:+ key) None)).

Definition KeyTooLarge (size maxSize : Z) : StorageError :=
  WithDetail "max_size" (DInt maxSize) (WithDetail "size" (DInt size)
    (NewStorageError ErrCodeKeyTooLarge
       ("key size " +:+ pretty size +:+ " exceeds maximum " +:+ pretty maxSize) None)).

Definition ValueTooLarge (size maxSize : Z) : StorageError :=
  WithDetail "max_size" (DInt maxSize) (WithDetail "size" (DInt size)
    (NewStorageError ErrCodeValueTooLarge
       ("value size " +:+ pretty size +:+ " exceeds maximum " +:+ pretty maxSize) None)).

Definition InvalidTenantID (tenantID reason : string) : StorageError :=
  WithDetail "reason" (DString reason) (WithDetail "tenant_id" (DString tenantID)
    (NewStorageError ErrCodeInvalidTenantID ("invalid tenant ID '" +:+ tenantID +:+ "': " +:+ reason) None)).

Definition InvalidKey (key reason : string) : StorageError :=
  WithDetail "reason" (DString reason) (WithDetail "key" (DString key)
    (NewStorageError ErrCodeInvalidKey ("invalid key '" +:+ key +:+ "': " +:+ reason) None)).

Definition ChecksumFailed (expected actual : Z) : StorageError :=
  WithDetail "actual" (DInt actual) (WithDetail "expected" (DInt expected)
    (NewStorageError ErrCodeChecksumFailed
       ("checksum validation failed: expected " +:+ pretty expected +:+ ", got " +:+ pretty actual) None)).

Definition InternalError (message : string) (cause : option error) : StorageError :=
  NewStorageError ErrCodeInternal message cause.

Definition Unavailable (message : string) (cause : option error) : StorageError :=
  NewStorageError ErrCodeUnavailable message cause.

Definition DiskFull (usagePercent : float64) (availableBytes : Z) : StorageError :=
  WithDetail "available_bytes" (DInt availableBytes) (WithDetail "usage_percent" (DFloat64 usagePercent)
    (NewStorageError ErrCodeDiskFull
       ("disk full: " +:+ sprintf_2f usagePercent +:+ "% used, " +:+ pretty availableBytes +:+ " bytes available") None)).

Definition DiskThrottled (usagePercent : float64) : StorageError :=
  WithDetail "usage_percent" (DFloat64 usagePercent)
    (NewStorageError ErrCodeDiskThrottled ("disk write throttled: " +:+ sprintf_2f usagePercent +:+ "% used") None).

Definition CommitLogFailed (message : string) (cause : option error) : StorageError :=
  NewStorageError ErrCodeCommitLogFailed message cause.

Definition MemTableFailed (message : string) (cause : option error) : StorageError :=
  NewStorageError ErrCodeMemTableFailed message cause.

Definition SSTableFailed (message : string) (cause : option error) : StorageError :=
  NewStorageError ErrCodeSSTableFailed message cause.

Definition CorruptedData (message : string) (cause : option error) : StorageError :=
  NewStorageError ErrCodeCorruptedData message cause.

Definition ResourceExhausted (resource : string) (current limit : Z) : StorageError :=
  WithDetail "limit" (DInt limit) (WithDetail "current" (DInt current) (WithDetail "resource" (DString resource)
    (NewStorageError ErrCodeResourceExhausted
       (resource +:+ " exhausted: " +:+ pretty current +:+ "/" +:+ pretty limit) None))).

(** ** Inspecting an error *)

Definition IsStorageError (err : option error) : bool :=
  match err with Some (ErrStorage _) => true | _ => false end.

Definition GetCode (err : option error) : ErrorCode :=
  match err with Some (ErrStorage e) => Code e | _ => ErrCodeInternal end.

Definition IsDiskSpaceError (err : option error) : bool :=
  match err with Some (ErrDisk _) => true | _ => false end.

Definition err_IsCircuitBroken (err : option error) : bool :=
  match err with Some (ErrDisk e) => dse_IsCircuitBroken e | _ => false end.
