(* ===== verification/Ring.v ===== *)
(** * The consistent hash ring: [coordinator/internal/algorithm/consistent_hash.go]

    The ring is the sorted list of virtual node hashes with the map from a
    hash to its virtual node, as in the source; the hash is the first eight
    bytes of SHA-256.  [sort.Search] is the binary search of Go's library. *)

From S2P Require Import Prelude GoHash Model.
#[local] Open Scope Z_scope.

(** ** Definitions *)

Record ConsistentHasher := mkHasher {
  ring : list Z;
  ringMap : gmap Z string;
  nodeVNodes : gmap string (list Z);
}.

Definition NewConsistentHasher : ConsistentHasher := mkHasher [] ∅ ∅.

Definition hash (key : string) : Z := be_val (take 8 (sha256 (bytes key))).

(** [fmt.Sprintf("%s-vnode-%d", nodeID, i)]. *)
Definition vnode_name (nodeID : string) (i : nat) : string :=
  (nodeID +:+ "-vnode-" +:+ pretty i)%string.

Definition vnode_hashes (nodeID : string) (virtualNodeCount : Z) : list Z :=
  (λ i, hash (vnode_name nodeID i)) <$> seq 0 (Z.to_nat virtualNodeCount).

(** A negative count is read as no virtual node.  In the code it makes
    [make([]uint64, 0, virtualNodeCount)] panic; the counts come from rows of
    [storage_nodes], or from a request whose row was stored just before, and the
    CHECK constraint [virtual_nodes > 0] of the table keeps it out. *)
Definition AddNode (nodeID : string) (virtualNodeCount : Z) (ch : ConsistentHasher) : ConsistentHasher :=
  let '(r, m, hs) :=
    foldl (λ '(r, m, hs) i,
        let vnodeID := vnode_name nodeID i in
        let h := hash vnodeID in
        (r ++ [h], <[h := vnodeID]> m, hs ++ [h]))
      (ring ch, ringMap ch, []) (seq 0 (Z.to_nat virtualNodeCount)) in
  mkHasher (merge_sort Z.le r) m (<[nodeID := hs]> (nodeVNodes ch)).

(** The capacity [len(ch.ring)-len(vnodeHashes)] of the code is a hint of no
    effect on the result.  It is not negative as long as the hashes recorded for the
    node are still on the ring; two nodes with a common hash, of which one was
    removed and which are otherwise alone on the ring, would make [make] panic, and
    this is not modelled. *)
Definition RemoveNode (nodeID : string) (ch : ConsistentHasher) : ConsistentHasher :=
  match nodeVNodes ch !! nodeID with
  | None => ch
  | Some vnodeHashes =>
      let '(hashSet, m) :=
        foldl (λ '(hashSet, m) h, (<[h := true]> hashSet, delete h m))
          (∅ : gmap Z bool, ringMap ch) vnodeHashes in
      let newRing := foldl (λ acc h, if default false (hashSet !! h) then acc else acc ++ [h])
                       [] (ring ch) in
      mkHasher newRing m (delete nodeID (nodeVNodes ch))
  end.

Definition Clear (ch : ConsistentHasher) : ConsistentHasher := mkHasher [] ∅ ∅.

(** [sort.Search]: [i, j := 0, n], halving until [i = j]. *)
Fixpoint search_loop (fuel : nat) (f : nat → bool) (i j : nat) : nat :=
  match fuel with
  | O => i
  | S fuel =>
      if (i <? j)%nat then
        let h := ((i + j) / 2)%nat in
        if f h then search_loop fuel f i h else search_loop fuel f (S h) j
      else i
  end.

Definition Search (n : nat) (f : nat → bool) : nat := search_loop n f 0 n.

(** The index of the first virtual node at or after [keyHash], with wrap-around. *)
Definition locate (ch : ConsistentHasher) (keyHash : Z) : nat :=
  let idx := Search (length (ring ch)) (λ i, keyHash <=? nth i (ring ch) 0) in
  if (length (ring ch) <=? idx)%nat then 0%nat else idx.

Definition vnode_suffix : list byte := bytes "-vnode-".

(** The loop of [extractNodeID], from index [idx] down to 0. *)
Fixpoint extract_from (idx : nat) (s : list byte) : list byte :=
  if bool_decide (idx + length vnode_suffix ≤ length s)%nat
     && bool_decide (take (length vnode_suffix) (drop idx s) = vnode_suffix)
  then take idx s
  else match idx with O => s | S idx => extract_from idx s end.

Definition extractNodeID (vnodeID : string) : string :=
  let s := bytes vnodeID in
  if (length s <? length vnode_suffix)%nat then vnodeID
  else string_of (extract_from (length s - length vnode_suffix) s).

(** [ch.ringMap[h]] of a [map[uint64]string]. *)
Definition vnode_of (ch : ConsistentHasher) (h : Z) : VirtualNode :=
  let vnodeID := default ""%string (ringMap ch !! h) in
  mkVirtualNode vnodeID h (extractNodeID vnodeID).

(** The loop of [GetNodes] over the indices [idxs] that are left. *)
Fixpoint get_nodes_loop (ch : ConsistentHasher) (idx count : nat) (idxs : list nat)
    (nodes : list VirtualNode) (seen : gmap string bool) : list VirtualNode :=
  match idxs with
  | [] => nodes
  | i :: idxs =>
      if (length nodes <? count)%nat then
        let vn := vnode_of ch (nth ((idx + i) mod length (ring ch)) (ring ch) 0) in
        if default false (seen !! vn_NodeID vn)
        then get_nodes_loop ch idx count idxs nodes seen
        else get_nodes_loop ch idx count idxs (nodes ++ [vn]) (<[vn_NodeID vn := true]> seen)
      else nodes
  end.

(** [count] is not negative: [make] panics otherwise. *)
Definition GetNodes (ch : ConsistentHasher) (keyHash : Z) (count : nat) : list VirtualNode :=
  if (length (ring ch) =? 0)%nat then []
  else get_nodes_loop ch (locate ch keyHash) count (seq 0 (length (ring ch))) [] ∅.

Definition NodeCount (ch : ConsistentHasher) : nat := size (nodeVNodes ch).

Definition GetAllVirtualNodes (ch : ConsistentHasher) : list VirtualNode := vnode_of ch <$> ring ch.

Definition GetNodeForHash (ch : ConsistentHasher) (keyHash : Z) : string :=
  if (length (ring ch) =? 0)%nat then ""%string
  else vn_NodeID (vnode_of ch (nth (locate ch keyHash) (ring ch) 0)).

(** The index of the first occurrence of [currentHash]. *)
Fixpoint index_of (h : Z) (l : list Z) : option nat :=
  match l with
  | [] => None
  | x :: l => if x =? h then Some 0%nat else S <$> index_of h l
  end.

Definition GetPreviousHash (ch : ConsistentHasher) (currentHash : Z) : Z :=
  match index_of currentHash (ring ch) with
  | None => 0
  | Some idx => match idx with
                | O => nth (length (ring ch) - 1) (ring ch) 0
                | S prevIdx => nth prevIdx (ring ch) 0
                end
  end.

(** ** The reference: walking the ring clockwise *)

(** The hashes in the order they are met from [k] on. *)
Definition clockwise (k : Z) (r : list Z) : list Z :=
  filter (λ h, k ≤ h) r ++ filter (λ h, h < k) r.

(** The elements of [l] whose node has not been met before. *)
Fixpoint first_of_node (seen : gset string) (l : list VirtualNode) : list VirtualNode :=
  match l with
  | [] => []
  | vn :: l => if decide (vn_NodeID vn ∈ seen) then first_of_node seen l
               else vn :: first_of_node ({[vn_NodeID vn]} ∪ seen) l
  end.

Definition replicas_of (ch : ConsistentHasher) (k : Z) : list VirtualNode :=
  first_of_node ∅ (vnode_of ch <$> clockwise k (ring ch)).

(** ** The invariant of the ring *)

Record ring_wf (ch : ConsistentHasher) : Prop := {
  ring_sorted : StronglySorted Z.le (ring ch);
  ring_mapped : ∀ h, h ∈ ring ch → is_Some (ringMap ch !! h);
}.

(** *** [AddNode] and [RemoveNode] in closed form *)

Lemma add_loop nodeID idxs r m hs :
  foldl (λ '(r, m, hs) i,
      let vnodeID := vnode_name nodeID i in
      let h := hash vnodeID in (r ++ [h], <[h := vnodeID]> m, hs ++ [h])) (r, m, hs) idxs =
  (r ++ ((λ i, hash (vnode_name nodeID i)) <$> idxs),
   foldl (λ (m : gmap Z string) i, <[hash (vnode_name nodeID i) := vnode_name nodeID i]> m) m idxs,
   hs ++ ((λ i, hash (vnode_name nodeID i)) <$> idxs)).
Proof.
  revert r m hs. induction idxs as [|i idxs IH]; intros r m hs; simpl.
  - by rewrite !app_nil_r.
  - by rewrite IH, <-!(assoc (++)).
Qed.

Definition add_map (nodeID : string) (virtualNodeCount : Z) (m : gmap Z string) : gmap Z string :=
  foldl (λ m i, <[hash (vnode_name nodeID i) := vnode_name nodeID i]> m) m
    (seq 0 (Z.to_nat virtualNodeCount)).

Lemma AddNode_eq nodeID c ch :
  AddNode nodeID c ch =
    mkHasher (merge_sort Z.le (ring ch ++ vnode_hashes nodeID c))
      (add_map nodeID c (ringMap ch)) (<[nodeID := vnode_hashes nodeID c]> (nodeVNodes ch)).
Proof. unfold AddNode. by rewrite add_loop, app_nil_l. Qed.

Lemma add_map_gen nodeID idxs (m : gmap Z string) h :
  h ∉ (λ i, hash (vnode_name nodeID i)) <$> idxs →
  foldl (λ (m : gmap Z string) i, <[hash (vnode_name nodeID i) := vnode_name nodeID i]> m) m idxs !! h
  = m !! h.
Proof.
  revert m. induction idxs as [|i idxs IH]; intros m Hni; simpl; [done|].
  rewrite fmap_cons, not_elem_of_cons in Hni. destruct Hni as [Hne Hni].
  rewrite IH by done. by apply lookup_insert_ne.
Qed.

Lemma add_map_old nodeID c m h : h ∉ vnode_hashes nodeID c → add_map nodeID c m !! h = m !! h.
Proof. apply add_map_gen. Qed.

(** A hash of the new node maps to one of its virtual nodes. *)
Lemma add_map_new nodeID c m h :
  h ∈ vnode_hashes nodeID c →
  ∃ i, add_map nodeID c m !! h = Some (vnode_name nodeID i) ∧ hash (vnode_name nodeID i) = h.
Proof.
  unfold add_map, vnode_hashes. generalize (seq 0 (Z.to_nat c)). intros idxs. revert m.
  induction idxs as [|i idxs IH]; intros m Hin; simpl in *; [by apply elem_of_nil in Hin|].
  destruct (decide (h ∈ (λ i, hash (vnode_name nodeID i)) <$> idxs)) as [Hin'|Hni]; [by apply IH|].
  apply elem_of_cons in Hin as [->|]; [|done].
  exists i. split; [|done]. rewrite add_map_gen by done. apply lookup_insert_eq.
Qed.

Lemma RemoveNode_None nodeID ch : nodeVNodes ch !! nodeID = None → RemoveNode nodeID ch = ch.
Proof. unfold RemoveNode. by intros ->. Qed.

Lemma remove_loop hs (s : gmap Z bool) (m : gmap Z string) :
  let r := foldl (λ '(s, m) h, (<[h := true]> s, delete h m)) (s, m) hs in
  (∀ h, r.1 !! h = if decide (h ∈ hs) then Some true else s !! h) ∧
  (∀ h, r.2 !! h = if decide (h ∈ hs) then None else m !! h).
Proof.
  revert s m. induction hs as [|x hs IH]; intros s m; cbn [foldl].
  { split; intros h; by rewrite decide_False by apply not_elem_of_nil. }
  destruct (IH (<[x := true]> s) (delete x m)) as [IH1 IH2].
  split; intros h; rewrite ?IH1, ?IH2; destruct (decide (h ∈ hs)) as [|Hni];
    try (by rewrite decide_True by by right);
    destruct (decide (h = x)) as [->|Hne].
  - rewrite decide_True by by left. apply lookup_insert_eq.
  - rewrite decide_False by (rewrite elem_of_cons; naive_solver). by apply lookup_insert_ne.
  - rewrite decide_True by by left. apply lookup_delete_eq.
  - rewrite decide_False by (rewrite elem_of_cons; naive_solver). by apply lookup_delete_ne.
Qed.

Lemma filter_loop (P : Z → bool) l acc :
  foldl (λ acc h, if P h then acc else acc ++ [h]) acc l = acc ++ filter (λ h, P h = false) l.
Proof.
  revert acc. induction l as [|x l IH]; intros acc; simpl; [by rewrite app_nil_r|].
  rewrite IH, filter_cons. destruct (P x); simpl; [done|]. by rewrite <-(assoc (++)).
Qed.

Lemma RemoveNode_Some nodeID ch hs :
  nodeVNodes ch !! nodeID = Some hs →
  ring (RemoveNode nodeID ch) = filter (λ h, h ∉ hs) (ring ch) ∧
  (∀ h, ringMap (RemoveNode nodeID ch) !! h = if decide (h ∈ hs) then None else ringMap ch !! h) ∧
  nodeVNodes (RemoveNode nodeID ch) = delete nodeID (nodeVNodes ch).
Proof.
  intros Hn. unfold RemoveNode. rewrite Hn.
  pose proof (remove_loop hs ∅ (ringMap ch)) as Hr. simpl in Hr.
  destruct (foldl _ (∅, ringMap ch) hs) as [s m]. destruct Hr as [H1 H2]. simpl in *.
  split_and!; [|done|done]. rewrite (filter_loop (λ h, default false (s !! h))). simpl.
  apply list_filter_iff. intros h. rewrite H1, lookup_empty. case_decide; simpl; naive_solver.
Qed.

(** *** The invariant is preserved *)

Lemma ring_wf_New : ring_wf NewConsistentHasher.
Proof. split; simpl; [constructor|]. by intros h ?%elem_of_nil. Qed.

Lemma ring_wf_AddNode nodeID c ch : ring_wf ch → ring_wf (AddNode nodeID c ch).
Proof.
  intros [_ Hm]. rewrite AddNode_eq. split; simpl.
  - apply (StronglySorted_merge_sort Z.le).
  - intros h. rewrite merge_sort_Permutation, elem_of_app. intros Hin.
    destruct (decide (h ∈ vnode_hashes nodeID c)) as [Hnew|Hold].
    + destruct (add_map_new nodeID c (ringMap ch) h Hnew) as (i & -> & _). by eexists.
    + rewrite add_map_old by done. apply Hm. naive_solver.
Qed.

Lemma filter_sorted (P : Z → Prop) `{!∀ x, Decision (P x)} l :
  StronglySorted Z.le l → StronglySorted Z.le (filter P l).
Proof.
  induction 1 as [|x l Hs IH Hall]; [constructor|]. rewrite filter_cons.
  case_decide; [|done]. constructor; [done|].
  rewrite Forall_forall in Hall |- *. intros y Hy%list_elem_of_filter. naive_solver.
Qed.

Lemma ring_wf_RemoveNode nodeID ch : ring_wf ch → ring_wf (RemoveNode nodeID ch).
Proof.
  intros [Hs Hm]. destruct (nodeVNodes ch !! nodeID) as [hs|] eqn:Hn.
  - destruct (RemoveNode_Some _ _ _ Hn) as (Hr & Hmap & _). split.
    + rewrite Hr. by apply filter_sorted.
    + intros h. rewrite Hr, list_elem_of_filter, Hmap. intros [Hni Hin].
      rewrite decide_False by done. auto.
  - by rewrite RemoveNode_None.
Qed.

(** *** Binary search *)

Lemma search_loop_spec f n fuel i j :
  (∀ x y, (x ≤ y < n)%nat → f x = true → f y = true) →
  (j - i ≤ fuel)%nat → (i ≤ j ≤ n)%nat →
  (∀ x, (x < i)%nat → f x = false) → (∀ x, (j ≤ x < n)%nat → f x = true) →
  let r := search_loop fuel f i j in
  (r ≤ n)%nat ∧ (∀ x, (x < r)%nat → f x = false) ∧ (∀ x, (r ≤ x < n)%nat → f x = true).
Proof.
  intros Hmono. revert i j. induction fuel as [|fuel IH]; intros i j Hf Hij Hlo Hhi; simpl.
  { assert (i = j) as -> by lia. split_and!; [lia|done|done]. }
  destruct (Nat.ltb_spec i j) as [Hlt|].
  2: { assert (i = j) as -> by lia. split_and!; [lia|done|done]. }
  assert (i ≤ (i + j) `div` 2 < j)%nat as Hmid.
  { split; [apply Nat.div_le_lower_bound; lia|apply Nat.Div0.div_lt_upper_bound; lia]. }
  fold (Nat.div (i + j) 2). destruct (f ((i + j) / 2)%nat) eqn:Hfm.
  - apply IH; [lia|lia|done|]. intros x Hx. apply (Hmono ((i + j) / 2)%nat); [lia|done].
  - apply IH; [lia|lia| |done]. intros x Hx.
    destruct (f x) eqn:Hfx; [|done]. rewrite <-Hfm. symmetry. apply (Hmono x); [lia|done].
Qed.

Lemma nth_sorted r i j :
  StronglySorted Z.le r → (i ≤ j < length r)%nat → nth i r 0 ≤ nth j r 0.
Proof.
  intros Hs Hij. destruct (decide (i = j)) as [->|]; [lia|].
  destruct (lookup_lt_is_Some_2 r i) as [x Hx]; [lia|].
  destruct (lookup_lt_is_Some_2 r j) as [y Hy]; [lia|].
  rewrite (nth_lookup_Some _ _ _ _ Hx), (nth_lookup_Some _ _ _ _ Hy).
  by eapply (StronglySorted_lookup_lt Z.le r i j); [|lia|..].
Qed.

(** The position found by the search cuts a sorted ring at the key's hash. *)
Lemma Search_cut r k :
  StronglySorted Z.le r →
  let idx := Search (length r) (λ i, k <=? nth i r 0) in
  (idx ≤ length r)%nat ∧ take idx r = filter (λ h, h < k) r ∧ drop idx r = filter (λ h, k ≤ h) r.
Proof.
  intros Hs. set (f := λ i, k <=? nth i r 0).
  destruct (search_loop_spec f (length r) (length r) 0 (length r)) as (H1 & H2 & H3); [|lia|lia|lia|lia|].
  { intros x y Hxy. unfold f. pose proof (nth_sorted r x y Hs Hxy). lia. }
  fold (Search (length r) f) in *. set (idx := Search (length r) f) in *. simpl. split; [done|].
  assert (Forall (λ h, h < k) (take idx r)) as Hlo.
  { apply Forall_lookup. intros i x Hx. apply lookup_take_Some in Hx as [Hx Hi].
    specialize (H2 i Hi). unfold f in H2. rewrite (nth_lookup_Some _ _ _ _ Hx) in H2. lia. }
  assert (Forall (λ h, k ≤ h) (drop idx r)) as Hhi.
  { apply Forall_lookup. intros i x Hx. rewrite lookup_drop in Hx.
    pose proof (lookup_lt_Some _ _ _ Hx). specialize (H3 (idx + i)%nat ltac:(lia)).
    unfold f in H3. rewrite (nth_lookup_Some _ _ _ _ Hx) in H3. lia. }
  rewrite <-(take_drop idx r) at 2 4. rewrite !filter_app. split.
  - rewrite (filter_all _ (take idx r)) by done.
    rewrite (filter_none _ (drop idx r)); [by rewrite app_nil_r|].
    eapply Forall_impl; [exact Hhi|]. simpl. lia.
  - rewrite (filter_all _ (drop idx r)) by done.
    rewrite (filter_none _ (take idx r)); [done|].
    eapply Forall_impl; [exact Hlo|]. simpl. lia.
Qed.

(** The indices the loop of [GetNodes] visits are the ring rotated at [idx]. *)
Lemma rotation r idx :
  (idx < length r)%nat →
  (λ i, nth ((idx + i) mod length r) r 0) <$> seq 0 (length r) = drop idx r ++ take idx r.
Proof.
  intros Hidx. apply list_eq_same_length with (length r).
  - rewrite length_app, length_drop, length_take. lia.
  - by rewrite length_fmap, length_seq.
  - intros i x y Hi Hx Hy. rewrite list_lookup_fmap, lookup_seq_lt in Hx by done. simplify_eq/=.
    destruct (decide (idx + i < length r)%nat) as [Hlt|Hge].
    + rewrite Nat.mod_small by done. rewrite lookup_app_l, lookup_drop in Hy
        by (rewrite length_drop; lia). by rewrite (nth_lookup_Some _ _ _ _ Hy).
    + replace (idx + i)%nat with (idx + i - length r + 1 * length r)%nat by lia.
      rewrite Nat.Div0.mod_add, Nat.mod_small by lia.
      rewrite lookup_app_r, length_drop in Hy by (rewrite length_drop; lia).
      apply lookup_take_Some in Hy as [Hy _].
      replace (i - (length r - idx))%nat with (idx + i - length r)%nat in Hy by lia.
      by rewrite (nth_lookup_Some _ _ _ _ Hy).
Qed.

Lemma locate_clockwise ch k :
  ring_wf ch → ring ch ≠ [] →
  (locate ch k < length (ring ch))%nat ∧
  drop (locate ch k) (ring ch) ++ take (locate ch k) (ring ch) = clockwise k (ring ch).
Proof.
  intros Hwf Hne. destruct (Search_cut (ring ch) k (ring_sorted _ Hwf)) as (Hle & Ht & Hd).
  assert (0 < length (ring ch))%nat by (destruct (ring ch); [done|simpl; lia]).
  unfold locate, clockwise. rewrite <-Ht, <-Hd.
  set (idx := Search _ _) in *. destruct (Nat.leb_spec (length (ring ch)) idx).
  - split; [done|]. assert (idx = length (ring ch)) as -> by lia.
    by rewrite drop_0, take_0, app_nil_r, drop_all, take_ge by lia.
  - done.
Qed.

(** *** Collecting distinct nodes *)

Lemma get_nodes_loop_spec ch idx count idxs nodes seen (S : gset string) :
  (∀ n, default false (seen !! n) = true ↔ n ∈ S) →
  get_nodes_loop ch idx count idxs nodes seen =
  nodes ++ take (count - length nodes)
    (first_of_node S ((λ i, vnode_of ch (nth ((idx + i) mod length (ring ch)) (ring ch) 0)) <$> idxs)).
Proof.
  revert nodes seen S. induction idxs as [|i idxs IH]; intros nodes seen S HS; cbn [get_nodes_loop].
  { simpl. by rewrite take_nil, app_nil_r. }
  destruct (Nat.ltb_spec (length nodes) count) as [Hlt|Hge].
  2: { replace (count - length nodes)%nat with 0%nat by lia. by rewrite take_0, app_nil_r. }
  rewrite fmap_cons. set (vn := vnode_of ch _). cbn [first_of_node].
  destruct (default false (seen !! vn_NodeID vn)) eqn:Hseen.
  - rewrite decide_True by by apply HS. by apply IH.
  - rewrite decide_False by (rewrite <-HS; congruence).
    rewrite (IH _ _ ({[vn_NodeID vn]} ∪ S)).
    + replace (count - length nodes)%nat with (Datatypes.S (count - length (nodes ++ [vn])))
        by (rewrite length_app; simpl; lia).
      by rewrite <-(assoc (++)).
    + intros n. rewrite elem_of_union, elem_of_singleton, <-HS.
      destruct (decide (n = vn_NodeID vn)) as [->|].
      * rewrite lookup_insert_eq. naive_solver.
      * rewrite lookup_insert_ne by done. naive_solver.
Qed.

Lemma GetNodes_replicas ch k count : ring_wf ch → GetNodes ch k count = take count (replicas_of ch k).
Proof.
  intros Hwf. unfold GetNodes, replicas_of. destruct (Nat.eqb_spec (length (ring ch)) 0) as [H0|H0].
  { apply nil_length_inv in H0. rewrite H0. simpl. by rewrite take_nil. }
  assert (ring ch ≠ []) as Hne by (by intros Hr; rewrite Hr in H0).
  destruct (locate_clockwise ch k Hwf Hne) as [Hlt Hcw].
  rewrite (get_nodes_loop_spec _ _ _ _ _ _ ∅) by (intros n; rewrite lookup_empty; set_solver).
  rewrite app_nil_l, Nat.sub_0_r, <-Hcw, <-rotation by done. by rewrite <-list_fmap_compose.
Qed.

Lemma GetNodeForHash_owner ch k :
  ring_wf ch →
  GetNodeForHash ch k = match head (clockwise k (ring ch)) with
                        | Some h => vn_NodeID (vnode_of ch h)
                        | None => ""%string
                        end.
Proof.
  intros Hwf. unfold GetNodeForHash. destruct (Nat.eqb_spec (length (ring ch)) 0) as [H0|H0].
  { apply nil_length_inv in H0. by rewrite H0. }
  assert (ring ch ≠ []) as Hne by (by intros Hr; rewrite Hr in H0).
  destruct (locate_clockwise ch k Hwf Hne) as [Hlt <-].
  destruct (lookup_lt_is_Some_2 _ _ Hlt) as [h Hh].
  by rewrite (drop_S _ _ _ Hh), (nth_lookup_Some _ _ _ _ Hh).
Qed.

(** *** The physical node of a virtual node *)

Lemma extract_from_last p idx s :
  (p ≤ idx)%nat → (p + length vnode_suffix ≤ length s)%nat →
  take (length vnode_suffix) (drop p s) = vnode_suffix →
  (∀ q, (p < q ≤ idx)%nat → take (length vnode_suffix) (drop q s) ≠ vnode_suffix) →
  extract_from idx s = take p s.
Proof.
  intros Hle Hlen Hp. revert Hle. induction idx as [|idx IH]; intros Hle Hq.
  { assert (p = 0%nat) as -> by lia. cbn [extract_from]. by rewrite !bool_decide_eq_true_2. }
  cbn [extract_from]. destruct (decide (p = S idx)) as [->|].
  { by rewrite !bool_decide_eq_true_2. }
  rewrite (bool_decide_eq_false_2 (take _ _ = _)) by (apply Hq; lia). rewrite andb_false_r.
  apply IH; [lia|]. intros q Hq'. apply Hq. lia.
Qed.

Lemma suffix_no_later d k :
  Forall is_digit d → (0 < k)%nat →
  take (length vnode_suffix) (drop k (vnode_suffix ++ d)) ≠ vnode_suffix.
Proof.
  intros Hd Hk Heq.
  assert (∀ j b, vnode_suffix !! j = Some b → (vnode_suffix ++ d) !! (k + j)%nat = Some b) as Hlk.
  { intros j b Hb. rewrite <-Heq in Hb. apply lookup_take_Some in Hb as [Hb _].
    by rewrite lookup_drop in Hb. }
  assert (∀ j b, (7 ≤ j)%nat → (vnode_suffix ++ d) !! j = Some b → is_digit b) as Hdig.
  { intros j b Hj Hb. rewrite lookup_app_r in Hb by done. rewrite Forall_lookup in Hd. eauto. }
  pose proof (Hlk 0%nat _ eq_refl) as H0. pose proof (Hlk 1%nat _ eq_refl) as H1.
  rewrite Nat.add_0_r in H0. destruct (decide (7 ≤ k)%nat) as [|Hlt].
  - apply Hdig in H0; [|done]. destruct H0 as [H0 _]. by vm_compute in H0.
  - do 7 (destruct k as [|k]; [try lia; try done|]); [|lia].
    apply Hdig in H1; [|lia]. destruct H1 as [_ H1]. by vm_compute in H1.
Qed.

Lemma extractNodeID_vnode n i : extractNodeID (vnode_name n i) = n.
Proof.
  unfold extractNodeID, vnode_name. rewrite !bytes_app. fold vnode_suffix.
  set (d := bytes (pretty i)). destruct (Nat.ltb_spec (length (bytes n ++ vnode_suffix ++ d)) (length vnode_suffix)) as [Hlt|_].
  { rewrite !length_app in Hlt. lia. }
  rewrite (extract_from_last (length (bytes n))).
  - by rewrite take_app_length, string_of_bytes.
  - rewrite !length_app. lia.
  - rewrite !length_app. lia.
  - by rewrite drop_app_length, take_app_length.
  - intros q Hq. replace q with (length (bytes n) + (q - length (bytes n)))%nat by lia.
    rewrite <-drop_drop, drop_app_length. apply suffix_no_later; [apply pretty_nat_digits|lia].
Qed.

(** *** Adding a node to a ring it is not in *)

(** The hashes of the new virtual nodes are free, and the node has no virtual
    node on the ring yet. *)
Record fresh_node (nodeID : string) (c : Z) (ch : ConsistentHasher) : Prop := {
  fresh_ring : Forall (λ h, h ∉ ring ch) (vnode_hashes nodeID c);
  fresh_map : Forall (λ h, ringMap ch !! h = None) (vnode_hashes nodeID c);
  fresh_owner : Forall (λ h, vn_NodeID (vnode_of ch h) ≠ nodeID) (ring ch);
  fresh_id : nodeVNodes ch !! nodeID = None;
}.

#[global] Instance fresh_node_dec nodeID c ch : Decision (fresh_node nodeID c ch).
Proof.
  refine (cast_if (decide (Forall (λ h, h ∉ ring ch) (vnode_hashes nodeID c) ∧
    Forall (λ h, ringMap ch !! h = None) (vnode_hashes nodeID c) ∧
    Forall (λ h, vn_NodeID (vnode_of ch h) ≠ nodeID) (ring ch) ∧
    nodeVNodes ch !! nodeID = None))); [by destruct_and!|].
  intros []. naive_solver.
Defined.

Lemma remove_added_ring r hs :
  StronglySorted Z.le r → Forall (λ h, h ∉ r) hs →
  filter (λ h, h ∉ hs) (merge_sort Z.le (r ++ hs)) = r.
Proof.
  intros Hs Hf. apply (StronglySorted_unique Z.le); [|done|].
  - apply filter_sorted. apply (StronglySorted_merge_sort Z.le).
  - rewrite merge_sort_Permutation, filter_app.
    rewrite (filter_none _ hs), app_nil_r by (apply Forall_forall; naive_solver).
    rewrite filter_all; [done|]. rewrite Forall_forall in Hf |- *. naive_solver.
Qed.

Lemma vnode_of_AddNode_old nodeID c ch h :
  h ∉ vnode_hashes nodeID c → vnode_of (AddNode nodeID c ch) h = vnode_of ch h.
Proof. intros Hh. rewrite AddNode_eq. unfold vnode_of. simpl. by rewrite add_map_old. Qed.

Lemma vnode_of_AddNode_new nodeID c ch h :
  h ∈ vnode_hashes nodeID c → vn_NodeID (vnode_of (AddNode nodeID c ch) h) = nodeID.
Proof.
  intros Hh. rewrite AddNode_eq. unfold vnode_of. simpl.
  destruct (add_map_new nodeID c (ringMap ch) h Hh) as (i & -> & _). apply extractNodeID_vnode.
Qed.

Lemma filter_clockwise (P : Z → Prop) `{!∀ x, Decision (P x)} k r :
  filter P (clockwise k r) = clockwise k (filter P r).
Proof.
  unfold clockwise. rewrite filter_app. f_equal; rewrite !list_filter_filter;
    apply list_filter_iff; naive_solver.
Qed.

Lemma elem_of_clockwise k r h : h ∈ clockwise k r ↔ h ∈ r.
Proof.
  unfold clockwise. rewrite elem_of_app, !list_elem_of_filter.
  destruct (decide (k ≤ h)); split; try naive_solver. intros ?. right. split; [lia|done].
Qed.

Lemma first_of_node_filter n (S S' : gset string) l :
  (∀ m, m ≠ n → m ∈ S ↔ m ∈ S') →
  filter (λ vn, vn_NodeID vn ≠ n) (first_of_node S l) =
  first_of_node S' (filter (λ vn, vn_NodeID vn ≠ n) l).
Proof.
  revert S S'. induction l as [|vn l IH]; intros S S' HS; [done|].
  rewrite filter_cons. cbn [first_of_node].
  destruct (decide (vn_NodeID vn = n)) as [Hn|Hn].
  - rewrite (decide_False (P := vn_NodeID vn ≠ n)) by naive_solver. case_decide; [by apply IH|].
    rewrite filter_cons_False by naive_solver. apply IH. intros m Hm. set_solver.
  - rewrite (decide_True (P := vn_NodeID vn ≠ n)) by done. cbn [first_of_node].
    destruct (decide (vn_NodeID vn ∈ S')) as [Hin|Hni].
    + rewrite decide_True by by apply HS. by apply IH.
    + rewrite decide_False by (by rewrite HS). rewrite filter_cons_True by done.
      f_equal. apply IH. intros m Hm. set_solver.
Qed.

(** Without the new node, the replicas of a key are what they were. *)
Lemma replicas_AddNode nodeID c ch k :
  ring_wf ch → fresh_node nodeID c ch →
  filter (λ vn, vn_NodeID vn ≠ nodeID) (replicas_of (AddNode nodeID c ch) k) = replicas_of ch k.
Proof.
  intros Hwf Hf. unfold replicas_of.
  rewrite (first_of_node_filter _ ∅ ∅) by done. f_equal.
  rewrite (filter_fmap_iff _ _ (λ h, h ∉ vnode_hashes nodeID c)).
  - rewrite filter_clockwise, AddNode_eq. cbn [ring].
    rewrite remove_added_ring by (apply ring_sorted, Hwf || apply (fresh_ring _ _ _ Hf)).
    apply list_fmap_ext. intros i h Hh%list_elem_of_lookup_2%elem_of_clockwise.
    rewrite <-AddNode_eq. apply vnode_of_AddNode_old. intros Hin.
    pose proof (fresh_ring _ _ _ Hf) as Hfr. rewrite Forall_forall in Hfr. by apply (Hfr h).
  - apply Forall_forall. intros h Hh%elem_of_clockwise.
    destruct (decide (h ∈ vnode_hashes nodeID c)) as [Hin|Hni].
    + rewrite vnode_of_AddNode_new by done. naive_solver.
    + rewrite vnode_of_AddNode_old by done. split; [done|]. intros _.
      pose proof (fresh_owner _ _ _ Hf) as Hfo. rewrite Forall_forall in Hfo. apply Hfo.
      rewrite AddNode_eq in Hh. cbn [ring] in Hh.
      rewrite merge_sort_Permutation, elem_of_app in Hh. naive_solver.
Qed.

(** *** Distinct replicas *)

Lemma first_of_node_NoDup (S : gset string) l :
  NoDup (vn_NodeID <$> first_of_node S l) ∧
  (list_to_set (vn_NodeID <$> first_of_node S l) : gset string)
    = list_to_set (vn_NodeID <$> l) ∖ S.
Proof.
  revert S. induction l as [|vn l IH]; intros S; [split; [constructor|set_solver]|].
  cbn [first_of_node]. case_decide as Hin; [destruct (IH S) as [IH1 IH2]|
    destruct (IH ({[vn_NodeID vn]} ∪ S)) as [IH1 IH2]].
  - split; [done|]. rewrite IH2, fmap_cons. set_solver.
  - rewrite !fmap_cons. split.
    + constructor; [|done]. intros Hn. apply (elem_of_list_to_set (C := gset string)) in Hn.
      rewrite IH2 in Hn. set_solver.
    + rewrite !list_to_set_cons, IH2. apply set_eq. intros x.
      destruct (decide (x = vn_NodeID vn)); set_solver.
Qed.

(** The physical nodes that have a virtual node on the ring. *)
Definition owners (ch : ConsistentHasher) : gset string :=
  list_to_set ((λ h, vn_NodeID (vnode_of ch h)) <$> ring ch).

Lemma length_replicas ch k : length (replicas_of ch k) = size (owners ch).
Proof.
  unfold replicas_of. destruct (first_of_node_NoDup ∅ (vnode_of ch <$> clockwise k (ring ch))) as [H1 H2].
  rewrite <-(length_fmap vn_NodeID), <-(size_list_to_set (C := gset string)), H2 by done.
  f_equal. unfold owners. rewrite <-list_fmap_compose. apply set_eq. intros n.
  rewrite elem_of_difference, !elem_of_list_to_set, !list_elem_of_fmap.
  setoid_rewrite elem_of_clockwise. set_solver.
Qed.

(** *** Sequences of topology changes *)

Inductive ring_op := RAdd (nodeID : string) (virtualNodeCount : Z) | RRemove (nodeID : string) | RClear.

Definition ring_step (ch : ConsistentHasher) (o : ring_op) : ConsistentHasher :=
  match o with
  | RAdd nodeID c => AddNode nodeID c ch
  | RRemove nodeID => RemoveNode nodeID ch
  | RClear => Clear ch
  end.

Definition run_ring (os : list ring_op) : ConsistentHasher := foldl ring_step NewConsistentHasher os.

Lemma run_ring_wf os : ring_wf (run_ring os).
Proof.
  unfold run_ring. generalize NewConsistentHasher, ring_wf_New.
  induction os as [|o os IH]; intros ch Hwf; simpl; [done|]. apply IH.
  destruct o; simpl; auto using ring_wf_AddNode, ring_wf_RemoveNode, ring_wf_New.
Qed.

Lemma hasher_eq ch1 ch2 :
  ring ch1 = ring ch2 → (∀ h, ringMap ch1 !! h = ringMap ch2 !! h) →
  nodeVNodes ch1 = nodeVNodes ch2 → ch1 = ch2.
Proof.
  destruct ch1, ch2; simpl. intros -> Hm ->. f_equal. by apply map_eq.
Qed.

(** ** Properties *)

(** C12: replica selection is correct.  After any sequence of topology changes,
    [GetNodes] returns the first [count] distinct physical nodes met walking
    the ring clockwise from the key's hash: no node twice, and [count] nodes
    unless the ring has fewer. *)
Theorem ring_getnodes_spec (os : list ring_op) (keyHash : Z) (count : nat) :
  let ch := run_ring os in
  GetNodes ch keyHash count = take count (replicas_of ch keyHash) ∧
  NoDup (vn_NodeID <$> GetNodes ch keyHash count) ∧
  length (GetNodes ch keyHash count) = Nat.min count (size (owners ch)) ∧
  GetNodeForHash ch keyHash = from_option vn_NodeID ""%string (head (GetNodes ch keyHash 1)).
Proof.
  intros ch. pose proof (run_ring_wf os) as Hwf. fold ch in Hwf.
  pose proof (GetNodes_replicas ch keyHash) as Hg. split_and!; [by apply Hg|..].
  - rewrite Hg, fmap_take by done. eapply sublist_NoDup; [|apply sublist_take]. apply first_of_node_NoDup.
  - by rewrite Hg, length_take, length_replicas.
  - rewrite Hg, GetNodeForHash_owner by done. unfold replicas_of.
    destruct (clockwise keyHash (ring ch)); [done|]. by rewrite fmap_cons.
Qed.

(** C13: adding a node moves as little as possible.  When a node that is not in
    the ring joins and its virtual node hashes are free, the replicas of
    every key are the old ones in the old order, with the new node inserted
    and at most one old node dropped. *)
Theorem ring_addnode_minimal (os : list ring_op) (nodeID : string) (c keyHash : Z) (count : nat) :
  let ch := run_ring os in
  let ch' := AddNode nodeID c ch in
  fresh_node nodeID c ch →
  filter (λ vn, vn_NodeID vn ≠ nodeID) (GetNodes ch' keyHash count) =
    (if decide (nodeID ∈ vn_NodeID <$> GetNodes ch' keyHash count)
     then take (count - 1) (GetNodes ch keyHash count)
     else GetNodes ch keyHash count).
Proof.
  intros ch ch' Hf. pose proof (run_ring_wf os) as Hwf. fold ch in Hwf.
  rewrite !GetNodes_replicas by (done || by apply ring_wf_AddNode).
  rewrite <-(replicas_AddNode nodeID c ch keyHash Hwf Hf). fold ch'.
  destruct (first_of_node_NoDup ∅ (vnode_of ch' <$> clockwise keyHash (ring ch'))) as [Hnd _].
  fold (replicas_of ch' keyHash) in Hnd. revert count. generalize (replicas_of ch' keyHash), Hnd.
  clear. intros l Hnd. induction l as [|vn l IH]; intros count.
  { change (filter (λ vn, vn_NodeID vn ≠ nodeID) []) with (@nil VirtualNode).
    rewrite !take_nil. by case_decide. }
  rewrite fmap_cons in Hnd. apply NoDup_cons in Hnd as [Hni Hnd].
  destruct count as [|count]; [rewrite !take_0; by case_decide|]. rewrite firstn_cons, !filter_cons, fmap_cons.
  destruct (decide (vn_NodeID vn = nodeID)) as [Heq|Hne].
  - rewrite (decide_True (P := nodeID ∈ _)) by (rewrite Heq; by left).
    rewrite !(decide_False (P := vn_NodeID vn ≠ nodeID)) by naive_solver.
    rewrite take_take, Nat.min_l by lia. simpl. rewrite Nat.sub_0_r.
    assert (Forall (λ vn', vn_NodeID vn' ≠ nodeID) l) as Hall.
    { apply Forall_forall. intros vn' Hin Hvn'. apply Hni. rewrite Heq, <-Hvn'.
      by apply list_elem_of_fmap_2. }
    rewrite (filter_all _ l), (filter_all _ (take count l)); [done|by apply Forall_take|done].
  - rewrite !(decide_True (P := vn_NodeID vn ≠ nodeID)) by done. rewrite IH by done.
    destruct (decide (nodeID ∈ vn_NodeID <$> take count l)) as [Hin|Hni'].
    + rewrite decide_True by by right. destruct count; [by rewrite take_0 in Hin; apply elem_of_nil in Hin|].
      simpl. by rewrite Nat.sub_0_r.
    + rewrite decide_False; [by rewrite firstn_cons|]. rewrite elem_of_cons. naive_solver.
Qed.

(** Removing a node undoes adding it.  The hash ring, the map from hashes
    to virtual nodes and the table of nodes are exactly what they were. *)
Theorem ring_remove_undoes_add (os : list ring_op) (nodeID : string) (c : Z) :
  let ch := run_ring os in
  fresh_node nodeID c ch → RemoveNode nodeID (AddNode nodeID c ch) = ch.
Proof.
  intros ch Hf. pose proof (run_ring_wf os) as Hwf. fold ch in Hwf.
  assert (nodeVNodes (AddNode nodeID c ch) !! nodeID = Some (vnode_hashes nodeID c)) as Hn
    by (rewrite AddNode_eq; apply lookup_insert_eq).
  destruct (RemoveNode_Some _ _ _ Hn) as (H1 & H2 & H3). apply hasher_eq.
  - rewrite H1, AddNode_eq. apply remove_added_ring; [apply ring_sorted, Hwf|apply (fresh_ring _ _ _ Hf)].
  - intros h. rewrite H2, AddNode_eq. simpl. case_decide as Hin; [|by rewrite add_map_old].
    pose proof (fresh_map _ _ _ Hf) as Hm. rewrite Forall_forall in Hm. by rewrite Hm.
  - rewrite H3, AddNode_eq. simpl. rewrite delete_insert_eq, delete_id; [done|apply (fresh_id _ _ _ Hf)].
Qed.

(** The node of a virtual node is recovered from its name, whatever the
    node identifier contains (even the separator itself). *)
Theorem ring_vnode_name_roundtrip (nodeID : string) (i : nat) :
  extractNodeID (vnode_name nodeID i) = nodeID.
Proof. apply extractNodeID_vnode. Qed.

Lemma ring_addnode_minimal_witness :
  vn_NodeID <$> GetNodes (AddNode "n3" 2 (run_ring [RAdd "n1" 2; RAdd "n2" 2])) 0 2 ≠ [] ∧
  filter (λ vn, vn_NodeID vn ≠ "n3"%string)
    (GetNodes (AddNode "n3" 2 (run_ring [RAdd "n1" 2; RAdd "n2" 2])) 0 2) =
    (if decide ("n3"%string ∈ vn_NodeID <$> GetNodes (AddNode "n3" 2 (run_ring [RAdd "n1" 2; RAdd "n2" 2])) 0 2)
     then take 1 (GetNodes (run_ring [RAdd "n1" 2; RAdd "n2" 2]) 0 2)
     else GetNodes (run_ring [RAdd "n1" 2; RAdd "n2" 2]) 0 2).
Proof.
  split; [by vm_compute|].
  apply (ring_addnode_minimal [RAdd "n1" 2; RAdd "n2" 2] "n3" 2 0 2).
  apply (bool_decide_unpack _). by vm_compute.
Defined.

Lemma ring_remove_undoes_add_witness :
  RemoveNode "n3" (AddNode "n3" 2 (run_ring [RAdd "n1" 2; RAdd "n2" 2])) = run_ring [RAdd "n1" 2; RAdd "n2" 2].
Proof.
  apply (ring_remove_undoes_add [RAdd "n1" 2; RAdd "n2" 2] "n3" 2).
  apply (bool_decide_unpack _). by vm_compute.
Defined.
