(* ===== verification/Consistency.v ===== *)
(** * Quorums: [coordinator/internal/algorithm/quorum.go] and
    [coordinator/internal/service/consistency_service.go]

    Replica counts are Go [int]s; they are small, and [/] truncates. *)

From S2P Require Import Prelude Model.
#[local] Open Scope Z_scope.

(** ** Definitions *)

Definition CalculateQuorum (totalReplicas : Z) : Z := Z.quot totalReplicas 2 + 1.

Definition calc_GetRequiredReplicas (consistency : string) (totalReplicas activeReplicas : Z) : Z :=
  if decide (consistency = "one") then 1
  else if decide (consistency = "all") then totalReplicas
  else if 0 <? activeReplicas then CalculateQuorum activeReplicas
  else CalculateQuorum totalReplicas.

Definition GetRequiredReplicasSimple (consistency : string) (totalReplicas : Z) : Z :=
  calc_GetRequiredReplicas consistency totalReplicas totalReplicas.

Definition calc_IsQuorumReached (successCount totalReplicas : Z) : bool :=
  CalculateQuorum totalReplicas <=? successCount.

(** *** [ConsistencyService] *)

Record ConsistencyService := mkConsistency { defaultLevel : string }.

Definition GetRequiredReplicas (consistency : string) (totalReplicas : Z) : Z :=
  GetRequiredReplicasSimple consistency totalReplicas.

Definition GetRequiredReplicasWithStatus (consistency : string) (totalReplicas activeReplicas : Z) : Z :=
  calc_GetRequiredReplicas consistency totalReplicas activeReplicas.

Definition ValidateConsistencyLevel (level : string) : bool :=
  bool_decide (level ∈ ["one"; "quorum"; "all"]%string).

Definition GetDefaultLevel (s : ConsistencyService) : string := defaultLevel s.

Inductive consistency_error := InvalidConsistencyLevel.

Definition NormalizeConsistencyLevel (s : ConsistencyService) (level : string) : res consistency_error string :=
  if decide (level = EmptyString) then Ok (defaultLevel s)
  else if negb (ValidateConsistencyLevel level) then Err InvalidConsistencyLevel
  else Ok level.

Definition IsQuorumReached (successCount totalReplicas : Z) (consistency : string) : bool :=
  GetRequiredReplicas consistency totalReplicas <=? successCount.

Definition count_normal (nodes : list StorageNode) : Z :=
  foldl (λ n node, if decide (State node = NodeStateNormal) then n + 1 else n) 0 nodes.

Definition GetRequiredReplicasForWriteSet (consistency : string) (writeReplicas : list StorageNode) : Z :=
  let authoritativeCount := count_normal writeReplicas in
  if decide (consistency = "one") then 1
  else if decide (consistency = "all") then authoritativeCount
  else if 0 <? authoritativeCount then CalculateQuorum authoritativeCount
  else 1.

(** ** Lemmas *)

Lemma quorum_majority n : 0 ≤ n → n < 2 * CalculateQuorum n ≤ n + 2.
Proof. intros Hn. unfold CalculateQuorum. pose proof (Z.quot_rem' n 2).
  pose proof (Z.rem_bound_pos n 2 Hn ltac:(lia)). lia. Qed.

Lemma quorum_bounds n : 1 ≤ n → 1 ≤ CalculateQuorum n ≤ n.
Proof.
  intros Hn. pose proof (quorum_majority n ltac:(lia)).
  unfold CalculateQuorum in *. destruct (Z.eq_dec n 1) as [->|]; [simpl; lia|].
  pose proof (Z.quot_pos n 2 ltac:(lia) ltac:(lia)). lia.
Qed.

Lemma IsQuorumReached_quorum n m : IsQuorumReached n m "quorum" = true → CalculateQuorum m ≤ n.
Proof.
  unfold IsQuorumReached, GetRequiredReplicas, GetRequiredReplicasSimple, calc_GetRequiredReplicas.
  simpl. destruct (_ <? _); lia.
Qed.

(** Two majorities of a set have an element in common. *)
Lemma majorities_intersect `{Countable A} (X W R : gset A) :
  W ⊆ X → R ⊆ X → CalculateQuorum (Z.of_nat (size X)) ≤ Z.of_nat (size W) →
  CalculateQuorum (Z.of_nat (size X)) ≤ Z.of_nat (size R) → ∃ x, x ∈ W ∧ x ∈ R.
Proof.
  intros HW HR Hw Hr. destruct (set_choose_or_empty (W ∩ R)) as [[x Hx]|Hempty].
  { exists x. set_solver. }
  pose proof (size_union W R ltac:(set_solver)) as Hsz.
  pose proof (subseteq_size (W ∪ R) X ltac:(set_solver)).
  pose proof (quorum_majority (Z.of_nat (size X)) (Nat2Z.is_nonneg _)). lia.
Qed.

Lemma count_normal_acc nodes n :
  foldl (λ n node, if decide (State node = NodeStateNormal) then n + 1 else n) n nodes =
  n + Z.of_nat (length (filter (λ node, State node = NodeStateNormal) nodes)).
Proof.
  revert n. induction nodes as [|node nodes IH]; intros n; simpl; [lia|].
  rewrite IH, filter_cons. case_decide; simpl; lia.
Qed.

Lemma count_normal_eq nodes :
  count_normal nodes = Z.of_nat (length (filter (λ node, State node = NodeStateNormal) nodes)).
Proof. unfold count_normal. by rewrite count_normal_acc. Qed.

Lemma count_normal_le nodes : 0 ≤ count_normal nodes ≤ Z.of_nat (length nodes).
Proof. rewrite count_normal_eq. pose proof (length_filter (λ node, State node = NodeStateNormal) nodes). lia. Qed.

Lemma CalculateQuorum_mono n m : 0 ≤ n ≤ m → CalculateQuorum n ≤ CalculateQuorum m.
Proof. intros H. unfold CalculateQuorum. pose proof (Z.quot_le_mono n m 2). lia. Qed.

(** The number that is tested counts all nodes; the documented one only the
    NORMAL nodes, and is the same when there are no others. *)
Lemma write_set_le consistency nodes :
  GetRequiredReplicasForWriteSet consistency nodes ≤ GetRequiredReplicas consistency (Z.of_nat (length nodes)).
Proof.
  pose proof (count_normal_le nodes) as Hc.
  unfold GetRequiredReplicasForWriteSet, GetRequiredReplicas, GetRequiredReplicasSimple, calc_GetRequiredReplicas.
  pose proof (CalculateQuorum_mono _ _ Hc). pose proof (CalculateQuorum_mono 0 (Z.of_nat (length nodes)) ltac:(lia)) as H0.
  change (CalculateQuorum 0) with 1 in H0. repeat case_decide; [lia|lia|].
  destruct (Z.ltb_spec 0 (count_normal nodes)), (Z.ltb_spec 0 (Z.of_nat (length nodes))); lia.
Qed.

Lemma write_set_normal consistency nodes :
  Forall (λ node, State node = NodeStateNormal) nodes →
  GetRequiredReplicasForWriteSet consistency nodes = GetRequiredReplicas consistency (Z.of_nat (length nodes)).
Proof.
  intros Hn. assert (count_normal nodes = Z.of_nat (length nodes)) as Hc by (rewrite count_normal_eq; by rewrite filter_all).
  unfold GetRequiredReplicasForWriteSet, GetRequiredReplicas, GetRequiredReplicasSimple, calc_GetRequiredReplicas. rewrite Hc.
  repeat case_decide; [done|done|]. destruct (Z.ltb_spec 0 (Z.of_nat (length nodes))); [done|].
  by replace (Z.of_nat (length nodes)) with 0 by lia.
Qed.

(** ** Properties *)

(** quorum sizes are right.  For a replica set with at least one
    authoritative (NORMAL) node, the required number of acknowledgements for a
    write is at least one and at most the number of authoritative nodes at
    every consistency level, all of them at level [all], and more than half of
    them at level [quorum] and for any level the service does not know. *)
Theorem write_set_requirement (consistency : string) (nodes : list StorageNode) :
  let normal := Z.of_nat (length (filter (λ node, State node = NodeStateNormal) nodes)) in
  1 ≤ normal →
  let required := GetRequiredReplicasForWriteSet consistency nodes in
  1 ≤ required ≤ normal ∧
  (consistency = "all"%string → required = normal) ∧
  (consistency ≠ "one"%string → normal < 2 * required).
Proof.
  intros normal Hn required. subst required. unfold GetRequiredReplicasForWriteSet.
  rewrite count_normal_eq. fold normal.
  pose proof (quorum_bounds normal Hn). pose proof (quorum_majority normal ltac:(lia)).
  repeat case_decide; subst; try (split_and!; (done || lia)).
  destruct (Z.ltb_spec 0 normal); [|lia]. split_and!; (done || lia).
Qed.

Definition example_node (id : string) (st : NodeState) : StorageNode :=
  mkStorageNode id "host" 9000 NodeStatusActive st 2 [] [] [] 0 0.

Lemma write_set_requirement_witness :
  let nodes := [example_node "a" NodeStateNormal; example_node "b" NodeStateNormal;
                example_node "c" NodeStateBootstrapping] in
  1 ≤ GetRequiredReplicasForWriteSet "quorum" nodes ≤ 2.
Proof. apply (write_set_requirement "quorum"). by vm_compute. Defined.
