(* ===== verification/Routing.v ===== *)
(** * Routing: [coordinator/internal/service/routing_service.go]

    The metadata store is an argument: a function that lists the storage nodes
    takes the results of its calls.  The background refresh is a sequence of
    [updateHashRing] steps. *)

From S2P Require Import Prelude GoHash Model Ring Consistency.

(** ** Definitions *)

Record RoutingService := mkRouting { hashRing : ConsistentHasher }.

Definition NewRoutingService : RoutingService := mkRouting NewConsistentHasher.

Inductive routing_error :=
  | InsufficientNodes (need got : nat)
  | UnresolvedNodes (need got : nat)
  | ListFailed.

(** [fmt.Sprintf("%s:%s", tenantID, key)]. *)
Definition compositeKey (tenantID key : string) : string := tenantID +:+ ":" +:+ key.

Definition routable (node : StorageNode) : bool :=
  bool_decide (Status node = NodeStatusActive ∨ Status node = NodeStatusBootstrapping).

(** The node of [storageNodes] the inner loop of [GetReplicas] stops at. *)
Definition find_routable (id : string) (storageNodes : list StorageNode) : option StorageNode :=
  head (filter (λ node, NodeID node = id ∧ routable node = true) storageNodes).

(** The loop of [GetReplicas]; [calls i] is the answer of the [i]-th call of
    [ListStorageNodes]. *)
Fixpoint get_replicas_loop {E} (calls : nat → res E (list StorageNode)) (i : nat)
    (vnodes : list VirtualNode) (nodes : list StorageNode) (seen : gset string) : list StorageNode :=
  match vnodes with
  | [] => nodes
  | vnode :: vnodes =>
      if decide (vn_NodeID vnode ∈ seen) then get_replicas_loop calls i vnodes nodes seen
      else
        let seen := {[vn_NodeID vnode]} ∪ seen in
        match calls i with
        | Err _ => get_replicas_loop calls (S i) vnodes nodes seen
        | Ok storageNodes =>
            let nodes := match find_routable (vn_NodeID vnode) storageNodes with
                         | Some node => nodes ++ [node]
                         | None => nodes
                         end in
            get_replicas_loop calls (S i) vnodes nodes seen
        end
  end.

Definition GetReplicas {E} (s : RoutingService) (calls : nat → res E (list StorageNode))
    (tenantID key : string) (replicationFactor : nat) : res routing_error (list StorageNode) :=
  let keyHash := hash (compositeKey tenantID key) in
  let vnodes := GetNodes (hashRing s) keyHash replicationFactor in
  if length vnodes <? replicationFactor then Err (InsufficientNodes replicationFactor (length vnodes))
  else
    let nodes := get_replicas_loop calls 0 vnodes [] ∅ in
    if length nodes <? replicationFactor then Err (UnresolvedNodes replicationFactor (length nodes))
    else Ok nodes.

Definition CountActiveReplicas (nodes : list StorageNode) : Z :=
  foldl (λ n node, if decide (Status node = NodeStatusActive) then n + 1 else n)%Z 0%Z nodes.

Definition updateHashRing {E} (storageNodes : res E (list StorageNode)) (s : RoutingService)
    : res routing_error RoutingService :=
  match storageNodes with
  | Err _ => Err ListFailed
  | Ok nodes =>
      let activeNodes := filter (λ node, routable node = true) nodes in
      Ok (mkRouting (foldl (λ ch node, AddNode (NodeID node) (VirtualNodes node) ch)
                       (Clear (hashRing s)) activeNodes))
  end.

Definition ForceUpdateHashRing {E} (storageNodes : res E (list StorageNode)) (s : RoutingService)
    : res routing_error RoutingService := updateHashRing storageNodes s.

Definition routing_AddNode (node : StorageNode) (s : RoutingService) : RoutingService :=
  mkRouting (AddNode (NodeID node) (VirtualNodes node) (hashRing s)).

Definition routing_RemoveNode (nodeID : string) (s : RoutingService) : RoutingService :=
  mkRouting (RemoveNode nodeID (hashRing s)).

Definition GetNodeCount (s : RoutingService) : nat := NodeCount (hashRing s).

Definition node_map (storageNodes : list StorageNode) : gmap string StorageNode :=
  foldl (λ m node, <[NodeID node := node]> m) ∅ storageNodes.

(** The states in which a node serves reads and receives writes. *)
Definition serving (node : StorageNode) : bool :=
  bool_decide (State node = NodeStateNormal ∨ State node = NodeStateBootstrapping ∨
               State node = NodeStateLeaving).

Fixpoint resolve_loop (nodeMap : gmap string StorageNode) (vnodes : list VirtualNode)
    (nodes : list StorageNode) (seen : gset string) : list StorageNode :=
  match vnodes with
  | [] => nodes
  | vnode :: vnodes =>
      if decide (vn_NodeID vnode ∈ seen) then resolve_loop nodeMap vnodes nodes seen
      else
        let seen := {[vn_NodeID vnode]} ∪ seen in
        match nodeMap !! vn_NodeID vnode with
        | None => resolve_loop nodeMap vnodes nodes seen
        | Some node => resolve_loop nodeMap vnodes (if serving node then nodes ++ [node] else nodes) seen
        end
  end.

Definition GetWriteReplicas {E} (s : RoutingService) (listed : res E (list StorageNode))
    (tenantID key : string) (replicationFactor : nat) : res routing_error (list StorageNode) :=
  let keyHash := hash (compositeKey tenantID key) in
  let vnodes := GetNodes (hashRing s) keyHash replicationFactor in
  if length vnodes <? replicationFactor then Err (InsufficientNodes replicationFactor (length vnodes))
  else match listed with
  | Err _ => Err ListFailed
  | Ok storageNodes =>
      let nodes := resolve_loop (node_map storageNodes) vnodes [] ∅ in
      if length nodes <? replicationFactor then Err (UnresolvedNodes replicationFactor (length nodes))
      else Ok nodes
  end.

Definition GetReadReplicas {E} (s : RoutingService) (listed : res E (list StorageNode))
    (tenantID key : string) (replicationFactor : nat) : res routing_error (list StorageNode) :=
  let keyHash := hash (compositeKey tenantID key) in
  let vnodes := GetNodes (hashRing s) keyHash replicationFactor in
  if length vnodes <? replicationFactor then Err (InsufficientNodes replicationFactor (length vnodes))
  else match listed with
  | Err _ => Err ListFailed
  | Ok storageNodes =>
      let nodes := resolve_loop (node_map storageNodes) vnodes [] ∅ in
      if length nodes <? replicationFactor then Err (UnresolvedNodes replicationFactor (length nodes))
      else Ok nodes
  end.

Definition GetAuthoritativeReplicas (nodes : list StorageNode) : list StorageNode :=
  filter (λ node, State node = NodeStateNormal) nodes.

Definition CountAuthoritativeReplicas (nodes : list StorageNode) : Z := count_normal nodes.

(** ** Lemmas *)

Lemma node_map_lookup storageNodes id node :
  node_map storageNodes !! id = Some node → NodeID node = id ∧ node ∈ storageNodes.
Proof.
  unfold node_map. assert (∀ m : gmap string StorageNode, foldl (λ m node, <[NodeID node := node]> m) m storageNodes !! id = Some node →
    m !! id = Some node ∨ NodeID node = id ∧ node ∈ storageNodes) as Hgen.
  { induction storageNodes as [|n ns IH]; intros m Hm; simpl in *; [by left|].
    apply IH in Hm as [Hm|[? ?]]; [|right; split; [done|by right]].
    destruct (decide (NodeID n = id)) as [<-|].
    - rewrite lookup_insert_eq in Hm. simplify_eq. right. split; [done|by left].
    - rewrite lookup_insert_ne in Hm by done. by left. }
  intros [Hm|Hm]%Hgen; [|done]. by rewrite lookup_empty in Hm.
Qed.

Definition resolve (nodeMap : gmap string StorageNode) (vnode : VirtualNode) : option StorageNode :=
  node ← nodeMap !! vn_NodeID vnode; if serving node then Some node else None.

Lemma resolve_loop_spec nodeMap vnodes nodes (seen : gset string) :
  NoDup (vn_NodeID <$> vnodes) → (∀ vn, vn ∈ vnodes → vn_NodeID vn ∉ seen) →
  resolve_loop nodeMap vnodes nodes seen = nodes ++ omap (resolve nodeMap) vnodes.
Proof.
  revert nodes seen. induction vnodes as [|vn vnodes IH]; intros nodes seen Hnd Hseen; simpl;
    [by rewrite app_nil_r|].
  rewrite fmap_cons in Hnd. apply NoDup_cons in Hnd as [Hni Hnd].
  rewrite decide_False by (apply Hseen; by left).
  assert (∀ nodes', resolve_loop nodeMap vnodes nodes' ({[vn_NodeID vn]} ∪ seen) =
    nodes' ++ omap (resolve nodeMap) vnodes) as IH'.
  { intros nodes'. apply IH; [done|]. intros vn' Hin.
    rewrite elem_of_union, elem_of_singleton. intros [Heq|Hin'].
    - apply Hni. rewrite <-Heq. by apply list_elem_of_fmap_2.
    - by apply (Hseen vn'); [right|]. }
  rewrite IH'. unfold resolve at 2. destruct (nodeMap !! vn_NodeID vn) as [node|]; simpl; [|done].
  rewrite IH'. destruct (serving node); [|done]. by rewrite <-(assoc (++)).
Qed.

Lemma omap_cons {A B} (f : A → option B) x l :
  omap f (x :: l) = match f x with Some y => y :: omap f l | None => omap f l end.
Proof. done. Qed.

Lemma omap_length {A B} (f : A → option B) l : length (omap f l) ≤ length l.
Proof.
  induction l as [|x l IH]; [done|]. rewrite omap_cons. cbn [length].
  destruct (f x); cbn [length]; lia.
Qed.

Lemma omap_full {A B} (f : A → option B) l :
  length l ≤ length (omap f l) → Forall2 (λ x y, f x = Some y) l (omap f l).
Proof.
  induction l as [|x l IH]; intros Hlen; [constructor|]. rewrite omap_cons in Hlen |- *.
  pose proof (omap_length f l). destruct (f x) eqn:Hf; cbn [length] in *; [|lia].
  constructor; [done|]. apply IH. lia.
Qed.

Lemma omap_Forall2 {A B} (f : A → option B) l k : Forall2 (λ x y, f x = Some y) l k → omap f l = k.
Proof. induction 1 as [|x y l k Hf _ IH]; [done|]. by rewrite omap_cons, Hf, IH. Qed.

Lemma resolve_Some storageNodes vn node :
  resolve (node_map storageNodes) vn = Some node →
  NodeID node = vn_NodeID vn ∧ node ∈ storageNodes ∧ serving node = true.
Proof.
  unfold resolve. destruct (node_map storageNodes !! _) as [n|] eqn:Hn; simpl; [|done].
  destruct (serving n) eqn:Hs; [|done]. intros [= ->].
  apply node_map_lookup in Hn. naive_solver.
Qed.

Section routing.
Context {E : Type}.
Implicit Types (storageNodes nodes : list StorageNode).

Lemma GetNodes_NoDup os k rf : NoDup (vn_NodeID <$> GetNodes (run_ring os) k rf).
Proof.
  rewrite GetNodes_replicas, fmap_take by apply run_ring_wf.
  eapply sublist_NoDup; [|apply sublist_take]. apply first_of_node_NoDup.
Qed.

Lemma GetNodes_length os k rf : length (GetNodes (run_ring os) k rf) = Nat.min rf (size (owners (run_ring os))).
Proof. by rewrite GetNodes_replicas, length_take, length_replicas by apply run_ring_wf. Qed.

Lemma GetWriteReplicas_ok os storageNodes tenantID key rf nodes :
  let vnodes := GetNodes (run_ring os) (hash (compositeKey tenantID key)) rf in
  GetWriteReplicas (E := E) (mkRouting (run_ring os)) (Ok storageNodes) tenantID key rf = Ok nodes ↔
  length vnodes = rf ∧ Forall2 (λ vn node, resolve (node_map storageNodes) vn = Some node) vnodes nodes.
Proof.
  intros vnodes. unfold GetWriteReplicas. cbn [hashRing]. fold vnodes.
  assert (length vnodes ≤ rf) as Hle by (unfold vnodes; rewrite GetNodes_length; lia).
  rewrite resolve_loop_spec by (apply GetNodes_NoDup || set_solver). simpl.
  pose proof (omap_length (resolve (node_map storageNodes)) vnodes) as Hol.
  destruct (Nat.ltb_spec (length vnodes) rf) as [Hlt|Hge].
  { split; [done|]. intros [? _]. lia. }
  destruct (Nat.ltb_spec (length (omap (resolve (node_map storageNodes)) vnodes)) rf) as [Hlt|Hge'].
  - split; [done|]. intros [Hl Hall]. exfalso.
    rewrite (omap_Forall2 _ _ _ Hall), <-(Forall2_length _ _ _ Hall) in Hlt. lia.
  - split.
    + intros [= <-]. split; [lia|]. apply omap_full. lia.
    + intros [Hl Hall]. by rewrite (omap_Forall2 _ _ _ Hall).
Qed.

Lemma GetWriteReplicas_ids os storageNodes tenantID key rf nodes :
  GetWriteReplicas (E := E) (mkRouting (run_ring os)) (Ok storageNodes) tenantID key rf = Ok nodes →
  NodeID <$> nodes = vn_NodeID <$> GetNodes (run_ring os) (hash (compositeKey tenantID key)) rf ∧
  length nodes = rf ∧ Forall (λ node, node ∈ storageNodes ∧ serving node = true) nodes.
Proof.
  intros [Hl Hall]%GetWriteReplicas_ok. split_and!.
  - clear Hl. induction Hall as [|vn node vns ns [Hid _]%resolve_Some _ IH]; [done|].
    by rewrite !fmap_cons, IH, Hid.
  - by rewrite <-(Forall2_length _ _ _ Hall).
  - clear Hl. induction Hall as [|vn node vns ns [_ ?]%resolve_Some _ IH]; constructor; auto.
Qed.

(** ** Properties *)

(** the replica set of a key is well formed.  When routing succeeds it
    returns exactly [replicationFactor] nodes, pairwise distinct, each known
    to the metadata store and NORMAL, BOOTSTRAPPING or LEAVING, in the order
    the ring gives; and reads are routed to the same nodes as writes. *)
Theorem write_replicas_spec (os : list ring_op) storageNodes tenantID key rf nodes :
  GetWriteReplicas (E := E) (mkRouting (run_ring os)) (Ok storageNodes) tenantID key rf = Ok nodes →
  length nodes = rf ∧ NoDup (NodeID <$> nodes) ∧
  Forall (λ node, node ∈ storageNodes ∧ serving node = true) nodes ∧
  NodeID <$> nodes = vn_NodeID <$> GetNodes (run_ring os) (hash (compositeKey tenantID key)) rf ∧
  GetReadReplicas (E := E) (mkRouting (run_ring os)) (Ok storageNodes) tenantID key rf = Ok nodes.
Proof.
  intros Hok. destruct (GetWriteReplicas_ids _ _ _ _ _ _ Hok) as (Hids & Hlen & Hall).
  split_and!; [done| |done|done|exact Hok]. rewrite Hids. apply GetNodes_NoDup.
Qed.

(** Routing succeeds when it can.  If the ring has at least
    [replicationFactor] nodes and every node the ring picks is listed by the
    metadata store in a serving state, both reads and writes get their replicas. *)
Theorem write_replicas_available (os : list ring_op) storageNodes tenantID key rf :
  rf ≤ size (owners (run_ring os)) →
  (∀ vn, vn ∈ GetNodes (run_ring os) (hash (compositeKey tenantID key)) rf →
     ∃ node, node_map storageNodes !! vn_NodeID vn = Some node ∧ serving node = true) →
  ∃ nodes, GetWriteReplicas (E := E) (mkRouting (run_ring os)) (Ok storageNodes) tenantID key rf = Ok nodes ∧
           GetReadReplicas (E := E) (mkRouting (run_ring os)) (Ok storageNodes) tenantID key rf = Ok nodes.
Proof.
  intros Hrf Hserv. set (vnodes := GetNodes (run_ring os) _ rf) in Hserv.
  assert (∃ nodes, Forall2 (λ vn node, resolve (node_map storageNodes) vn = Some node) vnodes nodes) as [nodes Hall].
  { clear Hrf. revert Hserv. generalize vnodes. clear. intros vnodes. induction vnodes as [|vn vnodes IH]; intros Hserv; [by exists []|].
    destruct IH as [nodes Hn]; [intros; apply Hserv; by right|].
    destruct (Hserv vn) as (node & Hm & Hs); [by left|].
    exists (node :: nodes). constructor; [|done]. unfold resolve. rewrite Hm. simpl. by rewrite Hs. }
  assert (GetWriteReplicas (E := E) (mkRouting (run_ring os)) (Ok storageNodes) tenantID key rf = Ok nodes) as Hok.
  { apply GetWriteReplicas_ok. split; [|done]. rewrite GetNodes_length. lia. }
  exists nodes. split; [done|exact Hok].
Qed.

(** Quorum reads see quorum writes.  For the replicas routing returns for
    a key, any set of nodes that acknowledged a quorum write and any set of
    nodes that answered a quorum read have a node in common. *)
Theorem quorum_read_sees_write (os : list ring_op) storageNodes tenantID key rf wnodes rnodes (W R : gset string) :
  GetWriteReplicas (E := E) (mkRouting (run_ring os)) (Ok storageNodes) tenantID key rf = Ok wnodes →
  GetReadReplicas (E := E) (mkRouting (run_ring os)) (Ok storageNodes) tenantID key rf = Ok rnodes →
  W ⊆ list_to_set (NodeID <$> wnodes) → R ⊆ list_to_set (NodeID <$> rnodes) →
  IsQuorumReached (Z.of_nat (size W)) (Z.of_nat rf) "quorum" = true →
  IsQuorumReached (Z.of_nat (size R)) (Z.of_nat rf) "quorum" = true →
  ∃ n, n ∈ W ∧ n ∈ R.
Proof.
  intros Hw Hr HW HR Hqw Hqr.
  assert (wnodes = rnodes) as <-.
  { assert (Ok wnodes = Ok rnodes :> res routing_error _) as Heq; [|by simplify_eq].
    rewrite <-Hw, <-Hr. reflexivity. }
  destruct (GetWriteReplicas_ids _ _ _ _ _ _ Hw) as (Hids & Hlen & _).
  assert (size (list_to_set (NodeID <$> wnodes) : gset string) = rf) as Hsz.
  { rewrite size_list_to_set, length_fmap; [done|]. rewrite Hids. apply GetNodes_NoDup. }
  apply (majorities_intersect (list_to_set (NodeID <$> wnodes))); rewrite ?Hsz; auto using IsQuorumReached_quorum.
Qed.
End routing.

(** *** Witnesses *)

Definition demo_ring : list ring_op := [RAdd "a" 2; RAdd "b" 2; RAdd "c" 2].
Definition demo_nodes : list StorageNode :=
  [example_node "a" NodeStateNormal; example_node "b" NodeStateNormal; example_node "c" NodeStateLeaving].

Lemma write_replicas_spec_witness :
  ∃ nodes, GetWriteReplicas (E := unit) (mkRouting (run_ring demo_ring)) (Ok demo_nodes) "t" "k" 3 = Ok nodes ∧
    length nodes = 3 ∧ NoDup (NodeID <$> nodes).
Proof.
  eexists. split; [by vm_compute|].
  match goal with |- length ?nodes = 3 ∧ _ =>
    destruct (write_replicas_spec (E := unit) demo_ring demo_nodes "t" "k" 3 nodes) as (H1 & H2 & _)
  end; [by vm_compute|]. split; [exact H1|exact H2].
Defined.

Lemma write_replicas_available_witness :
  ∃ nodes, GetWriteReplicas (E := unit) (mkRouting (run_ring demo_ring)) (Ok demo_nodes) "t" "k" 2 = Ok nodes ∧
           GetReadReplicas (E := unit) (mkRouting (run_ring demo_ring)) (Ok demo_nodes) "t" "k" 2 = Ok nodes.
Proof.
  apply (write_replicas_available (E := unit) demo_ring demo_nodes "t" "k" 2).
  - apply (bool_decide_unpack _). by vm_compute.
  - apply Forall_forall. vm_compute GetNodes.
    repeat constructor; eexists; (split; [by vm_compute|by vm_compute]).
Defined.

Lemma quorum_read_sees_write_witness :
  ∃ n : string, n ∈ ({["a"; "b"]} : gset string) ∧ n ∈ ({["b"; "c"]} : gset string).
Proof.
  eapply (quorum_read_sees_write (E := unit) demo_ring demo_nodes "t" "k" 3);
    [by vm_compute|by vm_compute|apply (bool_decide_unpack _); by vm_compute|
     apply (bool_decide_unpack _); by vm_compute|by vm_compute|by vm_compute].
Defined.
