(* ===== verification/MemTable.v ===== *)
(** * The memtable: [storage-node/internal/service/memtable_service.go]

    A memtable is a skip list of entries with a running size; the service
    holds the current table and, while it is being flushed, the previous one.
    [Flush] is given as its two critical sections, [begin_flush] and
    [end_flush], with the SSTable write between them, because other
    operations run in between.  As in [SkipList], [None] is a panic. *)

From S2P Require Import Prelude Model SkipList.
#[local] Open Scope Z_scope.

(** ** Definitions *)

Record MemTable := mkMemTable {
  data : SkipList MemTableEntry;
  maxSize : Z;
  size_bytes : Z;
}.

Record MemTableConfig := mkMemTableConfig { MaxSize : Z; FlushThreshold : Z; NumMemTables : Z }.

Record MemTableService := mkMemTableService {
  config : MemTableConfig;
  memTable : MemTable;
  immutableMT : option MemTable;
}.

Definition NewMemTable (maxSize : Z) : MemTable := mkMemTable NewSkipList maxSize 0.

(** [int64(len(entry.Key) + len(entry.Value) + 64)]. *)
Definition entry_size (entry : MemTableEntry) : Z :=
  Z.of_nat (String.length (mt_Key entry)) + Z.of_nat (length (mt_Value entry)) + 64.

(** [coins] are the random choices of the skip list. *)
Definition mt_Put (coins : list bool) (entry : MemTableEntry) (mt : MemTable) : option MemTable :=
  data' ← Insert coins (mt_Key entry) entry (data mt);
  Some (mkMemTable data' (maxSize mt) (i64 (size_bytes mt + entry_size entry))).

Definition mt_Get (mt : MemTable) (key : string) : option (option MemTableEntry) :=
  Search (data mt) key.

Definition mt_Size (mt : MemTable) : Z := size_bytes mt.

Definition mt_Count (mt : MemTable) : Z := Len (data mt).

(** The entries an iterator yields; a nil value gives no entry. *)
Definition mt_entries (mt : MemTable) : option (list MemTableEntry) :=
  es ← entries (data mt); Some (omap (M := list) snd es).

Definition NewMemTableService (cfg : MemTableConfig) : MemTableService :=
  mkMemTableService cfg (NewMemTable (MaxSize cfg)) None.

Definition Put (coins : list bool) (entry : MemTableEntry) (s : MemTableService) : option MemTableService :=
  mt ← mt_Put coins entry (memTable s);
  Some (mkMemTableService (config s) mt (immutableMT s)).

Definition Get (s : MemTableService) (key : string) : option (option MemTableEntry) :=
  found ← mt_Get (memTable s) key;
  match found with
  | Some entry => Some (Some entry)
  | None => match immutableMT s with
            | Some immutable => mt_Get immutable key
            | None => Some None
            end
  end.

Definition ShouldFlush (s : MemTableService) : bool :=
  FlushThreshold (config s) <=? mt_Size (memTable s).

(** The test both scan loops make. *)
Definition hash_in_range (startHash endHash keyHash : Z) : bool :=
  if startHash <? endHash then (startHash <=? keyHash) && (keyHash <? endHash)
  else (startHash <=? keyHash) || (keyHash <? endHash).

Definition scan_table (startHash endHash : Z) (hashFunc : string → Z) (mt : MemTable)
    : option (list MemTableEntry) :=
  es ← mt_entries mt;
  Some (filter (λ entry, hash_in_range startHash endHash (hashFunc (mt_Key entry)) = true) es).

Definition ScanKeysInRange (s : MemTableService) (startHash endHash : Z) (hashFunc : string → Z)
    : option (list MemTableEntry) :=
  results ← scan_table startHash endHash hashFunc (memTable s);
  match immutableMT s with
  | None => Some results
  | Some immutable =>
      more ← scan_table startHash endHash hashFunc immutable; Some (results ++ more)
  end.

(** The first critical section of [Flush]: [None] when there is nothing to flush. *)
Definition begin_flush (s : MemTableService) : option (MemTable * MemTableService) :=
  if mt_Size (memTable s) =? 0 then None
  else Some (memTable s,
             mkMemTableService (config s) (NewMemTable (MaxSize (config s))) (Some (memTable s))).

(** The last critical section of [Flush]. *)
Definition end_flush (s : MemTableService) : MemTableService :=
  mkMemTableService (config s) (memTable s) None.

(** [Flush] without interruption; [write] is [WriteFromMemTable] of the
    SSTable service, on its state. *)
Definition Flush {S E} (write : MemTable → S → res E S) (s : MemTableService) (st : S)
    : MemTableService * S * option E :=
  match begin_flush s with
  | None => (s, st, None)
  | Some (immutable, s') =>
      match write immutable st with
      | Err e => (s', st, Some e)
      | Ok st' => (end_flush s', st', None)
      end
  end.

(** ** The abstraction: a map from keys to entries *)

(** [mt] holds the entries [m], each under its own key. *)
Definition is_memtable (mt : MemTable) (m : gmap string MemTableEntry) : Prop :=
  (∃ kvs, is_skiplist (data mt) kvs ∧ kv_map kvs = m) ∧ map_Forall (λ k e, mt_Key e = k) m.

(** What the service finds: the current table over the one being flushed. *)
Definition is_service (s : MemTableService) (m : gmap string MemTableEntry) : Prop :=
  ∃ cur old, is_memtable (memTable s) cur ∧
    match immutableMT s with Some mt => is_memtable mt old | None => old = ∅ end ∧
    m = cur ∪ old.

Lemma NewMemTable_spec n : is_memtable (NewMemTable n) ∅.
Proof. split; [exists []; split; [apply NewSkipList_spec|done]|apply map_Forall_empty]. Qed.

Lemma mt_Put_spec coins entry mt m :
  is_memtable mt m →
  ∃ mt', mt_Put coins entry mt = Some mt' ∧ is_memtable mt' (<[mt_Key entry := entry]> m) ∧
    mt_Size mt' = i64 (mt_Size mt + entry_size entry).
Proof.
  intros [(kvs & Hsl & <-) Hk]. unfold mt_Put.
  destruct (Insert_spec coins (data mt) kvs (mt_Key entry) entry Hsl) as (sl' & -> & Hsl'). simpl.
  eexists. split_and!; [done| |done]. split.
  - eexists. split; [done|]. apply kv_insert_map.
  - by apply map_Forall_insert_2.
Qed.

Lemma mt_Get_spec mt m key : is_memtable mt m → mt_Get mt key = Some (m !! key).
Proof. intros [(kvs & Hsl & <-) _]. by apply Search_spec. Qed.

Lemma mt_Count_spec mt m : is_memtable mt m → mt_Count mt = Z.of_nat (size m).
Proof.
  intros [(kvs & Hsl & <-) _]. unfold mt_Count. rewrite (is_skiplist_Len _ _ Hsl).
  by rewrite length_kv_map by by eapply is_skiplist_sorted.
Qed.

Lemma omap_entries (kvs : list (string * MemTableEntry)) :
  omap (M := list) snd ((λ kv, (kv.1, Some kv.2)) <$> kvs) = kvs.*2.
Proof. induction kvs as [|kv kvs IH]; [done|]. simpl. f_equal. apply IH. Qed.

(** The iterator yields the entries of the map in key order. *)
Lemma mt_entries_spec mt m :
  is_memtable mt m →
  ∃ es, mt_entries mt = Some es ∧ StronglySorted str_lt (mt_Key <$> es) ∧
    (list_to_map ((λ e, (mt_Key e, e)) <$> es) : gmap string MemTableEntry) = m.
Proof.
  intros [(kvs & Hsl & <-) Hk]. exists kvs.*2. unfold mt_entries.
  rewrite (entries_spec _ _ Hsl). simpl. rewrite omap_entries.
  pose proof (is_skiplist_sorted _ _ Hsl) as Hs.
  assert ((λ e, (mt_Key e, e)) <$> kvs.*2 = kvs) as Heq.
  { pose proof (sorted_keys_NoDup _ Hs) as Hnd.
    clear Hs Hsl. induction kvs as [|[k e] kvs IH]; [done|]. rewrite !fmap_cons.
    apply NoDup_cons in Hnd as [Hni Hnd]. simpl. rewrite kv_map_cons in Hk.
    apply map_Forall_insert_1_1 in Hk as Hke. rewrite Hke. f_equal. apply IH; [|done].
    eapply map_Forall_insert_1_2; [|exact Hk]. by apply not_elem_of_list_to_map_1. }
  split_and!; [done| |by rewrite Heq].
  rewrite <-Heq in Hs. rewrite <-list_fmap_compose in Hs. exact Hs.
Qed.

(** ** The service *)

Lemma NewMemTableService_spec cfg : is_service (NewMemTableService cfg) ∅.
Proof. exists ∅, ∅. split_and!; [apply NewMemTable_spec|done|by rewrite (left_id_L ∅ (∪))]. Qed.

Lemma Put_spec coins entry s m :
  is_service s m → ∃ s', Put coins entry s = Some s' ∧ is_service s' (<[mt_Key entry := entry]> m) ∧
    config s' = config s ∧ immutableMT s' = immutableMT s.
Proof.
  intros (cur & old & Hc & Ho & ->). unfold Put.
  destruct (mt_Put_spec coins entry _ _ Hc) as (mt' & -> & Hmt' & _). simpl.
  eexists. split_and!; [done| |done|done].
  exists (<[mt_Key entry := entry]> cur), old. split_and!; [done|done|apply insert_union_l].
Qed.

Lemma Get_spec s m key : is_service s m → Get s key = Some (m !! key).
Proof.
  intros (cur & old & Hc & Ho & ->). unfold Get. rewrite (mt_Get_spec _ _ _ Hc). simpl.
  rewrite lookup_union. destruct (cur !! key); [by destruct (old !! key)|].
  destruct (immutableMT s); [|by rewrite Ho].
  rewrite (mt_Get_spec _ _ _ Ho). by destruct (old !! key).
Qed.

(** Starting a flush moves every entry to the immutable table and hides none,
    provided the previous flush was completed. *)
Lemma begin_flush_spec s m immutable s' :
  is_service s m → immutableMT s = None → begin_flush s = Some (immutable, s') →
  is_memtable immutable m ∧ is_service s' m ∧ memTable s' = NewMemTable (MaxSize (config s)) ∧
  immutableMT s' = Some immutable.
Proof.
  intros (cur & old & Hc & Ho & ->) Hn. unfold begin_flush. destruct (_ =? _); [done|]. intros [= <- <-].
  rewrite Hn in Ho. subst old. rewrite (right_id_L ∅ (∪)). split_and!; [done| |done|done].
  exists ∅, cur. split_and!; [apply NewMemTable_spec|done|by rewrite (left_id_L ∅ (∪))].
Qed.

Definition begin_flush_if_needed (s : MemTableService) : MemTableService :=
  match begin_flush s with Some (_, s') => s' | None => s end.

Fixpoint put_all (puts : list (list bool * MemTableEntry)) (s : MemTableService) : option MemTableService :=
  match puts with
  | [] => Some s
  | (coins, entry) :: puts => s ← Put coins entry s; put_all puts s
  end.

Definition last_writes (puts : list (list bool * MemTableEntry)) (m : gmap string MemTableEntry) :=
  foldl (λ m p, <[mt_Key p.2 := p.2]> m) m puts.

Lemma put_all_spec puts s m :
  is_service s m → ∃ s', put_all puts s = Some s' ∧ is_service s' (last_writes puts m) ∧
    config s' = config s ∧ immutableMT s' = immutableMT s.
Proof.
  revert s m. induction puts as [|[coins entry] puts IH]; intros s m Hs; simpl; [by exists s|].
  destruct (Put_spec coins entry s m Hs) as (s1 & -> & Hs1 & Hc1 & Hi1). simpl.
  destruct (IH _ _ Hs1) as (s2 & ? & ? & ? & ?). exists s2. split_and!; congruence.
Qed.

(** *** Scans *)

Lemma scan_table_spec startHash endHash hashFunc mt m :
  is_memtable mt m →
  ∃ es, scan_table startHash endHash hashFunc mt = Some es ∧
    ∀ e, e ∈ es ↔ m !! mt_Key e = Some e ∧ hash_in_range startHash endHash (hashFunc (mt_Key e)) = true.
Proof.
  intros Hmt. destruct (mt_entries_spec mt m Hmt) as (es & Hes & Hs & <-).
  unfold scan_table. rewrite Hes. simpl. eexists. split; [done|].
  pose proof (sorted_keys_NoDup _ Hs) as Hnd.
  intros e. rewrite list_elem_of_filter. rewrite <-elem_of_list_to_map.
  - rewrite list_elem_of_fmap. split; [intros [? ?]; split; [by exists e|done]|].
    intros [(e' & Heq & ?) ?]. simplify_eq. done.
  - rewrite <-list_fmap_compose. exact Hnd.
Qed.

(** ** Properties *)

(** Writes to the memtable are never lost or hidden.  From an empty
    memtable, after any puts, a flush that starts at any moment, and any more
    puts, no operation panics and [Get] returns for every key exactly the last
    entry put under it. *)
Theorem memtable_last_write_wins (cfg : MemTableConfig) (puts1 puts2 : list (list bool * MemTableEntry)) :
  ∃ s1 s2, put_all puts1 (NewMemTableService cfg) = Some s1 ∧
    put_all puts2 (begin_flush_if_needed s1) = Some s2 ∧
    ∀ key, Get s2 key = Some (last_writes (puts1 ++ puts2) ∅ !! key).
Proof.
  destruct (put_all_spec puts1 _ _ (NewMemTableService_spec cfg)) as (s1 & H1 & Hs1 & _ & Hi1).
  assert (is_service (begin_flush_if_needed s1) (last_writes puts1 ∅)) as Hs1'.
  { unfold begin_flush_if_needed. destruct (begin_flush s1) as [[imm s']|] eqn:Hb; [|done].
    by destruct (begin_flush_spec _ _ _ _ Hs1 Hi1 Hb) as (_ & ? & _). }
  destruct (put_all_spec puts2 _ _ Hs1') as (s2 & H2 & Hs2 & _). exists s1, s2.
  split_and!; [done..|]. intros key. rewrite (Get_spec _ _ _ Hs2). unfold last_writes. by rewrite foldl_app.
Qed.

(** A range scan returns exactly the live entries whose hash is in the
    range, where a range whose end is not above its start wraps around. *)
Theorem memtable_scan_spec (cfg : MemTableConfig) (puts : list (list bool * MemTableEntry))
    (startHash endHash : Z) (hashFunc : string → Z) :
  ∃ s es, put_all puts (NewMemTableService cfg) = Some s ∧
    ScanKeysInRange s startHash endHash hashFunc = Some es ∧
    ∀ e, e ∈ es ↔ last_writes puts ∅ !! mt_Key e = Some e ∧
      let h := hashFunc (mt_Key e) in
      if decide (startHash < endHash) then startHash ≤ h < endHash else startHash ≤ h ∨ h < endHash.
Proof.
  destruct (put_all_spec puts _ _ (NewMemTableService_spec cfg)) as (s & Hp & (cur & old & Hc & Ho & Hm) & _ & Hi).
  simpl in Hi. rewrite Hi in Ho. subst old. rewrite (right_id_L ∅ (∪)) in Hm.
  destruct (scan_table_spec startHash endHash hashFunc _ _ Hc) as (es & Hes & Hin).
  exists s, es. split_and!; [done|by unfold ScanKeysInRange; rewrite Hes, Hi|].
  intros e. rewrite Hin, Hm. apply and_iff_compat_l. unfold hash_in_range. cbn zeta.
  case_decide; [rewrite (proj2 (Z.ltb_lt _ _)) by done|rewrite (proj2 (Z.ltb_ge _ _)) by lia]; lia.
Qed.

Lemma begin_flush_put coins e s s' m :
  is_service s m → memTable s = NewMemTable (MaxSize (config s)) → entry_size e < 2 ^ 63 →
  Put coins e s = Some s' →
  ∃ mt, begin_flush s' = Some (mt, mkMemTableService (config s) (NewMemTable (MaxSize (config s))) (Some mt)) ∧
    is_memtable mt {[ mt_Key e := e ]}.
Proof.
  intros _ Hnew Hsz Hput. unfold Put in Hput. rewrite Hnew in Hput.
  destruct (mt_Put_spec coins e _ _ (NewMemTable_spec (MaxSize (config s)))) as (mt & Hmt & Hism & Hsize).
  rewrite Hmt in Hput. injection Hput as <-. exists mt. unfold begin_flush. cbn [memTable config].
  assert (mt_Size mt = entry_size e) as ->.
  { rewrite Hsize. change (mt_Size (NewMemTable _)) with 0. apply i64_small. unfold entry_size in *. lia. }
  rewrite (proj2 (Z.eqb_neq _ _)) by (unfold entry_size; lia). split; [done|]. by rewrite <-insert_empty.
Qed.

(** A flush that failed hides acknowledged writes from the next flush on.
    [flushMu] keeps flushes apart, but the table of a flush that failed stays in
    [immutableMT] only until the next flush replaces it: its entry is found before
    and not found after, whatever becomes of the next flush. *)
Theorem failed_flush_hides_writes {S E} (write write' : MemTable → S → res E S) (st : S) (err : E) cfg coins1 coins2 e1 e2 :
  mt_Key e1 ≠ mt_Key e2 → entry_size e1 < 2 ^ 63 → entry_size e2 < 2 ^ 63 → (∀ mt, write mt st = Err err) →
  ∃ s1 s1' s2, Put coins1 e1 (NewMemTableService cfg) = Some s1 ∧ Flush write s1 st = (s1', st, Some err) ∧
    Put coins2 e2 s1' = Some s2 ∧ Get s2 (mt_Key e1) = Some (Some e1) ∧
    Get (Flush write' s2 st).1.1 (mt_Key e1) = Some None.
Proof.
  intros Hne Hs1 Hs2 Hfail. pose proof (NewMemTableService_spec cfg) as H0.
  destruct (Put_spec coins1 e1 _ _ H0) as (s1 & Hp1 & Hi1 & Hc1 & Hn1).
  destruct (begin_flush_put coins1 e1 _ s1 _ H0 eq_refl Hs1 Hp1) as (mt1 & Hb1 & Hm1).
  set (s1' := mkMemTableService _ _ (Some mt1)) in *.
  assert (is_service s1' {[ mt_Key e1 := e1 ]}) as Hi1'.
  { exists ∅, {[ mt_Key e1 := e1 ]}. split_and!; [apply NewMemTable_spec|done|by rewrite (left_id_L ∅ (∪))]. }
  destruct (Put_spec coins2 e2 _ _ Hi1') as (s2 & Hp2 & Hi2 & Hc2 & Hn2).
  destruct (begin_flush_put coins2 e2 s1' s2 _ Hi1' eq_refl Hs2 Hp2) as (mt2 & Hb2 & Hm2).
  exists s1, s1', s2. split_and!; [done|unfold Flush; by rewrite Hb1, Hfail|done| |].
  - rewrite (Get_spec _ _ _ Hi2), lookup_insert_ne, lookup_singleton_eq by done. done.
  - unfold Flush. rewrite Hb2. destruct (write' mt2 st) as [st'|err']; cbn [fst].
    + by rewrite (Get_spec (end_flush _) ∅) by (exists ∅, ∅; split_and!; [apply NewMemTable_spec|done|done]).
    + rewrite (Get_spec _ {[ mt_Key e2 := e2 ]}), lookup_singleton_ne by
        (done || (exists ∅, {[ mt_Key e2 := e2 ]}; split_and!; [apply NewMemTable_spec|done|by rewrite (left_id_L ∅ (∪))])).
      done.
Qed.

Lemma failed_flush_hides_writes_witness :
  let e1 := mkMTE "t:a" [] (mkVC []) 1 false in let e2 := mkMTE "t:b" [] (mkVC []) 2 false in
  ∃ s1 s1' s2, Put [true] e1 (NewMemTableService (mkMemTableConfig 1024 1 2)) = Some s1 ∧
    Flush (λ _ _, Err "no space left on device") s1 tt = (s1', tt, Some "no space left on device") ∧
    Put [] e2 s1' = Some s2 ∧ Get s2 (mt_Key e1) = Some (Some e1) ∧
    Get (Flush (λ _ st, Ok st : res string unit) s2 tt).1.1 (mt_Key e1) = Some None.
Proof.
  apply (failed_flush_hides_writes (λ _ _, Err "no space left on device") (λ _ st, Ok st) tt); [discriminate|reflexivity..].
Defined.
