(* ===== verification/KeyRange.v ===== *)
(** * Key ranges that move with the topology:
    [coordinator/internal/service/keyrange_service.go]

    The ranges handed to the storage nodes when a node joins or leaves, and
    the merging of ranges. *)

From S2P Require Import MemTable.
From S2P Require Import Prelude GoHash Model Float64 Ring.
#[local] Open Scope Z_scope.

(** ** Definitions *)

Record HashRange := mkHashRange { StartHash : Z; EndHash : Z }.

#[global] Instance HashRange_eq_dec : EqDecision HashRange.
Proof. solve_decision. Defined.

Section definitions.
Context `{MapRange}.

Definition vnode_counts (vnodes : list VirtualNode) : gmap string Z :=
  foldl (λ m vn, <[vn_NodeID vn := default 0 (m !! vn_NodeID vn) + 1]> m) ∅ vnodes.

Definition cloneHashRing (original : ConsistentHasher) : ConsistentHasher :=
  foldl (λ ch nc, AddNode nc.1 nc.2 ch) NewConsistentHasher
    (map_range (vnode_counts (GetAllVirtualNodes original))).

(** [m[k] = append(m[k], r)]. *)
Definition push_range (k : string) (r : HashRange) (m : gmap string (list HashRange)) :=
  <[k := default [] (m !! k) ++ [r]]> m.

Definition CalculateKeyRangesForNewNode (currentHashRing : ConsistentHasher) (newNode : StorageNode)
    : gmap string (list HashRange) :=
  let tempRing := AddNode (NodeID newNode) (VirtualNodes newNode) (cloneHashRing currentHashRing) in
  foldl (λ m vnode,
      if decide (vn_NodeID vnode = NodeID newNode) then
        let oldOwner := GetNodeForHash currentHashRing (Hash vnode) in
        if decide (oldOwner = EmptyString ∨ oldOwner = NodeID newNode) then m
        else push_range oldOwner
               (mkHashRange (GetPreviousHash tempRing (Hash vnode)) (Hash vnode)) m
      else m)
    ∅ (GetAllVirtualNodes tempRing).

Definition CalculateKeyRangesForRemovedNode (currentHashRing : ConsistentHasher) (removedNode : StorageNode)
    : gmap string (list HashRange) :=
  let tempRing := RemoveNode (NodeID removedNode) (cloneHashRing currentHashRing) in
  foldl (λ m vnode,
      if decide (vn_NodeID vnode = NodeID removedNode) then
        let newOwner := GetNodeForHash tempRing (Hash vnode) in
        if decide (newOwner = EmptyString ∨ newOwner = NodeID removedNode) then m
        else push_range newOwner
               (mkHashRange (GetPreviousHash currentHashRing (Hash vnode)) (Hash vnode)) m
      else m)
    ∅ (GetAllVirtualNodes currentHashRing).
End definitions.

(** *** [MergeRanges] *)

(** One run of the inner loop, [for j := i + 1; ...]: [x] is [sortedRanges[i]]
    and the list is what follows it; each smaller element is swapped in. *)
Fixpoint sweep (x : HashRange) (l : list HashRange) : HashRange * list HashRange :=
  match l with
  | [] => (x, [])
  | y :: l =>
      if StartHash y <? StartHash x
      then let '(x', l') := sweep y l in (x', x :: l')
      else let '(x', l') := sweep x l in (x', y :: l')
  end.

Fixpoint sort_loop (n : nat) (l : list HashRange) : list HashRange :=
  match n, l with
  | S n, x :: l => let '(x', l') := sweep x l in x' :: sort_loop n l'
  | _, _ => l
  end.

(** The merging loop; [last] is the last element of [merged]. *)
Fixpoint merge_loop (merged : list HashRange) (last : HashRange) (l : list HashRange) : list HashRange :=
  match l with
  | [] => merged ++ [last]
  | current :: l =>
      if StartHash current <=? EndHash last then
        if EndHash last <? EndHash current
        then merge_loop merged (mkHashRange (StartHash last) (EndHash current)) l
        else merge_loop merged last l
      else merge_loop (merged ++ [last]) current l
  end.

Definition MergeRanges (ranges : list HashRange) : list HashRange :=
  match sort_loop (length ranges) ranges with
  | [] => ranges
  | first :: rest => merge_loop [] first rest
  end.

(** [None] where the conversion to [int64] is left to the implementation. *)
Definition EstimateKeyCount (totalKeys rangeStart rangeEnd : Z) : option Z :=
  let hashSpaceSize := 0xFFFFFFFFFFFFFFFF in
  let rangeSize :=
    if rangeStart <=? rangeEnd then rangeEnd - rangeStart
    else u64 ((hashSpaceSize - rangeStart) + rangeEnd) in
  let proportion := f64_div (f64_of rangeSize) (f64_of hashSpaceSize) in
  f64_to_int64 (f64_mul (f64_of totalKeys) proportion).

(** ** Merging *)

Lemma sweep_spec x l :
  let '(x', l') := sweep x l in
  x' :: l' ≡ₚ x :: l ∧ StartHash x' ≤ StartHash x ∧ Forall (λ y, StartHash x' ≤ StartHash y) l' ∧
  length l' = length l.
Proof.
  revert x. induction l as [|y l IH]; intros x; simpl; [split_and!; (done || lia)|].
  destruct (Z.ltb_spec (StartHash y) (StartHash x)).
  - specialize (IH y). destruct (sweep y l) as [x' l']. destruct IH as (Hp & Hle & Hall & Hlen).
    split_and!; [|lia|constructor; [lia|done]|simpl; lia].
    by rewrite (Permutation_swap x x'), Hp.
  - specialize (IH x). destruct (sweep x l) as [x' l']. destruct IH as (Hp & Hle & Hall & Hlen).
    split_and!; [|lia|constructor; [lia|done]|simpl; lia].
    rewrite (Permutation_swap y x'), Hp. apply Permutation_swap.
Qed.

Lemma sort_loop_spec n l :
  (length l ≤ n)%nat →
  sort_loop n l ≡ₚ l ∧ StronglySorted (λ a b, StartHash a ≤ StartHash b) (sort_loop n l).
Proof.
  revert l. induction n as [|n IH]; intros [|x l] Hlen; simpl in *; try lia; try (split; [done|constructor]).
  pose proof (sweep_spec x l) as Hs. destruct (sweep x l) as [x' l'].
  destruct Hs as (Hp & _ & Hall & Hl). destruct (IH l') as [IHp IHs]; [lia|].
  split; [by rewrite IHp|]. constructor; [done|]. by rewrite IHp.
Qed.

Definition in_range (k : Z) (r : HashRange) : Prop := StartHash r ≤ k < EndHash r.

(** Ranges in increasing order with gaps between them. *)
Definition separated : list HashRange → Prop := StronglySorted (λ a b, EndHash a < StartHash b).

Lemma merge_loop_spec merged last l :
  Forall (λ r, StartHash r ≤ EndHash r) (last :: l) →
  StronglySorted (λ a b, StartHash a ≤ StartHash b) (last :: l) →
  separated (merged ++ [last]) →
  let out := merge_loop merged last l in
  (∀ k, Exists (in_range k) out ↔ Exists (in_range k) (merged ++ last :: l)) ∧
  (separated out) ∧ (length out ≤ length merged + S (length l))%nat.
Proof.
  revert merged last. induction l as [|cur l IH]; intros merged last Hwf Hs Hsep; cbn [merge_loop].
  { split_and!; [done|done|]. rewrite length_app. simpl. lia. }
  apply Forall_cons in Hwf as [Hlast Hwf]. pose proof Hwf as Hwf'. apply Forall_cons in Hwf' as [Hcur Hwf'].
  apply StronglySorted_cons in Hs as [Hle Hs]. pose proof Hs as Hs'. apply StronglySorted_cons in Hs' as [Hle' Hs'].
  pose proof Hle as Hlc. apply Forall_cons in Hlc as [Hlc Hll].
  destruct (Z.leb_spec (StartHash cur) (EndHash last)); [destruct (Z.ltb_spec (EndHash last) (EndHash cur))|].
  - set (last' := mkHashRange (StartHash last) (EndHash cur)).
    destruct (IH merged last') as (H1 & H2 & H3).
    + constructor; [subst last'; simpl; lia|done].
    + constructor; [done|]. eapply Forall_impl; [exact Hll|]. done.
    + unfold separated in *. rewrite StronglySorted_app in Hsep |- *. destruct Hsep as (Ha & Hb & _).
      split_and!; [|done|repeat constructor]. intros a b Ha' ->%list_elem_of_singleton. simpl.
      apply (Ha a last Ha'). by left.
    + split_and!; [|done|simpl; lia]. intros k. rewrite H1, !Exists_app, !Exists_cons.
      assert (in_range k last' ↔ in_range k last ∨ in_range k cur); [|naive_solver].
      unfold in_range, last'. simpl. lia.
  - destruct (IH merged last) as (H1 & H2 & H3); [by constructor|by constructor|done|].
    split_and!; [|done|simpl; lia]. intros k. rewrite H1, !Exists_app, !Exists_cons.
    assert (in_range k cur → in_range k last); [unfold in_range; lia|naive_solver].
  - destruct (IH (merged ++ [last]) cur) as (H1 & H2 & H3); [done|done| |].
    + unfold separated in *. rewrite StronglySorted_app. split_and!; [|done|repeat constructor].
      intros a b Ha ->%list_elem_of_singleton. apply elem_of_app in Ha as [Ha| ->%list_elem_of_singleton]; [|lia].
      rewrite StronglySorted_app in Hsep. destruct Hsep as (Hx & _).
      pose proof (Hx a last Ha ltac:(by left)). lia.
    + rewrite length_app in H3. simpl in H3. split_and!; [|done|simpl; lia].
      intros k. by rewrite H1, <-(assoc (++)).
Qed.

Lemma MergeRanges_spec ranges :
  Forall (λ r, StartHash r ≤ EndHash r) ranges →
  (∀ k, Exists (in_range k) (MergeRanges ranges) ↔ Exists (in_range k) ranges) ∧
  separated (MergeRanges ranges) ∧ (length (MergeRanges ranges) ≤ length ranges)%nat.
Proof.
  intros Hwf. unfold MergeRanges. destruct (sort_loop_spec (length ranges) ranges (le_n _)) as [Hp Hs].
  destruct (sort_loop (length ranges) ranges) as [|first rest].
  { apply Permutation_nil_l in Hp. subst ranges. split_and!; [done|constructor|done]. }
  destruct (merge_loop_spec [] first rest) as (H1 & H2 & H3); [by rewrite Hp|done|repeat constructor|].
  split_and!; [|done|].
  - intros k. rewrite H1. simpl. by rewrite Hp.
  - rewrite <-(Permutation_length Hp). done.
Qed.

(** ** Ownership as circular intervals *)

(** [k] lies on the arc from [a] (excluded) clockwise to [b] (included). *)
Definition between (a b k : Z) : Prop := if decide (a < b) then a < k ≤ b else a < k ∨ k ≤ b.

Lemma strictly_sorted r : StronglySorted Z.le r → NoDup r → StronglySorted Z.lt r.
Proof.
  induction 1 as [|x r _ IH Hall]; intros Hnd; [constructor|].
  apply NoDup_cons in Hnd as [Hni Hnd]. constructor; [auto|].
  rewrite Forall_forall in Hall |- *. intros y Hy. specialize (Hall y Hy).
  assert (x ≠ y) by (by intros ->). lia.
Qed.

Lemma sorted_split l1 h l2 :
  StronglySorted Z.lt (l1 ++ h :: l2) → Forall (λ x, x < h) l1 ∧ Forall (λ x, h < x) l2.
Proof.
  intros Hs. apply StronglySorted_app in Hs as (H1 & _ & H2). apply StronglySorted_cons in H2 as [H2 _].
  split; [|done]. apply Forall_forall. intros x Hx. apply H1; [done|by left].
Qed.

Lemma clockwise_cut k l1 h l2 :
  Forall (λ x, x < k) l1 → k ≤ h → Forall (λ x, h < x) l2 →
  clockwise k (l1 ++ h :: l2) = h :: l2 ++ l1.
Proof.
  intros Hlo Hk Hhi. unfold clockwise. rewrite !filter_app.
  rewrite (filter_none (λ x, k ≤ x) l1), (filter_all (λ x, x < k) l1) by
    (eapply Forall_impl; [exact Hlo|]; simpl; lia).
  rewrite filter_cons_True, filter_cons_False by lia.
  rewrite (filter_all (λ x, k ≤ x) l2), (filter_none (λ x, x < k) l2) by
    (eapply Forall_impl; [exact Hhi|]; simpl; lia).
  by rewrite app_nil_r.
Qed.

Lemma clockwise_above k r : Forall (λ x, x < k) r → clockwise k r = r.
Proof.
  intros Hall. unfold clockwise. rewrite (filter_all (λ h, h < k) r) by done.
  rewrite filter_none; [done|]. eapply Forall_impl; [exact Hall|]. simpl. lia.
Qed.

(** The keys from which the walk meets [h] first. *)
Lemma head_clockwise k l1 h l2 :
  StronglySorted Z.lt (l1 ++ h :: l2) →
  head (clockwise k (l1 ++ h :: l2)) = Some h ↔
  Forall (λ x, x < k) l1 ∧ k ≤ h ∨ l1 = [] ∧ Forall (λ x, x < k) (h :: l2).
Proof.
  intros Hs. destruct (sorted_split _ _ _ Hs) as [Hlo Hhi]. split.
  - unfold clockwise. rewrite filter_app. intros Hh.
    destruct (filter (λ x, k ≤ x) l1) as [|y f1] eqn:Hf1.
    2: { simpl in Hh. simplify_eq.
         assert (h ∈ l1) as Hin by (apply (list_elem_of_filter (λ x, k ≤ x)); rewrite Hf1; by left).
         rewrite Forall_forall in Hlo. specialize (Hlo _ Hin). lia. }
    apply filter_nil_inv in Hf1. assert (Forall (λ x, x < k) l1) as H1
      by (eapply Forall_impl; [exact Hf1|]; simpl; lia).
    destruct (Z.le_gt_cases k h) as [Hk|Hk]; [by left|right].
    rewrite filter_cons_False in Hh by lia. simpl in Hh.
    destruct (filter (λ x, k ≤ x) l2) as [|z f2] eqn:Hf2; simpl in Hh.
    + apply filter_nil_inv in Hf2. split; [|constructor; [lia|]; eapply Forall_impl; [exact Hf2|]; simpl; lia].
      rewrite filter_app, (filter_all _ l1) in Hh by done. destruct l1 as [|x l1]; [done|].
      simpl in Hh. simplify_eq. apply Forall_cons in Hlo as [? _]. lia.
    + simplify_eq. assert (h ∈ l2) as Hin by (apply (list_elem_of_filter (λ x, k ≤ x)); rewrite Hf2; by left).
      rewrite Forall_forall in Hhi. specialize (Hhi _ Hin). lia.
  - intros [[H1 H2]|[-> H1]].
    + by rewrite clockwise_cut.
    + by rewrite clockwise_above.
Qed.

(** From anywhere on the arc that ends in [h], the walk goes on as from [h]. *)
Lemma clockwise_head r k h :
  StronglySorted Z.lt r → h ∈ r → head (clockwise k r) = Some h → clockwise k r = clockwise h r.
Proof.
  intros Hs (l1 & l2 & ->)%list_elem_of_split Hh.
  destruct (sorted_split _ _ _ Hs) as [Hlo Hhi].
  rewrite (clockwise_cut h l1 h l2) by (done || lia).
  apply head_clockwise in Hh as [[H1 H2]|[-> H1]]; [| |done].
  - by apply clockwise_cut.
  - rewrite clockwise_above by done. by rewrite app_nil_r.
Qed.

Lemma index_of_split l1 h l2 : h ∉ l1 → index_of h (l1 ++ h :: l2) = Some (length l1).
Proof.
  induction l1 as [|x l1 IH]; intros Hni; simpl.
  - by rewrite Z.eqb_refl.
  - apply not_elem_of_cons in Hni as [Hne Hni]. destruct (Z.eqb_spec x h); [congruence|].
    by rewrite IH.
Qed.

(** [GetPreviousHash] delimits the arc of a virtual node. *)
Lemma owner_arc ch k h :
  StronglySorted Z.lt (ring ch) → h ∈ ring ch →
  head (clockwise k (ring ch)) = Some h ↔ between (GetPreviousHash ch h) h k.
Proof.
  unfold GetPreviousHash. intros Hs (l1 & l2 & Hr)%list_elem_of_split. rewrite Hr in *. clear Hr.
  destruct (sorted_split _ _ _ Hs) as [Hlo Hhi].
  rewrite index_of_split by (intros Hin; rewrite Forall_forall in Hlo; specialize (Hlo _ Hin); lia).
  rewrite head_clockwise by done. unfold between. destruct l1 as [|p l1 _] using rev_ind.
  - simpl length. rewrite app_nil_l. destruct l2 as [|z l2 _] using rev_ind; simpl.
    + rewrite decide_False by lia. rewrite !Forall_cons, !Forall_nil. naive_solver lia.
    + rewrite length_app. simpl. rewrite Nat.add_1_r. simpl. rewrite nth_middle.
      apply Forall_app in Hhi as [_ Hz]. apply Forall_cons in Hz as [Hz _].
      rewrite decide_False by lia. rewrite Forall_nil, Forall_cons, Forall_app, Forall_cons, Forall_nil.
      rewrite app_nil_l, app_comm_cons in Hs. apply StronglySorted_app in Hs as (Hs & _).
      split; [naive_solver lia|]. intros [Hk|Hk]; [right|by left]. split; [done|].
      split_and!; [specialize (Hs h z ltac:(by left) ltac:(by left)); lia| |done|done].
      apply Forall_forall. intros x Hx. specialize (Hs x z ltac:(by right) ltac:(by left)). lia.
  - replace (length (l1 ++ [p])) with (S (length l1)) by (rewrite length_app; simpl; lia).
    rewrite app_nth1 by (rewrite length_app; simpl; lia). rewrite nth_middle.
    apply Forall_app in Hlo as [Hlo Hp]. apply Forall_cons in Hp as [Hp _].
    rewrite decide_True by lia. rewrite Forall_app, Forall_cons, Forall_nil.
    split; [intros [?|[?%app_nil ?]]; naive_solver lia|]. intros Hk. left. split_and!; [|lia|done|lia].
    rewrite <-(assoc (++)) in Hs. apply StronglySorted_app in Hs as (Hs & _).
    apply Forall_forall. intros x Hx. specialize (Hs x p Hx ltac:(by left)). lia.
Qed.

(** The storage nodes read a range with its start and without its end
    ([keyInRanges], [ScanKeysInRange]); [hash_in_range] of [MemTable] is their test. *)
Definition range_has (r : HashRange) (k : Z) : Prop := hash_in_range (StartHash r) (EndHash r) k = true.

Lemma range_has_between a b k : k ≠ a → k ≠ b → range_has (mkHashRange a b) k ↔ between a b k.
Proof. intros Ha Hb. unfold range_has, hash_in_range, between. simpl. destruct (Z.ltb_spec a b); case_decide; lia. Qed.

Lemma range_has_ends a b : a ≠ b → range_has (mkHashRange a b) a ∧ ¬ range_has (mkHashRange a b) b.
Proof. intros Hab. unfold range_has, hash_in_range. simpl. destruct (Z.ltb_spec a b); lia. Qed.

(** In a ring with another virtual node, the previous hash is another one. *)
Lemma previous_hash_ne ch h h' :
  StronglySorted Z.lt (ring ch) → h ∈ ring ch → h' ∈ ring ch → h' ≠ h → GetPreviousHash ch h ≠ h.
Proof.
  intros Hs Hh Hh' Hne Heq. assert (head (clockwise h' (ring ch)) = Some h) as Hhead.
  { apply owner_arc; [done|done|]. rewrite Heq. unfold between. rewrite decide_False by lia. lia. }
  apply list_elem_of_split in Hh' as (l1 & l2 & Hr). rewrite Hr in *. destruct (sorted_split _ _ _ Hs) as [Hlo Hhi].
  rewrite clockwise_cut in Hhead by (done || lia). simpl in Hhead. congruence.
Qed.

Lemma range_has_arc ch k h :
  StronglySorted Z.lt (ring ch) → h ∈ ring ch → GetPreviousHash ch h ≠ h →
  let r := mkHashRange (GetPreviousHash ch h) h in
  (range_has r k → k ≠ StartHash r → head (clockwise k (ring ch)) = Some h) ∧
  (head (clockwise k (ring ch)) = Some h → k = EndHash r ∨ range_has r k ∧ k ≠ StartHash r) ∧
  range_has r (StartHash r) ∧ ¬ range_has r (EndHash r) ∧ head (clockwise h (ring ch)) = Some h.
Proof.
  intros Hs Hh Hne r. destruct (range_has_ends _ _ Hne) as [Hst Hend]. split_and!; [| |done|done|].
  - intros Hk Hka. apply owner_arc; [done|done|]. apply range_has_between; [done| |done]. by intros ->.
  - intros Hk%owner_arc; [|done|done]. destruct (decide (k = h)) as [->|Hkh]; [by left|right].
    assert (k ≠ GetPreviousHash ch h) as Hka.
    { intros ->. unfold between in Hk. case_decide; lia. }
    split; [by apply range_has_between|done].
  - apply owner_arc; [done|done|]. unfold between. case_decide; lia.
Qed.

(** ** Rings built from a list of nodes *)

Definition build (ns : list (string * Z)) : ConsistentHasher :=
  foldl (λ ch nc, AddNode nc.1 nc.2 ch) NewConsistentHasher ns.

Definition all_hashes (ns : list (string * Z)) : list Z := ns ≫= λ nc, vnode_hashes nc.1 nc.2.

(** Distinct nodes whose virtual nodes have distinct hashes. *)
Record clean (ns : list (string * Z)) : Prop := {
  clean_ids : NoDup ns.*1;
  clean_hashes : NoDup (all_hashes ns);
}.

Definition owner (ch : ConsistentHasher) (h : Z) : string := vn_NodeID (vnode_of ch h).

Lemma build_snoc ns nc : build (ns ++ [nc]) = AddNode nc.1 nc.2 (build ns).
Proof. unfold build. by rewrite foldl_snoc. Qed.

Lemma build_run ns : build ns = run_ring ((λ nc, RAdd nc.1 nc.2) <$> ns).
Proof.
  unfold build, run_ring. generalize NewConsistentHasher. induction ns as [|nc ns IH]; intros ch; [done|].
  simpl. by rewrite IH.
Qed.

Lemma build_wf ns : ring_wf (build ns).
Proof. rewrite build_run. apply run_ring_wf. Qed.

Lemma all_hashes_snoc ns nc : all_hashes (ns ++ [nc]) = all_hashes ns ++ vnode_hashes nc.1 nc.2.
Proof. unfold all_hashes. rewrite bind_app. simpl. by rewrite app_nil_r. Qed.

Lemma build_ring ns : ring (build ns) ≡ₚ all_hashes ns.
Proof.
  induction ns as [|nc ns IH] using rev_ind; [done|].
  rewrite build_snoc, AddNode_eq, all_hashes_snoc. cbn [ring].
  by rewrite merge_sort_Permutation, IH.
Qed.

Lemma elem_of_all_hashes ns h :
  h ∈ all_hashes ns ↔ ∃ n c, (n, c) ∈ ns ∧ h ∈ vnode_hashes n c.
Proof.
  unfold all_hashes. rewrite list_elem_of_bind. split.
  - intros ([n c] & Hh & Hin). eauto.
  - intros (n & c & Hin & Hh). by exists (n, c).
Qed.

(** The owner of a hash is the node it was made for. *)
Lemma build_owner ns n c h :
  NoDup (all_hashes ns) → (n, c) ∈ ns → h ∈ vnode_hashes n c → owner (build ns) h = n.
Proof.
  induction ns as [|[m d] ns IH] using rev_ind; intros Hnd Hin Hh; [by apply elem_of_nil in Hin|].
  rewrite all_hashes_snoc in Hnd. simpl in Hnd. apply NoDup_app in Hnd as (Hnd & Hdis & _).
  unfold owner. rewrite build_snoc. cbn [fst snd].
  destruct (decide (h ∈ vnode_hashes m d)) as [Hnew|Hold].
  - rewrite vnode_of_AddNode_new by done. apply elem_of_app in Hin as [Hin|Hin].
    + exfalso. apply (Hdis h); [|done]. apply elem_of_all_hashes. by exists n, c.
    + apply list_elem_of_singleton in Hin. by simplify_eq.
  - rewrite vnode_of_AddNode_old by done. apply elem_of_app in Hin as [Hin|Hin]; [by apply IH|].
    apply list_elem_of_singleton in Hin. by simplify_eq.
Qed.

Lemma build_owner_elem ns h :
  NoDup (all_hashes ns) → h ∈ ring (build ns) →
  ∃ c, (owner (build ns) h, c) ∈ ns ∧ h ∈ vnode_hashes (owner (build ns) h) c.
Proof.
  intros Hnd Hh. rewrite build_ring in Hh. apply elem_of_all_hashes in Hh as (n & c & Hin & Hh).
  exists c. by rewrite (build_owner _ _ _ _ Hnd Hin Hh).
Qed.

Lemma build_sorted ns : NoDup (all_hashes ns) → StronglySorted Z.lt (ring (build ns)).
Proof.
  intros Hnd. apply strictly_sorted; [apply (ring_sorted _ (build_wf ns))|]. by rewrite build_ring.
Qed.

Lemma ring_ext ns ns' :
  NoDup (all_hashes ns) → NoDup (all_hashes ns') → (∀ h, h ∈ all_hashes ns ↔ h ∈ all_hashes ns') →
  ring (build ns) = ring (build ns').
Proof.
  intros H1 H2 Hiff. apply (StronglySorted_unique Z.le); [apply (ring_sorted _ (build_wf _))..|].
  rewrite !build_ring. by apply NoDup_Permutation.
Qed.

(** *** [cloneHashRing] copies the ring *)

Lemma vnode_counts_lookup vnodes n :
  vnode_counts vnodes !! n =
    let k := length (filter (λ vn, vn_NodeID vn = n) vnodes) in
    if decide (k = 0%nat) then None else Some (Z.of_nat k).
Proof.
  unfold vnode_counts. induction vnodes as [|vn vnodes IH] using rev_ind; [done|].
  rewrite foldl_snoc, filter_app, length_app. set (m := foldl _ _ _) in *.
  cbn zeta in *. rewrite filter_cons. destruct (decide (vn_NodeID vn = n)) as [Hn|Hn].
  - rewrite Hn, lookup_insert_eq, IH. simpl. rewrite (decide_False (P := (_ + 1)%nat = 0%nat)) by lia.
    case_decide as H0; simpl; [rewrite H0; done|]. f_equal. lia.
  - rewrite lookup_insert_ne, IH by done. simpl. by rewrite Nat.add_0_r.
Qed.

Lemma vnode_hashes_nonneg n c : vnode_hashes n (Z.of_nat (Z.to_nat c)) = vnode_hashes n c.
Proof. unfold vnode_hashes. by rewrite Nat2Z.id. Qed.

Lemma length_vnode_hashes n c : length (vnode_hashes n c) = Z.to_nat c.
Proof. unfold vnode_hashes. by rewrite length_fmap, length_seq. Qed.

Lemma NoDup_all_hashes_one ns n c : NoDup (all_hashes ns) → (n, c) ∈ ns → NoDup (vnode_hashes n c).
Proof.
  intros Hnd (l1 & l2 & ->)%list_elem_of_split. unfold all_hashes in Hnd.
  rewrite bind_app, bind_cons in Hnd. apply NoDup_app in Hnd as (_ & _ & Hnd).
  by apply NoDup_app in Hnd as (? & _).
Qed.

Lemma NoDup_fst_inj (l : list (string * Z)) n c d : NoDup l.*1 → (n, c) ∈ l → (n, d) ∈ l → c = d.
Proof.
  intros Hnd Hc Hd. apply (elem_of_list_to_map_1 (M := gmap string)) in Hc, Hd; [|done..]. congruence.
Qed.

Section clone.
Context `{MapRange}.

Lemma clone_build ns : cloneHashRing (build ns) = build (map_range (vnode_counts (GetAllVirtualNodes (build ns)))).
Proof. done. Qed.

(** The clone adds each node that has a virtual node, with its count. *)
Lemma clone_nodes ns n c' :
  clean ns →
  (n, c') ∈ map_range (vnode_counts (GetAllVirtualNodes (build ns))) ↔
  ∃ c, (n, c) ∈ ns ∧ 0 < c ∧ c' = c.
Proof.
  intros [Hids Hnd]. rewrite elem_of_map_range, vnode_counts_lookup. cbn zeta.
  assert (∀ c, (n, c) ∈ ns →
    length (filter (λ vn, vn_NodeID vn = n) (GetAllVirtualNodes (build ns))) = Z.to_nat c) as Hlen.
  { intros c Hin. unfold GetAllVirtualNodes.
    rewrite (filter_fmap_iff _ _ (λ h, h ∈ vnode_hashes n c)), length_fmap.
    - rewrite <-(length_vnode_hashes n c). apply Permutation_length, NoDup_Permutation.
      + apply NoDup_filter. by rewrite build_ring.
      + by eapply NoDup_all_hashes_one.
      + intros h. rewrite list_elem_of_filter, build_ring, elem_of_all_hashes. naive_solver.
    - apply Forall_forall. intros h Hh. split.
      + intros Ho. destruct (build_owner_elem ns h Hnd Hh) as (d & Hin' & Hd).
        unfold owner in *. rewrite Ho in *.
        assert (c = d) as ->; [|done]. by eapply NoDup_fst_inj.
      + intros Hhc. by apply (build_owner ns n c). }
  split.
  - case_decide as H0; [done|]. intros [= <-].
    destruct (decide (n ∈ ns.*1)) as [Hin|Hni].
    + apply list_elem_of_fmap in Hin as ([m c] & -> & Hin). simpl in *. specialize (Hlen c Hin).
      exists c. split_and!; [done|lia|lia].
    + exfalso. apply H0. unfold GetAllVirtualNodes.
      rewrite (filter_fmap_iff _ _ (λ _, False)); [by rewrite filter_none by (apply Forall_true; naive_solver)|].
      apply Forall_forall. intros h Hh. split; [|done]. intros Ho.
      destruct (build_owner_elem ns h Hnd Hh) as (d & Hin' & _). unfold owner in Hin'. rewrite Ho in Hin'.
      apply Hni. apply list_elem_of_fmap. by exists (n, d).
  - intros (c & Hin & Hpos & ->). rewrite (Hlen c Hin), decide_False by lia. f_equal. lia.
Qed.

Lemma clone_clean ns :
  clean ns →
  let ns' := map_range (vnode_counts (GetAllVirtualNodes (build ns))) in
  NoDup (all_hashes ns') ∧ ∀ h, h ∈ all_hashes ns' ↔ h ∈ all_hashes ns.
Proof.
  intros Hc ns'. pose proof (clean_hashes _ Hc) as Hnd.
  assert (∀ n c', (n, c') ∈ ns' → (n, c') ∈ ns) as Hsub.
  { intros n c' (c & ? & _ & ->)%(clone_nodes _ _ _ Hc). done. }
  split.
  - apply NoDup_bind.
    + intros [n1 c1] [n2 c2] h H1 H2 Hh1 Hh2. simpl in *.
      assert (n1 = n2) as <-.
      { rewrite <-(build_owner ns n1 c1 h), <-(build_owner ns n2 c2 h); auto. }
      f_equal. apply (NoDup_fst_inj ns n1); [apply (clean_ids _ Hc)|auto..].
    + intros [n c'] Hin. apply (NoDup_all_hashes_one ns); auto.
    + apply (NoDup_fmap_1 fst), NoDup_map_range.
  - intros h. rewrite !elem_of_all_hashes. split.
    + intros (n & c & Hin & Hh). exists n, c. auto.
    + intros (n & c & Hin & Hh). exists n, c. split; [|done]. apply clone_nodes; [done|].
      exists c. split_and!; [done| |done].
      assert (length (vnode_hashes n c) ≠ 0%nat) by (destruct (vnode_hashes n c); [by apply elem_of_nil in Hh|done]).
      rewrite length_vnode_hashes in *. lia.
Qed.

Lemma clone_same ns :
  clean ns →
  ring (cloneHashRing (build ns)) = ring (build ns) ∧
  ∀ h, h ∈ ring (build ns) → owner (cloneHashRing (build ns)) h = owner (build ns) h.
Proof.
  intros Hc. destruct (clone_clean ns Hc) as [Hnd Hiff]. rewrite clone_build.
  set (ns' := map_range _) in *. split.
  - apply ring_ext; [done|apply (clean_hashes _ Hc)|done].
  - intros h Hh. destruct (build_owner_elem ns h (clean_hashes _ Hc) Hh) as (c & Hin & Hhc).
    rewrite build_ring, <-Hiff in Hh. apply elem_of_all_hashes in Hh as (n & c' & Hin' & Hh).
    rewrite (build_owner _ _ _ _ Hnd Hin' Hh). symmetry. apply (build_owner ns n c'); [apply (clean_hashes _ Hc)| |done].
    by apply clone_nodes in Hin' as (c0 & ? & _ & ->).
Qed.

(** Looking up owners depends on the ring and the owners of its hashes only. *)
Lemma GetNodeForHash_ext ch1 ch2 k :
  ring_wf ch1 → ring_wf ch2 → ring ch1 = ring ch2 →
  (∀ h, h ∈ ring ch2 → owner ch1 h = owner ch2 h) → GetNodeForHash ch1 k = GetNodeForHash ch2 k.
Proof.
  intros H1 H2 Hr Ho. rewrite !GetNodeForHash_owner, Hr by done.
  destruct (clockwise k (ring ch2)) as [|h l] eqn:Hcw; [done|]. simpl. apply Ho.
  apply (elem_of_clockwise k). rewrite Hcw. by left.
Qed.
End clone.

(** The assignments a loop over virtual nodes collects. *)
Lemma push_loop (f : VirtualNode → option (string * HashRange)) step l m :
  (∀ m vn, step m vn = match f vn with Some (k, r) => push_range k r m | None => m end) →
  ∀ k r, r ∈ default [] (foldl step m l !! k) ↔
    r ∈ default [] (m !! k) ∨ ∃ vn, vn ∈ l ∧ f vn = Some (k, r).
Proof.
  intros Hstep k r. revert m. induction l as [|vn l IH]; intros m; simpl.
  { split; [by left|]. intros [?|(vn & ?%elem_of_nil & _)]; done. }
  rewrite IH, Hstep. setoid_rewrite elem_of_cons.
  destruct (f vn) as [[k' r']|] eqn:Hf; [|naive_solver].
  unfold push_range. destruct (decide (k' = k)) as [->|Hne].
  - rewrite lookup_insert_eq. simpl. rewrite elem_of_app, list_elem_of_singleton. naive_solver.
  - rewrite lookup_insert_ne by done. naive_solver.
Qed.

(** ** Ranges that move *)

Section ranges.
Context `{MapRange}.
Implicit Types (ns : list (string * Z)) (newNode removedNode : StorageNode).

Definition assigned (m : gmap string (list HashRange)) (node : string) (r : HashRange) : Prop :=
  r ∈ default [] (m !! node).

(** A node that is removed, or not yet there, leaves the rest of the walk as it is. *)
Lemma successor_without (hs : list Z) ch ch' k h :
  StronglySorted Z.lt (ring ch) → ring_wf ch' → ring ch' = filter (λ h, h ∉ hs) (ring ch) →
  h ∈ ring ch → head (clockwise k (ring ch)) = Some h →
  GetNodeForHash ch' k = GetNodeForHash ch' h.
Proof.
  intros Hs Hwf Hr Hin Hh. rewrite !GetNodeForHash_owner by done.
  rewrite Hr, <-!filter_clockwise. by rewrite (clockwise_head _ _ _ Hs Hin Hh).
Qed.

Lemma GetNodeForHash_nonempty ch k :
  ring_wf ch → ring ch ≠ [] → ∃ h, h ∈ ring ch ∧ head (clockwise k (ring ch)) = Some h ∧
    GetNodeForHash ch k = owner ch h.
Proof.
  intros Hwf Hne. rewrite GetNodeForHash_owner by done.
  destruct (clockwise k (ring ch)) as [|h l] eqn:Hcw.
  - destruct (ring ch) as [|x r] eqn:Hr; [done|]. exfalso.
    assert (x ∈ clockwise k (ring ch)) as Hx by (apply elem_of_clockwise; rewrite Hr; by left).
    rewrite Hr, Hcw in Hx. by apply elem_of_nil in Hx.
  - exists h. split_and!; [|done|done]. apply (elem_of_clockwise k). rewrite Hcw. by left.
Qed.

Lemma temp_same ns n c :
  clean (ns ++ [(n, c)]) →
  let real := build (ns ++ [(n, c)]) in
  let temp := AddNode n c (cloneHashRing (build ns)) in
  ring temp = ring real ∧ (∀ h, h ∈ ring real → owner temp h = owner real h).
Proof.
  intros Hc real temp. assert (clean ns) as Hc'.
  { destruct Hc as [Hi Hh]. rewrite fmap_app in Hi. rewrite all_hashes_snoc in Hh.
    apply NoDup_app in Hi as (? & _). by apply NoDup_app in Hh as (? & _). }
  destruct (clone_same ns Hc') as [Hr Ho]. unfold real, temp. rewrite build_snoc. cbn [fst snd].
  split; [by rewrite !AddNode_eq, Hr|]. intros h Hh. unfold owner in *.
  destruct (decide (h ∈ vnode_hashes n c)); [by rewrite !vnode_of_AddNode_new|].
  rewrite !vnode_of_AddNode_old by done. apply Ho.
  rewrite AddNode_eq in Hh. cbn [ring] in Hh. rewrite merge_sort_Permutation, elem_of_app in Hh. naive_solver.
Qed.

Lemma GetPreviousHash_ext ch1 ch2 h : ring ch1 = ring ch2 → GetPreviousHash ch1 h = GetPreviousHash ch2 h.
Proof. unfold GetPreviousHash. by intros ->. Qed.

Lemma assigned_new ns newNode old r :
  let n := NodeID newNode in
  let c := VirtualNodes newNode in
  clean (ns ++ [(n, c)]) →
  let real := build (ns ++ [(n, c)]) in
  assigned (CalculateKeyRangesForNewNode (build ns) newNode) old r ↔
  ∃ h, h ∈ ring real ∧ owner real h = n ∧ old = GetNodeForHash (build ns) h ∧
    old ≠ EmptyString ∧ old ≠ n ∧ r = mkHashRange (GetPreviousHash real h) h.
Proof.
  intros n c Hc real. destruct (temp_same ns n c Hc) as [Hr Ho]. fold real in Hr, Ho.
  unfold assigned, CalculateKeyRangesForNewNode. fold n c.
  set (temp := AddNode n c _) in *.
  rewrite (push_loop (λ vn, if decide (vn_NodeID vn = n) then
      let o := GetNodeForHash (build ns) (Hash vn) in
      if decide (o = EmptyString ∨ o = n) then None
      else Some (o, mkHashRange (GetPreviousHash temp (Hash vn)) (Hash vn)) else None)).
  2: { intros m vn. cbn zeta. by repeat case_decide. }
  rewrite lookup_empty. unfold GetAllVirtualNodes. setoid_rewrite list_elem_of_fmap. rewrite Hr. split.
  - intros [?%elem_of_nil|(vn & (h & -> & Hh) & Hf)]; [done|]. exists h.
    case_decide as Hown; [|done]. cbn zeta in Hf. case_decide as Hold; [done|]. simplify_eq/=.
    split_and!; [done| |done|naive_solver|naive_solver|by rewrite (GetPreviousHash_ext temp real)].
    rewrite <-Ho by done. done.
  - intros (h & Hh & Hown & -> & He & Hn & ->). right. exists (vnode_of temp h).
    split; [by exists h|]. rewrite <-Ho in Hown by done. unfold owner in Hown.
    rewrite decide_True by done. cbn zeta. simpl Hash. rewrite decide_False by naive_solver.
    by rewrite (GetPreviousHash_ext temp real).
Qed.

Lemma clean_snoc ns n c : clean (ns ++ [(n, c)]) → clean ns ∧ (n ∉ ns.*1) ∧ Forall (λ h, h ∉ ring (build ns)) (vnode_hashes n c).
Proof.
  intros [Hi Hh]. rewrite fmap_app in Hi. rewrite all_hashes_snoc in Hh.
  apply NoDup_app in Hi as (H1 & H2 & _). apply NoDup_app in Hh as (H3 & H4 & _).
  split_and!; [done|intros Hn; apply (H2 n Hn); by left|].
  apply Forall_forall. intros h Hin. rewrite build_ring. intros Hin'. by apply (H4 h).
Qed.

Lemma owner_named ns h : clean ns → h ∈ ring (build ns) → owner (build ns) h ∈ ns.*1.
Proof.
  intros Hc Hh. destruct (build_owner_elem ns h (clean_hashes _ Hc) Hh) as (c & Hin & _).
  apply list_elem_of_fmap. by exists (owner (build ns) h, c).
Qed.

Lemma nodeVNodes_build ns n c :
  NoDup ns.*1 → (n, c) ∈ ns → nodeVNodes (build ns) !! n = Some (vnode_hashes n c).
Proof.
  induction ns as [|[m d] ns IH] using rev_ind; intros Hnd Hin; [by apply elem_of_nil in Hin|].
  rewrite build_snoc, AddNode_eq. cbn [fst snd nodeVNodes].
  rewrite fmap_app in Hnd. apply NoDup_app in Hnd as (Hnd & Hdis & _).
  apply elem_of_app in Hin as [Hin|Hin].
  - rewrite lookup_insert_ne; [by apply IH|]. intros ->. apply (Hdis n); [|by left].
    apply list_elem_of_fmap. by exists (n, c).
  - apply list_elem_of_singleton in Hin. simplify_eq. apply lookup_insert_eq.
Qed.

Lemma remove_ring ns n c :
  NoDup ns.*1 → (n, c) ∈ ns →
  ring (RemoveNode n (build ns)) = filter (λ h, h ∉ vnode_hashes n c) (ring (build ns)) ∧
  ∀ h, h ∉ vnode_hashes n c → owner (RemoveNode n (build ns)) h = owner (build ns) h.
Proof.
  intros Hnd Hin. destruct (RemoveNode_Some _ _ _ (nodeVNodes_build _ _ _ Hnd Hin)) as (Hr & Hm & _).
  split; [done|]. intros h Hh. unfold owner, vnode_of. rewrite Hm. by rewrite decide_False.
Qed.

(** Removing the node from the clone gives the ring without the node. *)
Lemma temp_removed ns n c :
  clean ns → (n, c) ∈ ns → 0 < c →
  let temp := RemoveNode n (cloneHashRing (build ns)) in
  let real := RemoveNode n (build ns) in
  ring temp = ring real ∧ (∀ h, h ∈ ring real → owner temp h = owner real h).
Proof.
  intros Hc Hin Hpos temp real. destruct (clone_same ns Hc) as [Hr Ho].
  destruct (remove_ring ns n c (clean_ids _ Hc) Hin) as [Hr1 Ho1]. fold real in Hr1, Ho1.
  destruct (remove_ring (map_range (vnode_counts (GetAllVirtualNodes (build ns)))) n c) as [Hr2 Ho2].
  { apply NoDup_map_range. } { apply clone_nodes; [done|]. by exists c. }
  rewrite <-clone_build in Hr2, Ho2. fold temp in Hr2, Ho2.
  split; [by rewrite Hr1, Hr2, Hr|]. intros h Hh. rewrite Hr1, list_elem_of_filter in Hh.
  destruct Hh as [Hni Hh]. rewrite Ho1, Ho2 by done. by apply Ho.
Qed.

Lemma assigned_removed ns removedNode c new r :
  let n := NodeID removedNode in
  clean ns → (n, c) ∈ ns → 0 < c →
  assigned (CalculateKeyRangesForRemovedNode (build ns) removedNode) new r ↔
  ∃ h, h ∈ ring (build ns) ∧ owner (build ns) h = n ∧ new = GetNodeForHash (RemoveNode n (build ns)) h ∧
    new ≠ EmptyString ∧ new ≠ n ∧ r = mkHashRange (GetPreviousHash (build ns) h) h.
Proof.
  intros n Hc Hin Hpos. destruct (temp_removed ns n c Hc Hin Hpos) as [Hr Ho].
  assert (∀ k, GetNodeForHash (RemoveNode n (cloneHashRing (build ns))) k = GetNodeForHash (RemoveNode n (build ns)) k) as Hg.
  { intros k. apply GetNodeForHash_ext; auto using ring_wf_RemoveNode, build_wf.
    rewrite clone_build. apply ring_wf_RemoveNode, build_wf. }
  unfold assigned, CalculateKeyRangesForRemovedNode. fold n.
  rewrite (push_loop (λ vn, if decide (vn_NodeID vn = n) then
      let o := GetNodeForHash (RemoveNode n (cloneHashRing (build ns))) (Hash vn) in
      if decide (o = EmptyString ∨ o = n) then None
      else Some (o, mkHashRange (GetPreviousHash (build ns) (Hash vn)) (Hash vn)) else None)).
  2: { intros m vn. cbn zeta. by repeat case_decide. }
  rewrite lookup_empty. unfold GetAllVirtualNodes. setoid_rewrite list_elem_of_fmap. split.
  - intros [?%elem_of_nil|(vn & (h & -> & Hh) & Hf)]; [done|]. exists h.
    case_decide as Hown; [|done]. cbn zeta in Hf. rewrite Hg in Hf. case_decide as Hold; [done|]. simplify_eq/=.
    split_and!; [done|done|done|naive_solver|naive_solver|done].
  - intros (h & Hh & Hown & -> & He & Hn & ->). right. exists (vnode_of (build ns) h).
    split; [by exists h|]. unfold owner in Hown. rewrite decide_True by done. cbn zeta. rewrite Hg. simpl Hash.
    by rewrite decide_False by naive_solver.
Qed.

(** ** Properties *)

(** What the ranges [m], each given to the node it is streamed from or to, are to
    the hashes [moved] that change owner, where [other k] is the other owner: the
    storage nodes stream exactly the moved hashes with the right partner, except
    that each range leaves out its end, a virtual node's own hash, which moves
    too, and takes in its start, which does not move unless another range says so. *)
Definition range_plan (m : gmap string (list HashRange)) (moved : Z → Prop) (other : Z → string) : Prop :=
  (∀ node r k, assigned m node r → range_has r k → k ≠ StartHash r → moved k ∧ other k = node) ∧
  (∀ k, moved k → ∃ node r, assigned m node r ∧ (k = EndHash r ∨ range_has r k ∧ k ≠ StartHash r)) ∧
  (∀ node r, assigned m node r → range_has r (StartHash r) ∧ ¬ range_has r (EndHash r) ∧
     moved (EndHash r) ∧ other (EndHash r) = node).

Lemma range_plan_arcs ch n (other : Z → string) m :
  ring_wf ch → StronglySorted Z.lt (ring ch) →
  (∀ h, h ∈ ring ch → owner ch h = n → ∃ h', h' ∈ ring ch ∧ h' ≠ h) →
  (∀ node r, assigned m node r ↔
     ∃ h, h ∈ ring ch ∧ owner ch h = n ∧ node = other h ∧ r = mkHashRange (GetPreviousHash ch h) h) →
  (∀ k h, h ∈ ring ch → head (clockwise k (ring ch)) = Some h → owner ch h = n → other k = other h) →
  ring ch ≠ [] → range_plan m (λ k, GetNodeForHash ch k = n) other.
Proof.
  intros Hwf Hs Hother Hm Hsame Hne.
  assert (∀ h, h ∈ ring ch → owner ch h = n → GetPreviousHash ch h ≠ h) as Hprev.
  { intros h Hh Hown. destruct (Hother h Hh Hown) as (h' & Hh' & Hne'). by eapply previous_hash_ne. }
  split; [|split].
  - intros node r k (h & Hh & Hown & -> & ->)%Hm Hk Hka.
    destruct (range_has_arc ch k h Hs Hh (Hprev h Hh Hown)) as [H1 _]. specialize (H1 Hk Hka).
    split; [rewrite GetNodeForHash_owner, H1 by done; done|by apply Hsame].
  - intros k Hk. destruct (GetNodeForHash_nonempty ch k Hwf Hne) as (h & Hh & Hhead & Hown). rewrite Hk in Hown.
    exists (other h), (mkHashRange (GetPreviousHash ch h) h). split; [apply Hm; by exists h|].
    by apply (range_has_arc ch k h Hs Hh (Hprev h Hh (eq_sym Hown))).
  - intros node r (h & Hh & Hown & -> & ->)%Hm.
    destruct (range_has_arc ch h h Hs Hh (Hprev h Hh Hown)) as (_ & _ & H3 & H4 & H5).
    split_and!; [done|done|simpl; rewrite GetNodeForHash_owner, H5 by done; done|done].
Qed.

(** Another node has a virtual node. *)
Lemma other_vnode ns n c rest h :
  clean ns → (n, c) ∈ ns → rest = filter (λ h, h ∉ vnode_hashes n c) (ring (build ns)) → rest ≠ [] →
  h ∈ ring (build ns) → owner (build ns) h = n → ∃ h', h' ∈ ring (build ns) ∧ h' ≠ h.
Proof.
  intros Hc Hin -> Hne Hh Hown. destruct (filter _ _) as [|h' l] eqn:Hf; [done|].
  assert (h' ∈ filter (λ h, h ∉ vnode_hashes n c) (ring (build ns))) as Hh' by (rewrite Hf; by left).
  apply list_elem_of_filter in Hh' as [Hni Hh']. exists h'. split; [done|]. intros ->.
  destruct (build_owner_elem ns h (clean_hashes _ Hc) Hh) as (c' & Hin' & Hv). rewrite Hown in Hin', Hv.
  by rewrite (NoDup_fst_inj ns n c' c (clean_ids _ Hc) Hin' Hin) in Hv.
Qed.

(** C15: the ranges computed for a joining node are the ones that change owner.
    For a ring of distinct nodes without hash collisions that is not empty, let
    a hash move when the new node owns it after it joined.  As the storage nodes
    read a range, with its start and without its end, every hash in a range other
    than its start moves and comes from the node the range is assigned to, and
    every hash that moves is such a hash or the end of an assigned range: the
    virtual node's own hash moves from that node too, but its range leaves it out
    and takes in its start instead. *)
Theorem new_node_ranges (ns : list (string * Z)) (newNode : StorageNode) :
  let n := NodeID newNode in
  let m := CalculateKeyRangesForNewNode (build ns) newNode in
  let real := AddNode n (VirtualNodes newNode) (build ns) in
  clean (ns ++ [(n, VirtualNodes newNode)]) → EmptyString ∉ ns.*1 → ring (build ns) ≠ [] →
  range_plan m (λ k, GetNodeForHash real k = n) (GetNodeForHash (build ns)).
Proof.
  intros n m real Hc Hempty Hne. pose proof (clean_snoc _ _ _ Hc) as (Hc' & Hn & Hfresh).
  assert (real = build (ns ++ [(n, VirtualNodes newNode)])) as Hreal by by rewrite build_snoc.
  pose proof (build_sorted _ (clean_hashes _ Hc)) as Hs. rewrite <-Hreal in Hs.
  assert (ring_wf real) as Hwf by (rewrite Hreal; apply build_wf).
  assert (ring (build ns) = filter (λ h, h ∉ vnode_hashes n (VirtualNodes newNode)) (ring real)) as Hold.
  { symmetry. unfold real. rewrite AddNode_eq. apply remove_added_ring; [apply ring_sorted, build_wf|done]. }
  apply range_plan_arcs; [done|done|..].
  - rewrite Hreal in *. intros h. apply (other_vnode _ n (VirtualNodes newNode) (ring (build ns))); try done.
    apply elem_of_app. right. by left.
  - intros node r. unfold m. rewrite (assigned_new ns newNode node r Hc). fold n. rewrite <-Hreal.
    split; [intros (h & ? & ? & -> & ? & ? & ->); by exists h|]. intros (h & Hh & Hown & -> & ->). exists h.
    destruct (GetNodeForHash_nonempty (build ns) h (build_wf ns) Hne) as (h' & Hh' & _ & Hown').
    pose proof (owner_named ns h' Hc' Hh') as Hin. rewrite Hown'.
    split_and!; [done|done|done|by intros He; rewrite He in Hin|by intros He; rewrite He in Hin|done].
  - intros k h Hh Hhead Hown. by eapply successor_without; [exact Hs|apply build_wf|exact Hold|..].
  - intros Hnil. rewrite Hnil in Hold. done.
Qed.

(** C16: the ranges computed for a leaving node are handed to the right heirs.
    For a ring of distinct nodes without hash collisions in which another node
    remains, let a hash move when the leaving node owns it.  As the storage nodes
    read a range, every hash in a range other than its start moves and goes to the
    node the range is assigned to, and every hash that moves is such a hash or the
    end of an assigned range: the virtual node's own hash goes to that node too,
    but its range leaves it out and takes in its start instead. *)
Theorem removed_node_ranges (ns : list (string * Z)) (removedNode : StorageNode) (c : Z) :
  let n := NodeID removedNode in
  let m := CalculateKeyRangesForRemovedNode (build ns) removedNode in
  let after := RemoveNode n (build ns) in
  clean ns → (n, c) ∈ ns → 0 < c → EmptyString ∉ ns.*1 → ring after ≠ [] →
  range_plan m (λ k, GetNodeForHash (build ns) k = n) (GetNodeForHash after).
Proof.
  intros n m after Hc Hin Hpos Hempty Hne. pose proof (build_sorted _ (clean_hashes _ Hc)) as Hs.
  destruct (remove_ring ns n c (clean_ids _ Hc) Hin) as [Hr Ho]. fold after in Hr, Ho.
  assert (ring_wf after) as Hwf by apply ring_wf_RemoveNode, build_wf.
  apply range_plan_arcs; [apply build_wf|done|..].
  - intros h. by apply (other_vnode ns n c (ring after)).
  - intros node r. unfold m. rewrite (assigned_removed ns removedNode c node r Hc Hin Hpos).
    split; [intros (h & ? & ? & -> & ? & ? & ->); by exists h|]. intros (h & Hh & Hown & -> & ->). exists h.
    destruct (GetNodeForHash_nonempty after h Hwf Hne) as (h' & Hh' & _ & Hown').
    rewrite Hr, list_elem_of_filter in Hh'. destruct Hh' as [Hni Hh']. rewrite Ho in Hown' by done.
    pose proof (owner_named ns h' Hc Hh') as Hin'. fold n after. rewrite Hown'.
    split_and!; [done|done|done|by intros He; rewrite He in Hin'| |done].
    intros He. destruct (build_owner_elem ns h' (clean_hashes _ Hc) Hh') as (c' & Hin'' & Hh'').
    rewrite He in Hin'', Hh''. by rewrite (NoDup_fst_inj ns n c' c (clean_ids _ Hc) Hin'' Hin) in Hh''.
  - intros k h Hh Hhead Hown. by eapply successor_without; [exact Hs|done|exact Hr|..].
  - intros Hnil. by rewrite Hr, Hnil in Hne.
Qed.

(** Merging ranges loses and adds nothing.  For ranges that do not wrap
    around, a hash is in some merged range exactly when it is in some given
    range, the merged ranges are in order with gaps between them, and there
    are no more of them. *)
Theorem merge_ranges_spec (ranges : list HashRange) :
  Forall (λ r, StartHash r ≤ EndHash r) ranges →
  (∀ k, Exists (in_range k) (MergeRanges ranges) ↔ Exists (in_range k) ranges) ∧
  separated (MergeRanges ranges) ∧ (length (MergeRanges ranges) ≤ length ranges)%nat.
Proof. apply MergeRanges_spec. Qed.
End ranges.

(** *** Witnesses *)

#[global] Instance clean_dec ns : Decision (clean ns).
Proof.
  refine (cast_if (decide (NoDup ns.*1 ∧ NoDup (all_hashes ns)))); [by destruct_and!|].
  intros []. naive_solver.
Defined.

Definition demo_joining : StorageNode :=
  mkStorageNode "c" "host" 9000 NodeStatusActive NodeStateNormal 2 [] [] [] 0 0.

Definition demo_leaving : StorageNode :=
  mkStorageNode "b" "host" 9000 NodeStatusActive NodeStateNormal 2 [] [] [] 0 0.

(** The hash before a virtual node of the joining node moves, and is in a range. *)
Lemma new_node_ranges_witness :
  let k := hash "c-vnode-0" - 1 in
  GetNodeForHash (AddNode "c" 2 (build [("a", 2); ("b", 2)])) k = "c"%string ∧
  ∃ old r, assigned (CalculateKeyRangesForNewNode (build [("a", 2); ("b", 2)]) demo_joining) old r ∧
    (k = EndHash r ∨ range_has r k ∧ k ≠ StartHash r).
Proof.
  intros k. assert (GetNodeForHash (AddNode "c" 2 (build [("a", 2); ("b", 2)])) k = "c"%string) as Hk by by vm_compute.
  split; [done|].
  destruct (new_node_ranges [("a", 2); ("b", 2)]%string demo_joining) as (_ & Hplan & _);
    [apply (bool_decide_unpack _); by vm_compute|apply (bool_decide_unpack _); by vm_compute|by vm_compute|].
  exact (Hplan k Hk).
Defined.

Lemma removed_node_ranges_witness :
  let k := hash "b-vnode-0" - 1 in
  GetNodeForHash (build [("a", 2); ("b", 2); ("c", 2)]) k = "b"%string ∧
  ∃ new r, assigned (CalculateKeyRangesForRemovedNode (build [("a", 2); ("b", 2); ("c", 2)]) demo_leaving) new r ∧
    (k = EndHash r ∨ range_has r k ∧ k ≠ StartHash r).
Proof.
  intros k. assert (GetNodeForHash (build [("a", 2); ("b", 2); ("c", 2)]) k = "b"%string) as Hk by by vm_compute.
  split; [done|].
  destruct (removed_node_ranges [("a", 2); ("b", 2); ("c", 2)]%string demo_leaving 2) as (_ & Hplan & _);
    [apply (bool_decide_unpack _); by vm_compute|apply (bool_decide_unpack _); by vm_compute|done|
     apply (bool_decide_unpack _); by vm_compute|by vm_compute|].
  exact (Hplan k Hk).
Defined.

Lemma merge_ranges_spec_witness :
  MergeRanges [mkHashRange 5 9; mkHashRange 0 3; mkHashRange 2 4] = [mkHashRange 0 4; mkHashRange 5 9] ∧
  separated (MergeRanges [mkHashRange 5 9; mkHashRange 0 3; mkHashRange 2 4]).
Proof.
  split; [done|]. apply (merge_ranges_spec [mkHashRange 5 9; mkHashRange 0 3; mkHashRange 2 4]).
  repeat constructor; simpl; lia.
Defined.
