(* ===== verification/Utf8.v ===== *)
(** * UTF-8, as Go's [range] over a string decodes it

    An invalid sequence decodes to [U+FFFD] and one byte is skipped. *)

From S2P Require Import Prelude.
#[local] Open Scope Z_scope.

Definition RuneError : Z := 0xfffd.

Definition is_cont (b : byte) : bool := (0x80 <=? byte_val b) && (byte_val b <=? 0xbf).

Definition byte_in (lo hi : Z) (b : byte) : bool := (lo <=? byte_val b) && (byte_val b <=? hi).

(** The range of the second byte after the lead byte [b0]. *)
Definition second_range (b0 : Z) : Z * Z :=
  if b0 =? 0xe0 then (0xa0, 0xbf)
  else if b0 =? 0xed then (0x80, 0x9f)
  else if b0 =? 0xf0 then (0x90, 0xbf)
  else if b0 =? 0xf4 then (0x80, 0x8f)
  else (0x80, 0xbf).

Definition second_ok (b0 : Z) (b : byte) : bool := byte_in (second_range b0).1 (second_range b0).2 b.

(** [utf8.DecodeRune] on a non-empty sequence: the rune and its width. *)
Definition decode_rune (b : byte) (rest : list byte) : Z * nat :=
  let b0 := byte_val b in
  let low6 x := byte_val x mod 64 in
  if b0 <? 0x80 then (b0, 1%nat)
  else if b0 <? 0xc2 then (RuneError, 1%nat)
  else if b0 <? 0xe0 then
    match rest with
    | b1 :: _ => if is_cont b1 then (64 * (b0 mod 32) + low6 b1, 2%nat) else (RuneError, 1%nat)
    | _ => (RuneError, 1%nat)
    end
  else if b0 <? 0xf0 then
    match rest with
    | b1 :: b2 :: _ =>
        if second_ok b0 b1 && is_cont b2
        then (4096 * (b0 mod 16) + 64 * low6 b1 + low6 b2, 3%nat) else (RuneError, 1%nat)
    | _ => (RuneError, 1%nat)
    end
  else if b0 <? 0xf5 then
    match rest with
    | b1 :: b2 :: b3 :: _ =>
        if second_ok b0 b1 && is_cont b2 && is_cont b3
        then (262144 * (b0 mod 8) + 4096 * low6 b1 + 64 * low6 b2 + low6 b3, 4%nat)
        else (RuneError, 1%nat)
    | _ => (RuneError, 1%nat)
    end
  else (RuneError, 1%nat).

(** The runes of a string; [fuel] is at least the number of bytes. *)
Fixpoint runes_fuel (fuel : nat) (s : list byte) : list Z :=
  match fuel, s with
  | S fuel, b :: rest =>
      let '(r, w) := decode_rune b rest in r :: runes_fuel fuel (drop w s)
  | _, _ => []
  end.

Definition runes (s : list byte) : list Z := runes_fuel (length s) s.

(** [utf8.EncodeRune]. *)
Definition encode_rune (r : Z) : list byte :=
  if r <? 0x80 then [byte_of r]
  else if r <? 0x800 then [byte_of (0xc0 + r / 64); byte_of (0x80 + r mod 64)]
  else if r <? 0x10000 then [byte_of (0xe0 + r / 4096); byte_of (0x80 + r / 64 mod 64); byte_of (0x80 + r mod 64)]
  else [byte_of (0xf0 + r / 262144); byte_of (0x80 + r / 4096 mod 64); byte_of (0x80 + r / 64 mod 64);
        byte_of (0x80 + r mod 64)].

Lemma decode_width b rest : (1 ≤ (decode_rune b rest).2 ≤ S (length rest))%nat.
Proof.
  unfold decode_rune. cbn zeta.
  repeat (case_match; simplify_eq/=; try lia).
Qed.

Lemma runes_fuel_enough n m s : (length s ≤ n)%nat → (length s ≤ m)%nat → runes_fuel n s = runes_fuel m s.
Proof.
  revert m s. induction n as [|n IH]; intros [|m] [|b rest] Hn Hm; simpl in *; try lia; try done.
  pose proof (decode_width b rest) as Hw. destruct (decode_rune b rest) as [r w]. simpl in Hw.
  f_equal. apply IH; destruct w as [|w]; simpl; rewrite ?length_drop; lia.
Qed.

Lemma runes_cons b rest :
  runes (b :: rest) = (decode_rune b rest).1 :: runes (drop (decode_rune b rest).2 (b :: rest)).
Proof.
  unfold runes. cbn [length runes_fuel]. pose proof (decode_width b rest) as Hw.
  destruct (decode_rune b rest) as [r w]. simpl in Hw |- *. f_equal.
  apply runes_fuel_enough; rewrite ?length_drop; simpl; lia.
Qed.

(** A byte below 128 stands for itself wherever it occurs. *)
Lemma decode_not_ascii b rest c :
  byte_val c < 0x80 → c ∈ take (decode_rune b rest).2 (b :: rest) →
  c = b ∧ decode_rune b rest = (byte_val c, 1%nat).
Proof.
  intros Hc. unfold decode_rune, second_ok, byte_in, is_cont. cbn zeta.
  assert (∀ x, byte_val c = byte_val x → c = x) as Hinj by (intros; by apply byte_val_inj).
  destruct (Z.ltb_spec (byte_val b) 0x80) as [Hb|Hb].
  { simpl. intros ->%list_elem_of_singleton. done. }
  assert (c ≠ b) as Hne by (intros ->; lia).
  intros Hin. exfalso. revert Hin.
  repeat (case_match; simplify_eq/=);
    rewrite ?elem_of_cons, ?elem_of_nil;
    repeat match goal with H : (_ && _) = true |- _ => apply andb_true_iff in H as [? ?] end;
    intros Hin; destruct_or?; subst; try done; try lia;
    unfold second_range in *; repeat case_match; simplify_eq/=; lia.
Qed.

(** An ASCII byte of the string is one of its runes. *)
Lemma ascii_rune s c : byte_val c < 0x80 → c ∈ s → byte_val c ∈ runes s.
Proof.
  intros Hc. remember (length s) as n eqn:Hn. revert s Hn.
  induction (lt_wf n) as [n _ IH]. intros [|b rest] -> Hin; [by apply elem_of_nil in Hin|].
  rewrite runes_cons. pose proof (decode_width b rest) as Hw.
  rewrite <-(take_drop (decode_rune b rest).2 (b :: rest)), elem_of_app in Hin.
  destruct Hin as [Hin|Hin].
  - destruct (decode_not_ascii b rest c Hc Hin) as [_ ->]. by left.
  - right. apply (IH (length (drop (decode_rune b rest).2 (b :: rest)))); [|done|done].
    rewrite length_drop. simpl. lia.
Qed.

(** ** Runes below U+00A0

    They are an ASCII byte, or the byte [xc2] and the byte of their value: the
    controls of a string show in its bytes. *)

Lemma decode_low b rest :
  let r := (decode_rune b rest).1 in
  r < 0xa0 → r = byte_val b ∧ r < 0x80 ∨ b = xc2 ∧ ∃ b1, rest !! 0%nat = Some b1 ∧ byte_val b1 = r ∧ 0x80 ≤ r.
Proof.
  unfold decode_rune, second_ok, byte_in, is_cont, RuneError. cbn zeta. pose proof (byte_val_range b).
  assert (byte_val b = 0xc2 → b = xc2) as Hc2 by (intros; by apply byte_val_inj).
  repeat (case_match; simplify_eq/=); try (left; lia); try lia;
    repeat match goal with H : (_ && _) = true |- _ => apply andb_true_iff in H as [? ?] end.
  - right. split; [apply Hc2; Z.to_euclidean_division_equations; lia|].
    eexists; split; [done|]. Z.to_euclidean_division_equations; lia.
  - unfold second_range in *. repeat case_match; simplify_eq/=; Z.to_euclidean_division_equations; lia.
  - unfold second_range in *. repeat case_match; simplify_eq/=; Z.to_euclidean_division_equations; lia.
Qed.

Definition quiet (bad : Z → bool) (s : list byte) : Prop :=
  (∀ b, b ∈ s → byte_val b < 0x80 → bad (byte_val b) = false) ∧
  (∀ i b, s !! i = Some xc2 → s !! S i = Some b → 0x80 ≤ byte_val b < 0xa0 → bad (byte_val b) = false).

Lemma quiet_sub bad s s' n : quiet bad s → (∀ i b, s' !! i = Some b → s !! (n + i)%nat = Some b) → quiet bad s'.
Proof.
  intros [H1 H2] Hs. split.
  - intros b [i Hi]%list_elem_of_lookup. apply H1, list_elem_of_lookup. eauto.
  - intros i b Hi Hb. apply (H2 (n + i)%nat); [eauto|]. rewrite <-Nat.add_succ_r. eauto.
Qed.

Lemma quiet_take bad n s : quiet bad s → quiet bad (take n s).
Proof. intros Hq. apply (quiet_sub _ _ _ 0 Hq). by intros i b [? _]%lookup_take_Some. Qed.

Lemma quiet_drop bad n s : quiet bad s → quiet bad (drop n s).
Proof. intros Hq. apply (quiet_sub _ _ _ n Hq). intros i b. by rewrite lookup_drop. Qed.

Lemma quiet_app bad s1 s2 : quiet bad s1 → quiet bad s2 → last s1 ≠ Some xc2 → quiet bad (s1 ++ s2).
Proof.
  intros [H1 P1] [H2 P2] Hl. split; [intros b [?|?]%elem_of_app; auto|]. intros i b Hi Hb.
  destruct (decide (i < length s1)%nat) as [Hlt|Hge].
  - rewrite lookup_app_l in Hi by done. destruct (decide (S i < length s1)%nat) as [Hlt'|Hge'].
    + rewrite lookup_app_l in Hb by done. eauto.
    + rewrite last_lookup in Hl. by replace (pred (length s1)) with i in Hl by lia.
  - rewrite lookup_app_r in Hi by lia. rewrite lookup_app_r in Hb by lia.
    apply (P2 (i - length s1)%nat); [done|]. by replace (S (i - length s1)) with (S i - length s1)%nat by lia.
Qed.

(** Bytes that show no bad rune have none. *)
Lemma runes_quiet bad s : (∀ r, bad r = true → r < 0xa0) → quiet bad s → Forall (λ r, bad r = false) (runes s).
Proof.
  intros Hlow. remember (length s) as n eqn:Hn. revert s Hn.
  induction (lt_wf n) as [n _ IH]. intros [|b rest] -> Hq; [constructor|].
  rewrite runes_cons. pose proof (decode_width b rest) as Hw. constructor.
  - destruct (bad (decode_rune b rest).1) eqn:Hbad; [|done]. exfalso.
    destruct (decode_low b rest (Hlow _ Hbad)) as [[Heq Hlt]|(-> & b1 & Hb1 & Heq & Hge)].
    + rewrite Heq, (proj1 Hq b) in Hbad; [done|by left|lia].
    + pose proof (Hlow _ Hbad). rewrite <-Heq, (proj2 Hq 0%nat b1) in Hbad; [done|done|done|lia].
  - apply (IH (length (drop (decode_rune b rest).2 (b :: rest)))); [|done|by apply quiet_drop].
    rewrite length_drop. simpl. lia.
Qed.

Lemma decode_range b rest : 0 ≤ (decode_rune b rest).1 < 0x110000.
Proof.
  unfold decode_rune, second_ok, byte_in, is_cont, RuneError. cbn zeta. pose proof (byte_val_range b).
  repeat (case_match; simplify_eq/=); try lia;
    repeat match goal with H : (_ && _) = true |- _ => apply andb_true_iff in H as [? ?] end;
    unfold second_range in *; repeat case_match; simplify_eq/=; Z.to_euclidean_division_equations; lia.
Qed.

Lemma runes_range s : Forall (λ r, 0 ≤ r < 0x110000) (runes s).
Proof.
  remember (length s) as n eqn:Hn. revert s Hn.
  induction (lt_wf n) as [n _ IH]. intros [|b rest] ->; [constructor|].
  rewrite runes_cons. pose proof (decode_width b rest) as Hw. constructor; [apply decode_range|].
  apply (IH (length (drop (decode_rune b rest).2 (b :: rest)))); [|done]. rewrite length_drop. simpl. lia.
Qed.

Lemma byte_of_c2 z : byte_of z = xc2 → z mod 256 = 0xc2.
Proof. intros Hz. by rewrite <-byte_val_of, Hz. Qed.

Lemma quiet_high bad s :
  Forall (λ z, 0x80 ≤ z mod 256 ∧ z mod 256 ≠ 0xc2) s →
  quiet bad (byte_of <$> s) ∧ last (byte_of <$> s) ≠ Some xc2.
Proof.
  rewrite Forall_forall. intros Hs.
  assert (∀ i b, (byte_of <$> s) !! i = Some b → 0x80 ≤ byte_val b ∧ b ≠ xc2) as Hh.
  { intros i b Hi. apply list_lookup_fmap_Some in Hi as (z & -> & Hz). rewrite byte_val_of.
    destruct (Hs z) as [? Hne]; [by eapply list_elem_of_lookup_2|]. split; [done|]. by intros ?%byte_of_c2. }
  split; [split|].
  - intros b [i Hi]%list_elem_of_lookup. destruct (Hh i b Hi). lia.
  - intros i b Hi. by destruct (Hh i _ Hi).
  - rewrite last_lookup. intros Hl. by destruct (Hh _ _ Hl).
Qed.

Lemma encode_rune_quiet bad r :
  0 ≤ r < 0x110000 → bad r = false → quiet bad (encode_rune r) ∧ last (encode_rune r) ≠ Some xc2.
Proof.
  intros Hr Hb. unfold encode_rune. repeat case_match.
  - split; [split|intros [= Hz%byte_of_c2]; Z.to_euclidean_division_equations; lia].
    + intros b ->%list_elem_of_singleton. rewrite byte_val_of, Z.mod_small by lia. done.
    + by intros [|?].
  - split; [split|intros [= Hz%byte_of_c2]; Z.to_euclidean_division_equations; lia].
    + intros b. rewrite !elem_of_cons, elem_of_nil. intros [->|[->|[]]]; rewrite byte_val_of; intros; exfalso;
        Z.to_euclidean_division_equations; lia.
    + intros [|[|i]] b; [|done..]. intros [= Hz%byte_of_c2] [= <-]. rewrite byte_val_of. intros Hlt.
      replace ((128 + r mod 64) mod 256) with r; [done|]. Z.to_euclidean_division_equations; lia.
  - apply (quiet_high bad [0xe0 + r / 4096; 0x80 + r / 64 mod 64; 0x80 + r mod 64]).
    repeat constructor; Z.to_euclidean_division_equations; lia.
  - apply (quiet_high bad [0xf0 + r / 262144; 0x80 + r / 4096 mod 64; 0x80 + r / 64 mod 64; 0x80 + r mod 64]).
    repeat constructor; Z.to_euclidean_division_equations; lia.
Qed.

(** A string of Go, given by its runes. *)
Definition encode_runes (rs : list Z) : list byte := rs ≫= encode_rune.

Lemma encode_runes_quiet bad rs :
  Forall (λ r, 0 ≤ r < 0x110000 ∧ bad r = false) rs → quiet bad (encode_runes rs).
Proof.
  induction 1 as [|r rs [Hr Hb] _ IH]; [split; [by intros ? ?%elem_of_nil|done]|].
  destruct (encode_rune_quiet bad r Hr Hb). by apply quiet_app.
Qed.

(** [unicode.IsSpace], and [strings.TrimSpace] on the runes of a valid string. *)
Definition IsSpace (r : Z) : bool :=
  ((0x09 <=? r) && (r <=? 0x0d)) || (r =? 0x20) || (r =? 0x85) || (r =? 0xa0) || (r =? 0x1680) ||
  ((0x2000 <=? r) && (r <=? 0x200a)) || (r =? 0x2028) || (r =? 0x2029) || (r =? 0x202f) || (r =? 0x205f) || (r =? 0x3000).

Fixpoint trim_left (rs : list Z) : list Z :=
  match rs with r :: rs' => if IsSpace r then trim_left rs' else rs | [] => [] end.

Definition TrimSpace (rs : list Z) : list Z := reverse (trim_left (reverse (trim_left rs))).

Lemma trim_left_subset rs : trim_left rs ⊆ rs.
Proof. induction rs as [|r rs IH]; simpl; [done|]. destruct (IsSpace r); set_solver. Qed.

Lemma TrimSpace_subset rs : TrimSpace rs ⊆ rs.
Proof.
  intros r. unfold TrimSpace. rewrite elem_of_reverse. intros Hr%trim_left_subset.
  rewrite elem_of_reverse in Hr. by apply trim_left_subset.
Qed.

(** The trimmed runes neither start nor end with a space. *)
Lemma trim_left_head rs r : head (trim_left rs) = Some r → IsSpace r = false.
Proof. induction rs as [|r0 rs IH]; simpl; [done|]. destruct (IsSpace r0) eqn:Hs; [done|]. by intros [= <-]. Qed.

Lemma trim_left_id rs : (∀ r, head rs = Some r → IsSpace r = false) → trim_left rs = rs.
Proof. destruct rs as [|r rs]; simpl; [done|]. intros Hh. by rewrite (Hh r). Qed.
