(* ===== verification/Validator.v ===== *)
(** * Validation: [storage-node/internal/validation/validator.go]

    The rules a write passes before it reaches the log, the sanitizers, the
    size estimate, and the composite key of the stores. *)

From S2P Require Import Prelude Model Float64 Errors Utf8.
#[local] Open Scope Z_scope.

(** ** The validator *)

Definition MaxKeySize : Z := 1024.
Definition MaxValueSize : Z := 10 * 1024 * 1024.
Definition MaxTenantIDSize : Z := 256.
Definition MaxVectorClockEntries : Z := 1000.
Definition MaxCoordinatorNodeIDSize : Z := 128.

Record Validator := mkValidator { maxKeySize : Z; maxValueSize : Z; maxTenantIDSize : Z }.

Definition NewValidator : Validator := mkValidator MaxKeySize MaxValueSize MaxTenantIDSize.

Definition NewValidatorWithLimits (maxKey maxValue maxTenant : Z) : Validator :=
  mkValidator maxKey maxValue maxTenant.

(** [unicode.IsControl]: the category Cc. *)
Definition IsControl (r : Z) : bool := (r <=? 0x1f) || ((0x7f <=? r) && (r <=? 0x9f)).

Definition str_len (s : string) : Z := Z.of_nat (length (bytes s)).

(** [strings.Contains] with a one-byte substring. *)
Definition contains (s : string) (b : byte) : bool := bool_decide (b ∈ bytes s).

Definition colon : byte := x3a.

Definition ValidateTenantID (v : Validator) (tenantID : string) : res StorageError unit :=
  ensure (negb (bool_decide (tenantID = EmptyString))) (InvalidTenantID tenantID "tenant ID cannot be empty");;
  ensure (str_len tenantID <=? maxTenantIDSize v)
    (InvalidTenantID tenantID ("tenant ID exceeds maximum size of " +:+ pretty (maxTenantIDSize v) +:+ " bytes"));;
  ensure (negb (contains tenantID colon)) (InvalidTenantID tenantID "tenant ID cannot contain ':' character");;
  ensure (negb (existsb IsControl (runes (bytes tenantID))))
    (InvalidTenantID tenantID "tenant ID cannot contain control characters");;
  ensure (negb (contains tenantID x00)) (InvalidTenantID tenantID "tenant ID cannot contain null bytes").

(** A control character that a key may not contain: tab and newline may be there. *)
Definition key_control (r : Z) : bool := IsControl r && negb (r =? 0x09) && negb (r =? 0x0a).

Definition ValidateKey (v : Validator) (key : string) : res StorageError unit :=
  ensure (negb (bool_decide (key = EmptyString))) (InvalidKey key "key cannot be empty");;
  ensure (str_len key <=? maxKeySize v) (KeyTooLarge (str_len key) (maxKeySize v));;
  ensure (negb (existsb key_control (runes (bytes key)))) (InvalidKey key "key cannot contain control characters");;
  ensure (negb (contains key x00)) (InvalidKey key "key cannot contain null bytes").

(** The empty list is the nil value, which returns early. *)
Definition ValidateValue (v : Validator) (value : list byte) : res StorageError unit :=
  let size := Z.of_nat (length value) in
  ensure (bool_decide (value = []) || (size <=? maxValueSize v)) (ValueTooLarge size (maxValueSize v)).

(** The body of the loop over the entries, at index [i]. *)
Definition validate_entry (i : nat) (e : VectorClockEntry) : res StorageError unit :=
  let entry := "vector clock entry " +:+ pretty i in
  ensure (negb (bool_decide (CoordinatorNodeID e = EmptyString)))
    (InvalidArgument (entry +:+ " has empty coordinator node ID") None);;
  ensure (str_len (CoordinatorNodeID e) <=? MaxCoordinatorNodeIDSize)
    (InvalidArgument (entry +:+ " coordinator node ID exceeds maximum size of " +:+ pretty MaxCoordinatorNodeIDSize) None);;
  ensure (negb (contains (CoordinatorNodeID e) x00))
    (InvalidArgument (entry +:+ " coordinator node ID contains null bytes") None);;
  ensure (0 <=? LogicalTimestamp e)
    (InvalidArgument (entry +:+ " has negative logical timestamp: " +:+ pretty (LogicalTimestamp e)) None).

Fixpoint validate_entries (i : nat) (es : list VectorClockEntry) : res StorageError unit :=
  match es with
  | [] => Ok tt
  | e :: es => validate_entry i e;; validate_entries (S i) es
  end.

Definition ValidateVectorClock (vc : VectorClock) : res StorageError unit :=
  let n := length (Entries vc) in
  ensure (Z.of_nat n <=? MaxVectorClockEntries)
    (InvalidArgument ("vector clock has too many entries: " +:+ pretty n +:+ " > " +:+ pretty MaxVectorClockEntries) None);;
  validate_entries 0 (Entries vc).

Definition ValidateWrite (v : Validator) (tenantID key : string) (value : list byte) (vc : VectorClock)
    : res StorageError unit :=
  ValidateTenantID v tenantID;;
  ValidateKey v key;;
  ValidateValue v value;;
  ValidateVectorClock vc.

(** [strings.Map] with a function that keeps or drops a rune; an invalid byte
    is replaced by U+FFFD. *)
Definition map_runes (keep : Z → bool) (s : list byte) : list Z := List.filter keep (runes s).

Definition sanitize_text (keep : Z → bool) (limit : nat) (s : string) : string :=
  let sanitized := encode_runes (TrimSpace (map_runes keep (bytes s))) in
  string_of (if (limit <? length sanitized)%nat then take limit sanitized else sanitized).

Definition SanitizeTenantID (tenantID : string) : string :=
  sanitize_text (λ r, negb (IsControl r || (r =? 0x3a))) (Z.to_nat MaxTenantIDSize) tenantID.

Definition SanitizeKey (key : string) : string :=
  sanitize_text (λ r, negb ((r =? 0) || key_control r)) (Z.to_nat MaxKeySize) key.

(** The sizes are below [2 ^ 63], so nothing wraps. *)
Definition EstimateWriteSize (tenantID key : string) (value : list byte) : Z :=
  let n := str_len tenantID + str_len key + Z.of_nat (length value) in
  let commitLogSize := n + 200 in
  let memTableSize := n + 100 in
  let sstableSize := n + 50 in
  let total := u64 (commitLogSize + memTableSize + sstableSize) in
  u64 (total + total / 5).

(** ** Composite keys *)

(** [fmt.Sprintf("%s:%s", tenantID, key)], written [buildKey] in the storage service. *)
Definition buildKey (tenantID key : string) : string := tenantID +:+ ":" +:+ key.

(** The loop of [splitCompositeKey]: the bytes before the first colon and after it. *)
Fixpoint split_loop (pre s : list byte) : option (list byte * list byte) :=
  match s with
  | [] => None
  | b :: s => if decide (b = colon) then Some (pre, s) else split_loop (pre ++ [b]) s
  end.

Definition splitCompositeKey (compositeKey : string) : string * string :=
  match split_loop [] (bytes compositeKey) with
  | Some (tenantID, key) => (string_of tenantID, string_of key)
  | None => (EmptyString, compositeKey)
  end.

(** ** Lemmas *)

Lemma split_loop_app pre t k : colon ∉ t → split_loop pre (t ++ colon :: k) = Some (pre ++ t, k).
Proof.
  revert pre. induction t as [|b t IH]; intros pre Hni; simpl.
  - by rewrite app_nil_r.
  - apply not_elem_of_cons in Hni as [Hb Hni]. rewrite decide_False by congruence.
    by rewrite IH, <-(assoc (++)).
Qed.

(** Splitting a key that has a colon loses nothing. *)
Lemma split_loop_parts s pre :
  colon ∈ s → ∃ t r, split_loop pre s = Some (pre ++ t, r) ∧ s = t ++ colon :: r.
Proof.
  revert pre. induction s as [|b s IH]; intros pre Hin; [by apply elem_of_nil in Hin|]. cbn [split_loop]. case_decide as Hb.
  - subst b. exists [], s. by rewrite app_nil_r.
  - apply elem_of_cons in Hin as [Hin|Hin]; [congruence|]. destruct (IH (pre ++ [b]) Hin) as (t & r & -> & ->).
    exists (b :: t), r. by rewrite <-(assoc (++)).
Qed.

Lemma buildKey_split k :
  colon ∈ bytes k → buildKey (splitCompositeKey k).1 (splitCompositeKey k).2 = k.
Proof.
  intros Hc. unfold splitCompositeKey. apply bytes_inj.
  destruct (split_loop_parts (bytes k) [] Hc) as (t & r & -> & Heq). unfold buildKey. simpl fst. simpl snd.
  rewrite !bytes_app, !bytes_string_of, Heq. done.
Qed.

Lemma splitCompositeKey_buildKey tenantID key :
  colon ∉ bytes tenantID → splitCompositeKey (buildKey tenantID key) = (tenantID, key).
Proof.
  intros Hni. unfold splitCompositeKey, buildKey. rewrite !bytes_app.
  change (bytes ":") with [colon]. simpl. rewrite split_loop_app by done.
  by rewrite app_nil_l, !string_of_bytes.
Qed.

Lemma ensure_bind_ok {E A} b (e : E) (m : res E A) a :
  (ensure b e ;; m) = Ok a ↔ b = true ∧ m = Ok a.
Proof. destruct b; simpl; naive_solver. Qed.

Lemma res_seq_ok {E A B} (m : res E A) (k : res E B) b : (m ;; k) = Ok b ↔ (∃ a, m = Ok a) ∧ k = Ok b.
Proof. destruct m; simpl; naive_solver. Qed.

Lemma existsb_false_iff {A} (f : A → bool) l : existsb f l = false ↔ Forall (λ x, f x = false) l.
Proof.
  rewrite <-not_true_iff_false, existsb_exists, Forall_forall. split.
  - intros Hn x Hx. destruct (f x) eqn:Hf; [|done]. destruct Hn. exists x.
    split; [by apply list_elem_of_In|done].
  - intros Hall (x & Hx%list_elem_of_In & Hf). rewrite Hall in Hf by done. done.
Qed.

Lemma res_unit_ok {E} (m : res E unit) : (∃ a, m = Ok a) ↔ m = Ok tt.
Proof. destruct m as [[]|]; naive_solver. Qed.

(** A validated tenant identifier has no colon and no control character. *)
Lemma ValidateTenantID_ok v tenantID :
  ValidateTenantID v tenantID = Ok tt ↔
  tenantID ≠ EmptyString ∧ str_len tenantID ≤ maxTenantIDSize v ∧ (colon ∉ bytes tenantID) ∧
  Forall (λ r, IsControl r = false) (runes (bytes tenantID)).
Proof.
  unfold ValidateTenantID. rewrite !ensure_bind_ok, ensure_ok.
  rewrite !negb_true_iff, Z.leb_le. unfold contains. rewrite !bool_decide_eq_false.
  rewrite existsb_false_iff.
  split; [naive_solver|]. intros (H1 & H2 & H3 & H4). split_and!; try done.
  intros Hnull. apply (ascii_rune (bytes tenantID) x00) in Hnull; [|by vm_compute].
  rewrite Forall_forall in H4. by specialize (H4 _ Hnull).
Qed.

Lemma ValidateKey_ok v key :
  ValidateKey v key = Ok tt ↔
  key ≠ EmptyString ∧ str_len key ≤ maxKeySize v ∧
  Forall (λ r, IsControl r = true → r = 0x09 ∨ r = 0x0a) (runes (bytes key)).
Proof.
  unfold ValidateKey. rewrite !ensure_bind_ok, ensure_ok, !negb_true_iff, Z.leb_le.
  unfold contains. rewrite !bool_decide_eq_false, existsb_false_iff.
  assert (∀ r, IsControl r && negb (r =? 9) && negb (r =? 10) = false ↔
    (IsControl r = true → r = 9 ∨ r = 10)) as Hr.
  { intros r. destruct (IsControl r), (Z.eqb_spec r 9), (Z.eqb_spec r 10); simpl; naive_solver. }
  setoid_rewrite Hr. split; [naive_solver|]. intros (H1 & H2 & H3). split_and!; try done.
  intros Hnull. apply (ascii_rune (bytes key) x00) in Hnull; [|by vm_compute].
  rewrite Forall_forall in H3. specialize (H3 _ Hnull eq_refl). by vm_compute in H3; destruct H3.
Qed.

Lemma validate_entries_ok i es :
  validate_entries i es = Ok tt ↔
  Forall (λ e, CoordinatorNodeID e ≠ EmptyString ∧ str_len (CoordinatorNodeID e) ≤ MaxCoordinatorNodeIDSize ∧
               (x00 ∉ bytes (CoordinatorNodeID e)) ∧ 0 ≤ LogicalTimestamp e) es.
Proof.
  revert i. induction es as [|e es IH]; intros i; simpl; [split; [constructor|done]|].
  rewrite res_seq_ok, IH, Forall_cons. apply and_iff_compat_r.
  rewrite res_unit_ok. unfold validate_entry. rewrite !ensure_bind_ok, ensure_ok.
  unfold contains. rewrite !negb_true_iff, !bool_decide_eq_false, !Z.leb_le. naive_solver.
Qed.

Lemma IsControl_low r : IsControl r = true → r < 0xa0.
Proof. unfold IsControl. intros [?%Z.leb_le|[_ ?%Z.leb_le]%andb_true_iff]%orb_true_iff; lia. Qed.

(** What is left of a string is short and shows no rune that was to be dropped. *)
Lemma sanitize_text_quiet bad limit s :
  let s' := sanitize_text (λ r, negb (bad r)) limit s in quiet bad (bytes s') ∧ (length (bytes s') ≤ limit)%nat.
Proof.
  unfold sanitize_text. rewrite bytes_string_of.
  set (rs := TrimSpace _). assert (quiet bad (encode_runes rs)) as Hq.
  { apply encode_runes_quiet, Forall_forall. intros r Hr%TrimSpace_subset.
    unfold map_runes in Hr. apply list_elem_of_In, filter_In in Hr as [Hr%list_elem_of_In Hb%negb_true_iff].
    pose proof (runes_range (bytes s)) as Hrange. rewrite Forall_forall in Hrange. auto. }
  destruct (Nat.ltb_spec limit (length (encode_runes rs))); [|done].
  split; [by apply quiet_take|]. rewrite length_take. lia.
Qed.

(** ** Properties *)

(** C30: tenants are isolated.  For validated tenant identifiers, the composite
    key determines the tenant and the key: the SSTable reader's
    [splitCompositeKey] recovers both, so no two tenants share a stored key. *)
Theorem composite_key_isolation (v : Validator) (tenantID key : string) :
  ValidateTenantID v tenantID = Ok tt →
  splitCompositeKey (buildKey tenantID key) = (tenantID, key) ∧
  ∀ tenantID' key', ValidateTenantID v tenantID' = Ok tt →
    buildKey tenantID key = buildKey tenantID' key' → tenantID = tenantID' ∧ key = key'.
Proof.
  intros (_ & _ & Hc & _)%ValidateTenantID_ok.
  pose proof (splitCompositeKey_buildKey tenantID key Hc) as Hs. split; [done|].
  intros tenantID' key' (_ & _ & Hc' & _)%ValidateTenantID_ok Heq.
  rewrite Heq, splitCompositeKey_buildKey in Hs by done. by simplify_eq.
Qed.

(** Validation is complete.  [ValidateWrite] accepts exactly the writes
    whose tenant is non-empty, short, without colon and control characters,
    whose key is non-empty, short and without control characters other than
    tab and newline, whose value is nil or not too large and whose clock entries are
    few, named, and not negative.  The separate null-byte tests reject
    nothing more. *)
Theorem validate_write_spec (v : Validator) (tenantID key : string) (value : list byte) (vc : VectorClock) :
  ValidateWrite v tenantID key value vc = Ok tt ↔
  (tenantID ≠ EmptyString ∧ str_len tenantID ≤ maxTenantIDSize v ∧ (colon ∉ bytes tenantID) ∧
     Forall (λ r, IsControl r = false) (runes (bytes tenantID))) ∧
  (key ≠ EmptyString ∧ str_len key ≤ maxKeySize v ∧
     Forall (λ r, IsControl r = true → r = 0x09 ∨ r = 0x0a) (runes (bytes key))) ∧
  (value = [] ∨ Z.of_nat (length value) ≤ maxValueSize v) ∧
  Z.of_nat (length (Entries vc)) ≤ MaxVectorClockEntries ∧
  Forall (λ e, CoordinatorNodeID e ≠ EmptyString ∧ str_len (CoordinatorNodeID e) ≤ MaxCoordinatorNodeIDSize ∧
               (x00 ∉ bytes (CoordinatorNodeID e)) ∧ 0 ≤ LogicalTimestamp e) (Entries vc).
Proof.
  unfold ValidateWrite. rewrite res_seq_ok, res_seq_ok, res_seq_ok.
  rewrite <-ValidateTenantID_ok, <-ValidateKey_ok, <-(validate_entries_ok 0).
  unfold ValidateValue, ValidateVectorClock. rewrite ensure_bind_ok, <-!Z.leb_le.
  by rewrite !res_unit_ok, ensure_ok, orb_true_iff, bool_decide_eq_true.
Qed.

Lemma composite_key_isolation_witness :
  splitCompositeKey (buildKey "acme" "user:42") = ("acme", "user:42")%string.
Proof. apply (composite_key_isolation NewValidator "acme" "user:42"). by vm_compute. Defined.

(** Sanitizing yields valid input.  Whatever the bytes given, a tenant or a key
    that is not emptied by sanitizing passes the default validator: nothing
    that is dropped can come back when a rune is cut at the limit. *)
Theorem sanitized_input_valid (s : string) :
  (SanitizeTenantID s = EmptyString ∨ ValidateTenantID NewValidator (SanitizeTenantID s) = Ok tt) ∧
  (SanitizeKey s = EmptyString ∨ ValidateKey NewValidator (SanitizeKey s) = Ok tt).
Proof.
  split.
  - destruct (decide (SanitizeTenantID s = EmptyString)) as [|Hne]; [by left|right]. apply ValidateTenantID_ok.
    destruct (sanitize_text_quiet (λ r, IsControl r || (r =? 0x3a)) (Z.to_nat MaxTenantIDSize) s) as [Hq Hl].
    fold (SanitizeTenantID s) in *. split_and!; [done|apply (inj_le _ _ Hl)| |].
    + intros Hc%(proj1 Hq); [|done]. by vm_compute in Hc.
    + eapply Forall_impl; [eapply runes_quiet, Hq|].
      * intros r [?%IsControl_low|?%Z.eqb_eq]%orb_true_iff; lia.
      * by intros r [? _]%orb_false_iff.
  - destruct (decide (SanitizeKey s = EmptyString)) as [|Hne]; [by left|right]. apply ValidateKey_ok.
    destruct (sanitize_text_quiet (λ r, (r =? 0) || key_control r) (Z.to_nat MaxKeySize) s) as [Hq Hl].
    fold (SanitizeKey s) in *. split_and!; [done|apply (inj_le _ _ Hl)|].
    eapply Forall_impl; [eapply runes_quiet, Hq|].
    + intros r [?%Z.eqb_eq|[[?%IsControl_low _]%andb_true_iff _]%andb_true_iff]%orb_true_iff; lia.
    + intros r [_ Hr]%orb_false_iff Hc. unfold key_control in Hr. rewrite Hc in Hr.
      destruct (Z.eqb_spec r 9); [by left|]. destruct (Z.eqb_spec r 10); [by right|done].
Qed.

(** A cut in the middle of a rune: the text of 255 bytes and an [é] loses its
    last byte, and is not UTF-8 any more. *)
Lemma sanitize_cuts_runes :
  let s := string_of (replicate 255 x61 ++ [xc3; xa9]) in
  last (runes (bytes s)) = Some 0xe9 ∧ last (runes (bytes (SanitizeTenantID s))) = Some RuneError.
Proof. by vm_compute. Qed.
