(* ===== verification/Codec.v ===== *)
(** * What the storage node relies on of [encoding/json]

    Entries are stored as the output of [json.Marshal].  The components that
    write and read them are verified against this interface: decoding gives
    back an encodable value, and an encoding is one non-empty line.  [Json] discharges
    it for the records of [Model].  [CutCodec] is what recovery relies on when
    a write was cut short; [JsonCut] discharges it. *)

From S2P Require Import Prelude.

Definition newline : byte := x0a.
Definition carriage_return : byte := x0d.

Class Codec (A : Type) := {
  encodable : A → Prop;
  marshal : A → list byte;
  unmarshal : list byte → option A;
  unmarshal_marshal a : encodable a → unmarshal (marshal a) = Some a;
  marshal_line a : newline ∉ marshal a;
  marshal_cr a : carriage_return ∉ marshal a;
  marshal_nonempty a : marshal a ≠ [];
}.
#[global] Hint Mode Codec ! : typeclass_instances.

(** A broken line: a beginning of an encoding with beginnings of others behind
    it is not the encoding of anything, unless it is one encoding and nothing
    else. *)
Class CutCodec (A : Type) `{Codec A} :=
  unmarshal_cut (a : A) (l : list byte) (ps : list (list byte)) :
    l `prefix_of` marshal a → l ≠ [] → Forall (λ p, ∃ b : A, p `prefix_of` marshal b) ps →
    l ≠ marshal a ∨ mjoin ps ≠ [] → unmarshal (l ++ mjoin ps) = None (A := A).
