(* ===== verification/Json.v ===== *)
(** * The JSON of stored entries

    [json.Marshal] for the records the storage node persists, as
    [encoding/json] documents it: strings quoted with HTML escaping and
    U+2028 and U+2029 escaped, invalid UTF-8 written as [�], byte slices
    in base64 with an empty one as [null], integers in decimal, fields in
    declaration order.  The decoder accepts what the encoder writes; that it
    gives back the value is what [Codec] asks for. *)

From S2P Require Import Prelude Model Utf8 Codec.
#[local] Open Scope Z_scope.

(** ** Parsers of a prefix *)

Definition parser (A : Type) := list byte → option (A * list byte).

Definition pret {A} (a : A) : parser A := λ s, Some (a, s).

Definition pbind {A B} (p : parser A) (f : A → parser B) : parser B := λ s,
  match p s with Some (a, s) => f a s | None => None end.

Declare Scope parser_scope.
Notation "x '<~' p ; q" := (pbind p (λ x, q))
  (at level 100, p at level 99, q at level 200, right associativity) : parser_scope.
Notation "'chomp' p ; q" := (pbind p (λ _, q))
  (at level 100, p at level 99, q at level 200, right associativity) : parser_scope.
#[local] Open Scope parser_scope.

(** [p] reads exactly [l] as [a], whatever follows. *)
Definition reads {A} (p : parser A) (l : list byte) (a : A) : Prop := ∀ s, p (l ++ s) = Some (a, s).

Lemma reads_bind {A B} (p : parser A) (f : A → parser B) l1 l2 a b :
  reads p l1 a → reads (f a) l2 b → reads (pbind p f) (l1 ++ l2) b.
Proof. intros H1 H2 s. rewrite <-(assoc (++)). unfold pbind. rewrite H1. apply H2. Qed.

Lemma reads_ret {A} (a : A) : reads (pret a) [] a.
Proof. by intros s. Qed.

Fixpoint literal (l : list byte) : parser unit := λ s,
  match l, s with
  | [], _ => Some (tt, s)
  | b :: l, c :: s => if decide (b = c) then literal l s else None
  | _ :: _, [] => None
  end.

Lemma reads_literal l : reads (literal l) l tt.
Proof. induction l as [|b l IH]; intros s; simpl; [done|]. rewrite decide_True by done. apply IH. Qed.

(** ** Strings *)

Definition quote : byte := x22.
Definition backslash : byte := x5c.

Definition hex_digit (n : Z) : byte := byte_of (if n <? 10 then 48 + n else 87 + n).

(** [\u] and four hexadecimal digits. *)
Definition u_escape (r : Z) : list byte :=
  [backslash; x75; hex_digit (r / 4096 mod 16); hex_digit (r / 256 mod 16);
   hex_digit (r / 16 mod 16); hex_digit (r mod 16)].

Definition esc_ascii (b : byte) : list byte :=
  let v := byte_val b in
  if decide (b = quote ∨ b = backslash) then [backslash; b]
  else if v =? 8 then [backslash; x62]
  else if v =? 12 then [backslash; x66]
  else if v =? 10 then [backslash; x6e]
  else if v =? 13 then [backslash; x72]
  else if v =? 9 then [backslash; x74]
  else if (v <? 32) || (v =? 60) || (v =? 62) || (v =? 38) then u_escape v
  else [b].

Definition esc_chunk (r : Z) (chunk : list byte) : list byte :=
  match chunk with
  | [b] => if byte_val b <? 0x80 then esc_ascii b else u_escape RuneError
  | _ => if (r =? 0x2028) || (r =? 0x2029) then u_escape r else chunk
  end.

Fixpoint esc_fuel (fuel : nat) (s : list byte) : list byte :=
  match fuel, s with
  | S fuel, b :: rest =>
      let '(r, w) := decode_rune b rest in esc_chunk r (take w s) ++ esc_fuel fuel (drop w s)
  | _, _ => []
  end.

Definition json_string (s : string) : list byte :=
  [quote] ++ esc_fuel (length (bytes s)) (bytes s) ++ [quote].

Definition hex_val (b : byte) : option Z :=
  let v := byte_val b in
  if (48 <=? v) && (v <=? 57) then Some (v - 48)
  else if (97 <=? v) && (v <=? 102) then Some (v - 87) else None.

(** The bytes of the characters the encoder writes as [\u]. *)
Definition rune_bytes (r : Z) : option (list byte) :=
  if r <? 0x80 then Some [byte_of r]
  else if r =? 0x2028 then Some [xe2; x80; xa8]
  else if r =? 0x2029 then Some [xe2; x80; xa9]
  else None.

Definition prepend (l : list byte) (r : option (list byte * list byte)) : option (list byte * list byte) :=
  match r with Some (a, s) => Some (l ++ a, s) | None => None end.

(** The contents of a string up to its closing quote. *)
Fixpoint unesc (s : list byte) : option (list byte * list byte) :=
  match s with
  | [] => None
  | b :: t =>
      if decide (b = quote) then Some ([], t)
      else if decide (b = backslash) then
        match t with
        | c :: t' =>
            if decide (c = quote ∨ c = backslash) then prepend [c] (unesc t')
            else if decide (c = x62) then prepend [x08] (unesc t')
            else if decide (c = x66) then prepend [x0c] (unesc t')
            else if decide (c = x6e) then prepend [x0a] (unesc t')
            else if decide (c = x72) then prepend [x0d] (unesc t')
            else if decide (c = x74) then prepend [x09] (unesc t')
            else if decide (c = x75) then
              match t' with
              | h1 :: h2 :: h3 :: h4 :: t'' =>
                  v1 ← hex_val h1; v2 ← hex_val h2; v3 ← hex_val h3; v4 ← hex_val h4;
                  l ← rune_bytes (4096 * v1 + 256 * v2 + 16 * v3 + v4);
                  prepend l (unesc t'')
              | _ => None
              end
            else None
        | [] => None
        end
      else prepend [b] (unesc t)
  end.

Definition parse_string : parser string :=
  chomp literal [quote]; l <~ unesc; pret (string_of l).

(** ** UTF-8 validity *)

Fixpoint valid_fuel (fuel : nat) (s : list byte) : bool :=
  match fuel, s with
  | S fuel, b :: rest =>
      let '(r, w) := decode_rune b rest in
      negb ((w =? 1)%nat && (0x80 <=? byte_val b)) && valid_fuel fuel (drop w s)
  | _, _ => true
  end.

(** [utf8.ValidString]. *)
Definition valid_utf8 (s : string) : bool := valid_fuel (length (bytes s)) (bytes s).

Lemma unesc_ascii b t : byte_val b < 0x80 → unesc (esc_ascii b ++ t) = prepend [b] (unesc t).
Proof. intros Hb. destruct b; try (vm_compute in Hb; discriminate); reflexivity. Qed.

Lemma unesc_high l t : Forall (λ b, 0x80 ≤ byte_val b) l → unesc (l ++ t) = prepend l (unesc t).
Proof.
  induction 1 as [|b l Hb _ IH]; simpl.
  - by destruct (unesc t) as [[]|].
  - rewrite !decide_False by (intros ->; by vm_compute in Hb). rewrite IH.
    by destruct (unesc t) as [[]|].
Qed.

(** A chunk of more than one byte has no ASCII byte. *)
Lemma chunk_high b rest :
  (1 < (decode_rune b rest).2)%nat →
  Forall (λ c, 0x80 ≤ byte_val c) (take (decode_rune b rest).2 (b :: rest)).
Proof.
  intros Hw. apply Forall_forall. intros c Hc. destruct (Z.le_gt_cases 0x80 (byte_val c)); [done|].
  destruct (decode_not_ascii b rest c ltac:(lia) Hc) as [_ Hd]. rewrite Hd in Hw. simpl in Hw. lia.
Qed.

Lemma separator_bytes b0 b1 b2 r l :
  0xe0 ≤ byte_val b0 < 0xf0 → 0x80 ≤ byte_val b1 ≤ 0xbf → 0x80 ≤ byte_val b2 ≤ 0xbf →
  r = 0x2028 ∨ r = 0x2029 → rune_bytes r = Some l →
  4096 * (byte_val b0 mod 16) + 64 * (byte_val b1 mod 64) + byte_val b2 mod 64 = r → [b0; b1; b2] = l.
Proof.
  intros H0 H1 H2 Hr Hl Heq.
  assert (byte_val b0 = byte_val xe2 ∧ byte_val b1 = byte_val x80) as [E0 E1].
  { change (byte_val xe2) with 226. change (byte_val x80) with 128.
    Z.to_euclidean_division_equations. lia. }
  apply byte_val_inj in E0, E1. subst b0 b1.
  destruct Hr as [-> | ->]; injection Hl as <-; do 3 f_equal; apply byte_val_inj.
  - change (byte_val xa8) with 168. change (byte_val xe2) with 226 in *. change (byte_val x80) with 128 in *.
    Z.to_euclidean_division_equations. lia.
  - change (byte_val xa9) with 169. change (byte_val xe2) with 226 in *. change (byte_val x80) with 128 in *.
    Z.to_euclidean_division_equations. lia.
Qed.

(** The only encodings of U+2028 and U+2029. *)
Lemma decode_separator b rest r l :
  r = 0x2028 ∨ r = 0x2029 → rune_bytes r = Some l → (decode_rune b rest).1 = r →
  take (decode_rune b rest).2 (b :: rest) = l.
Proof.
  intros Hr Hl. unfold decode_rune, second_ok, is_cont, byte_in, RuneError. cbn zeta.
  assert (∀ b0, 0x80 ≤ (second_range b0).1 ∧ (second_range b0).2 ≤ 0xbf) as Hsr.
  { intros b0. unfold second_range. repeat case_match; simpl; lia. }
  destruct (Z.ltb_spec (byte_val b) 0x80); [simpl; lia|].
  destruct (Z.ltb_spec (byte_val b) 0xc2); [simpl; lia|].
  destruct (Z.ltb_spec (byte_val b) 0xe0).
  { destruct rest as [|b1 rest]; [simpl; lia|]. destruct (_ && _); simpl; [|lia].
    pose proof (Z.mod_pos_bound (byte_val b) 32). pose proof (Z.mod_pos_bound (byte_val b1) 64). lia. }
  destruct (Z.ltb_spec (byte_val b) 0xf0).
  { destruct rest as [|b1 [|b2 rest]]; [simpl; lia..|].
    destruct (_ && _) eqn:Hc; [|simpl; lia]. cbn [fst snd firstn]. intros Heq.
    rewrite !andb_true_iff, !Z.leb_le in Hc. specialize (Hsr (byte_val b)).
    apply (separator_bytes b b1 b2 r); [lia|lia|lia|done|done|exact Heq]. }
  destruct (Z.ltb_spec (byte_val b) 0xf5); [|simpl; lia].
  destruct rest as [|b1 [|b2 [|b3 rest]]]; [simpl; lia..|].
  destruct (_ && _) eqn:Hc; [|simpl; lia]. cbn [fst snd]. intros Heq. exfalso.
  rewrite !andb_true_iff, !Z.leb_le in Hc. unfold second_range in Hc.
  pose proof (Z.mod_pos_bound (byte_val b2) 64). pose proof (Z.mod_pos_bound (byte_val b3) 64).
  destruct (Z.eqb_spec (byte_val b) 0xe0), (Z.eqb_spec (byte_val b) 0xed); try lia.
  destruct (Z.eqb_spec (byte_val b) 0xf0); simpl in Hc;
    [|destruct (Z.eqb_spec (byte_val b) 0xf4); simpl in Hc]; Z.to_euclidean_division_equations; lia.
Qed.

Lemma unesc_u_escape r l t :
  rune_bytes r = Some l → 0 ≤ r → unesc (u_escape r ++ t) = prepend l (unesc t).
Proof.
  intros Hl H0. unfold rune_bytes in Hl.
  destruct (Z.ltb_spec r 0x80) as [Hr|Hr].
  - injection Hl as <-. assert (∃ n, (n < 128)%nat ∧ r = Z.of_nat n) as (n & Hn & ->) by (exists (Z.to_nat r); lia).
    do 128 (destruct n as [|n]; [reflexivity|]). lia.
  - destruct (Z.eqb_spec r 0x2028); [injection Hl as <-; subst; reflexivity|].
    destruct (Z.eqb_spec r 0x2029); [injection Hl as <-; subst; reflexivity|done].
Qed.

Lemma unesc_esc fuel s t :
  (length s ≤ fuel)%nat → valid_fuel fuel s = true → unesc (esc_fuel fuel s ++ quote :: t) = Some (s, t).
Proof.
  revert s. induction fuel as [|fuel IH]; intros [|b rest] Hlen Hv; simpl in Hlen; try lia; try reflexivity.
  cbn [esc_fuel valid_fuel] in *. pose proof (decode_width b rest) as Hw.
  pose proof (chunk_high b rest) as Hhigh. pose proof (decode_separator b rest) as Hsep.
  destruct (decode_rune b rest) as [r w]. cbn [fst snd] in *.
  apply andb_true_iff in Hv as [Hv1 Hv2]. rewrite <-(assoc (++)).
  assert (unesc (esc_fuel fuel (drop w (b :: rest)) ++ quote :: t) = Some (drop w (b :: rest), t)) as IH'.
  { apply IH; [|done]. rewrite length_drop. simpl. lia. }
  assert (prepend (take w (b :: rest)) (Some (drop w (b :: rest), t)) = Some (b :: rest, t)) as Hp
    by (simpl; by rewrite take_drop).
  destruct (decide (w = 1%nat)) as [->|Hw1].
  - change (take 1 (b :: rest)) with [b]. cbn [esc_chunk]. simpl in Hv1. apply negb_true_iff, Z.leb_gt in Hv1.
    destruct (Z.ltb_spec (byte_val b) 0x80); [|lia]. rewrite unesc_ascii by lia. by rewrite IH'.
  - specialize (Hhigh ltac:(lia)). destruct w as [|[|w]]; [lia|lia|].
    destruct rest as [|b1 rest]; [simpl in Hw; lia|]. cbn [firstn] in *.
    cbn [esc_chunk]. destruct ((r =? 0x2028) || (r =? 0x2029)) eqn:Hr.
    + assert (r = 0x2028 ∨ r = 0x2029) as Hr' by lia.
      assert (∃ l, rune_bytes r = Some l) as [l Hl] by (destruct Hr' as [-> | ->]; by eexists).
      rewrite (unesc_u_escape r l) by (done || lia). rewrite <-(Hsep r l), IH' by done. done.
    + rewrite unesc_high by done. by rewrite IH'.
Qed.

Lemma reads_string s : valid_utf8 s = true → reads parse_string (json_string s) s.
Proof.
  intros Hv t. unfold parse_string, json_string, pbind. rewrite <-!(assoc (++)), reads_literal.
  rewrite <-app_comm_cons, app_nil_l. rewrite unesc_esc by done. unfold pret. by rewrite string_of_bytes.
Qed.

(** *** No control character in a quoted string *)

Definition printable (b : byte) : Prop := 0x20 ≤ byte_val b.

Lemma esc_printable fuel s : Forall printable (esc_fuel fuel s).
Proof.
  revert s. induction fuel as [|fuel IH]; intros [|b rest]; cbn [esc_fuel]; try constructor.
  pose proof (chunk_high b rest) as Hhigh. pose proof (decode_width b rest) as Hw.
  destruct (decode_rune b rest) as [r w]. cbn [fst snd] in *.
  apply Forall_app. split; [|apply IH].
  assert (∀ r, Forall printable (u_escape r)) as Hu.
  { intros r'. unfold u_escape. assert (∀ n, 0 ≤ n < 16 → printable (hex_digit n)) as Hh.
    { intros n Hn. unfold printable, hex_digit. rewrite byte_val_of. destruct (Z.ltb_spec n 10);
        rewrite Z.mod_small by lia; lia. }
    repeat constructor; try (by vm_compute); apply Hh, Z.mod_pos_bound; lia. }
  destruct (decide (w = 1%nat)) as [->|Hw1].
  - change (take 1 (b :: rest)) with [b]. cbn [esc_chunk]. destruct (Z.ltb_spec (byte_val b) 0x80); [|apply Hu].
    unfold esc_ascii. repeat case_match; try apply Hu; repeat constructor; try by vm_compute.
    all: unfold printable; repeat match goal with H : decide _ = _ |- _ => clear H end; try lia.
    all: destruct_or?; subst; by vm_compute.
  - specialize (Hhigh ltac:(lia)). destruct w as [|[|w]]; [lia|lia|].
    destruct rest as [|b1 rest]; [simpl in Hw; lia|]. cbn [firstn esc_chunk] in *.
    destruct (_ || _); [apply Hu|]. eapply Forall_impl; [exact Hhigh|]. unfold printable. simpl. lia.
Qed.

(** ** Integers *)

Definition minus : byte := x2d.

Definition dec_digit (acc : option Z) (b : byte) : option Z :=
  a ← acc; if bool_decide (is_digit b) then Some (10 * a + (byte_val b - 48)) else None.

Definition dec_digits (l : list byte) : option Z := foldl dec_digit (Some 0) l.

Definition dec_Z (l : list byte) : option Z :=
  match l with
  | b :: l' => if decide (b = minus) then Z.opp <$> dec_digits l' else dec_digits l
  | [] => None
  end.

(** An integer and the delimiter after it. *)
Definition parse_int (d : byte) : parser Z := λ s,
  match drop_while (λ b, bool_decide (b ≠ d)) s with
  | _ :: s' => z ← dec_Z (take_while (λ b, bool_decide (b ≠ d)) s); Some (z, s')
  | [] => None
  end.

Definition json_int (z : Z) : list byte := bytes (pretty z).

Lemma dec_pretty_go x s :
  foldl dec_digit (Some 0) (bytes (pretty_N_go x s)) = foldl dec_digit (Some (Z.of_N x)) (bytes s).
Proof.
  revert s. induction (N.lt_wf_0 x) as [x _ IH]; intros s.
  destruct (decide (x = 0%N)) as [->|Hx]; [by rewrite pretty_N_go_0|].
  rewrite pretty_N_go_step by lia. rewrite IH by (apply N.div_lt; lia).
  set (c := pretty_N_char (x `mod` 10)).
  change (bytes (String c s)) with (Ascii.byte_of_ascii c :: bytes s). cbn [foldl]. unfold dec_digit at 2. cbn [mbind option_bind].
  assert (is_digit (Ascii.byte_of_ascii c) ∧ byte_val (Ascii.byte_of_ascii c) - 48 = Z.of_N (x `mod` 10)) as [Hd Hv].
  { unfold c. pose proof (N.mod_lt x 10 ltac:(lia)) as Hm. revert Hm. generalize (x `mod` 10)%N. intros m Hm.
    assert (m = 0 ∨ m = 1 ∨ m = 2 ∨ m = 3 ∨ m = 4 ∨ m = 5 ∨ m = 6 ∨ m = 7 ∨ m = 8 ∨ m = 9)%N as Hc by lia.
    destruct_or! Hc; subst m; by vm_compute. }
  rewrite bool_decide_eq_true_2, Hv by done. do 2 f_equal.
  pose proof (N.div_mod x 10 ltac:(lia)). lia.
Qed.

Lemma dec_pretty_N (x : N) : dec_digits (bytes (pretty x)) = Some (Z.of_N x).
Proof.
  unfold pretty, pretty_N, dec_digits. case_decide; [by subst|].
  by rewrite dec_pretty_go.
Qed.

Lemma pretty_N_digits (x : N) : Forall is_digit (bytes (pretty x)).
Proof.
  unfold pretty, pretty_N. case_decide; [by repeat constructor|].
  apply pretty_N_go_digits. constructor.
Qed.

Lemma dec_Z_digits l : Forall is_digit l → l ≠ [] → dec_Z l = dec_digits l.
Proof.
  intros Hd Hne. destruct l as [|b l]; [done|]. unfold dec_Z.
  rewrite decide_False; [done|]. intros ->. inversion Hd as [|? ? H0 _]. by destruct H0 as [H0 _]; vm_compute in H0.
Qed.

Lemma pretty_N_nonempty (x : N) : bytes (pretty x) ≠ [].
Proof.
  intros H. pose proof (dec_pretty_N x) as Hd. rewrite H in Hd. vm_compute in Hd.
  destruct x; [by vm_compute in H|discriminate].
Qed.

Lemma dec_json_int z : dec_Z (json_int z) = Some z.
Proof.
  unfold json_int. destruct z as [|x|x]; [done|..].
  - change (pretty (Z.pos x)) with (pretty (N.pos x)).
    rewrite dec_Z_digits by (apply pretty_N_digits || apply pretty_N_nonempty). apply dec_pretty_N.
  - change (bytes (pretty (Z.neg x))) with (minus :: bytes (pretty (N.pos x))). cbn [dec_Z].
    rewrite decide_True by done. by rewrite dec_pretty_N.
Qed.

Definition int_char (b : byte) : Prop := b = minus ∨ is_digit b.

Lemma json_int_chars z : Forall int_char (json_int z).
Proof.
  unfold json_int. destruct z as [|x|x].
  - constructor; [right; by vm_compute|constructor].
  - eapply Forall_impl; [apply (pretty_N_digits (N.pos x))|]. by right.
  - change (bytes (pretty (Z.neg x))) with (minus :: bytes (pretty (N.pos x))). constructor; [by left|].
    eapply Forall_impl; [apply (pretty_N_digits (N.pos x))|]. by right.
Qed.

Lemma take_drop_until d (l s : list byte) :
  d ∉ l → take_while (λ b, bool_decide (b ≠ d)) (l ++ d :: s) = l ∧
          drop_while (λ b, bool_decide (b ≠ d)) (l ++ d :: s) = d :: s.
Proof.
  induction l as [|b l IH]; intros Hni; simpl.
  - by rewrite bool_decide_eq_false_2 by naive_solver.
  - apply not_elem_of_cons in Hni as [Hne Hni]. rewrite bool_decide_eq_true_2 by congruence.
    destruct (IH Hni) as [-> ->]. done.
Qed.

Lemma reads_int d z : ¬ int_char d → reads (parse_int d) (json_int z ++ [d]) z.
Proof.
  intros Hd s. assert ((json_int z ++ [d]) ++ s = json_int z ++ d :: s) as -> by by rewrite <-(assoc (++)).
  unfold parse_int.
  assert (d ∉ json_int z) as Hni.
  { intros Hin. pose proof (json_int_chars z) as Hc. rewrite Forall_forall in Hc. by apply Hd, Hc. }
  destruct (take_drop_until d (json_int z) s Hni) as [Ht Hdr]. rewrite Hdr, Ht. by rewrite dec_json_int.
Qed.

(** ** Byte slices *)

Definition alphabet : list byte :=
  bytes "ABCDEFGHIJKLMNOPQRSTUVWXYZabcdefghijklmnopqrstuvwxyz0123456789+/".

Definition pad : byte := x3d.

Definition b64_char (i : Z) : byte := nth (Z.to_nat i) alphabet x00.

Definition b64_val (c : byte) : option Z := (λ p, Z.of_nat p.1) <$> list_find (.= c) alphabet.

Fixpoint b64 (l : list byte) : list byte :=
  match l with
  | a :: b :: c :: t =>
      let x := byte_val a in let y := byte_val b in let z := byte_val c in
      b64_char (x / 4) :: b64_char (x mod 4 * 16 + y / 16) ::
      b64_char (y mod 16 * 4 + z / 64) :: b64_char (z mod 64) :: b64 t
  | [a; b] =>
      let x := byte_val a in let y := byte_val b in
      [b64_char (x / 4); b64_char (x mod 4 * 16 + y / 16); b64_char (y mod 16 * 4); pad]
  | [a] =>
      let x := byte_val a in [b64_char (x / 4); b64_char (x mod 4 * 16); pad; pad]
  | [] => []
  end.

Fixpoint b64_dec (l : list byte) : option (list byte) :=
  match l with
  | [] => Some []
  | c0 :: c1 :: c2 :: c3 :: t =>
      i0 ← b64_val c0; i1 ← b64_val c1;
      if decide (c2 = pad) then Some [byte_of (i0 * 4 + i1 / 16)]
      else
        i2 ← b64_val c2;
        if decide (c3 = pad) then Some [byte_of (i0 * 4 + i1 / 16); byte_of (i1 mod 16 * 16 + i2 / 4)]
        else
          i3 ← b64_val c3; rest ← b64_dec t;
          Some (byte_of (i0 * 4 + i1 / 16) :: byte_of (i1 mod 16 * 16 + i2 / 4) ::
                byte_of (i2 mod 4 * 64 + i3) :: rest)
  | _ => None
  end.

Lemma b64_char_spec i :
  0 ≤ i < 64 → b64_val (b64_char i) = Some i ∧ b64_char i ≠ pad ∧ b64_char i ≠ quote ∧ printable (b64_char i).
Proof.
  intros Hi. assert (∃ n, (n < 64)%nat ∧ i = Z.of_nat n) as (n & Hn & ->) by (exists (Z.to_nat i); lia).
  do 64 (destruct n as [|n]; [by vm_compute|]). lia.
Qed.

Lemma b64_chars_ok a b c :
  0 ≤ byte_val a / 4 < 64 ∧ 0 ≤ byte_val a mod 4 * 16 + byte_val b / 16 < 64 ∧
  0 ≤ byte_val b mod 16 * 4 + byte_val c / 64 < 64 ∧ 0 ≤ byte_val c mod 64 < 64 ∧
  0 ≤ byte_val a mod 4 * 16 < 64 ∧ 0 ≤ byte_val b mod 16 * 4 < 64.
Proof.
  pose proof (byte_val_range a). pose proof (byte_val_range b). pose proof (byte_val_range c).
  Z.to_euclidean_division_equations. lia.
Qed.

Lemma byte_of_eq a z : z = byte_val a → byte_of z = a.
Proof. intros ->. apply byte_of_val. Qed.

Lemma b64_roundtrip l : b64_dec (b64 l) = Some l.
Proof.
  remember (length l) as n eqn:Hn. revert l Hn. induction (lt_wf n) as [n _ IH]. intros l ->.
  destruct l as [|a [|b [|c t]]]; [done|..]; cbn [b64].
  - destruct (b64_chars_ok a a a) as (H0 & _ & _ & _ & H4 & _). cbn [b64_dec].
    rewrite (proj1 (b64_char_spec _ H0)), (proj1 (b64_char_spec _ H4)). cbn [mbind option_bind].
    rewrite decide_True by done. do 2 f_equal. apply byte_of_eq. Z.to_euclidean_division_equations. lia.
  - destruct (b64_chars_ok a b a) as (H0 & H1 & _ & _ & _ & H5). cbn [b64_dec].
    rewrite (proj1 (b64_char_spec _ H0)), (proj1 (b64_char_spec _ H1)). cbn [mbind option_bind].
    rewrite decide_False by apply (b64_char_spec _ H5).
    rewrite (proj1 (b64_char_spec _ H5)). cbn [mbind option_bind]. rewrite decide_True by done.
    pose proof (byte_val_range b). f_equal. f_equal; [|f_equal]; apply byte_of_eq;
      Z.to_euclidean_division_equations; lia.
  - destruct (b64_chars_ok a b c) as (H0 & H1 & H2 & H3 & _). cbn [b64_dec].
    rewrite (proj1 (b64_char_spec _ H0)), (proj1 (b64_char_spec _ H1)). cbn [mbind option_bind].
    rewrite decide_False by apply (b64_char_spec _ H2).
    rewrite (proj1 (b64_char_spec _ H2)). cbn [mbind option_bind].
    rewrite decide_False by apply (b64_char_spec _ H3). rewrite (proj1 (b64_char_spec _ H3)). cbn [mbind option_bind].
    rewrite (IH (length t)) by (simpl; lia || done). cbn [mbind option_bind].
    pose proof (byte_val_range b). pose proof (byte_val_range c).
    f_equal. f_equal; [|f_equal; [|f_equal]]; apply byte_of_eq; Z.to_euclidean_division_equations; lia.
Qed.

Lemma b64_chars l : Forall (λ c, c ≠ quote ∧ printable c) (b64 l).
Proof.
  remember (length l) as n eqn:Hn. revert l Hn. induction (lt_wf n) as [n _ IH]. intros l ->.
  destruct l as [|a [|b [|c t]]]; cbn [b64]; [constructor|..].
  - destruct (b64_chars_ok a a a) as (H0 & _ & _ & _ & H4 & _).
    repeat constructor; (apply b64_char_spec; done) || done.
  - destruct (b64_chars_ok a b a) as (H0 & H1 & _ & _ & _ & H5).
    repeat constructor; (apply b64_char_spec; done) || done.
  - destruct (b64_chars_ok a b c) as (H0 & H1 & H2 & H3 & _).
    do 4 (constructor; [split; by apply b64_char_spec|]). apply (IH (length t)); [simpl; lia|done].
Qed.

Definition null : list byte := bytes "null".

Definition json_bytes (l : list byte) : list byte :=
  match l with [] => null | _ => [quote] ++ b64 l ++ [quote] end.

Definition parse_bytes : parser (list byte) := λ s,
  match literal null s with
  | Some (_, s) => Some ([], s)
  | None =>
      (chomp literal [quote];
       λ s, match drop_while (λ b, bool_decide (b ≠ quote)) s with
            | _ :: s' => l ← b64_dec (take_while (λ b, bool_decide (b ≠ quote)) s); Some (l, s')
            | [] => None
            end) s
  end.

Lemma reads_bytes l : reads parse_bytes (json_bytes l) l.
Proof.
  intros s. unfold parse_bytes. destruct l as [|a t]; [reflexivity|].
  assert (json_bytes (a :: t) ++ s = quote :: b64 (a :: t) ++ quote :: s) as ->.
  { unfold json_bytes. by rewrite <-!app_assoc. }
  change (literal null (quote :: b64 (a :: t) ++ quote :: s)) with (None : option (unit * list byte)).
  unfold pbind. change (literal [quote] (quote :: b64 (a :: t) ++ quote :: s)) with (Some (tt, b64 (a :: t) ++ quote :: s)).
  assert (quote ∉ b64 (a :: t)) as Hni.
  { intros Hin. pose proof (b64_chars (a :: t)) as Hc. rewrite Forall_forall in Hc. by destruct (Hc _ Hin). }
  destruct (take_drop_until quote (b64 (a :: t)) s Hni) as [Ht Hdr]. cbv beta iota. rewrite Hdr, Ht. by rewrite b64_roundtrip.
Qed.

(** ** Lists, objects and the stored records *)

Definition comma : byte := x2c.
Definition lbrace : byte := x7b.
Definition rbrace : byte := x7d.
Definition lbracket : byte := x5b.
Definition rbracket : byte := x5d.

(** A field name in quotes and a colon. *)
Definition field (name : string) : list byte := [quote] ++ bytes name ++ [quote; x3a].

Fixpoint json_elems {A} (pr : A → list byte) (l : list A) : list byte :=
  match l with
  | [] => []
  | [x] => pr x ++ [rbracket]
  | x :: l => pr x ++ [comma] ++ json_elems pr l
  end.

Definition json_list {A} (pr : A → list byte) (l : list A) : list byte :=
  match l with [] => null | _ => [lbracket] ++ json_elems pr l end.

Fixpoint parse_elems {A} (fuel : nat) (p : parser A) : parser (list A) := λ s,
  match fuel, p s with
  | S fuel, Some (x, c :: s) =>
      if decide (c = rbracket) then Some ([x], s)
      else if decide (c = comma) then
        match parse_elems fuel p s with Some (l, s) => Some (x :: l, s) | None => None end
      else None
  | _, _ => None
  end.

Definition parse_list {A} (p : parser A) : parser (list A) := λ s,
  match literal null s with
  | Some (_, s) => Some ([], s)
  | None => match literal [lbracket] s with
            | Some (_, s) => parse_elems (length s) p s
            | None => None
            end
  end.

Lemma reads_elems {A} (p : parser A) pr x l s fuel :
  Forall (λ x, reads p (pr x) x) (x :: l) → (length l < fuel)%nat →
  parse_elems fuel p (json_elems pr (x :: l) ++ s) = Some (x :: l, s).
Proof.
  revert x fuel. induction l as [|y l IH]; intros x fuel Hall Hf; (destruct fuel as [|fuel]; [simpl in Hf; lia|]);
    apply Forall_cons in Hall as [Hx Hall].
  - cbn [json_elems parse_elems]. rewrite <-app_assoc, (Hx ([rbracket] ++ s)). reflexivity.
  - change (json_elems pr (x :: y :: l)) with (pr x ++ [comma] ++ json_elems pr (y :: l)).
    cbn [parse_elems]. rewrite <-!app_assoc, (Hx ([comma] ++ json_elems pr (y :: l) ++ s)).
    cbn [app]. rewrite decide_False by done. rewrite decide_True by done. rewrite IH by (done || simpl in Hf; lia). done.
Qed.

Lemma length_json_elems {A} (pr : A → list byte) l : (length l ≤ length (json_elems pr l))%nat.
Proof.
  induction l as [|x l IH]; [done|]. destruct l as [|y l].
  - simpl. rewrite length_app. simpl. lia.
  - change (json_elems pr (x :: y :: l)) with (pr x ++ [comma] ++ json_elems pr (y :: l)).
    rewrite !length_app. simpl length in *. lia.
Qed.

Lemma reads_list {A} (p : parser A) pr l :
  Forall (λ x, reads p (pr x) x) l → reads (parse_list p) (json_list pr l) l.
Proof.
  intros Hall s. unfold parse_list. destruct l as [|x l]; [reflexivity|].
  change (json_list pr (x :: l) ++ s) with (lbracket :: json_elems pr (x :: l) ++ s).
  change (literal null (lbracket :: json_elems pr (x :: l) ++ s)) with (None : option (unit * list byte)).
  change (literal [lbracket] (lbracket :: json_elems pr (x :: l) ++ s)) with (Some (tt, json_elems pr (x :: l) ++ s)).
  apply reads_elems; [done|]. rewrite length_app. pose proof (length_json_elems pr (x :: l)). simpl length in *. lia.
Qed.

Definition json_bool (b : bool) : list byte := bytes (if b then "true" else "false").

Definition parse_bool : parser bool := λ s,
  match literal (bytes "true") s with
  | Some (_, s) => Some (true, s)
  | None => match literal (bytes "false") s with Some (_, s) => Some (false, s) | None => None end
  end.

Lemma reads_bool b : reads parse_bool (json_bool b) b.
Proof. by destruct b; intros s. Qed.

Definition json_vce (e : VectorClockEntry) : list byte :=
  [lbrace] ++ field "CoordinatorNodeID" ++ json_string (CoordinatorNodeID e) ++
  ([comma] ++ field "LogicalTimestamp") ++ (json_int (LogicalTimestamp e) ++ [rbrace]).

Definition parse_vce : parser VectorClockEntry :=
  chomp literal [lbrace];
  chomp literal (field "CoordinatorNodeID");
  id <~ parse_string;
  chomp literal ([comma] ++ field "LogicalTimestamp");
  ts <~ parse_int rbrace;
  pret (mkVCE id ts).

Lemma not_int_char d : d = comma ∨ d = rbrace → ¬ int_char d.
Proof.
  intros [-> | ->] [H|H]; try discriminate; destruct H as [H1 H2]; vm_compute in H1, H2; congruence.
Qed.

Lemma reads_last {A B} (p : parser A) (f : A → B) l a : reads p l a → reads (x <~ p; pret (f x)) l (f a).
Proof. intros Hp s. unfold pbind. by rewrite Hp. Qed.

Lemma reads_vce e : valid_utf8 (CoordinatorNodeID e) = true → reads parse_vce (json_vce e) e.
Proof.
  intros Hv. destruct e as [id ts]. unfold parse_vce, json_vce.
  cbn [CoordinatorNodeID LogicalTimestamp] in *.
  do 2 (eapply reads_bind; [apply reads_literal|]). eapply reads_bind; [by apply reads_string|].
  eapply reads_bind; [apply reads_literal|].
  apply (reads_last _ (λ ts, mkVCE id ts)), reads_int, not_int_char. by right.
Qed.

Definition json_vc (v : VectorClock) : list byte :=
  ([lbrace] ++ field "Entries") ++ json_list json_vce (Entries v) ++ [rbrace].

Definition parse_vc : parser VectorClock :=
  chomp literal ([lbrace] ++ field "Entries");
  l <~ parse_list parse_vce;
  chomp literal [rbrace];
  pret (mkVC l).

Definition valid_clock (v : VectorClock) : Prop :=
  Forall (λ e, valid_utf8 (CoordinatorNodeID e) = true) (Entries v).

Lemma reads_end {A} l (a : A) : reads (chomp literal l; pret a) l a.
Proof. intros s. unfold pbind. by rewrite reads_literal. Qed.

Lemma reads_vc v : valid_clock v → reads parse_vc (json_vc v) v.
Proof.
  intros Hv. destruct v as [l]. unfold parse_vc, json_vc, valid_clock in *. cbn [Entries] in *.
  eapply reads_bind; [apply reads_literal|]. eapply reads_bind; [|apply reads_end].
  apply reads_list. eapply Forall_impl; [exact Hv|]. intros e He. by apply reads_vce.
Qed.

Definition json_op (o : OperationType) : list byte :=
  [quote] ++ bytes (match o with
                    | OperationTypeWrite => "write"
                    | OperationTypeRepair => "repair"
                    | OperationTypeDelete => "delete"
                    end) ++ [quote].

Definition parse_op : parser OperationType := λ s,
  match literal (json_op OperationTypeWrite) s with
  | Some (_, s) => Some (OperationTypeWrite, s)
  | None =>
      match literal (json_op OperationTypeRepair) s with
      | Some (_, s) => Some (OperationTypeRepair, s)
      | None =>
          match literal (json_op OperationTypeDelete) s with
          | Some (_, s) => Some (OperationTypeDelete, s)
          | None => None
          end
      end
  end.

Lemma reads_op o : reads parse_op (json_op o) o.
Proof. by destruct o; intros s. Qed.

Definition json_entry (e : MemTableEntry) : list byte :=
  ([lbrace] ++ field "Key") ++ json_string (mt_Key e) ++
  ([comma] ++ field "Value") ++ json_bytes (mt_Value e) ++
  ([comma] ++ field "VectorClock") ++ json_vc (mt_VectorClock e) ++
  ([comma] ++ field "Timestamp") ++ (json_int (mt_Timestamp e) ++ [comma]) ++
  field "IsTombstone" ++ json_bool (mt_IsTombstone e) ++ [rbrace].

Definition parse_entry : parser MemTableEntry :=
  chomp literal ([lbrace] ++ field "Key");
  k <~ parse_string;
  chomp literal ([comma] ++ field "Value");
  v <~ parse_bytes;
  chomp literal ([comma] ++ field "VectorClock");
  vc <~ parse_vc;
  chomp literal ([comma] ++ field "Timestamp");
  ts <~ parse_int comma;
  chomp literal (field "IsTombstone");
  t <~ parse_bool;
  chomp literal [rbrace];
  pret (mkMTE k v vc ts t).

Lemma reads_entry e :
  valid_utf8 (mt_Key e) = true → valid_clock (mt_VectorClock e) → reads parse_entry (json_entry e) e.
Proof.
  intros Hk Hv. destruct e as [k v vc ts t]. unfold parse_entry, json_entry.
  cbn [mt_Key mt_Value mt_VectorClock mt_Timestamp mt_IsTombstone] in *.
  eapply reads_bind; [apply reads_literal|]. eapply reads_bind; [by apply reads_string|].
  eapply reads_bind; [apply reads_literal|]. eapply reads_bind; [apply reads_bytes|].
  eapply reads_bind; [apply reads_literal|]. eapply reads_bind; [by apply reads_vc|].
  eapply reads_bind; [apply reads_literal|].
  eapply reads_bind; [apply reads_int, not_int_char; by left|].
  eapply reads_bind; [apply reads_literal|]. eapply reads_bind; [apply reads_bool|]. apply reads_end.
Qed.

Definition json_record (e : CommitLogEntry) : list byte :=
  ([lbrace] ++ field "SequenceNumber") ++ (json_int (cl_SequenceNumber e) ++ [comma]) ++
  field "TenantID" ++ json_string (cl_TenantID e) ++
  ([comma] ++ field "Key") ++ json_string (cl_Key e) ++
  ([comma] ++ field "Value") ++ json_bytes (cl_Value e) ++
  ([comma] ++ field "VectorClock") ++ json_vc (cl_VectorClock e) ++
  ([comma] ++ field "Timestamp") ++ (json_int (cl_Timestamp e) ++ [comma]) ++
  field "OperationType" ++ json_op (cl_OperationType e) ++
  ([comma] ++ field "Checksum") ++ (json_int (cl_Checksum e) ++ [rbrace]).

Definition parse_record : parser CommitLogEntry :=
  chomp literal ([lbrace] ++ field "SequenceNumber");
  n <~ parse_int comma;
  chomp literal (field "TenantID");
  t <~ parse_string;
  chomp literal ([comma] ++ field "Key");
  k <~ parse_string;
  chomp literal ([comma] ++ field "Value");
  v <~ parse_bytes;
  chomp literal ([comma] ++ field "VectorClock");
  vc <~ parse_vc;
  chomp literal ([comma] ++ field "Timestamp");
  ts <~ parse_int comma;
  chomp literal (field "OperationType");
  o <~ parse_op;
  chomp literal ([comma] ++ field "Checksum");
  c <~ parse_int rbrace;
  pret (mkCLE n t k v vc ts o c).

Lemma reads_record e :
  valid_utf8 (cl_TenantID e) = true → valid_utf8 (cl_Key e) = true → valid_clock (cl_VectorClock e) →
  reads parse_record (json_record e) e.
Proof.
  intros Ht Hk Hv. destruct e as [n t k v vc ts o c]. unfold parse_record, json_record.
  cbn [cl_SequenceNumber cl_TenantID cl_Key cl_Value cl_VectorClock cl_Timestamp cl_OperationType cl_Checksum] in *.
  eapply reads_bind; [apply reads_literal|]. eapply reads_bind; [apply reads_int, not_int_char; by left|].
  eapply reads_bind; [apply reads_literal|]. eapply reads_bind; [by apply reads_string|].
  eapply reads_bind; [apply reads_literal|]. eapply reads_bind; [by apply reads_string|].
  eapply reads_bind; [apply reads_literal|]. eapply reads_bind; [apply reads_bytes|].
  eapply reads_bind; [apply reads_literal|]. eapply reads_bind; [by apply reads_vc|].
  eapply reads_bind; [apply reads_literal|]. eapply reads_bind; [apply reads_int, not_int_char; by left|].
  eapply reads_bind; [apply reads_literal|]. eapply reads_bind; [apply reads_op|].
  eapply reads_bind; [apply reads_literal|].
  apply (reads_last _ (λ c, mkCLE n t k v vc ts o c)), reads_int, not_int_char. by right.
Qed.

(** ** An encoding is one printable line *)

Lemma printable_bytes s : forallb (λ b, 0x20 <=? byte_val b) s = true → Forall printable s.
Proof.
  intros H. rewrite forallb_forall in H. apply Forall_forall. intros b Hb. unfold printable.
  specialize (H b). rewrite Z.leb_le in H. apply H. by apply list_elem_of_In.
Qed.

Lemma json_string_printable s : Forall printable (json_string s).
Proof.
  unfold json_string. repeat (apply Forall_app; split); try (by apply printable_bytes). apply esc_printable.
Qed.

Lemma json_int_printable z : Forall printable (json_int z).
Proof.
  eapply Forall_impl; [apply json_int_chars|]. intros b [-> | H]; [by vm_compute|].
  unfold is_digit in H. unfold printable. lia.
Qed.

Lemma json_bytes_printable l : Forall printable (json_bytes l).
Proof.
  unfold json_bytes. destruct l as [|a t]; [by apply printable_bytes|].
  repeat (apply Forall_app; split); try (by apply printable_bytes).
  eapply Forall_impl; [apply b64_chars|]. naive_solver.
Qed.

Lemma json_list_printable {A} (pr : A → list byte) l :
  (∀ x, Forall printable (pr x)) → Forall printable (json_list pr l).
Proof.
  intros Hp. destruct l as [|x l]; [by apply printable_bytes|]. apply Forall_app. split; [by apply printable_bytes|].
  revert x. induction l as [|y l IH]; intros x.
  - apply Forall_app. split; [done|by apply printable_bytes].
  - apply Forall_app. split; [done|]. apply Forall_app. split; [by apply printable_bytes|apply IH].
Qed.

Create HintDb printable.
#[export] Hint Resolve json_string_printable json_int_printable json_bytes_printable : printable.

(** Splits an encoding into its pieces and discharges the literal ones by computation. *)
Ltac pieces :=
  repeat match goal with
         | |- Forall printable (_ ++ _) => apply Forall_app; split
         | |- Forall printable _ => solve [auto with printable | by apply printable_bytes]
         end.

Lemma json_vc_printable v : Forall printable (json_vc v).
Proof. unfold json_vc. pieces. apply json_list_printable. intros e. unfold json_vce. pieces. Qed.
#[export] Hint Resolve json_vc_printable : printable.

Lemma json_bool_printable b : Forall printable (json_bool b).
Proof. destruct b; by apply printable_bytes. Qed.
Lemma json_op_printable o : Forall printable (json_op o).
Proof. destruct o; by apply printable_bytes. Qed.
#[export] Hint Resolve json_bool_printable json_op_printable : printable.

Lemma json_entry_printable e : Forall printable (json_entry e).
Proof. unfold json_entry. pieces. Qed.

Lemma json_record_printable e : Forall printable (json_record e).
Proof. unfold json_record. pieces. Qed.

Lemma printable_not b l : byte_val b < 0x20 → Forall printable l → b ∉ l.
Proof. rewrite Forall_forall. intros Hb H Hin. apply H in Hin. unfold printable in Hin. lia. Qed.

(** A whole line is decoded: nothing may follow the value. *)
Definition decode {A} (p : parser A) (s : list byte) : option A :=
  match p s with Some (a, []) => Some a | _ => None end.

Lemma decode_reads {A} (p : parser A) l a : reads p l a → decode p l = Some a.
Proof. intros H. unfold decode. specialize (H []). rewrite app_nil_r in H. by rewrite H. Qed.

#[global] Program Instance MemTableEntry_Codec : Codec MemTableEntry := {
  encodable e := valid_utf8 (mt_Key e) = true ∧ valid_clock (mt_VectorClock e);
  marshal := json_entry;
  unmarshal := decode parse_entry;
}.
Next Obligation. intros e [Hk Hv]. by apply decode_reads, reads_entry. Qed.
Next Obligation. intros e. by apply printable_not, json_entry_printable. Qed.
Next Obligation. intros e. by apply printable_not, json_entry_printable. Qed.
Next Obligation. done. Qed.

#[global] Program Instance CommitLogEntry_Codec : Codec CommitLogEntry := {
  encodable e := valid_utf8 (cl_TenantID e) = true ∧ valid_utf8 (cl_Key e) = true ∧ valid_clock (cl_VectorClock e);
  marshal := json_record;
  unmarshal := decode parse_record;
}.
Next Obligation. intros e (Ht & Hk & Hv). by apply decode_reads, reads_record. Qed.
Next Obligation. intros e. by apply printable_not, json_record_printable. Qed.
Next Obligation. intros e. by apply printable_not, json_record_printable. Qed.
Next Obligation. done. Qed.
