(* ===== verification/JsonCut.v ===== *)
(** * Broken lines: what the decoder makes of a record that was not written whole

    A write of the commit log can stop in the middle of a record, and whatever
    is appended next stands right behind what was written.  Here is the proof that
    the decoder of [Json] takes nothing from such a line: a beginning of a
    record, followed by beginnings of other records, is not a record, unless it
    is one whole record and nothing else.  This is the law [CutCodec] of
    [Codec]. *)

From S2P Require Import Prelude Model Utf8 Codec Json.
#[local] Open Scope Z_scope.
#[local] Open Scope parser_scope.

(** ** What may follow the cut *)

(** Beginnings of records one behind the other; a record begins with a brace,
    a quote and the [S] of its first field. *)
Inductive resumed : list byte → Prop :=
  | resumed_nil : resumed []
  | resumed_brace c : resumed c → resumed (lbrace :: c)
  | resumed_quote c : resumed c → resumed (lbrace :: quote :: c)
  | resumed_name c : resumed (lbrace :: quote :: x53 :: c).

(** What is left when a string that was cut is closed by the quote of the next record. *)
Definition closed (r : list byte) : Prop := match r with [] => True | b :: _ => b = lbrace ∨ b = x53 end.

Lemma resumed_closed c : resumed c → closed c.
Proof. destruct 1; simpl; auto. Qed.

Lemma resumed_app p c : (∃ e, p `prefix_of` json_record e) → resumed c → resumed (p ++ c).
Proof.
  intros [e [q Hq]] Hc. change (json_record e) with (lbrace :: quote :: x53 :: drop 3 (json_record e)) in Hq.
  destruct p as [|b1 [|b2 [|b3 p]]]; [done|..]; cbn [app] in Hq |- *;
    [injection Hq as <- _|injection Hq as <- <- _|injection Hq as <- <- <- _]; by constructor.
Qed.

Lemma resumed_join ps : Forall (λ p, ∃ e, p `prefix_of` json_record e) ps → resumed (mjoin ps).
Proof. induction 1 as [|p ps Hp _ IH]; [constructor|]. by apply resumed_app. Qed.

(** ** Parsers on cut input *)

(** [p] takes nothing from a proper beginning of [l] and what follows it. *)
Definition rejects {A} (p : parser A) (l : list byte) : Prop :=
  ∀ l1 l2 c, l = l1 ++ l2 → l2 ≠ [] → resumed c → p (l1 ++ c) = None.

(** Or it stops behind the quote of the next record. *)
Definition runs_over {A} (p : parser A) (l : list byte) : Prop :=
  ∀ l1 l2 c, l = l1 ++ l2 → l2 ≠ [] → resumed c →
    match p (l1 ++ c) with None => True | Some (_, r) => closed r end.

(** [p] takes all of [l] or fails, whatever follows. *)
Definition passes {A} (p : parser A) (l : list byte) : Prop :=
  ∀ s, p (l ++ s) = None ∨ ∃ a, p (l ++ s) = Some (a, s).

Definition stops {A} (p : parser A) : Prop := ∀ r, closed r → p r = None.

Lemma reads_passes {A} (p : parser A) l a : reads p l a → passes p l.
Proof. intros H s. right. exists a. apply H. Qed.

Lemma passes_bind {A B} (p : parser A) (f : A → parser B) l l' :
  passes p l → (∀ a, passes (f a) l') → passes (pbind p f) (l ++ l').
Proof.
  intros Hp Hf s. unfold passes in Hf. rewrite <-app_assoc. unfold pbind.
  destruct (Hp (l' ++ s)) as [Ha|[a Ha]]; rewrite Ha; [by left|apply Hf].
Qed.

Lemma passes_last {A B} (p : parser A) (f : A → B) l : passes p l → passes (x <~ p; pret (f x)) l.
Proof. intros Hp s. unfold pbind. destruct (Hp s) as [Ha|[a Ha]]; rewrite Ha; [by left|right; by eexists]. Qed.

Lemma rejects_last {A B} (p : parser A) (f : A → B) l : rejects p l → rejects (x <~ p; pret (f x)) l.
Proof. intros Hp l1 l2 c Hl Hne Hc. unfold pbind. by rewrite (Hp l1 l2 c). Qed.

Lemma runs_over_bind {A B} (p : parser A) (f : A → parser B) l l' :
  runs_over p l → passes p l → (∀ a, stops (f a)) → (∀ a, rejects (f a) l') → rejects (pbind p f) (l ++ l').
Proof.
  intros Hp Hs Hst Hf l1 l2 c Hl Hne Hc. unfold pbind. apply app_eq_inv in Hl as [(k & -> & ->)|(k & -> & ->)]; swap 1 2.
  - rewrite <-(assoc (++)). destruct (Hs (k ++ c)) as [->|[a ->]]; [done|]. by apply (Hf a k l2).
  - destruct k as [|b k].
    + rewrite app_nil_r in *. destruct (Hs c) as [->|[a ->]]; [done|]. by apply Hst, resumed_closed.
    + specialize (Hp l1 (b :: k) c eq_refl ltac:(done) Hc). destruct (p (l1 ++ c)) as [[a r]|]; [|done]. by apply Hst.
Qed.

Lemma rejects_bind {A B} (p : parser A) (f : A → parser B) l l' :
  rejects p l → passes p l → (∀ a, rejects (f a) l') → rejects (pbind p f) (l ++ l').
Proof.
  intros Hp Hs Hf l1 l2 c Hl Hne Hc. unfold pbind. apply app_eq_inv in Hl as [(k & -> & ->)|(k & -> & ->)]; swap 1 2.
  - rewrite <-(assoc (++)). destruct (Hs (k ++ c)) as [->|[a ->]]; [done|]. by apply (Hf a k l2).
  - destruct k as [|b k].
    + rewrite app_nil_r in *. destruct (Hs c) as [->|[a ->]]; [done|]. by apply (Hf a [] l').
    + by rewrite (Hp l1 (b :: k) c eq_refl ltac:(done) Hc).
Qed.

(** *** Literals *)

Lemma literal_cut lit l c : lbrace ∉ lit → ¬ lit `prefix_of` l → resumed c → literal lit (l ++ c) = None.
Proof.
  intros Hni Hnp Hc. revert l Hnp. induction lit as [|b lit IH]; intros l Hnp; [by destruct Hnp; apply prefix_nil|].
  apply not_elem_of_cons in Hni as [Hb Hni]. destruct l as [|b' l]; simpl.
  - destruct Hc; simpl; [done|by rewrite decide_False by congruence..].
  - case_decide; [|done]. subst b'. apply IH; [done|]. intros Hp. by apply Hnp, prefix_cons.
Qed.

Lemma not_prefix_app (l1 l2 : list byte) : l2 ≠ [] → ¬ (l1 ++ l2) `prefix_of` l1.
Proof.
  intros Hne Hp. apply prefix_length in Hp. rewrite length_app in Hp. destruct l2; [done|]. simpl in Hp. lia.
Qed.

Lemma rejects_literal lit : lbrace ∉ lit → rejects (literal lit) lit.
Proof. intros Hni l1 l2 c Hl Hne Hc. apply literal_cut; [done| |done]. subst lit. by apply not_prefix_app. Qed.

Lemma stops_literal {A} b lit (f : unit → parser A) :
  b ≠ lbrace → b ≠ x53 → stops (pbind (literal (b :: lit)) f).
Proof. intros H1 H2 [|b' r]; [done|]. unfold pbind. simpl. intros [-> | ->]; by rewrite decide_False by done. Qed.

(** The opening of an object other than a record. *)
Lemma rejects_opening x lit :
  x ≠ lbrace → x ≠ x53 → lbrace ∉ lit → rejects (literal (lbrace :: quote :: x :: lit)) (lbrace :: quote :: x :: lit).
Proof.
  intros H1 H2 Hni l1 l2 c Hl Hne Hc. destruct l1 as [|b l1]; simpl.
  - destruct Hc as [|c Hc|c Hc|c]; [done|..]; simpl; try done.
    + destruct Hc; simpl; done.
    + destruct Hc; simpl; [done|by rewrite decide_False by done..].
    + by rewrite decide_False by done.
  - injection Hl as <- Hl. simpl. apply (rejects_literal (quote :: x :: lit)) with l2; [|done..].
    rewrite !not_elem_of_cons. done.
Qed.

Lemma literal_app l l' s : literal (l ++ l') s = (chomp literal l; literal l') s.
Proof. revert s. induction l as [|b l IH]; intros s; simpl; [done|]. destruct s as [|c s]; [done|]. unfold pbind in *. simpl. by case_decide. Qed.

Lemma chomp_app {A} l l' (q : parser A) s : (chomp literal l; chomp literal l'; q) s = (chomp literal (l ++ l'); q) s.
Proof.
  unfold pbind at 1 3. rewrite literal_app. unfold pbind. destruct (literal l s) as [[? s']|]; [|done].
  by destruct (literal l' s') as [[]|].
Qed.

(** *** Strings *)

Definition over (o : option (list byte * list byte)) : Prop := match o with None => True | Some (_, r) => closed r end.

Lemma over_prepend l o : over o → over (prepend l o).
Proof. by destruct o as [[]|]. Qed.

Lemma unesc_resumed c : resumed c → over (unesc c).
Proof.
  induction 1 as [|c _ IH|c Hc _|c]; simpl; [done|by apply over_prepend|by apply resumed_closed|by right].
Qed.

(** The next brace is no escape and no hexadecimal digit. *)
Lemma unesc_u_cut r l1 l2 c : u_escape r = l1 ++ l2 → l2 ≠ [] → l1 ≠ [] → resumed c → unesc (l1 ++ c) = None.
Proof.
  intros Hl Hne Hl1 Hc. unfold u_escape in Hl.
  destruct l1 as [|b1 [|b2 [|b3 [|b4 [|b5 [|b6 l1]]]]]]; [done|..]; cbn [app] in Hl; simplify_eq; [..|by destruct l1, l2].
  all: destruct Hc; simpl; try done.
  all: repeat (first [done | match goal with |- context [hex_val ?h] => destruct (hex_val h) end
                     | match goal with |- context [match ?x with [] => _ | _ :: _ => _ end] => destruct x end]; simpl).
Qed.

Lemma esc_ascii_cut b l1 l2 c :
  byte_val b < 0x80 → esc_ascii b = l1 ++ l2 → l2 ≠ [] → resumed c → over (unesc (l1 ++ c)).
Proof.
  intros Hb Hl Hne Hc. destruct l1 as [|b1 l1]; [by apply unesc_resumed|].
  unfold esc_ascii in Hl. cbv zeta in Hl. repeat case_match.
  all: try (erewrite (unesc_u_cut _ (b1 :: l1) l2 c); [exact I|exact Hl|done..]).
  all: destruct l1 as [|b2 l1]; cbn [app] in Hl; simplify_eq; try (by destruct l1).
  all: by destruct Hc.
Qed.

Lemma chunk_cut r b rest l1 l2 c :
  let chunk := take (decode_rune b rest).2 (b :: rest) in
  esc_chunk r chunk = l1 ++ l2 → l2 ≠ [] → resumed c → over (unesc (l1 ++ c)).
Proof.
  intros chunk Hl Hne Hc. pose proof (decode_width b rest) as Hw. pose proof (chunk_high b rest) as Hhigh.
  assert (∀ r, u_escape r = l1 ++ l2 → over (unesc (l1 ++ c))) as Hu.
  { intros r' Hu. destruct l1 as [|b1 l1]; [by apply unesc_resumed|]. by rewrite (unesc_u_cut r' (b1 :: l1) l2 c). }
  unfold chunk in *. clear chunk. destruct (decode_rune b rest) as [r' w]. cbn [fst snd] in *.
  destruct (decide (w = 1%nat)) as [->|Hw1].
  - change (take 1 (b :: rest)) with [b] in Hl. cbn [esc_chunk] in Hl.
    destruct (Z.ltb_spec (byte_val b) 0x80); [by eapply esc_ascii_cut|by eapply Hu].
  - specialize (Hhigh ltac:(lia)). destruct w as [|[|w]]; [lia|lia|].
    destruct rest as [|b1 rest]; [simpl in Hw; lia|]. cbn [firstn esc_chunk] in *.
    destruct (_ || _); [by eapply Hu|]. rewrite Hl in Hhigh. apply Forall_app in Hhigh as [Hhigh _].
    rewrite unesc_high by done. by apply over_prepend, unesc_resumed.
Qed.

Lemma unesc_chunk b rest t :
  let r := (decode_rune b rest).1 in let chunk := take (decode_rune b rest).2 (b :: rest) in
  unesc (esc_chunk r chunk ++ t) = None ∨ ∃ l, unesc (esc_chunk r chunk ++ t) = prepend l (unesc t).
Proof.
  intros r chunk. pose proof (decode_width b rest) as Hw. pose proof (chunk_high b rest) as Hhigh.
  unfold chunk, r. clear chunk r. destruct (decode_rune b rest) as [r w]. cbn [fst snd] in *.
  destruct (decide (w = 1%nat)) as [->|Hw1].
  - change (take 1 (b :: rest)) with [b]. cbn [esc_chunk].
    destruct (Z.ltb_spec (byte_val b) 0x80); [|by left]. right. exists [b]. by apply unesc_ascii.
  - right. specialize (Hhigh ltac:(lia)). destruct w as [|[|w]]; [lia|lia|].
    destruct rest as [|b1 rest]; [simpl in Hw; lia|]. cbn [firstn esc_chunk] in *.
    destruct ((r =? 0x2028) || (r =? 0x2029)) eqn:Hr; [|by eexists; apply unesc_high].
    assert (r = 0x2028 ∨ r = 0x2029) as Hr' by lia.
    assert (∃ l, rune_bytes r = Some l) as [l Hl] by (destruct Hr' as [-> | ->]; by eexists).
    exists l. apply unesc_u_escape; [done|lia].
Qed.

Lemma unesc_cut fuel s : runs_over unesc (esc_fuel fuel s ++ [quote]) ∧ passes unesc (esc_fuel fuel s ++ [quote]).
Proof.
  assert (runs_over unesc [quote] ∧ passes unesc [quote]) as Hnil.
  { split; [|intros t; by right; exists []].
    intros [|b l1] l2 c Hl Hne Hc; [by apply unesc_resumed|]. by destruct l1, l2; simplify_eq/=. }
  revert s. induction fuel as [|fuel IH]; intros s; [done|]. destruct s as [|b rest]; [done|]. cbn [esc_fuel].
  pose proof (chunk_cut (decode_rune b rest).1 b rest) as Hcut. pose proof (unesc_chunk b rest) as Hch.
  destruct (decode_rune b rest) as [r w] eqn:Hd. cbn [fst snd] in *. rewrite <-app_assoc.
  destruct (IH (drop w (b :: rest))) as [IHc IHp]. revert IHc IHp.
  generalize (esc_fuel fuel (drop w (b :: rest)) ++ [quote]). intros l IHc IHp. split.
  - intros l1 l2 c Hl Hne Hc. apply app_eq_inv in Hl as [(k & Hl & ->)|(k & -> & ->)].
    + destruct k as [|b' k]; [|by apply (Hcut l1 (b' :: k) c)].
      rewrite app_nil_r in Hl. subst l1. destruct (Hch c) as [->|[l' ->]]; [done|].
      by apply over_prepend, unesc_resumed.
    + rewrite <-app_assoc. destruct (Hch (k ++ c)) as [->|[l' ->]]; [done|].
      apply over_prepend. by apply (IHc k l2 c).
  - intros t. rewrite <-app_assoc. destruct (Hch (l ++ t)) as [Hu|[l' Hu]]; rewrite Hu; [by left|].
    destruct (IHp t) as [Hv|[a Hv]]; rewrite Hv; [by left|right; by eexists].
Qed.

Lemma string_cut s : runs_over parse_string (json_string s) ∧ passes parse_string (json_string s).
Proof.
  unfold json_string, parse_string. destruct (unesc_cut (length (bytes s)) (bytes s)) as [Hc Hp]. split.
  - intros [|b l1] l2 c Hl Hne Hr.
    + simpl. unfold pbind. destruct Hr; done.
    + cbn [app] in Hl. injection Hl as <- Hl. unfold pbind. simpl.
      specialize (Hc l1 l2 c Hl Hne Hr). by destruct (unesc (l1 ++ c)) as [[]|].
  - apply passes_bind; [by eapply reads_passes, reads_literal|]. intros _. by apply passes_last.
Qed.

(** *** Numbers and byte slices *)

Lemma dec_digits_none l o : lbrace ∈ l → foldl dec_digit o l = None.
Proof.
  revert o. induction l as [|b l IH]; intros o Hin; [by apply elem_of_nil in Hin|]. simpl.
  apply elem_of_cons in Hin as [<-|Hin].
  - assert (dec_digit o lbrace = None) as -> by by destruct o. clear. by induction l.
  - by apply IH.
Qed.

Lemma dec_Z_none l : lbrace ∈ l → dec_Z l = None.
Proof.
  intros Hin. destruct l as [|b l]; [by apply elem_of_nil in Hin|]. cbn [dec_Z]. case_decide as Hb.
  - subst b. apply elem_of_cons in Hin as [|Hin]; [done|]. unfold dec_digits. by rewrite dec_digits_none.
  - by apply dec_digits_none.
Qed.

Lemma int_cut d z : ¬ int_char d → d ≠ lbrace → rejects (parse_int d) (json_int z ++ [d]).
Proof.
  intros Hd Hb l1 l2 c Hl Hne Hc.
  assert (d ∉ l1) as Hni.
  { apply app_eq_inv in Hl as [(k & Hz & _)|(k & -> & Hk)].
    - pose proof (json_int_chars z) as Hch. rewrite Hz in Hch. apply Forall_app in Hch as [Hch _].
      intros Hin. rewrite Forall_forall in Hch. by apply Hd, Hch.
    - destruct k as [|b k]; [|by destruct k, l2; simplify_eq/=]. rewrite app_nil_r. intros Hin.
      pose proof (json_int_chars z) as Hch. rewrite Forall_forall in Hch. by apply Hd, Hch. }
  unfold parse_int. destruct c as [|b c].
  - rewrite app_nil_r. assert (drop_while (λ b, bool_decide (b ≠ d)) l1 = []) as ->; [|done].
    clear -Hni. induction l1 as [|b l IH]; [done|]. apply not_elem_of_cons in Hni as [? ?]. simpl.
    rewrite bool_decide_eq_true_2 by done. auto.
  - assert (b = lbrace) as -> by by inversion Hc.
    destruct (drop_while _ _) as [|? ?]; [done|]. rewrite dec_Z_none; [done|].
    clear -Hni Hb. induction l1 as [|b l IH]; simpl.
    + rewrite bool_decide_eq_true_2 by done. by left.
    + apply not_elem_of_cons in Hni as [? ?]. rewrite bool_decide_eq_true_2 by done. right. auto.
Qed.

Lemma drop_quote_resumed l c : quote ∉ l → resumed c →
  match drop_while (λ b, bool_decide (b ≠ quote)) (l ++ c) with [] => True | _ :: r => closed r end.
Proof.
  intros Hni Hc. induction l as [|b l IH]; simpl.
  - induction Hc as [|c Hc IH|c Hc _|c]; simpl; [done|done|by apply resumed_closed|by right].
  - apply not_elem_of_cons in Hni as [? ?]. rewrite bool_decide_eq_true_2 by done. by apply IH.
Qed.

Lemma bytes_cut l : runs_over parse_bytes (json_bytes l).
Proof.
  intros l1 l2 c Hl Hne Hc. unfold parse_bytes. destruct l as [|a t].
  - rewrite (literal_cut null l1 c); [|apply (bool_decide_unpack _); by vm_compute| |done].
    2:{ simpl in Hl. rewrite Hl. by apply not_prefix_app. }
    unfold pbind. rewrite (literal_cut [quote] l1 c); [done|apply (bool_decide_unpack _); by vm_compute| |done].
    intros [k Hk]. simpl in Hl. subst l1. discriminate Hl.
  - destruct l1 as [|b l1]; [destruct Hc; done|].
    unfold json_bytes in Hl. pose proof (b64_chars (a :: t)) as Hch. revert Hl Hch. generalize (b64 (a :: t)). intros B Hl Hch.
    cbn [app] in Hl. injection Hl as <- Hl.
    change (literal null ((quote :: l1) ++ c)) with (None : option (unit * list byte)).
    unfold pbind. change (literal [quote] ((quote :: l1) ++ c)) with (Some (tt, l1 ++ c)). cbv beta iota.
    assert (quote ∉ l1) as Hni.
    { rewrite Forall_forall in Hch.
      apply app_eq_inv in Hl as [(k & Hz & _)|(k & -> & Hk)].
      - intros Hin. destruct (Hch quote) as [? _]; [|done]. rewrite Hz. apply elem_of_app. by left.
      - destruct k as [|b k]; [|by destruct k, l2; simplify_eq/=]. rewrite app_nil_r. intros Hin.
        by destruct (Hch _ Hin). }
    pose proof (drop_quote_resumed l1 c Hni Hc) as Hd. destruct (drop_while _ _) as [|b r]; [done|].
    by destruct (b64_dec _).
Qed.

(** *** Lists and objects *)

Section elems.
Context {A : Type} (p : parser A) (pr : A → list byte).
Hypothesis Hpass : ∀ x, passes p (pr x).
Hypothesis Hcut : ∀ x, rejects p (pr x).

Lemma elems_passes fuel x l : passes (parse_elems fuel p) (json_elems pr (x :: l)).
Proof.
  revert fuel x. induction l as [|y l IH]; intros [|fuel] x s; try by left.
  - cbn [json_elems parse_elems]. rewrite <-app_assoc.
    destruct (Hpass x ([rbracket] ++ s)) as [Hp|[a Hp]]; rewrite Hp; [by left|right; by eexists].
  - change (json_elems pr (x :: y :: l)) with (pr x ++ [comma] ++ json_elems pr (y :: l)).
    cbn [parse_elems]. rewrite <-!app_assoc.
    destruct (Hpass x ([comma] ++ json_elems pr (y :: l) ++ s)) as [Hp|[a Hp]]; rewrite Hp; [by left|].
    cbn [app]. rewrite decide_False, decide_True by done.
    destruct (IH fuel y s) as [Hq|[a' Hq]]; rewrite Hq; [by left|right; by eexists].
Qed.

Lemma elems_cut fuel x l : rejects (parse_elems fuel p) (json_elems pr (x :: l)).
Proof.
  revert fuel x. induction l as [|y l IH]; intros [|fuel] x l1 l2 c Hl Hne Hc; try done; cbn [parse_elems].
  - cbn [json_elems] in Hl. apply app_eq_inv in Hl as [(k & Hx & ->)|(k & -> & Hk)].
    + destruct k as [|b k]; [|by rewrite (Hcut x l1 (b :: k) c Hx)].
      rewrite app_nil_r in Hx. subst l1. destruct (Hpass x c) as [->|[a ->]]; [done|]. by destruct Hc.
    + destruct k as [|b k]; [|by destruct k, l2; simplify_eq/=]. rewrite app_nil_r.
      destruct (Hpass x c) as [->|[a ->]]; [done|]. by destruct Hc.
  - change (json_elems pr (x :: y :: l)) with (pr x ++ [comma] ++ json_elems pr (y :: l)) in Hl.
    apply app_eq_inv in Hl as [(k & Hx & ->)|(k & -> & Hk)].
    + destruct k as [|b k]; [|by rewrite (Hcut x l1 (b :: k) c Hx)].
      rewrite app_nil_r in Hx. subst l1. destruct (Hpass x c) as [->|[a ->]]; [done|]. by destruct Hc.
    + rewrite <-app_assoc. destruct (Hpass x (k ++ c)) as [->|[a ->]]; [done|].
      destruct k as [|b k]; [by destruct Hc|]. cbn [app] in Hk. injection Hk as <- Hk. cbn [app].
      rewrite decide_False, decide_True by done. by rewrite (IH fuel y k l2 c Hk Hne Hc).
Qed.

Lemma list_cut l : rejects (parse_list p) (json_list pr l) ∧ passes (parse_list p) (json_list pr l).
Proof.
  destruct l as [|x l]; cbn [json_list].
  - split; [|by eapply reads_passes; intros s; reflexivity].
    intros l1 l2 c Hl Hne Hc. unfold parse_list.
    rewrite (literal_cut null l1 c); [|apply (bool_decide_unpack _); by vm_compute| |done].
    2:{ rewrite Hl. by apply not_prefix_app. }
    rewrite (literal_cut [lbracket] l1 c); [done|apply (bool_decide_unpack _); by vm_compute| |done].
    intros [k ->]. discriminate Hl.
  - split.
    + intros [|b l1] l2 c Hl Hne Hc; [by destruct Hc|]. cbn [app] in Hl. injection Hl as <- Hl.
      unfold parse_list. simpl. by apply (elems_cut _ x l l1 l2 c).
    + intros s. unfold parse_list. simpl. apply elems_passes.
Qed.
End elems.

(** Splits a cut object into its pieces. *)
Ltac decided := apply (bool_decide_unpack _); by vm_compute.
Ltac cut_piece :=
  first [ apply rejects_bind; [apply rejects_literal; decided|by eapply reads_passes, reads_literal|intros _]
        | apply rejects_bind; [apply int_cut; [apply not_int_char; by auto|done]
                              |eapply reads_passes, reads_int, not_int_char; by auto|intros ?]
        | apply runs_over_bind; [apply string_cut|apply string_cut|intros ?; by apply stops_literal|intros ?]
        | apply runs_over_bind; [apply bytes_cut|eapply reads_passes, reads_bytes|intros ?; by apply stops_literal|intros ?] ].
Ltac pass_piece :=
  first [ apply passes_bind; [by eapply reads_passes, reads_literal|intros _]
        | apply passes_bind; [apply string_cut|intros ?] ].

Lemma vce_cut e : rejects parse_vce (json_vce e) ∧ passes parse_vce (json_vce e).
Proof.
  split.
  - assert (∀ s, parse_vce s = (chomp literal ([lbrace] ++ field "CoordinatorNodeID");
                                id <~ parse_string;
                                chomp literal ([comma] ++ field "LogicalTimestamp");
                                ts <~ parse_int rbrace; pret (mkVCE id ts)) s) as Heq.
    { intros s. apply chomp_app. }
    intros l1 l2 c Hl Hne Hc. rewrite Heq. revert l1 l2 c Hl Hne Hc. unfold json_vce. rewrite (app_assoc [lbrace]).
    apply rejects_bind; [apply rejects_opening; [done|done|decided]|by eapply reads_passes, reads_literal|intros _].
    do 2 cut_piece. apply rejects_last, int_cut; [apply not_int_char; by right|done].
  - unfold parse_vce, json_vce. do 4 pass_piece.
    apply passes_last. eapply reads_passes, reads_int, not_int_char. by right.
Qed.

Lemma vc_cut v : rejects parse_vc (json_vc v) ∧ passes parse_vc (json_vc v).
Proof.
  destruct (list_cut parse_vce json_vce (λ e, proj2 (vce_cut e)) (λ e, proj1 (vce_cut e)) (Entries v)) as [Hc Hp].
  unfold parse_vc, json_vc. split.
  - apply rejects_bind; [apply rejects_opening; [done|done|decided]|by eapply reads_passes, reads_literal|intros _].
    apply rejects_bind; [done|done|intros l]. apply (rejects_last _ (λ _, mkVC l)), rejects_literal. decided.
  - pass_piece. apply passes_bind; [done|intros l]. apply (passes_last _ (λ _, mkVC l)). by eapply reads_passes, reads_literal.
Qed.

Lemma op_cut o : rejects parse_op (json_op o).
Proof.
  intros l1 l2 c Hl Hne Hc.
  assert (∀ o', literal (json_op o') (l1 ++ c) = None) as Hnone.
  { intros o'. apply literal_cut; [destruct o'; decided| |done].
    assert (∃ n, l1 = take n (json_op o) ∧ n < length (json_op o))%nat as (n & -> & Hn).
    { exists (length l1). rewrite Hl, take_app_length, length_app. split; [done|]. destruct l2; [done|]. simpl. lia. }
    clear -Hn.
    destruct o, o'; simpl in Hn; do 8 (destruct n as [|n]; [first [lia | decided]|]); lia. }
  unfold parse_op. by rewrite !Hnone.
Qed.

(** ** The law *)

(** The record behind its first brace. *)
Definition parse_fields : parser CommitLogEntry :=
  chomp literal (field "SequenceNumber");
  n <~ parse_int comma;
  chomp literal (field "TenantID");
  t <~ parse_string;
  chomp literal ([comma] ++ field "Key");
  k <~ parse_string;
  chomp literal ([comma] ++ field "Value");
  v <~ parse_bytes;
  chomp literal ([comma] ++ field "VectorClock");
  vc <~ parse_vc;
  chomp literal ([comma] ++ field "Timestamp");
  ts <~ parse_int comma;
  chomp literal (field "OperationType");
  o <~ parse_op;
  chomp literal ([comma] ++ field "Checksum");
  c <~ parse_int rbrace;
  pret (mkCLE n t k v vc ts o c).

Lemma fields_cut e : ∃ l, json_record e = lbrace :: l ∧ rejects parse_fields l.
Proof.
  unfold json_record. rewrite <-(app_assoc [lbrace]). eexists. split; [done|]. unfold parse_fields.
  do 8 cut_piece. cut_piece.
  apply rejects_bind; [apply vc_cut|apply vc_cut|intros vc].
  do 3 cut_piece.
  apply rejects_bind; [apply op_cut|eapply reads_passes, reads_op|intros o].
  cut_piece. apply rejects_last, int_cut; [apply not_int_char; by right|done].
Qed.

Lemma record_passes e : passes parse_record (json_record e).
Proof.
  unfold parse_record, json_record. pass_piece.
  apply passes_bind; [eapply reads_passes, reads_int, not_int_char; by left|intros n]. do 5 pass_piece.
  apply passes_bind; [eapply reads_passes, reads_bytes|intros v]. pass_piece.
  apply passes_bind; [apply vc_cut|intros vc]. pass_piece.
  apply passes_bind; [eapply reads_passes, reads_int, not_int_char; by left|intros ts]. pass_piece.
  apply passes_bind; [eapply reads_passes, reads_op|intros o]. pass_piece.
  apply passes_last. eapply reads_passes, reads_int, not_int_char. by right.
Qed.

#[global] Instance CommitLogEntry_CutCodec : CutCodec CommitLogEntry.
Proof.
  intros a l ps [l2 Hl] Hne Hps Hwhole. pose proof (resumed_join _ Hps) as Hc.
  change (decode parse_record (l ++ mjoin ps) = None). unfold decode. change (marshal a) with (json_record a) in *.
  destruct l2 as [|b2 l2].
  - rewrite app_nil_r in Hl. subst l. destruct (record_passes a (mjoin ps)) as [->|[e ->]]; [done|].
    destruct (mjoin ps); [|done]. by destruct Hwhole.
  - destruct (fields_cut a) as (k & Hk & Hcut). destruct l as [|b l]; [done|]. rewrite Hk in Hl. injection Hl as <- Hl.
    assert (parse_record ((lbrace :: l) ++ mjoin ps) = parse_fields (l ++ mjoin ps)) as -> by done.
    by rewrite (Hcut l (b2 :: l2) (mjoin ps)).
Qed.
