(* ===== verification/SSTable.v ===== *)
(** * SSTable files: [storage-node/internal/storage/sstable/writer.go] and
    [storage-node/internal/storage/sstable/reader.go]

    A writer appends to the bytes of its three files; a reader parses them
    back.  The operating system's files are byte lists and its calls succeed;
    what a reader meets in a damaged file (a short read, a bad checksum) is an
    error value.  [None] of a writer and [ReadPanic] of a reader are run-time
    panics. *)

From S2P Require Import Prelude GoHash Checksum Bloom Model Codec Json Utf8 Validator.
#[local] Open Scope Z_scope.

(** ** Definitions *)

Record IndexEntry := mkIndexEntry {
  ie_Key : string;
  ie_Offset : Z;
  ie_Size : Z;
  ie_Checksum : Z;
}.

Record SSTableWriter := mkWriter {
  dataFile : list byte;
  indexFile : list byte;
  bloomFile : list byte;
  offset : Z;
  w_index : list IndexEntry;
  bloomFilter : BloomFilter;
}.

(** The files a writer leaves behind. *)
Record SSTableFiles := mkFiles {
  f_data : list byte;
  f_index : list byte;
  f_bloom : list byte;
}.

(** [bloomSize] and [bloomHashes] are the sizing of the filter for 10000 keys. *)
Definition NewSSTableWriter (bloomSize bloomHashes : Z) : SSTableWriter :=
  mkWriter [] [] [] 0 [] (NewBloomFilter bloomSize bloomHashes).

Inductive read_error :=
  | ReadEOF | ReadUnexpectedEOF | ReadBadSeek | ReadChecksum | ReadUnmarshal | ReadPanic.

(** [binary.Read] of an [n]-byte little-endian integer: [EOF] when nothing is
    left, [ErrUnexpectedEOF] when too little is. *)
Definition read_uint (n : nat) (s : list byte) : res read_error (Z * list byte) :=
  if (length s =? 0)%nat then Err ReadEOF
  else if (length s <? n)%nat then Err ReadUnexpectedEOF
  else Ok (le_val (take n s), drop n s).

Definition read_i32 (s : list byte) : res read_error (Z * list byte) :=
  '(x, s) ← read_uint 4 s; Ok (i32 x, s).

Definition read_i64 (s : list byte) : res read_error (Z * list byte) :=
  '(x, s) ← read_uint 8 s; Ok (i64 x, s).

(** [make([]byte, n)] and [io.ReadFull]: a negative length panics. *)
Definition read_full (n : Z) (s : list byte) : res read_error (list byte * list byte) :=
  if n <? 0 then Err ReadPanic
  else if n =? 0 then Ok ([], s)
  else if (length s =? 0)%nat then Err ReadEOF
  else if (length s <? Z.to_nat n)%nat then Err ReadUnexpectedEOF
  else Ok (take (Z.to_nat n) s, drop (Z.to_nat n) s).

Record SSTableReader := mkReader {
  r_data : list byte;
  r_index : gmap string IndexEntry;
}.

(** One round of the loop of [loadIndex]. *)
Definition load_entry (s : list byte) : res read_error (IndexEntry * list byte) :=
  '(keyLen, s) ← read_i32 s;
  '(keyBytes, s) ← read_full keyLen s;
  '(off, s) ← read_i64 s;
  '(sz, s) ← read_i32 s;
  '(checksum, s) ← match read_uint 4 s with
                   | Err ReadEOF => Ok (0, s)
                   | r => r
                   end;
  Ok (mkIndexEntry (string_of keyBytes) off sz checksum, s).

(** The loop of [loadIndex]; it stops when nothing is left before a key length. *)
Fixpoint load_loop (fuel : nat) (s : list byte) (index : gmap string IndexEntry)
    : res read_error (gmap string IndexEntry) :=
  match fuel, s with
  | _, [] => Ok index
  | O, _ => Err ReadPanic
  | S fuel, _ :: _ =>
      '(e, s) ← load_entry s;
      load_loop fuel s (<[ie_Key e := e]> index)
  end.

Definition loadIndex (idx : list byte) : res read_error (gmap string IndexEntry) :=
  load_loop (length idx) idx ∅.

Definition NewSSTableReader (files : SSTableFiles) : res read_error SSTableReader :=
  index ← loadIndex (f_index files); Ok (mkReader (f_data files) index).

Definition HasKey (r : SSTableReader) (key : string) : bool := bool_decide (is_Some (r_index r !! key)).

Definition GetAllKeys `{MapRange} (r : SSTableReader) : list string := (map_range (r_index r)).*1.

Section codec.
Context `{Codec MemTableEntry}.

Definition Write (entry : MemTableEntry) (w : SSTableWriter) : option SSTableWriter :=
  let data := marshal entry in
  let checksum := ComputeChecksum data in
  let entrySize := i32 (Z.of_nat (length data)) in
  bf ← Add (bloomFilter w) (mt_Key entry);
  Some (mkWriter (dataFile w ++ le_bytes 4 entrySize ++ le_bytes 4 checksum ++ data)
          (indexFile w) (bloomFile w)
          (i64 (offset w + Z.of_nat (4 + 4 + length data)))
          (w_index w ++ [mkIndexEntry (mt_Key entry) (offset w) entrySize checksum]) bf).

Definition writeIndexEntry (e : IndexEntry) : list byte :=
  let keyLen := i32 (Z.of_nat (length (bytes (ie_Key e)))) in
  le_bytes 4 keyLen ++ bytes (ie_Key e) ++ le_bytes 8 (ie_Offset e) ++ le_bytes 4 (ie_Size e)
    ++ le_bytes 4 (ie_Checksum e).

Definition Finalize (w : SSTableWriter) : SSTableWriter :=
  mkWriter (dataFile w)
    (foldl (λ f e, f ++ writeIndexEntry e) (indexFile w) (w_index w))
    (bloomFile w ++ WriteTo (bloomFilter w))
    (offset w) (w_index w) (bloomFilter w).

Definition writer_files (w : SSTableWriter) : SSTableFiles :=
  mkFiles (dataFile w) (indexFile w) (bloomFile w).

Fixpoint write_all (es : list MemTableEntry) (w : SSTableWriter) : option SSTableWriter :=
  match es with
  | [] => Some w
  | e :: es => w ← Write e w; write_all es w
  end.

Definition to_kv (memEntry : MemTableEntry) : KeyValueEntry :=
  let '(tenantID, actualKey) := splitCompositeKey (mt_Key memEntry) in
  mkKVE tenantID actualKey (mt_Value memEntry) (mt_VectorClock memEntry)
    (mt_Timestamp memEntry) (mt_IsTombstone memEntry).

(** The result is nil when the key is not in the index. *)
Definition reader_Get (r : SSTableReader) (key : string) : res read_error (option KeyValueEntry) :=
  match r_index r !! key with
  | None => Ok None
  | Some ie =>
      if ie_Offset ie <? 0 then Err ReadBadSeek else
      let s := drop (Z.to_nat (ie_Offset ie)) (r_data r) in
      '(entrySize, s) ← read_i32 s;
      '(checksum, s) ← (if negb (ie_Checksum ie =? 0) then read_uint 4 s else Ok (0, s));
      '(data, _) ← read_full entrySize s;
      if negb (ie_Checksum ie =? 0) && negb (ValidateChecksum data checksum) then Err ReadChecksum else
      match unmarshal data with
      | None => Err ReadUnmarshal
      | Some memEntry => Ok (Some (to_kv memEntry))
      end
  end.
End codec.

(** ** Reading back little-endian fields *)

Lemma read_uint_le n x s :
  (0 < n)%nat → 0 ≤ x < 256 ^ Z.of_nat n → read_uint n (le_bytes n x ++ s) = Ok (x, s).
Proof.
  intros Hn Hx. unfold read_uint. rewrite length_app, length_le_bytes.
  rewrite (proj2 (Nat.eqb_neq _ _)), (proj2 (Nat.ltb_ge _ _)) by lia.
  rewrite (take_app_length' (le_bytes n x)), (drop_app_length' (le_bytes n x)) by (by rewrite length_le_bytes).
  by rewrite le_val_bytes, Z.mod_small.
Qed.

Lemma read_i32_le x s : 0 ≤ x < 2 ^ 31 → read_i32 (le_bytes 4 x ++ s) = Ok (x, s).
Proof. intros Hx. unfold read_i32. rewrite read_uint_le by lia. simpl. by rewrite i32_small by lia. Qed.

Lemma read_i64_le x s : 0 ≤ x < 2 ^ 63 → read_i64 (le_bytes 8 x ++ s) = Ok (x, s).
Proof. intros Hx. unfold read_i64. rewrite read_uint_le by lia. simpl. by rewrite i64_small by lia. Qed.

Lemma read_full_app d s : read_full (Z.of_nat (length d)) (d ++ s) = Ok (d, s).
Proof.
  unfold read_full. destruct (Z.ltb_spec (Z.of_nat (length d)) 0); [lia|].
  destruct (Z.eqb_spec (Z.of_nat (length d)) 0) as [H0|H0].
  { by destruct d. }
  rewrite Nat2Z.id, length_app. rewrite (proj2 (Nat.eqb_neq _ _)), (proj2 (Nat.ltb_ge _ _)) by lia.
  by rewrite take_app_length, drop_app_length.
Qed.

(** ** The index *)

Record index_wf (e : IndexEntry) : Prop := {
  ie_key_ok : Z.of_nat (length (bytes (ie_Key e))) < 2 ^ 31;
  ie_offset_ok : 0 ≤ ie_Offset e < 2 ^ 63;
  ie_size_ok : 0 ≤ ie_Size e < 2 ^ 31;
  ie_checksum_ok : 0 ≤ ie_Checksum e < 2 ^ 32;
}.

Lemma load_entry_write e s : index_wf e → load_entry (writeIndexEntry e ++ s) = Ok (e, s).
Proof.
  intros [Hk Ho Hs Hc]. unfold load_entry, writeIndexEntry.
  rewrite i32_small by lia. rewrite <-!(assoc (++)).
  rewrite read_i32_le by lia. cbn [mbind res_bind]. rewrite read_full_app. cbn [mbind res_bind].
  rewrite read_i64_le by lia. cbn [mbind res_bind]. rewrite read_i32_le by lia. cbn [mbind res_bind].
  rewrite read_uint_le by lia. cbn [mbind res_bind]. rewrite string_of_bytes. by destruct e.
Qed.

Lemma length_writeIndexEntry e : (0 < length (writeIndexEntry e))%nat.
Proof. unfold writeIndexEntry. rewrite !length_app, !length_le_bytes. lia. Qed.

Lemma load_loop_write es fuel m :
  Forall index_wf es → (length (es ≫= writeIndexEntry) ≤ fuel)%nat →
  load_loop fuel (es ≫= writeIndexEntry) m = Ok (foldl (λ m e, <[ie_Key e := e]> m) m es).
Proof.
  intros Hall. revert fuel m. induction Hall as [|e es He _ IH]; intros fuel m Hf; [by destruct fuel|].
  rewrite bind_cons in Hf |- *. pose proof (length_writeIndexEntry e) as Hl.
  rewrite length_app in Hf. destruct fuel as [|fuel]; [lia|].
  destruct (writeIndexEntry e ++ (es ≫= writeIndexEntry)) as [|b s] eqn:Heq.
  { apply (f_equal length) in Heq. rewrite length_app in Heq. simpl in Heq. lia. }
  cbn [load_loop]. rewrite <-Heq, load_entry_write by done. cbn [mbind res_bind].
  rewrite IH by lia. done.
Qed.

Lemma foldl_writeIndex (es : list IndexEntry) f :
  foldl (λ f e, f ++ writeIndexEntry e) f es = f ++ (es ≫= writeIndexEntry).
Proof.
  revert f. induction es as [|e es IH]; intros f; simpl; [by rewrite app_nil_r|].
  rewrite IH. by rewrite <-(assoc (++)).
Qed.

Lemma index_lookup (es : list IndexEntry) (m : gmap string IndexEntry) :
  NoDup (ie_Key <$> es) →
  (∀ e, e ∈ es → foldl (λ m e, <[ie_Key e := e]> m) m es !! ie_Key e = Some e) ∧
  (∀ k, k ∉ ie_Key <$> es → foldl (λ m e, <[ie_Key e := e]> m) m es !! k = m !! k).
Proof.
  revert m. induction es as [|e es IH]; intros m Hnd; simpl; [split; [by intros e ?%elem_of_nil|done]|].
  rewrite fmap_cons in *. apply NoDup_cons in Hnd as [Hni Hnd].
  destruct (IH (<[ie_Key e := e]> m) Hnd) as [IH1 IH2]. split.
  - intros e' [->|Hin]%elem_of_cons; [|auto]. rewrite IH2 by done. apply lookup_insert_eq.
  - intros k [Hne Hk]%not_elem_of_cons. rewrite IH2 by done. by apply lookup_insert_ne.
Qed.

Section roundtrip.
Context `{Codec MemTableEntry}.
Implicit Types (e : MemTableEntry) (es : list MemTableEntry) (w : SSTableWriter).

(** What [Write] appends to the data file. *)
Definition block e : list byte :=
  le_bytes 4 (Z.of_nat (length (marshal e))) ++ le_bytes 4 (ComputeChecksum (marshal e)) ++ marshal e.

(** The index of the entries [es] stored from offset [off] on. *)
Fixpoint index_from (off : Z) es : list IndexEntry :=
  match es with
  | [] => []
  | e :: es =>
      mkIndexEntry (mt_Key e) off (Z.of_nat (length (marshal e))) (ComputeChecksum (marshal e))
      :: index_from (off + Z.of_nat (length (block e))) es
  end.

(** The entries fit the width of the length fields. *)
Record fits_table es : Prop := {
  fit_data : Forall (λ e, Z.of_nat (length (marshal e)) < 2 ^ 31) es;
  fit_keys : Forall (λ e, Z.of_nat (length (bytes (mt_Key e))) < 2 ^ 31) es;
  fit_total : Z.of_nat (length (es ≫= block)) < 2 ^ 63;
}.

Lemma length_block e : length (block e) = (8 + length (marshal e))%nat.
Proof. unfold block. rewrite !length_app, !length_le_bytes. lia. Qed.

Lemma Write_block e w :
  Z.of_nat (length (marshal e)) < 2 ^ 31 → bloom_wf (bloomFilter w) →
  0 ≤ offset w → offset w + Z.of_nat (length (block e)) < 2 ^ 63 →
  ∃ bf, Add (bloomFilter w) (mt_Key e) = Some bf ∧ bloom_wf bf ∧ bits_le (bloomFilter w) bf ∧
    MayContain bf (mt_Key e) = Some true ∧
    Write e w = Some (mkWriter (dataFile w ++ block e) (indexFile w) (bloomFile w)
      (offset w + Z.of_nat (length (block e)))
      (w_index w ++ [mkIndexEntry (mt_Key e) (offset w) (Z.of_nat (length (marshal e)))
                       (ComputeChecksum (marshal e))]) bf).
Proof.
  intros Hlen Hbf Ho Ht. rewrite length_block in Ht.
  destruct (Add_spec (bloomFilter w) (mt_Key e) Hbf) as (bf & Hadd & Hwf & Hle & Hmay).
  exists bf. split_and!; [done..|]. unfold Write. rewrite Hadd. cbn [mbind option_bind].
  rewrite i32_small, i64_small by lia. rewrite length_block. done.
Qed.

Lemma write_all_spec es w :
  Forall (λ e, Z.of_nat (length (marshal e)) < 2 ^ 31) es → bloom_wf (bloomFilter w) →
  0 ≤ offset w → offset w + Z.of_nat (length (es ≫= block)) < 2 ^ 63 →
  ∃ w', write_all es w = Some w' ∧ dataFile w' = dataFile w ++ (es ≫= block) ∧
    indexFile w' = indexFile w ∧ bloomFile w' = bloomFile w ∧
    w_index w' = w_index w ++ index_from (offset w) es ∧
    bloom_wf (bloomFilter w') ∧ bits_le (bloomFilter w) (bloomFilter w') ∧
    Forall (λ e, MayContain (bloomFilter w') (mt_Key e) = Some true) es ∧
    offset w' = offset w + Z.of_nat (length (es ≫= block)).
Proof.
  intros Hlen. revert w. induction Hlen as [|e es He _ IH]; intros w Hbf Ho Ht.
  { exists w. simpl. rewrite !app_nil_r. split_and!; try done. lia. }
  rewrite bind_cons, length_app in Ht.
  destruct (Write_block e w He Hbf Ho ltac:(lia)) as (bf & _ & Hwf & Hle & Hmay & Hw).
  cbn [write_all]. rewrite Hw. cbn [mbind option_bind].
  match goal with |- context [write_all es ?w1] => destruct (IH w1) as
    (w' & Hw' & Hd & Hi & Hb & Hx & Hwf' & Hle' & Hall & Hoff) end; [done|cbn [offset]; lia|cbn [offset]; lia|].
  cbn [offset dataFile indexFile bloomFile w_index bloomFilter index_from] in *. exists w'. rewrite bind_cons. rewrite Hd, Hx, <-!(assoc (++)). rewrite length_app.
  split_and!; try done; [by etrans| |lia].
  constructor; [|done]. by eapply (MayContain_mono bf).
Qed.

Lemma index_from_keys off es : ie_Key <$> index_from off es = mt_Key <$> es.
Proof.
  revert off. induction es as [|e es IH]; intros off; [done|].
  cbn [index_from]. by rewrite !fmap_cons, IH.
Qed.

Lemma index_from_wf off es :
  fits_table es → 0 ≤ off → off + Z.of_nat (length (es ≫= block)) < 2 ^ 63 →
  Forall index_wf (index_from off es).
Proof.
  intros [Hd Hk _]. revert off. induction es as [|e es IH]; intros off Hoff Ht; cbn [index_from]; [constructor|].
  rewrite bind_cons, length_app in Ht. inversion Hd; inversion Hk; subst. constructor.
  - split; simpl; [done|rewrite length_block in Ht; lia|lia|].
    pose proof (crc32_range (marshal e)). unfold ComputeChecksum. lia.
  - apply IH; [done|done|lia|lia].
Qed.

Lemma index_from_app off es1 e es2 :
  index_from off (es1 ++ e :: es2) =
  index_from off es1 ++ mkIndexEntry (mt_Key e) (off + Z.of_nat (length (es1 ≫= block)))
    (Z.of_nat (length (marshal e))) (ComputeChecksum (marshal e))
  :: index_from (off + Z.of_nat (length (es1 ≫= block)) + Z.of_nat (length (block e))) es2.
Proof.
  revert off. induction es1 as [|e1 es1 IH]; intros off.
  - simpl. by rewrite Z.add_0_r.
  - rewrite <-app_comm_cons. cbn [index_from]. rewrite IH, bind_cons, length_app. f_equal. rewrite Nat2Z.inj_add, !Z.add_assoc. done.
Qed.

(** Writing a table from start to end. *)
Definition build_table (bloomSize bloomHashes : Z) es : option SSTableWriter :=
  w ← write_all es (NewSSTableWriter bloomSize bloomHashes); Some (Finalize w).

Lemma build_table_spec bloomSize bloomHashes es :
  0 < bloomSize < 2 ^ 63 → 0 ≤ bloomHashes < 2 ^ 64 → fits_table es →
  ∃ w, build_table bloomSize bloomHashes es = Some w ∧
    dataFile w = es ≫= block ∧ indexFile w = index_from 0 es ≫= writeIndexEntry ∧
    offset w = Z.of_nat (length (es ≫= block)) ∧
    ∃ bf, LoadBloomFilter (bloomFile w) = Some bf ∧ bloom_wf bf ∧
      Forall (λ e, MayContain bf (mt_Key e) = Some true) es.
Proof.
  intros Hs Hh [Hd Hk Ht].
  destruct (write_all_spec es (NewSSTableWriter bloomSize bloomHashes) Hd)
    as (w & Hw & Hdf & Hif & Hbf & Hx & Hwf & _ & Hall & Hoff); [by apply NewBloomFilter_wf|done|done|].
  unfold build_table. rewrite Hw. cbn [mbind option_bind]. eexists. split; [done|].
  cbn [Finalize dataFile indexFile offset bloomFile]. rewrite foldl_writeIndex, Hif, Hbf, Hx, Hdf, Hoff.
  cbn [NewSSTableWriter dataFile indexFile w_index bloomFile offset]. rewrite !app_nil_l.
  split_and!; [done..|]. exists (bloomFilter w). split; [by apply LoadBloomFilter_WriteTo|done].
Qed.

Lemma open_table es bloom :
  fits_table es → NoDup (mt_Key <$> es) →
  ∃ r, NewSSTableReader (mkFiles (es ≫= block) (index_from 0 es ≫= writeIndexEntry) bloom) = Ok r ∧
    r_data r = es ≫= block ∧
    (∀ ie, ie ∈ index_from 0 es → r_index r !! ie_Key ie = Some ie) ∧
    (∀ k, k ∉ mt_Key <$> es → r_index r !! k = None).
Proof.
  intros Hf Hnd. unfold NewSSTableReader, loadIndex. cbn [f_index f_data].
  pose proof (fit_total _ Hf) as Ht. rewrite load_loop_write; [|by apply index_from_wf|done].
  cbn [mbind res_bind]. eexists. split; [done|]. cbn [r_data r_index].
  destruct (index_lookup (index_from 0 es) ∅) as [H1 H2]; [by rewrite index_from_keys|].
  rewrite index_from_keys in H2. split_and!; [done|done|]. intros k Hk. rewrite H2 by done. apply lookup_empty.
Qed.

(** A lookup at the position of [e] in the data file. *)
Lemma reader_Get_block (r : SSTableReader) (es1 : list MemTableEntry) e es2 ie :
  Z.of_nat (length (marshal e)) < 2 ^ 31 → encodable e → ComputeChecksum (marshal e) ≠ 0 →
  r_data r = (es1 ++ e :: es2) ≫= block → r_index r !! mt_Key e = Some ie →
  ie_Offset ie = Z.of_nat (length (es1 ≫= block)) → ie_Checksum ie = ComputeChecksum (marshal e) →
  reader_Get r (mt_Key e) = Ok (Some (to_kv e)).
Proof.
  intros Hlen Henc Hcrc Hd Hie Hoff Hck. unfold reader_Get. rewrite Hie, Hoff, Hck, Hd.
  rewrite (proj2 (Z.ltb_ge _ _)), Nat2Z.id, bind_app, drop_app_length, bind_cons by lia.
  unfold block at 1. rewrite <-!(assoc (++)), read_i32_le by lia. cbn [mbind res_bind].
  rewrite (proj2 (Z.eqb_neq _ _)) by done. cbn [negb].
  pose proof (crc32_range (marshal e)) as Hr. unfold ComputeChecksum in *.
  rewrite read_uint_le by lia. cbn [mbind res_bind]. rewrite read_full_app. cbn [mbind res_bind].
  unfold ValidateChecksum, ComputeChecksum. rewrite bool_decide_eq_true_2 by done. cbn [negb andb].
  by rewrite unmarshal_marshal.
Qed.

Lemma table_roundtrip es r bloom :
  fits_table es → NoDup (mt_Key <$> es) → Forall encodable es →
  Forall (λ e, ComputeChecksum (marshal e) ≠ 0) es →
  NewSSTableReader (mkFiles (es ≫= block) (index_from 0 es ≫= writeIndexEntry) bloom) = Ok r →
  (∀ e, e ∈ es → reader_Get r (mt_Key e) = Ok (Some (to_kv e))) ∧
  (∀ k, k ∉ mt_Key <$> es → reader_Get r k = Ok None).
Proof.
  intros Hf Hnd Henc Hcrc Hr. destruct (open_table es bloom Hf Hnd) as (r' & Hr' & Hd & Hin & Hout).
  rewrite Hr in Hr'. simplify_eq. split.
  - intros e He. pose proof He as Hsplit. apply list_elem_of_split in Hsplit as (es1 & es2 & Heq).
    pose proof (fit_data _ Hf) as Hlen. rewrite Forall_forall in Hlen, Henc, Hcrc.
    eapply (reader_Get_block _ es1 e es2); [by apply Hlen|by apply Henc|by apply Hcrc|by rewrite Hd, Heq|..].
    + apply (Hin (mkIndexEntry (mt_Key e) (0 + Z.of_nat (length (es1 ≫= block)))
        (Z.of_nat (length (marshal e))) (ComputeChecksum (marshal e)))).
      rewrite Heq, index_from_app. rewrite elem_of_app. right. by left.
    + done.
    + done.
  - intros k Hk. unfold reader_Get. by rewrite Hout.
Qed.

(** ** Properties *)

(** C9: what is written to an SSTable is read back.  For entries with distinct
    keys that are encodable (strings in UTF-8), fit the length fields and have a
    checksum that is not zero, and a Bloom filter of at least one bit, the
    finished files can be opened, every entry is found under its key with its
    value, clock, timestamp and tombstone flag, its key passes the stored
    Bloom filter, and no other key is found. *)
Theorem sstable_roundtrip bloomSize bloomHashes es :
  0 < bloomSize < 2 ^ 63 → 0 ≤ bloomHashes < 2 ^ 64 → fits_table es →
  NoDup (mt_Key <$> es) → Forall encodable es →
  Forall (λ e, ComputeChecksum (marshal e) ≠ 0) es →
  ∃ w r bf, build_table bloomSize bloomHashes es = Some w ∧
    NewSSTableReader (writer_files w) = Ok r ∧ LoadBloomFilter (bloomFile w) = Some bf ∧
    (∀ e, e ∈ es → MayContain bf (mt_Key e) = Some true ∧
                   reader_Get r (mt_Key e) = Ok (Some (to_kv e))) ∧
    (∀ k, k ∉ mt_Key <$> es → reader_Get r k = Ok None).
Proof.
  intros Hs Hh Hf Hnd Henc Hcrc.
  destruct (build_table_spec _ _ es Hs Hh Hf) as (w & Hw & Hd & Hi & _ & bf & Hbf & _ & Hmay).
  destruct (open_table es (bloomFile w) Hf Hnd) as (r & Hr & _).
  exists w, r, bf. unfold writer_files. rewrite Hd, Hi. split_and!; [done..| |].
  - intros e He. rewrite Forall_forall in Hmay. split; [by apply Hmay|].
    by apply (table_roundtrip es r (bloomFile w)).
  - by apply (table_roundtrip es r (bloomFile w)).
Qed.
End roundtrip.

(** A tombstone and a value of two tenants. *)
Definition example_entries : list MemTableEntry :=
  [mkMTE "t1:a" (bytes "hello") (mkVC [mkVCE "c1" 3]) 1700000000 false;
   mkMTE "t2:b" [] (mkVC []) 1700000001 true].

Lemma sstable_roundtrip_witness :
  ∃ w r bf, build_table 64 3 example_entries = Some w ∧
    NewSSTableReader (writer_files w) = Ok r ∧ LoadBloomFilter (bloomFile w) = Some bf ∧
    reader_Get r "t1:a" = Ok (Some (mkKVE "t1" "a" (bytes "hello") (mkVC [mkVCE "c1" 3]) 1700000000 false)) ∧
    reader_Get r "t1:b" = Ok None.
Proof.
  destruct (sstable_roundtrip 64 3 example_entries) as (w & r & bf & H1 & H2 & H3 & H4 & H5).
  - split; reflexivity.
  - split; [discriminate|reflexivity].
  - split; [repeat constructor|repeat constructor|reflexivity].
  - apply (bool_decide_unpack _). vm_compute. exact I.
  - repeat constructor.
  - repeat constructor; vm_compute; discriminate.
  - exists w, r, bf. split; [done|]. split; [done|]. split; [done|]. split.
    + apply (proj2 (H4 (mkMTE "t1:a" (bytes "hello") (mkVC [mkVCE "c1" 3]) 1700000000 false) ltac:(left))).
    + apply H5. apply (bool_decide_unpack _). vm_compute. exact I.
Defined.
