(* ===== verification/SSTableService.v ===== *)
(** * The SSTable service: [storage-node/internal/service/sstable_service.go]

    The service keeps, per level, the metadata of its tables in order; the
    files themselves are on [disk], a map from paths to contents.  A table is
    written from a memtable, found again through its key range, its Bloom
    filter and its index, and scanned by hash range. *)

From S2P Require Import Prelude GoHash Checksum Bloom Model Codec Json Utf8 Validator.
From S2P Require Import SkipList MemTable SSTable.
#[local] Open Scope Z_scope.

(** ** Definitions *)

(** [bloomSize] and [bloomHashes] are the sizing of a filter for 10000 keys at
    the configured false-positive rate. *)
Record SSTableService := mkSSTableService {
  sst_dataDir : string;
  bloomSize : Z;
  bloomHashes : Z;
  levels : gmap Z (list SSTableMetadata);
  disk : gmap string (list byte);
}.

Definition NewSSTableService (dataDir : string) (bloomSize bloomHashes : Z)
    (disk : gmap string (list byte)) : SSTableService :=
  mkSSTableService dataDir bloomSize bloomHashes ∅ disk.

(** [s.levels[level]]; nil when the level has no tables yet. *)
Definition GetTablesForLevel (level : Z) (s : SSTableService) : list SSTableMetadata :=
  default [] (levels s !! level).

Definition AddTable (level : Z) (table : SSTableMetadata) (s : SSTableService) : SSTableService :=
  mkSSTableService (sst_dataDir s) (bloomSize s) (bloomHashes s)
    (<[level := GetTablesForLevel level s ++ [table]]> (levels s)) (disk s).

Definition RemoveTables (level : Z) (tableIDs : list string) (s : SSTableService) : SSTableService :=
  let removeSet : gset string := list_to_set tableIDs in
  mkSSTableService (sst_dataDir s) (bloomSize s) (bloomHashes s)
    (<[level := filter (λ t, SSTableID t ∉ removeSet) (GetTablesForLevel level s)]> (levels s)) (disk s).

Definition keyInRange (key : string) (keyRange : KeyRange) : bool :=
  bool_decide (String.le (StartKey keyRange) key) && bool_decide (String.le key (EndKey keyRange)).

(** The levels L0 to L4. *)
Definition all_levels : list Z := [0; 1; 2; 3; 4].

(** The tables in the order in which the levels are searched. *)
Definition all_tables (s : SSTableService) : list SSTableMetadata :=
  all_levels ≫= λ level, GetTablesForLevel level s.

(** [NewSSTableReader] on the files of a table; a missing file is an error. *)
Definition open_reader (disk : gmap string (list byte)) (table : SSTableMetadata)
    : res read_error SSTableReader :=
  match disk !! FilePath table, disk !! IndexPath table with
  | Some data, Some idx => NewSSTableReader (mkFiles data idx [])
  | _, _ => Err ReadEOF
  end.

(** Paths and identifiers of a table written at time [nano]. *)
Definition sstableID (nano : Z) : string := "sstable-" +:+ pretty nano.
Definition table_path (dataDir : string) (nano : Z) : string :=
  dataDir +:+ "/l0/" +:+ sstableID nano +:+ ".sst".

(** Why a flush fails: an operation on a file fails, or a run-time panic. *)
Inductive write_error := WriteIO (reason : string) | WritePanic.

Section codec.
Context `{Codec MemTableEntry}.

(** One round of the loop over the memtable: writer, key range, entry count. *)
Definition write_step (acc : SSTableWriter * KeyRange * Z) (entry : MemTableEntry)
    : option (SSTableWriter * KeyRange * Z) :=
  let '(writer, keyRange, entryCount) := acc in
  let startKey := if entryCount =? 0 then mt_Key entry else StartKey keyRange in
  writer ← Write entry writer;
  Some (writer, mkKeyRange startKey (mt_Key entry), entryCount + 1).

(** [io] is the error of the file operation that fails, if one does; the
    tables of the service are then unchanged.  What the failed operation left in
    the three files, which no table refers to, is not modelled.  [nano] and
    [now] are the clock readings. *)
Definition WriteFromMemTable (io : option string) (nano now : Z) (mt : MemTable) (s : SSTableService)
    : res write_error SSTableService :=
  let filePath := table_path (sst_dataDir s) nano in
  match io with
  | Some reason => Err (WriteIO reason)
  | None =>
      match (es ← mt_entries mt;
             foldM write_step (NewSSTableWriter (bloomSize s) (bloomHashes s),
                               mkKeyRange EmptyString EmptyString, 0) es) with
      | None => Err WritePanic
      | Some (writer, keyRange, _) =>
          let writer := Finalize writer in
          let metadata := mkSSTableMetadata (sstableID nano) EmptyString 0 (offset writer) keyRange now
                            filePath (filePath +:+ ".idx") (filePath +:+ ".bloom") in
          let disk' := <[FilePath metadata := dataFile writer]>
                       (<[IndexPath metadata := indexFile writer]>
                       (<[BloomPath metadata := bloomFile writer]> (disk s))) in
          Ok (AddTable 0 metadata
                (mkSSTableService (sst_dataDir s) (bloomSize s) (bloomHashes s) (levels s) disk'))
      end
  end.

(** One table in the loop of [Get]: the latest entry so far and its timestamp. *)
Definition get_step (compositeKey : string) (disk : gmap string (list byte))
    (acc : option KeyValueEntry * Z) (table : SSTableMetadata) : option (option KeyValueEntry * Z) :=
  if negb (keyInRange compositeKey (sst_KeyRange table)) then Some acc else
  match disk !! BloomPath table ≫= LoadBloomFilter with
  | None => Some acc
  | Some bloomFilter =>
      may ← MayContain bloomFilter compositeKey;
      if negb may then Some acc else
      match (reader ← open_reader disk table; reader_Get reader compositeKey) with
      | Err ReadPanic => None
      | Err _ => Some acc
      | Ok (Some entry) =>
          if acc.2 <? kv_Timestamp entry then Some (Some entry, kv_Timestamp entry) else Some acc
      | Ok None => Some acc
      end
  end.

Definition sst_Get (s : SSTableService) (tenantID key : string) : option (option KeyValueEntry) :=
  fst <$> foldM (get_step (buildKey tenantID key) (disk s)) (None, 0) (all_tables s).

(** The composite key of an entry read back. *)
Definition entry_key (e : KeyValueEntry) : string := buildKey (kv_TenantID e) (kv_Key e).

(** The inner loop of a scan: the first result with the key is replaced. *)
Fixpoint replace_version (entry : KeyValueEntry) (results : list KeyValueEntry)
    : option (list KeyValueEntry) :=
  match results with
  | [] => None
  | e :: results =>
      if decide (entry_key e = entry_key entry) then Some (entry :: results)
      else (e ::.) <$> replace_version entry results
  end.

(** One entry of a scan: the results and the timestamps seen. *)
Definition scan_entry (entry : KeyValueEntry) (acc : list KeyValueEntry * gmap string Z)
    : list KeyValueEntry * gmap string Z :=
  let '(results, seenKeys) := acc in
  let compositeKey := entry_key entry in
  match seenKeys !! compositeKey with
  | Some existingTS =>
      if existingTS <? kv_Timestamp entry then
        match replace_version entry results with
        | Some results => (results, <[compositeKey := kv_Timestamp entry]> seenKeys)
        | None => (results, seenKeys)
        end
      else (results, seenKeys)
  | None => (results ++ [entry], <[compositeKey := kv_Timestamp entry]> seenKeys)
  end.

Definition scan_key (startHash endHash : Z) (hashFunc : string → Z) (reader : SSTableReader)
    (acc : list KeyValueEntry * gmap string Z) (key : string) : option (list KeyValueEntry * gmap string Z) :=
  if hash_in_range startHash endHash (hashFunc key) then
    match reader_Get reader key with
    | Err ReadPanic => None
    | Err _ | Ok None => Some acc
    | Ok (Some entry) => Some (scan_entry entry acc)
    end
  else Some acc.

Definition scan_sstable `{MapRange} (startHash endHash : Z) (hashFunc : string → Z)
    (disk : gmap string (list byte)) (acc : list KeyValueEntry * gmap string Z) (table : SSTableMetadata)
    : option (list KeyValueEntry * gmap string Z) :=
  match open_reader disk table with
  | Err ReadPanic => None
  | Err _ => Some acc
  | Ok reader => foldM (scan_key startHash endHash hashFunc reader) acc (GetAllKeys reader)
  end.

Definition sst_ScanKeysInRange `{MapRange} (s : SSTableService) (startHash endHash : Z)
    (hashFunc : string → Z) : option (list KeyValueEntry) :=
  fst <$> foldM (scan_sstable startHash endHash hashFunc (disk s)) ([], ∅) (all_tables s).
End codec.

(** ** Tables on disk *)

Section tables.
Context `{Codec MemTableEntry}.
Implicit Types (e : MemTableEntry) (es : list MemTableEntry) (m : gmap string MemTableEntry)
  (s : SSTableService) (md : SSTableMetadata) (d : gmap string (list byte)).

(** What a table can hold: entries that fit the length fields, can be encoded,
    and whose checksum is not the value that stands for no checksum. *)
Record writable es : Prop := {
  wr_fits : fits_table es;
  wr_encodable : Forall encodable es;
  wr_checksum : Forall (λ e, ComputeChecksum (marshal e) ≠ 0) es;
}.

Definition key_range es : KeyRange :=
  mkKeyRange (default EmptyString (head (mt_Key <$> es))) (default EmptyString (last (mt_Key <$> es))).

Definition table_map es : gmap string MemTableEntry := list_to_map ((λ e, (mt_Key e, e)) <$> es).

(** The files named by [md] hold the entries [m]. *)
Inductive stored d md m : Prop :=
  | Stored es bl bf :
      table_map es = m → StronglySorted str_lt (mt_Key <$> es) → writable es →
      sst_KeyRange md = key_range es →
      d !! FilePath md = Some (es ≫= block) →
      d !! IndexPath md = Some (index_from 0 es ≫= writeIndexEntry) →
      d !! BloomPath md = Some bl → LoadBloomFilter bl = Some bf → bloom_wf bf →
      Forall (λ e, MayContain bf (mt_Key e) = Some true) es →
      stored d md m.

Lemma table_map_Some es k e :
  NoDup (mt_Key <$> es) → table_map es !! k = Some e ↔ e ∈ es ∧ mt_Key e = k.
Proof.
  intros Hnd. unfold table_map. rewrite <-elem_of_list_to_map.
  - rewrite list_elem_of_fmap. naive_solver.
  - rewrite <-list_fmap_compose. exact Hnd.
Qed.

Lemma table_map_None es k : table_map es !! k = None ↔ k ∉ mt_Key <$> es.
Proof.
  unfold table_map. rewrite <-not_elem_of_list_to_map, <-list_fmap_compose. done.
Qed.

Lemma sorted_in_range es e :
  StronglySorted str_lt (mt_Key <$> es) → e ∈ es → keyInRange (mt_Key e) (key_range es) = true.
Proof.
  intros Hs (i & Hi)%list_elem_of_lookup. unfold keyInRange, key_range. simpl.
  assert ((mt_Key <$> es) !! i = Some (mt_Key e)) as Hk by (by rewrite list_lookup_fmap, Hi).
  pose proof (lookup_lt_Some _ _ _ Hk) as Hlt.
  apply andb_true_iff. split; apply bool_decide_eq_true_2.
  - rewrite head_lookup. destruct ((mt_Key <$> es) !! 0%nat) as [k0|] eqn:H0; simpl.
    + destruct i as [|i]; [by simplify_eq|]. eapply (StronglySorted_lookup_lt str_lt _ 0 (S i)); [done|lia|done|done].
    + apply lookup_ge_None in H0. lia.
  - rewrite last_lookup. destruct ((mt_Key <$> es) !! Nat.pred (length (mt_Key <$> es))) as [k1|] eqn:H1; simpl.
    + destruct (decide (i = Nat.pred (length (mt_Key <$> es)))) as [->|Hne]; [by simplify_eq|].
      eapply (StronglySorted_lookup_lt str_lt _ i (Nat.pred (length (mt_Key <$> es)))); [done|lia|done|done].
    + apply lookup_ge_None in H1. lia.
Qed.

Lemma kv_Timestamp_to_kv e : kv_Timestamp (to_kv e) = mt_Timestamp e.
Proof. unfold to_kv. by destruct (splitCompositeKey _). Qed.

(** A stored table opens, and a lookup in it is a lookup in the map it holds. *)
Lemma stored_open d md m :
  stored d md m → ∃ r, open_reader d md = Ok r ∧ (∀ k, reader_Get r k = Ok (to_kv <$> m !! k)) ∧
    ∀ MR : MapRange, NoDup (GetAllKeys r) ∧ ∀ k, k ∈ GetAllKeys r ↔ is_Some (m !! k).
Proof.
  intros [es bl bf <- Hs [Hf He Hc] _ Hd Hi _ _ _ _]. unfold open_reader. rewrite Hd, Hi.
  pose proof (sorted_keys_NoDup _ Hs) as Hnd. destruct (open_table es [] Hf Hnd) as (r & Hr & _ & Hin & Hout).
  exists r. split; [done|]. destruct (table_roundtrip es r [] Hf Hnd He Hc Hr) as [Hget Hno].
  assert (∀ k, is_Some (r_index r !! k) ↔ is_Some (table_map es !! k)) as Hkeys.
  { intros k. destruct (decide (k ∈ mt_Key <$> es)) as [Hk|Hk].
    - split; intros _.
      + apply list_elem_of_fmap in Hk as (e & -> & Hk). exists e. by apply table_map_Some.
      + rewrite <-(index_from_keys 0) in Hk. apply list_elem_of_fmap in Hk as (ie & -> & Hk). eexists. by apply Hin.
    - rewrite (Hout k Hk). apply table_map_None in Hk. by rewrite Hk. }
  split.
  - intros k. destruct (table_map es !! k) as [e|] eqn:Hk; simpl.
    + apply table_map_Some in Hk as [Hk <-]; [|done]. by apply Hget.
    + apply Hno. by apply table_map_None.
  - intros ?. unfold GetAllKeys. split; [apply NoDup_map_range|]. intros k. rewrite <-Hkeys.
    rewrite list_elem_of_fmap. split.
    + intros ([k' ie] & -> & Hk). exists ie. by apply elem_of_map_range.
    + intros [ie Hie]. exists (k, ie). split; [done|]. by apply elem_of_map_range.
Qed.

(** Of two versions the later one; the earlier found one of equal ones. *)
Definition pick (acc : option KeyValueEntry * Z) (found : option MemTableEntry) : option KeyValueEntry * Z :=
  match found with
  | Some e => if acc.2 <? mt_Timestamp e then (Some (to_kv e), mt_Timestamp e) else acc
  | None => acc
  end.

Lemma get_step_spec d md m k acc : stored d md m → get_step k d acc md = Some (pick acc (m !! k)).
Proof.
  intros Hst. destruct (stored_open d md m Hst) as (r & Hr & Hget & _).
  destruct Hst as [es bl bf <- Hs _ Hrg _ _ Hbl Hl Hwf Hmay].
  pose proof (sorted_keys_NoDup _ Hs) as Hnd. unfold get_step. rewrite Hbl, Hrg, Hr. cbn [mbind option_bind res_bind].
  rewrite Hl, Hget. destruct (MayContain_total bf k Hwf) as [may Hm]. rewrite Hm. cbn [mbind option_bind].
  destruct (table_map es !! k) as [e|] eqn:Hk; cbn [pick fmap option_fmap option_map].
  - apply table_map_Some in Hk as [Hk <-]; [|done]. rewrite sorted_in_range by done. cbn [negb].
    rewrite Forall_forall in Hmay. rewrite (Hmay e Hk) in Hm. simplify_eq. cbn [negb].
    rewrite kv_Timestamp_to_kv. by destruct (_ <? _).
  - destruct (keyInRange _ _), may; done.
Qed.

(** What the service stores: every table of every level holds some map. *)
Definition sst_wf s : Prop := ∀ md, md ∈ all_tables s → ∃ m, stored (disk s) md m.

Definition holds s m : Prop := ∃ md, md ∈ all_tables s ∧ stored (disk s) md m.

Lemma to_kv_inj e e' : mt_Key e = mt_Key e' → to_kv e = to_kv e' → e = e'.
Proof.
  destruct e, e'; unfold to_kv; simpl. intros ->. destruct (splitCompositeKey _). by intros [= -> -> -> ->].
Qed.

Lemma stored_keys d md m k e : stored d md m → m !! k = Some e → mt_Key e = k.
Proof. intros [es bl bf <- Hs _ _ _ _ _ _ _ _]. by intros [_ ?]%table_map_Some; [|apply sorted_keys_NoDup]. Qed.

(** A table holds one map. *)
Lemma stored_functional d md m m' : stored d md m → stored d md m' → m = m'.
Proof.
  intros Hm Hm'. apply map_eq. intros k.
  destruct (stored_open d md m Hm) as (r & Hr & Hg & _). destruct (stored_open d md m' Hm') as (r' & Hr' & Hg' & _).
  rewrite Hr in Hr'. simplify_eq. specialize (Hg k). rewrite Hg' in Hg.
  pose proof (stored_keys d md m k) as Hk. pose proof (stored_keys d md m' k) as Hk'.
  destruct (m !! k) as [e|], (m' !! k) as [e'|]; simplify_eq/=; [|done]. f_equal.
  apply to_kv_inj; [by rewrite (Hk e), (Hk' e')|done].
Qed.

(** [newest s k r]: [r] is the version of [k] with the greatest timestamp
    above zero among those stored. *)
Definition newest s (k : string) (r : option KeyValueEntry) : Prop :=
  match r with
  | None => ∀ m e, holds s m → m !! k = Some e → mt_Timestamp e ≤ 0
  | Some kv => ∃ m e, holds s m ∧ m !! k = Some e ∧ kv = to_kv e ∧ 0 < mt_Timestamp e ∧
      ∀ m' e', holds s m' → m' !! k = Some e' → mt_Timestamp e' ≤ mt_Timestamp e
  end.

Lemma pick_fold_newest (k : string) (ms : list (gmap string MemTableEntry)) :
  let r := foldl (λ acc m, pick acc (m !! k)) (None, 0) ms in
  (r.1 = None ∧ r.2 = 0 ∨
   ∃ m e, m ∈ ms ∧ m !! k = Some e ∧ r = (Some (to_kv e), mt_Timestamp e) ∧ 0 < mt_Timestamp e) ∧
  ∀ m e, m ∈ ms → m !! k = Some e → mt_Timestamp e ≤ r.2.
Proof.
  induction ms as [|m ms IH] using rev_ind; simpl; [split; [by left|by intros m e ?%elem_of_nil]|].
  rewrite foldl_app. simpl in *. destruct IH as [IH1 IH2].
  set (r := foldl _ _ ms) in *. assert (0 ≤ r.2) as Hr0 by (destruct IH1 as [[_ ?]|(?&?&?&?&->&?)]; simpl; lia).
  unfold pick. destruct (m !! k) as [e|] eqn:Hk; [destruct (Z.ltb_spec r.2 (mt_Timestamp e))|].
  - split.
    + right. exists m, e. split_and!; [rewrite elem_of_app; right; by left|done|done|lia].
    + simpl. intros m' e' [Hin|Hin]%elem_of_app Hk'; [specialize (IH2 _ _ Hin Hk'); lia|].
      apply list_elem_of_singleton in Hin as ->. by simplify_eq.
  - split; [destruct IH1 as [?|(m'&e'&?&?)]; [by left|right; exists m', e'; rewrite elem_of_app; naive_solver]|].
    intros m' e' [Hin|Hin]%elem_of_app Hk'; [eauto|]. apply list_elem_of_singleton in Hin as ->. by simplify_eq.
  - split; [destruct IH1 as [?|(m'&e'&?&?)]; [by left|right; exists m', e'; rewrite elem_of_app; naive_solver]|].
    intros m' e' [Hin|Hin]%elem_of_app Hk'; [eauto|]. apply list_elem_of_singleton in Hin as ->. by simplify_eq.
Qed.

Lemma sst_Get_spec s tenantID key :
  sst_wf s → ∃ r, sst_Get s tenantID key = Some r ∧ newest s (buildKey tenantID key) r.
Proof.
  intros Hwf. unfold sst_Get. set (k := buildKey tenantID key).
  assert (∃ ms, Forall2 (stored (disk s)) (all_tables s) ms) as [ms Hms].
  { assert (Forall (λ md, ∃ m, stored (disk s) md m) (all_tables s)) as Hall by by apply Forall_forall.
    by apply Forall_exists_Forall2_l in Hall. }
  rewrite (foldM_total _ (λ acc m, pick acc (m !! k)) (stored (disk s)) _ _ ms); [|by intros; apply get_step_spec|done].
  eexists. split; [done|]. destruct (pick_fold_newest k ms) as [Hr Hmax]. simpl in *.
  set (r := foldl _ _ ms) in *.
  assert (∀ m, holds s m ↔ m ∈ ms) as Hh.
  { intros m. unfold holds. split.
    - intros (md & (i & Hi)%list_elem_of_lookup & Hst).
      destruct (Forall2_lookup_l _ _ _ _ _ Hms Hi) as (m' & Hm' & Hst').
      rewrite (stored_functional _ _ _ _ Hst Hst'). by eapply list_elem_of_lookup_2.
    - intros (i & Hi)%list_elem_of_lookup. destruct (Forall2_lookup_r _ _ _ _ _ Hms Hi) as (md & Hmd & Hst).
      exists md. split; [by eapply list_elem_of_lookup_2|done]. }
  destruct Hr as [[-> Hr2]|(m & e & Hin & Hk & Hr & Hpos)]; simpl.
  - intros m e Hm%Hh He. specialize (Hmax m e Hm He). lia.
  - rewrite Hr. exists m, e. split_and!; [by apply Hh|done|done|done|].
    intros m' e' Hm'%Hh He'. specialize (Hmax m' e' Hm' He'). by rewrite Hr in Hmax.
Qed.

(** ** Flushing a memtable *)

#[global] Instance writable_perm : Proper ((≡ₚ) ==> iff) writable.
Proof.
  assert (∀ es es', es ≡ₚ es' → writable es → writable es') as Himp.
  { intros es es' Hp [[Hd Hk Ht] He Hc]. split; [split|..]; by rewrite <-Hp. }
  intros es es' Hp. split; apply Himp; [done|by symmetry].
Qed.

(** A map all of whose entries can be written. *)
Definition writable_map m : Prop := writable (map_to_list m).*2.

Lemma table_map_perm es : NoDup (mt_Key <$> es) → es ≡ₚ (map_to_list (table_map es)).*2.
Proof.
  intros Hnd. unfold table_map. rewrite map_to_list_to_map by (rewrite <-list_fmap_compose; exact Hnd).
  rewrite <-list_fmap_compose. by rewrite (list_fmap_ext _ id es), list_fmap_id by done.
Qed.

Lemma memtable_writable mt m es :
  is_memtable mt m → mt_entries mt = Some es → writable es → writable_map m.
Proof.
  intros Hmt Hes Hw. destruct (mt_entries_spec mt m Hmt) as (es' & Hes' & Hs & <-).
  rewrite Hes in Hes'. injection Hes' as <-. unfold writable_map. fold (table_map es).
  by rewrite <-table_map_perm by by apply sorted_keys_NoDup.
Qed.

Lemma write_loop_spec es w w' kr n :
  0 ≤ n → write_all es w = Some w' →
  foldM write_step (w, kr, n) es =
  Some (w', mkKeyRange (if n =? 0 then default (StartKey kr) (head (mt_Key <$> es)) else StartKey kr)
              (default (EndKey kr) (last (mt_Key <$> es))), n + Z.of_nat (length es)).
Proof.
  revert w kr n. induction es as [|e es IH]; intros w kr n Hn.
  { intros [= ->]. simpl. rewrite Z.add_0_r. destruct kr. by destruct (n =? 0). }
  cbn [write_all foldM write_step]. destruct (Write e w) as [w1|]; [|done]. cbn [mbind option_bind]. intros Hw.
  rewrite (IH w1 _ (n + 1)) by (lia || done). cbn [StartKey EndKey]. rewrite (proj2 (Z.eqb_neq (n + 1) 0)) by lia.
  rewrite !fmap_cons. rewrite last_cons. cbn [head length]. f_equal. f_equal; [|lia]. f_equal.
  f_equal. by destruct (last _).
Qed.

Definition fresh (nano : Z) s : Prop :=
  let p := table_path (sst_dataDir s) nano in
  disk s !! p = None ∧ disk s !! (p +:+ ".idx") = None ∧ disk s !! (p +:+ ".bloom") = None.

Lemma str_app_ne (p q r : string) : (length (bytes q) ≠ length (bytes r))%nat → p +:+ q ≠ p +:+ r.
Proof. intros Hne Heq. apply Hne. apply (f_equal bytes) in Heq. rewrite !bytes_app in Heq. by apply app_inv_head in Heq as ->. Qed.

Lemma paths_ne p : p ≠ p +:+ ".idx" ∧ p ≠ p +:+ ".bloom" ∧ p +:+ ".idx" ≠ p +:+ ".bloom".
Proof.
  split_and!; [intros Hp; apply (f_equal (λ q : string, length (bytes q))) in Hp;
    rewrite bytes_app, length_app in Hp; simpl in Hp; lia..|by apply str_app_ne].
Qed.

Lemma stored_more d d' md m : (∀ p c, d !! p = Some c → d' !! p = Some c) → stored d md m → stored d' md m.
Proof. intros Hd [es bl bf]. by eapply (Stored _ _ _ es bl bf); eauto. Qed.

Lemma all_tables_AddTable level md md' s :
  0 ≤ level ≤ 4 → md ∈ all_tables (AddTable level md' s) ↔ md = md' ∨ md ∈ all_tables s.
Proof.
  intros Hl. unfold all_tables. rewrite !list_elem_of_bind.
  assert (level ∈ all_levels) as Hin.
  { unfold all_levels. rewrite !elem_of_cons. lia. }
  assert (∀ l, GetTablesForLevel l (AddTable level md' s) =
    if decide (l = level) then GetTablesForLevel level s ++ [md'] else GetTablesForLevel l s) as Hget.
  { intros l. unfold GetTablesForLevel, AddTable. simpl. case_decide; subst.
    - by rewrite lookup_insert_eq. - by rewrite lookup_insert_ne. }
  split.
  - intros (l & Hmd & Hl'). rewrite Hget in Hmd. case_decide; [|right; naive_solver].
    apply elem_of_app in Hmd as [Hmd| ->%list_elem_of_singleton]; [right; naive_solver|by left].
  - intros [->|(l & Hmd & Hl')].
    + exists level. rewrite Hget, decide_True by done. split; [|done]. rewrite elem_of_app. right. by left.
    + exists l. rewrite Hget. split; [|done]. case_decide; [subst|done]. rewrite elem_of_app. by left.
Qed.

(** Adding a stored table keeps the others. *)
Lemma AddTable_stored level md m s d' :
  0 ≤ level ≤ 4 → sst_wf s → stored d' md m → (∀ p c, disk s !! p = Some c → d' !! p = Some c) →
  let s' := AddTable level md (mkSSTableService (sst_dataDir s) (bloomSize s) (bloomHashes s) (levels s) d') in
  sst_wf s' ∧ ∀ m', holds s' m' ↔ m' = m ∨ holds s m'.
Proof.
  intros Hl Hwf Hnew Hold s'.
  assert (∀ md', md' ∈ all_tables s' ↔ md' = md ∨ md' ∈ all_tables s) as Htab.
  { intros md'. unfold s'. by rewrite all_tables_AddTable by lia. }
  assert (∀ md' m', md' ∈ all_tables s → stored d' md' m' → stored (disk s) md' m') as Hback.
  { intros md' m' Hin Hst. destruct (Hwf md' Hin) as (m'' & Hst'').
    by rewrite (stored_functional _ _ _ _ Hst (stored_more _ _ _ _ Hold Hst'')). }
  split.
  - intros md' [->|Hin]%Htab; [by exists m|]. destruct (Hwf md' Hin) as (m' & Hst). exists m'.
    by eapply stored_more.
  - intros m'. unfold holds. split.
    + intros (md' & [->|Hin]%Htab & Hst); [left; by eapply stored_functional|right; eauto].
    + intros [->|(md' & Hin & Hst)]; [exists md; split; [apply Htab; by left|done]|].
      exists md'. split; [apply Htab; by right|]. by eapply stored_more.
Qed.

(** The files and the metadata a flush creates. *)
Lemma WriteFromMemTable_table nano now mt m s :
  0 < bloomSize s < 2 ^ 63 → 0 ≤ bloomHashes s < 2 ^ 64 →
  is_memtable mt m → writable_map m → fresh nano s →
  ∃ md d', WriteFromMemTable None nano now mt s =
      Ok (AddTable 0 md (mkSSTableService (sst_dataDir s) (bloomSize s) (bloomHashes s) (levels s) d')) ∧
    stored d' md m ∧ (∀ p c, disk s !! p = Some c → d' !! p = Some c).
Proof.
  intros Hbs Hbh Hmt Hwr (Hf1 & Hf2 & Hf3). set (p := table_path (sst_dataDir s) nano) in *.
  destruct (mt_entries_spec mt m Hmt) as (es & Hes & Hsort & Hmap). change (table_map es = m) in Hmap.
  assert (writable es) as Hwes.
  { rewrite (table_map_perm es) by by apply sorted_keys_NoDup. by rewrite Hmap. }
  destruct (build_table_spec (bloomSize s) (bloomHashes s) es Hbs Hbh (wr_fits _ Hwes))
    as (w' & Hw' & Hd & Hi & _ & bf & Hbf & Hbwf & Hmay).
  unfold build_table in Hw'. destruct (write_all es _) as [w|] eqn:Hw; [|done]. simpl in Hw'. injection Hw' as <-.
  unfold WriteFromMemTable. rewrite Hes. cbn [mbind option_bind].
  rewrite (write_loop_spec es _ w _ 0 (Z.le_refl 0) Hw). cbn [FilePath IndexPath BloomPath]. fold p.
  eexists _, _. split; [done|]. destruct (paths_ne p) as (Hn1 & Hn2 & Hn3). split.
  - apply (Stored _ _ _ es (bloomFile (Finalize w)) bf); try done; cbn [FilePath IndexPath BloomPath].
    + by rewrite lookup_insert_eq, Hd.
    + by rewrite lookup_insert_ne, lookup_insert_eq, Hi.
    + by rewrite lookup_insert_ne, lookup_insert_ne, lookup_insert_eq.
  - intros q c Hq. rewrite !lookup_insert_ne; [done|..]; intros <-; congruence.
Qed.

(** A flush adds one table, which holds the memtable, and keeps the others. *)
Lemma WriteFromMemTable_spec nano now mt m s :
  0 < bloomSize s < 2 ^ 63 → 0 ≤ bloomHashes s < 2 ^ 64 → sst_wf s →
  is_memtable mt m → writable_map m → fresh nano s →
  ∃ s', WriteFromMemTable None nano now mt s = Ok s' ∧ sst_wf s' ∧
    (∀ m', holds s' m' ↔ m' = m ∨ holds s m') ∧ sst_dataDir s' = sst_dataDir s ∧
    bloomSize s' = bloomSize s ∧ bloomHashes s' = bloomHashes s.
Proof.
  intros Hbs Hbh Hwf Hmt Hwr Hf.
  destruct (WriteFromMemTable_table nano now mt m s Hbs Hbh Hmt Hwr Hf) as (md & d' & Hw & Hst & Hold).
  eexists. split; [done|]. destruct (AddTable_stored 0 md m s d') as [? ?]; [lia|done..].
Qed.

End tables.

(** ** Scans *)

Section scans.
Context `{Codec MemTableEntry}.

(** The state of a scan that has met the versions [V]: one result per key,
    a newest one, whose timestamp is the one remembered. *)
Record scan_inv (acc : list KeyValueEntry * gmap string Z) (V : KeyValueEntry → Prop) : Prop := {
  si_nodup : NoDup (entry_key <$> acc.1);
  si_seen e : e ∈ acc.1 → acc.2 !! entry_key e = Some (kv_Timestamp e);
  si_known k : is_Some (acc.2 !! k) → ∃ e, e ∈ acc.1 ∧ entry_key e = k;
  si_sound e : e ∈ acc.1 → V e;
  si_complete v : V v → ∃ e, e ∈ acc.1 ∧ entry_key e = entry_key v ∧ kv_Timestamp v ≤ kv_Timestamp e;
}.

Lemma scan_inv_ext acc V V' : (∀ x, V x ↔ V' x) → scan_inv acc V → scan_inv acc V'.
Proof. intros HV [H1 H2 H3 H4 H5]. split; [done..| |]; [intros e ?; apply HV; auto|intros v ?; apply H5; by apply HV]. Qed.

Lemma replace_version_spec entry results old :
  NoDup (entry_key <$> results) → old ∈ results → entry_key old = entry_key entry →
  ∃ results', replace_version entry results = Some results' ∧
    entry_key <$> results' = entry_key <$> results ∧
    ∀ x, x ∈ results' ↔ x = entry ∨ x ∈ results ∧ entry_key x ≠ entry_key entry.
Proof.
  intros Hnd Hin Hold. induction results as [|e results IH]; [by apply elem_of_nil in Hin|].
  rewrite fmap_cons in Hnd. apply NoDup_cons in Hnd as [Hni Hnd]. cbn [replace_version].
  assert (∀ x, x ∈ results → entry_key x ≠ entry_key e) as Hne.
  { intros x Hx Heq. apply Hni. rewrite <-Heq. by apply list_elem_of_fmap_2. }
  case_decide as Hk.
  - eexists. split_and!; [done|by rewrite !fmap_cons, Hk|]. intros x. rewrite !elem_of_cons.
    rewrite Hk in Hne. naive_solver.
  - apply elem_of_cons in Hin as [->|Hin]; [done|].
    destruct (IH Hnd Hin) as (r' & -> & Hkeys & Hx). eexists. split_and!; [done|by rewrite !fmap_cons, Hkeys|].
    intros x. rewrite !elem_of_cons, Hx. naive_solver.
Qed.

(** A newer version of a known key replaces the one in the results. *)
Lemma scan_replace_inv v old results seen V :
  scan_inv (results, seen) V → old ∈ results → entry_key old = entry_key v →
  kv_Timestamp old < kv_Timestamp v →
  ∃ results', replace_version v results = Some results' ∧
    scan_inv (results', <[entry_key v := kv_Timestamp v]> seen) (λ x, V x ∨ x = v).
Proof.
  intros [Hnd Hseen Hknown Hsound Hcomp] Hin Hold Hlt. simpl in *.
  destruct (replace_version_spec v results old Hnd Hin Hold) as (r' & Hr & Hkeys & Hx).
  exists r'. split; [done|]. split; simpl; [by rewrite Hkeys|..].
  - intros e [->|[He Hne]]%Hx; [by rewrite lookup_insert_eq|]. by rewrite lookup_insert_ne; auto.
  - intros k Hk. destruct (decide (k = entry_key v)) as [->|Hne]; [exists v; split; [apply Hx; by left|done]|].
    rewrite lookup_insert_ne in Hk by done. destruct (Hknown k Hk) as (e & He & <-).
    exists e. split; [apply Hx; by right|done].
  - intros e [->|[He _]]%Hx; [by right|left; auto].
  - intros x [Hv| ->]; [|exists v; split_and!; [apply Hx; by left|done|lia]].
    destruct (Hcomp x Hv) as (e & He & Hk & Hle). destruct (decide (entry_key e = entry_key v)) as [Hev|Hev].
    + exists v. split_and!; [apply Hx; by left|congruence|].
      assert (e = old) as ->; [|lia]. eapply (NoDup_fmap_elem entry_key results); [done..|congruence].
    + exists e. split_and!; [apply Hx; by right|done|done].
Qed.

(** A version of a new key is appended. *)
Lemma scan_append_inv v results seen V :
  scan_inv (results, seen) V → seen !! entry_key v = None →
  scan_inv (results ++ [v], <[entry_key v := kv_Timestamp v]> seen) (λ x, V x ∨ x = v).
Proof.
  intros [Hnd Hseen Hknown Hsound Hcomp] Hs. simpl in *.
  assert (∀ e, e ∈ results → entry_key e ≠ entry_key v) as Hfresh.
  { intros e He Heq. pose proof (Hseen e He) as Ho. congruence. }
  split; simpl.
  - rewrite fmap_app. apply NoDup_app. split_and!; [done| |apply NoDup_singleton].
    intros k (e & -> & He)%list_elem_of_fmap Hk%list_elem_of_singleton. by eapply Hfresh.
  - intros e [He| ->%list_elem_of_singleton]%elem_of_app; [|by rewrite lookup_insert_eq].
    rewrite lookup_insert_ne; [auto|]. intros Heq. by apply (Hfresh e).
  - intros k Hk. destruct (decide (k = entry_key v)) as [->|Hne].
    + exists v. rewrite elem_of_app, list_elem_of_singleton. auto.
    + rewrite lookup_insert_ne in Hk by done. destruct (Hknown k Hk) as (e & He & <-). exists e. rewrite elem_of_app. auto.
  - intros e [He| ->%list_elem_of_singleton]%elem_of_app; auto.
  - intros x [Hv| ->]; [destruct (Hcomp x Hv) as (e & He & ?); exists e; rewrite elem_of_app; naive_solver|].
    exists v. rewrite elem_of_app, list_elem_of_singleton. split_and!; [by right|done|lia].
Qed.

Lemma scan_entry_inv v acc V : scan_inv acc V → scan_inv (scan_entry v acc) (λ x, V x ∨ x = v).
Proof.
  destruct acc as [results seen]. intros Hinv. unfold scan_entry.
  destruct (seen !! entry_key v) as [ts|] eqn:Hs; [|by apply scan_append_inv].
  pose proof Hinv as [Hnd Hseen Hknown Hsound Hcomp]. simpl in *.
  destruct (Hknown (entry_key v) ltac:(eauto)) as (old & Hin & Hold).
  assert (ts = kv_Timestamp old) as ->. { pose proof (Hseen old Hin) as Ho. rewrite Hold in Ho. congruence. }
  destruct (Z.ltb_spec (kv_Timestamp old) (kv_Timestamp v)) as [Hlt|Hge].
  - by destruct (scan_replace_inv v old results seen V) as (r' & -> & ?).
  - split; simpl; [done|done|done|naive_solver|]. intros x [Hv| ->]; [auto|]. exists old. split_and!; done.
Qed.

(** The versions of the table [m] a scan is to report. *)
Definition in_scan (a b : Z) (h : string → Z) (m : gmap string MemTableEntry) (x : KeyValueEntry) : Prop :=
  ∃ k e, m !! k = Some e ∧ hash_in_range a b (h k) = true ∧ x = to_kv e.

Lemma scan_keys_inv a b h r (m : gmap string MemTableEntry) ks acc V :
  (∀ k, reader_Get r k = Ok (to_kv <$> m !! k)) → scan_inv acc V →
  ∃ acc', foldM (scan_key a b h r) acc ks = Some acc' ∧
    scan_inv acc' (λ x, V x ∨ ∃ k e, k ∈ ks ∧ m !! k = Some e ∧ hash_in_range a b (h k) = true ∧ x = to_kv e).
Proof.
  intros Hr. revert acc V. induction ks as [|k ks IH]; intros acc V HI; cbn [foldM].
  { exists acc. split; [done|]. eapply scan_inv_ext; [|done]. intros x. set_solver. }
  assert (∃ acc1, scan_key a b h r acc k = Some acc1 ∧
    scan_inv acc1 (λ x, V x ∨ ∃ e, m !! k = Some e ∧ hash_in_range a b (h k) = true ∧ x = to_kv e))
    as (acc1 & -> & HI1).
  { unfold scan_key. rewrite Hr. destruct (hash_in_range a b (h k)); [destruct (m !! k) as [e|] eqn:Hk; simpl|].
    - eexists. split; [done|]. eapply scan_inv_ext; [|by apply (scan_entry_inv (to_kv e))]. naive_solver.
    - exists acc. split; [done|]. eapply scan_inv_ext; [|done]. naive_solver.
    - exists acc. split; [done|]. eapply scan_inv_ext; [|done]. naive_solver. }
  destruct (IH _ _ HI1) as (acc' & Hf & HI'). exists acc'. split; [done|].
  eapply scan_inv_ext; [|exact HI']. intros x. setoid_rewrite elem_of_cons. naive_solver.
Qed.

Lemma scan_tables_inv `{MapRange} a b h d mds acc V :
  (∀ md, md ∈ mds → ∃ m, stored d md m) → scan_inv acc V →
  ∃ acc', foldM (scan_sstable a b h d) acc mds = Some acc' ∧
    scan_inv acc' (λ x, V x ∨ ∃ md m, md ∈ mds ∧ stored d md m ∧ in_scan a b h m x).
Proof.
  revert acc V. induction mds as [|md mds IH]; intros acc V Hst HI; cbn [foldM].
  { exists acc. split; [done|]. eapply scan_inv_ext; [|done]. intros x. set_solver. }
  destruct (Hst md ltac:(left)) as (m & Hm). destruct (stored_open d md m Hm) as (r & Hr & Hget & Hkeys).
  specialize (Hkeys _). destruct Hkeys as [_ Hkeys]. 
  assert (scan_sstable a b h d acc md = foldM (scan_key a b h r) acc (GetAllKeys r)) as ->.
  { unfold scan_sstable. by rewrite Hr. }
  destruct (scan_keys_inv a b h r m (GetAllKeys r) acc V Hget HI) as (acc1 & -> & HI1).
  destruct (IH acc1 _ ltac:(set_solver) HI1) as (acc' & Hf & HI'). exists acc'. split; [done|].
  eapply scan_inv_ext; [|exact HI']. intros x. setoid_rewrite elem_of_cons. unfold in_scan. split.
  - intros [[?|(k & e & _ & ?)]|(md' & m' & ? & ?)]; [by left|right; exists md, m; naive_solver|right; exists md', m'; naive_solver].
  - intros [?|(md' & m' & [->|?] & Hst' & k & e & Hk & ?)]; [by left; left| |right; exists md', m'; naive_solver].
    rewrite (stored_functional _ _ _ _ Hst' Hm) in Hk. left. right. exists k, e. split; [apply Hkeys; eauto|done].
Qed.
End scans.

(** ** Properties *)

Section properties.
Context `{Codec MemTableEntry}.
Implicit Types (m : gmap string MemTableEntry) (s : SSTableService).

Lemma entry_key_to_kv e : colon ∈ bytes (mt_Key e) → entry_key (to_kv e) = mt_Key e.
Proof.
  intros Hc. pose proof (buildKey_split _ Hc) as Hb. unfold entry_key, to_kv.
  by destruct (splitCompositeKey (mt_Key e)).
Qed.

(** Every stored key is a composite key. *)
Definition composite_keys s : Prop := ∀ m k, holds s m → is_Some (m !! k) → colon ∈ bytes k.

Lemma sst_scan_spec `{MapRange} s a b h :
  sst_wf s → ∃ acc, foldM (scan_sstable a b h (disk s)) ([], ∅) (all_tables s) = Some acc ∧
    scan_inv acc (λ x, ∃ m, holds s m ∧ in_scan a b h m x).
Proof.
  intros Hwf. destruct (scan_tables_inv a b h (disk s) (all_tables s) ([], ∅) (λ _, False) Hwf) as (acc & Hf & HI).
  { split; simpl; [constructor|by intros ? ?%elem_of_nil|by intros k [? ?]|by intros ? ?%elem_of_nil|done]. }
  exists acc. split; [done|]. eapply scan_inv_ext; [|exact HI]. unfold holds. naive_solver.
Qed.

(** Runs of flushes from a new service; the maps flushed, oldest first. *)
Inductive flush_run (dir : string) (bs bh : Z) : SSTableService → list (gmap string MemTableEntry) → Prop :=
  | fr_new d : flush_run dir bs bh (NewSSTableService dir bs bh d) []
  | fr_flush s ms nano now mt m s' :
      flush_run dir bs bh s ms → is_memtable mt m → writable_map m → fresh nano s →
      WriteFromMemTable None nano now mt s = Ok s' → flush_run dir bs bh s' (ms ++ [m]).

(** [first_newest ms k r]: among the versions of [k] with a timestamp above zero,
    [r] is one with the greatest, and of these the one in the oldest table. *)
Definition first_newest (ms : list (gmap string MemTableEntry)) (k : string) (r : option KeyValueEntry) : Prop :=
  match r with
  | None => ∀ m e, m ∈ ms → m !! k = Some e → mt_Timestamp e ≤ 0
  | Some kv => ∃ ms1 m ms2 e, ms = ms1 ++ m :: ms2 ∧ m !! k = Some e ∧ kv = to_kv e ∧ 0 < mt_Timestamp e ∧
      (∀ m' e', m' ∈ ms1 → m' !! k = Some e' → mt_Timestamp e' < mt_Timestamp e) ∧
      (∀ m' e', m' ∈ ms2 → m' !! k = Some e' → mt_Timestamp e' ≤ mt_Timestamp e)
  end.

Lemma pick_fold_first k ms :
  let r := foldl (λ acc m, pick acc (m !! k)) (None, 0) ms in
  first_newest ms k r.1 ∧ r.2 = match r.1 with Some kv => kv_Timestamp kv | None => 0 end.
Proof.
  induction ms as [|m ms IH] using rev_ind; [split; [by intros m e ?%elem_of_nil|done]|].
  rewrite foldl_app. cbn [foldl] in *. cbv zeta in *. set (r := foldl _ _ ms) in *. destruct IH as [IH1 IH2].
  assert (∀ e', r.1 = None → m !! k = Some e' → mt_Timestamp e' ≤ 0 → first_newest (ms ++ [m]) k r.1) as Hnone.
  { intros e' Hr Hk' Hle. rewrite Hr in *. intros m1 e1 [Hin| ->%list_elem_of_singleton]%elem_of_app He1; [by eapply IH1|].
    by simplify_eq. }
  assert (∀ kv, r.1 = Some kv → (∀ e', m !! k = Some e' → mt_Timestamp e' ≤ kv_Timestamp kv) → first_newest (ms ++ [m]) k r.1) as Hsome.
  { intros kv Hr Hle. rewrite Hr in *. destruct IH1 as (ms1 & m1 & ms2 & e & -> & Hk1 & -> & Hpos & H1 & H2).
    rewrite kv_Timestamp_to_kv in Hle. exists ms1, m1, (ms2 ++ [m]), e. split_and!; try done; [by rewrite <-app_assoc|].
    intros m' e' [Hin| ->%list_elem_of_singleton]%elem_of_app He'; [by eapply H2|by apply Hle]. }
  unfold pick. destruct (m !! k) as [e|] eqn:Hk; [destruct (Z.ltb_spec r.2 (mt_Timestamp e)) as [Hlt|Hge]|].
  - split; [|simpl; by rewrite kv_Timestamp_to_kv]. exists ms, m, [], e. simpl.
    destruct r.1 as [kv|] eqn:Hr; rewrite IH2 in Hlt.
    + destruct IH1 as (ms1 & m1 & ms2 & e1 & -> & Hk1 & -> & Hpos & H1 & H2). rewrite kv_Timestamp_to_kv in Hlt.
      split_and!; try done; [lia| |by intros ? ? ?%elem_of_nil]. intros m' e' [Hin|[->|Hin]%elem_of_cons]%elem_of_app He'.
      * specialize (H1 _ _ Hin He'). lia.
      * by simplify_eq.
      * specialize (H2 _ _ Hin He'). lia.
    + split_and!; try done; [|by intros ? ? ?%elem_of_nil]. intros m' e' Hin He'. specialize (IH1 _ _ Hin He'). lia.
  - split; [|done]. rewrite IH2 in Hge. destruct r.1 as [kv|] eqn:Hr; [|by apply (Hnone e)].
    apply (Hsome kv); [done|]. by intros ? [= <-].
  - split; [|done]. destruct r.1 as [kv|] eqn:Hr; [by apply (Hsome kv)|].
    intros m' e' [Hin| ->%list_elem_of_singleton]%elem_of_app He'; [by eapply IH1|congruence].
Qed.

(** All tables of such a run are on level 0, in the order of the flushes. *)
Lemma flush_run_tables dir bs bh s ms :
  0 < bs < 2 ^ 63 → 0 ≤ bh < 2 ^ 64 → flush_run dir bs bh s ms →
  bloomSize s = bs ∧ bloomHashes s = bh ∧ Forall2 (stored (disk s)) (all_tables s) ms ∧
  all_tables s = GetTablesForLevel 0 s ∧ ∀ l, l ≠ 0 → levels s !! l = None.
Proof.
  intros Hbs Hbh. induction 1 as [d|s ms nano now mt m s' _ (IH1 & IH2 & IH3 & IH4 & IH5) Hmt Hwr Hf Hw].
  { split_and!; [done|done|constructor|done|]. intros l _. apply lookup_empty. }
  destruct (WriteFromMemTable_table nano now mt m s) as (md & d' & Hw' & Hst & Hold); [by rewrite IH1|by rewrite IH2|done..|].
  rewrite Hw in Hw'. injection Hw' as ->.
  assert (∀ l, l ≠ 0 → GetTablesForLevel l s = []) as Hempty.
  { intros l Hl. unfold GetTablesForLevel. by rewrite IH5. }
  set (s1 := AddTable 0 md _).
  assert (all_tables s1 = GetTablesForLevel 0 s1 ∧ GetTablesForLevel 0 s1 = all_tables s ++ [md]) as [Ht1 Ht2].
  { rewrite IH4. unfold all_tables, all_levels, GetTablesForLevel, s1, AddTable. simpl. rewrite lookup_insert_eq.
    rewrite !(lookup_insert_ne (levels s) 0) by done. rewrite !IH5 by done. simpl. by rewrite !app_nil_r. }
  split_and!; [done|done| |done|].
  - rewrite Ht1, Ht2. apply Forall2_app; [|by repeat constructor]. eapply Forall2_impl; [exact IH3|].
    intros md' m' Hst'. by eapply stored_more.
  - intros l Hl. simpl. rewrite lookup_insert_ne by done. by apply IH5.
Qed.

(** C10: flushed memtables are found.  After any number of flushes of memtables
    from a new service, and before any compaction, writing a memtable to a table
    whose files do not exist yet succeeds, and [Get] then returns for every key
    a version with the greatest timestamp over all tables, and of several with
    that timestamp the one flushed first, or nothing when no version has a
    timestamp above zero.  The entries must be encodable, fit the length fields
    of a table and not have a checksum of zero; the Bloom filter has at least
    one bit. *)
Theorem sstable_flush_get dir bs bh s ms nano now mt m :
  0 < bs < 2 ^ 63 → 0 ≤ bh < 2 ^ 64 → flush_run dir bs bh s ms →
  is_memtable mt m → writable_map m → fresh nano s →
  ∃ s', WriteFromMemTable None nano now mt s = Ok s' ∧ flush_run dir bs bh s' (ms ++ [m]) ∧
    ∀ tenantID key, ∃ r, sst_Get s' tenantID key = Some r ∧ first_newest (ms ++ [m]) (buildKey tenantID key) r.
Proof.
  intros Hbs Hbh Hrun Hmt Hwr Hf.
  destruct (flush_run_tables _ _ _ _ _ Hbs Hbh Hrun) as (E1 & E2 & _).
  destruct (WriteFromMemTable_table nano now mt m s) as (md & d' & Hw & _); [by rewrite E1|by rewrite E2|done..|].
  pose proof (fr_flush dir bs bh s ms nano now mt m _ Hrun Hmt Hwr Hf Hw) as Hrun'.
  eexists. split; [exact Hw|]. split; [done|]. destruct (flush_run_tables _ _ _ _ _ Hbs Hbh Hrun') as (_ & _ & Hall & _).
  intros tenantID key. unfold sst_Get.
  rewrite (foldM_total _ (λ acc m, pick acc (m !! buildKey tenantID key)) (stored d') _ _ (ms ++ [m]));
    [|by intros; apply get_step_spec|done].
  eexists. split; [done|]. apply pick_fold_first.
Qed.

(** A range scan of the tables reports, for every stored key whose hash is
    in the range, exactly one version, and that version is a newest one; it
    reports nothing else.  The order in which Go visits a table's index does
    not matter. *)
Theorem sstable_scan_newest `{MapRange} s startHash endHash hashFunc :
  sst_wf s → composite_keys s →
  ∃ es, sst_ScanKeysInRange s startHash endHash hashFunc = Some es ∧ NoDup (entry_key <$> es) ∧
    (∀ kv, kv ∈ es → ∃ m e, holds s m ∧ m !! entry_key kv = Some e ∧ kv = to_kv e ∧
       hash_in_range startHash endHash (hashFunc (entry_key kv)) = true ∧
       ∀ m' e', holds s m' → m' !! entry_key kv = Some e' → mt_Timestamp e' ≤ mt_Timestamp e) ∧
    (∀ m k e, holds s m → m !! k = Some e → hash_in_range startHash endHash (hashFunc k) = true →
       k ∈ entry_key <$> es).
Proof.
  intros Hwf Hck. destruct (sst_scan_spec s startHash endHash hashFunc Hwf) as ([es seen] & Hf & [Hnd _ _ Hs Hc]).
  simpl in *. exists es. unfold sst_ScanKeysInRange. rewrite Hf.
  assert (∀ m k e, holds s m → m !! k = Some e → mt_Key e = k ∧ entry_key (to_kv e) = k) as Hkey.
  { intros m k e Hm Hk. destruct (Hm) as (md & _ & Hst). pose proof (stored_keys _ _ _ _ _ Hst Hk) as <-.
    split; [done|]. apply entry_key_to_kv. by apply (Hck m). }
  split_and!; [done..| |].
  - intros kv Hin. destruct (Hs kv Hin) as (m & Hm & k & e & Hk & Hr & ->).
    destruct (Hkey m k e Hm Hk) as [_ Hek]. rewrite Hek. exists m, e. split_and!; [done..|].
    intros m' e' Hm' Hk'. destruct (Hkey m' k e' Hm' Hk') as [_ Hek'].
    destruct (Hc (to_kv e')) as (kv & Hin' & Hkk & Hle); [by exists m'; split; [|exists k, e']|].
    assert (kv = to_kv e) as ->. { eapply (NoDup_fmap_elem entry_key es); [done..|congruence]. }
    by rewrite !kv_Timestamp_to_kv in Hle.
  - intros m k e Hm Hk Hr. destruct (Hc (to_kv e)) as (kv & Hin & Hkk & _); [by exists m; split; [|exists k, e]|].
    destruct (Hkey m k e Hm Hk) as [_ <-]. rewrite <-Hkk. by apply list_elem_of_fmap_2.
Qed.
End properties.

(** ** An example: one flushed table *)

Definition example_service : SSTableService := NewSSTableService "/data" 64 3 ∅.

Definition example_entry : MemTableEntry :=
  mkMTE "t1:a" (bytes "hello") (mkVC [mkVCE "c1" 3]) 1700000000 false.

Definition example_memtable : MemTable := default (NewMemTable 1024) (mt_Put [true] example_entry (NewMemTable 1024)).

Lemma example_is_memtable : is_memtable example_memtable {[ "t1:a" := example_entry ]}.
Proof.
  destruct (mt_Put_spec [true] example_entry _ _ (NewMemTable_spec 1024)) as (mt' & Hput & Hmt & _).
  unfold example_memtable. rewrite Hput. by rewrite <-insert_empty.
Defined.

Lemma example_writable : writable_map {[ "t1:a" := example_entry ]}.
Proof.
  unfold writable_map. rewrite map_to_list_singleton.
  split; [split; [repeat constructor..|reflexivity]|repeat constructor|repeat constructor; by vm_compute].
Defined.

Lemma example_wf : sst_wf example_service.
Proof. intros md Hin. vm_compute in Hin. by apply elem_of_nil in Hin. Defined.

Lemma example_fresh : fresh 1 example_service.
Proof. by repeat split. Defined.

Lemma sstable_flush_get_witness :
  ∃ s' r, WriteFromMemTable None 1 1700000001 example_memtable example_service = Ok s' ∧
    sst_Get s' "t1" "a" = Some r ∧ first_newest [{[ "t1:a" := example_entry ]}] "t1:a" r.
Proof.
  destruct (sstable_flush_get "/data" 64 3 example_service [] 1 1700000001 example_memtable {[ "t1:a" := example_entry ]})
    as (s' & Hw & _ & Hget).
  - split; reflexivity.
  - split; [discriminate|reflexivity].
  - apply fr_new.
  - exact example_is_memtable.
  - exact example_writable.
  - exact example_fresh.
  - destruct (Hget "t1" "a") as (r & Hr & Hn). exists s', r. split; [exact Hw|]. split; [exact Hr|exact Hn].
Defined.

Lemma sstable_scan_newest_witness :
  ∃ s es, sst_ScanKeysInRange s 0 10 (λ _, 5) = Some es ∧ "t1:a" ∈ entry_key <$> es.
Proof.
  destruct (WriteFromMemTable_spec 1 1700000001 example_memtable {[ "t1:a" := example_entry ]} example_service)
    as (s' & _ & Hwf & Hh & _); [split; reflexivity|split; [discriminate|reflexivity]|exact example_wf|
      exact example_is_memtable|exact example_writable|exact example_fresh|].
  destruct (sstable_scan_newest s' 0 10 (λ _, 5) Hwf) as (es & Hs & _ & _ & Hall).
  - intros m k [->|(md & Hin & _)]%Hh [e He]; [|vm_compute in Hin; by apply elem_of_nil in Hin].
    apply lookup_singleton_Some in He as [<- _]. apply (bool_decide_unpack _). vm_compute. exact I.
  - exists s', es. split; [exact Hs|].
    apply (Hall {[ "t1:a" := example_entry ]} "t1:a" example_entry); [apply Hh; by left|reflexivity|reflexivity].
Defined.
