(* ===== verification/CommitLog.v ===== *)
(** * The commit log: [storage-node/internal/service/commitlog_service.go]

    The log directory is a map from file names to contents.  [Append] writes
    one line per entry to the current segment, [checkRotation] opens the next
    segment, and [Recover] replays the lines of all segments into the
    memtable.  [log_run] is the step relation of a log that is appended to,
    with any outcome of the writes, rotated and reopened; the theorems are that
    recovery after any run takes the whole lines and skips the broken ones, and
    that a record appended behind a failed write is on a broken line. *)

From S2P Require Import Prelude GoHash Checksum Model SkipList MemTable Utf8 Validator Codec Json JsonCut.
#[local] Open Scope Z_scope.

(** ** Definitions *)

Record CommitLogConfig := mkCommitLogConfig { SegmentSize : Z; SyncWrites : bool }.

(** [currentFile]: nil, an open file, or one closed by a failed rotation. *)
Inductive handle := NoFile | Open (name : string) | Closed (name : string).

Record CommitLogService := mkCommitLogService {
  cl_config : CommitLogConfig;
  currentFile : handle;
  segmentID : Z;
  sequenceNumber : Z;
  log : gmap string (list byte);
}.

(** What the operating system does with a write: all of it, the first [n]
    bytes and an error, or all of it and an error of [Sync]. *)
Inductive write_outcome := Written | TornAfter (n : nat) | SyncFails.

Inductive log_error := LogWrite | LogSync | LogOpen.

(** [bufio.MaxScanTokenSize] as set by [scanner.Buffer]: 10 MiB. *)
Definition maxToken : Z := 10 * 1024 * 1024.

Definition segment_name (id : Z) : string := "commitlog-" +:+ pretty id +:+ ".log".

(** [filepath.Glob("commitlog-*.log")] on one name. *)
Definition is_segment (name : string) : bool :=
  let b := bytes name in
  bool_decide (take 10 b = bytes "commitlog-" ∧ (14 ≤ length b)%nat ∧ drop (length b - 4) b = bytes ".log").

(** [O_CREATE|O_APPEND]: the file is created only if it does not exist. *)
Definition open_append (name : string) (log : gmap string (list byte)) : gmap string (list byte) :=
  match log !! name with Some _ => log | None => <[name := []]> log end.

(** [fails]: whether [os.OpenFile] fails; the previous file is closed first. *)
Definition openNewSegment (fails : bool) (now : Z) (s : CommitLogService) : res log_error unit * CommitLogService :=
  let closed := match currentFile s with Open name => Closed name | h => h end in
  let name := segment_name (segmentID s) in
  if fails then
    (Err LogOpen, mkCommitLogService (cl_config s) closed (segmentID s) (sequenceNumber s) (log s))
  else
    (Ok tt, mkCommitLogService (cl_config s) (Open name) now (sequenceNumber s) (open_append name (log s))).

(** [now1] and [now2] are the two clock readings of the constructor. *)
Definition NewCommitLogService (cfg : CommitLogConfig) (fails : bool) (now1 now2 : Z)
    (log : gmap string (list byte)) : res log_error CommitLogService :=
  match openNewSegment fails now2 (mkCommitLogService cfg NoFile now1 0 log) with
  | (Ok _, s) => Ok s
  | (Err e, _) => Err e
  end.

Definition checkRotation (fails : bool) (now : Z) (s : CommitLogService) : CommitLogService :=
  match currentFile s with
  | Open name =>
      if SegmentSize (cl_config s) <=? Z.of_nat (length (default [] (log s !! name)))
      then (openNewSegment fails now s).2
      else s
  | _ => s
  end.

(** The first call of [Close], and whether the file was closed without an error;
    a second call panics on the channel. *)
Definition Close (s : CommitLogService) : bool * CommitLogService :=
  match currentFile s with
  | NoFile => (true, s)
  | Open name => (true, mkCommitLogService (cl_config s) (Closed name) (segmentID s) (sequenceNumber s) (log s))
  | Closed _ => (false, s)
  end.

Definition with_checksum (entry : CommitLogEntry) (checksum : Z) : CommitLogEntry :=
  mkCLE (cl_SequenceNumber entry) (cl_TenantID entry) (cl_Key entry) (cl_Value entry)
    (cl_VectorClock entry) (cl_Timestamp entry) (cl_OperationType entry) checksum.

Definition with_sequence (entry : CommitLogEntry) (n : Z) : CommitLogEntry :=
  mkCLE n (cl_TenantID entry) (cl_Key entry) (cl_Value entry)
    (cl_VectorClock entry) (cl_Timestamp entry) (cl_OperationType entry) (cl_Checksum entry).

(** The lines of a file as [bufio.Scanner] yields them, and whether it stopped
    at a line that does not fit its buffer. *)
Definition drop_cr (l : list byte) : list byte :=
  match last l with Some b => if decide (b = carriage_return) then take (length l - 1) l else l | None => l end.

Fixpoint scan_lines (fuel : nat) (s : list byte) : list (list byte) * bool :=
  match fuel, s with
  | S fuel, _ :: _ =>
      let line := take_while (λ b, bool_decide (b ≠ newline)) s in
      if maxToken <=? Z.of_nat (length line) then ([], true)
      else
        let '(lines, err) := scan_lines fuel (drop 1 (drop_while (λ b, bool_decide (b ≠ newline)) s)) in
        (drop_cr line :: lines, err)
  | _, _ => ([], false)
  end.

Section codec.
Context `{Codec CommitLogEntry}.

(** The entry as [Append] leaves it: numbered, with its checksum. *)
Definition sealed (entry : CommitLogEntry) (n : Z) : CommitLogEntry :=
  let entry := with_checksum (with_sequence entry n) 0 in
  with_checksum entry (ComputeChecksum (marshal entry)).

Definition Append (out : write_outcome) (entry : CommitLogEntry) (s : CommitLogService)
    : res log_error CommitLogEntry * CommitLogService :=
  let n := u64 (sequenceNumber s + 1) in
  let entry := sealed entry n in
  let data := marshal entry ++ [newline] in
  let appended name written :=
    mkCommitLogService (cl_config s) (currentFile s) (segmentID s) n
      (<[name := default [] (log s !! name) ++ written]> (log s)) in
  let unwritten := mkCommitLogService (cl_config s) (currentFile s) (segmentID s) n (log s) in
  match currentFile s, out with
  | Open name, TornAfter k => (Err LogWrite, appended name (take k data))
  | Open name, SyncFails =>
      (if SyncWrites (cl_config s) then Err LogSync else Ok entry, appended name data)
  | Open name, Written => (Ok entry, appended name data)
  | _, _ => (Err LogWrite, unwritten)
  end.

(** The state of a recovery: memtable, number of puts so far (which picks the
    skip list's coins), entries recovered and skipped, greatest sequence number. *)
Record recovery := mkRecovery {
  rc_mem : MemTableService;
  rc_puts : nat;
  rc_count : Z;
  rc_skipped : Z;
  rc_max : Z;
}.

Definition replay_entry (entry : CommitLogEntry) : MemTableEntry :=
  mkMTE (buildKey (cl_TenantID entry) (cl_Key entry)) (cl_Value entry) (cl_VectorClock entry)
    (cl_Timestamp entry) (bool_decide (cl_OperationType entry = OperationTypeDelete)).

Definition skip (st : recovery) : recovery :=
  mkRecovery (rc_mem st) (rc_puts st) (rc_count st) (rc_skipped st + 1) (rc_max st).

(** One line of [recoverFromFile]. *)
Definition recover_line (coins : nat → list bool) (st : recovery) (line : list byte) : option recovery :=
  match line with
  | [] => Some st
  | _ =>
      match unmarshal line with
      | None => Some (skip st)
      | Some entry =>
          if negb (cl_Checksum entry =? 0) &&
             negb (ValidateChecksum (marshal (with_checksum entry 0)) (cl_Checksum entry))
          then Some (skip st)
          else
            mem ← Put (coins (rc_puts st)) (replay_entry entry) (rc_mem st);
            Some (mkRecovery mem (S (rc_puts st)) (rc_count st + 1) (rc_skipped st)
                    (if rc_max st <? cl_SequenceNumber entry then cl_SequenceNumber entry else rc_max st))
      end
  end.

(** The counts of one file, and whether the scanner failed; the memtable keeps
    what was replayed before the failure. *)
Definition recoverFromFile (coins : nat → list bool) (content : list byte)
    (mem : MemTableService) (puts : nat) : option (recovery * bool) :=
  let '(lines, err) := scan_lines (length content) content in
  st ← foldM (recover_line coins) (mkRecovery mem puts 0 0 0) lines;
  Some (st, err).

Definition recover_file (coins : nat → list bool) (log : gmap string (list byte)) (st : recovery)
    (name : string) : option recovery :=
  '(r, err) ← recoverFromFile coins (default [] (log !! name)) (rc_mem st) (rc_puts st);
  if (err : bool) then Some (mkRecovery (rc_mem r) (rc_puts r) (rc_count st) (rc_skipped st) (rc_max st))
  else Some (mkRecovery (rc_mem r) (rc_puts r) (rc_count st + rc_count r) (rc_skipped st + rc_skipped r)
               (if rc_max st <? rc_max r then rc_max r else rc_max st)).

(** The segments in the order of [sort.Strings]. *)
Definition segment_files (log : gmap string (list byte)) : list string :=
  merge_sort String.le (filter (λ name, is_segment name = true) (map_to_list log).*1).

Definition Recover (coins : nat → list bool) (mem : MemTableService) (s : CommitLogService)
    : option (recovery * CommitLogService) :=
  st ← foldM (recover_file coins (log s)) (mkRecovery mem 0 0 0 0) (segment_files (log s));
  Some (st, mkCommitLogService (cl_config s) (currentFile s) (segmentID s) (rc_max st) (log s)).
End codec.

(** ** Segment names sort by time *)

Lemma str_lt_cons_same a s t : str_lt s t → str_lt (String a s) (String a t).
Proof.
  unfold str_lt, String.le, String.leb. cbn [String.compare]. unfold Ascii.compare. rewrite N.compare_refl.
  intros [H1 H2]. split; [done|congruence].
Qed.

Lemma str_lt_cons_lt a b s t :
  (Ascii.N_of_ascii a < Ascii.N_of_ascii b)%N → str_lt (String a s) (String b t).
Proof.
  intros Hlt. unfold str_lt, String.le, String.leb. cbn [String.compare]. unfold Ascii.compare.
  rewrite (proj2 (N.compare_lt_iff _ _) Hlt). split; [done|]. intros [= -> ->]. lia.
Qed.

Lemma str_lt_app_same p s t : str_lt s t → str_lt (p +:+ s) (p +:+ t).
Proof. intros Hst. induction p as [|a p IH]; [done|]. by apply str_lt_cons_same. Qed.

Lemma pretty_N_go_app x s : pretty_N_go x s = pretty_N_go x "" +:+ s.
Proof.
  revert s. induction (N.lt_wf_0 x) as [x _ IH]; intros s.
  destruct (decide (x = 0%N)) as [->|Hx]; [by rewrite !pretty_N_go_0|].
  rewrite !(pretty_N_go_step x) by lia.
  assert (x / 10 < x)%N as Hlt by (apply N.div_lt; lia).
  rewrite (IH _ Hlt). rewrite (IH _ Hlt (String _ "")).
  apply bytes_inj. rewrite !bytes_app, <-app_assoc. done.
Qed.

Lemma pretty_N_char_lt d e : (d < e < 10)%N →
  (Ascii.N_of_ascii (pretty_N_char d) < Ascii.N_of_ascii (pretty_N_char e))%N.
Proof.
  intros H. assert (∀ d, (d < 10)%N → Ascii.N_of_ascii (pretty_N_char d) = (48 + d)%N) as Hc.
  { clear. intros d Hd. assert (d ∈ N.of_nat <$> seq 0 10) as Hin.
    { apply list_elem_of_fmap. exists (N.to_nat d). rewrite elem_of_seq. lia. }
    revert Hin. cbv [seq fmap list_fmap]. rewrite !elem_of_cons, elem_of_nil. naive_solver. }
  rewrite !Hc by lia. lia.
Qed.

(** Numerals of the same length compare as the numbers do. *)
Lemma pretty_N_go_lt k x y s t :
  (10 ^ k ≤ x)%N → (x < y)%N → (y < 10 ^ N.succ k)%N → str_lt (pretty_N_go x s) (pretty_N_go y t).
Proof.
  revert x y s t. induction k as [|k IH] using N.peano_ind; intros x y s t Hx Hxy Hy.
  - rewrite (pretty_N_go_step x), (pretty_N_go_step y) by lia. change (10 ^ N.succ 0)%N with 10%N in Hy. change (10 ^ 0)%N with 1%N in Hx.
    rewrite !N.div_small, !pretty_N_go_0, !N.mod_small by lia.
    apply str_lt_cons_lt, pretty_N_char_lt. lia.
  - rewrite (N.pow_succ_r' 10 (N.succ k)) in Hy. rewrite (N.pow_succ_r' 10 k) in Hx, Hy.
    setoid_rewrite (N.pow_succ_r' 10 k) in IH.
    assert (0 < 10 ^ k)%N as Hm by (apply N.neq_0_lt_0, N.pow_nonzero; lia).
    generalize dependent (10 ^ k)%N. intros m IH Hx Hy Hm.
    rewrite (pretty_N_go_step x), (pretty_N_go_step y) by lia.
    pose proof (N.div_mod x 10 ltac:(lia)) as Hdx. pose proof (N.div_mod y 10 ltac:(lia)) as Hdy.
    pose proof (N.mod_lt x 10 ltac:(lia)). pose proof (N.mod_lt y 10 ltac:(lia)).
    destruct (decide (x / 10 < y / 10)%N) as [Hlt|Hge].
    + apply IH; [lia|done|apply N.Div0.div_lt_upper_bound; lia].
    + pose proof (N.Div0.div_le_mono x y 10 ltac:(lia)) as Hle.
      assert (x / 10 = y / 10)%N as Heq by (apply N.le_antisymm; [done|by apply N.nlt_ge]).
      rewrite Heq in Hdx |- *. rewrite (pretty_N_go_app _ (String _ s)), (pretty_N_go_app _ (String _ t)).
      apply str_lt_app_same, str_lt_cons_lt, pretty_N_char_lt. lia.
Qed.

(** Ten digits: the Unix times from 2001 to 2286. *)
Definition unix_time (t : Z) : Prop := 10 ^ 9 ≤ t < 10 ^ 10.

Lemma segment_name_lt i j : unix_time i → unix_time j → i < j → str_lt (segment_name i) (segment_name j).
Proof.
  unfold unix_time. intros Hi Hj Hij. unfold segment_name. apply str_lt_app_same.
  destruct i as [|i|i]; [lia| |lia]. destruct j as [|j|j]; [lia| |lia].
  change (pretty (Z.pos i)) with (pretty (N.pos i)). change (pretty (Z.pos j)) with (pretty (N.pos j)).
  unfold pretty, pretty_N. rewrite !decide_False by lia.
  rewrite <-!(pretty_N_go_app _ ".log"). apply (pretty_N_go_lt 9); lia.
Qed.

(** ** What is in a segment *)

Section lines.
Context `{Codec CommitLogEntry} `{!CutCodec CommitLogEntry}.
Implicit Types (e : CommitLogEntry) (es : list CommitLogEntry).

(** A line of the log: one whole record, or what failed writes left with
    whatever was appended behind it. *)
Inductive item := Whole (e : CommitLogEntry) | Broken (l : list byte).

Definition item_data (i : item) : list byte := match i with Whole e => marshal e | Broken l => l end.
Definition item_line (i : item) : list byte := item_data i ++ [newline].

Definition wholes (ls : list item) : list CommitLogEntry :=
  omap (λ i, match i with Whole e => Some e | Broken _ => None end) ls.
Definition broken_count (ls : list item) : nat := length ls - length (wholes ls).

(** The end of a segment that has no newline yet: the first bytes of records
    whose writes failed, one behind the other. *)
Definition cut : Type := CommitLogEntry * nat.
Definition cut_data (c : cut) : list byte := take c.2 (marshal c.1).
Definition tail_data (cs : list cut) : list byte := mjoin (cut_data <$> cs).

(** The line a record makes behind such an end, and the line the end is when
    nothing follows. *)
Definition finish (cs : list cut) e : item :=
  match cs with [] => Whole e | _ => Broken (tail_data cs ++ marshal e) end.
Definition close (cs : list cut) : list item :=
  match cs with
  | [] => []
  | [(e, k)] => if decide (length (marshal e) ≤ k)%nat then [Whole e] else [Broken (cut_data (e, k))]
  | _ => [Broken (tail_data cs)]
  end.

(** The lines and the end of the current segment, and what an append does to them. *)
Definition written : Type := list item * list cut.
Definition lines_of (w : written) : list item := w.1 ++ close w.2.
Definition append_written (out : write_outcome) e (w : written) : written :=
  match out with
  | TornAfter k =>
      if decide (k = 0%nat) then w
      else if decide (k ≤ length (marshal e))%nat then (w.1, w.2 ++ [(e, k)])
      else (w.1 ++ [finish w.2 e], [])
  | _ => (w.1 ++ [finish w.2 e], [])
  end.

Lemma wholes_app ls ls' : wholes (ls ++ ls') = wholes ls ++ wholes ls'.
Proof. apply omap_app. Qed.

Lemma length_wholes ls : (length (wholes ls) ≤ length ls)%nat.
Proof. induction ls as [|[e|l] ls IH]; simpl; unfold wholes in *; simpl in *; lia. Qed.

Lemma broken_count_app ls ls' : broken_count (ls ++ ls') = (broken_count ls + broken_count ls')%nat.
Proof.
  unfold broken_count. rewrite wholes_app, !length_app. pose proof (length_wholes ls). pose proof (length_wholes ls'). lia.
Qed.

(** *** Broken lines are not taken for records *)

(** The ends that arise: something of each record was written. *)
Definition cuts (cs : list cut) : Prop := Forall (λ c, cut_data c ≠ []) cs.

Record line_ok (l : list byte) : Prop := {
  lo_line : newline ∉ l;
  lo_cr : carriage_return ∉ l;
  lo_nonempty : l ≠ [];
}.

Definition item_ok (i : item) : Prop :=
  match i with Whole _ => True | Broken l => line_ok l ∧ (unmarshal l : option CommitLogEntry) = None end.

Lemma marshal_ok e : line_ok (marshal e).
Proof. split; [apply marshal_line|apply marshal_cr|apply marshal_nonempty]. Qed.

Lemma cut_prefix (c : cut) : cut_data c `prefix_of` marshal c.1.
Proof. exists (drop c.2 (marshal c.1)). symmetry. apply take_drop. Qed.

Lemma cut_whole e k : cut_data (e, k) = marshal e ↔ (length (marshal e) ≤ k)%nat.
Proof.
  unfold cut_data. simpl. split; [|apply take_ge]. intros Hk. apply (f_equal length) in Hk. rewrite length_take in Hk. lia.
Qed.

Lemma not_elem_prefix (b : byte) l l' : l `prefix_of` l' → b ∉ l' → b ∉ l.
Proof. intros [k ->] Hni Hin. apply Hni, elem_of_app. by left. Qed.

Lemma pieces_ok (ps : list (list byte)) :
  Forall (λ p, ∃ e, p `prefix_of` marshal e) ps → mjoin ps ≠ [] → line_ok (mjoin ps).
Proof.
  intros Hps Hne. assert (∀ b, (∀ e, b ∉ marshal e) → b ∉ mjoin ps) as Hni.
  { intros b Hb (p & Hin & Hp)%list_elem_of_join. rewrite Forall_forall in Hps. destruct (Hps p Hp) as [e He].
    by apply (not_elem_prefix b _ _ He). }
  split; [apply Hni, marshal_line|apply Hni, marshal_cr|done].
Qed.

Lemma cut_pieces cs : Forall (λ p, ∃ e, p `prefix_of` marshal e) (cut_data <$> cs).
Proof. apply Forall_fmap, Forall_true. intros c. exists c.1. apply cut_prefix. Qed.

Lemma finish_ok cs e : cuts cs → item_ok (finish cs e).
Proof.
  intros Hcs. destruct cs as [|c cs]; [done|]. apply Forall_cons in Hcs as [Hc _].
  set (ps := (cut_data <$> cs) ++ [marshal e]).
  assert (tail_data (c :: cs) ++ marshal e = cut_data c ++ mjoin ps) as Heq.
  { unfold tail_data, ps. rewrite fmap_cons, join_app. simpl. by rewrite app_nil_r, <-app_assoc. }
  assert (Forall (λ p, ∃ e, p `prefix_of` marshal e) ps) as Hps.
  { apply Forall_app. split; [apply cut_pieces|]. constructor; [by exists e|constructor]. }
  assert (mjoin ps ≠ []) as Hne.
  { unfold ps. rewrite join_app. simpl. rewrite app_nil_r. intros [_ ?%marshal_nonempty]%app_eq_nil. done. }
  simpl. rewrite Heq. split.
  - change (cut_data c ++ mjoin ps) with (mjoin (cut_data c :: ps)). apply pieces_ok.
    + constructor; [exists c.1; apply cut_prefix|done].
    + simpl. by intros [? _]%app_eq_nil.
  - apply (unmarshal_cut c.1); [apply cut_prefix|done|done|by right].
Qed.

Lemma close_ok cs : cuts cs → Forall item_ok (close cs).
Proof.
  intros Hcs. destruct cs as [|[e k] cs]; [constructor|]. pose proof Hcs as [Hc Hcs']%Forall_cons.
  assert (cut_data (e, k) ≠ marshal e ∨ mjoin (cut_data <$> cs) ≠ [] → item_ok (Broken (tail_data ((e, k) :: cs)))) as Hb.
  { intros Hor. split.
    - apply pieces_ok; [apply cut_pieces|]. simpl. by intros [? _]%app_eq_nil.
    - apply (unmarshal_cut e); [apply (cut_prefix (e, k))|done|apply cut_pieces|done]. }
  cbn [close]. destruct cs as [|c' cs].
  - case_decide as Hk; [by repeat constructor|]. constructor; [|constructor].
    replace (cut_data (e, k)) with (tail_data [(e, k)]) by apply app_nil_r. apply Hb. left. by rewrite cut_whole.
  - constructor; [|constructor]. apply Hb. right. apply Forall_cons in Hcs' as [Hc' _].
    simpl. by intros [? _]%app_eq_nil.
Qed.

(** The bytes of the end are those of the line it closes to. *)
Lemma close_data cs : cuts cs →
  item_data <$> close cs = match tail_data cs with [] => [] | l => [l] end.
Proof.
  intros Hcs. destruct cs as [|[e k] cs]; [done|]. apply Forall_cons in Hcs as [Hc _].
  assert (∀ l, match cut_data (e, k) ++ l with [] => [] | l => [l] end = [cut_data (e, k) ++ l]) as Hm
    by (intros l; by destruct (cut_data (e, k))).
  change (tail_data ((e, k) :: cs)) with (cut_data (e, k) ++ mjoin (cut_data <$> cs)). rewrite Hm.
  cbn [close]. destruct cs as [|c' cs]; [|done]. simpl. rewrite app_nil_r. case_decide as Hk; [|done].
  simpl. by rewrite (proj2 (cut_whole e k) Hk).
Qed.

Lemma append_written_cuts out e w : cuts w.2 → cuts (append_written out e w).2.
Proof.
  intros Hw. assert (cuts []) as Hnil by constructor. unfold append_written. destruct out as [|k|]; [done| |done].
  case_decide; [done|]. case_decide; [|done]. apply Forall_app. split; [done|]. constructor; [|constructor].
  unfold cut_data. simpl. pose proof (marshal_nonempty e). destruct (marshal e), k; done.
Qed.

(** The bytes an append adds. *)
Lemma append_written_data out e w :
  let d w := (w.1 ≫= item_line) ++ tail_data w.2 in
  d (append_written out e w) =
    d w ++ match out with TornAfter k => take k (marshal e ++ [newline]) | _ => marshal e ++ [newline] end.
Proof.
  intros d. assert (d (w.1 ++ [finish w.2 e], []) = d w ++ marshal e ++ [newline]) as Hf.
  { unfold d. simpl. rewrite bind_app. simpl. rewrite !app_nil_r, <-app_assoc. f_equal.
    unfold finish, item_line. destruct w.2; simpl; [done|]. by rewrite <-app_assoc. }
  unfold append_written. destruct out as [|k|]; [done| |done]. case_decide as H0; [subst k; by rewrite app_nil_r|].
  case_decide as Hk.
  - unfold d. cbn [fst snd]. unfold tail_data. rewrite fmap_app, join_app, app_assoc. f_equal. simpl.
    rewrite app_nil_r, take_app_le by done. done.
  - rewrite Hf. f_equal. rewrite take_ge; [done|]. rewrite length_app. simpl. lia.
Qed.
End lines.

(** ** Reading lines back *)

Section replay.
Context `{Codec CommitLogEntry} `{!CutCodec CommitLogEntry}.
Implicit Types (e : CommitLogEntry) (es : list CommitLogEntry) (ls : list item) (cs : list cut).

(** The line fits the scanner's buffer. *)
Definition short (i : item) : Prop := Z.of_nat (length (item_data i)) < maxToken.

(** Lines a recovery deals with: records that decode and carry their checksum,
    and broken lines. *)
Definition recoverable (i : item) : Prop :=
  short i ∧
  match i with
  | Whole e => encodable e ∧ cl_Checksum e = ComputeChecksum (marshal (with_checksum e 0))
  | Broken _ => item_ok i
  end.

Lemma drop_cr_none l : carriage_return ∉ l → drop_cr l = l.
Proof.
  intros Hni. unfold drop_cr. destruct (last l) as [b|] eqn:Hl; [|done]. case_decide; [subst|done].
  exfalso. apply Hni. apply last_Some in Hl as [l' ->]. apply elem_of_app. right. by left.
Qed.

Lemma take_drop_none d (l : list byte) :
  d ∉ l → take_while (λ b, bool_decide (b ≠ d)) l = l ∧ drop_while (λ b, bool_decide (b ≠ d)) l = [].
Proof.
  induction l as [|b l IH]; [done|]. intros [Hb Hl]%not_elem_of_cons. destruct (IH Hl) as [Ht Hd]. simpl.
  rewrite bool_decide_eq_true_2 by done. by rewrite Ht, Hd.
Qed.

Lemma recoverable_line i : recoverable i → line_ok (item_data i).
Proof. intros [_ Hi]. destruct i as [e|l]; [apply marshal_ok|apply Hi]. Qed.

Lemma scan_last l fuel :
  line_ok l → Z.of_nat (length l) < maxToken → (0 < fuel)%nat → scan_lines fuel l = ([l], false).
Proof.
  intros [Hnl Hcr Hne] Hshort Hf. destruct l as [|b r]; [done|]. destruct fuel as [|fuel]; [lia|]. cbn [scan_lines].
  destruct (take_drop_none newline _ Hnl) as [-> ->]. rewrite (proj2 (Z.leb_gt _ _)) by done.
  rewrite drop_cr_none by done. by destruct fuel.
Qed.

Lemma scan_tail cs fuel :
  cuts cs → Forall recoverable (close cs) → (length (close cs) ≤ fuel)%nat →
  scan_lines fuel (tail_data cs) = (item_data <$> close cs, false).
Proof.
  intros Hcs Hall Hf. pose proof (close_data cs Hcs) as Hd. rewrite Hd.
  destruct (tail_data cs) as [|b l] eqn:Ht; [by destruct fuel|].
  destruct (close cs) as [|i [|? ?]]; [done| |done]. apply Forall_cons in Hall as [Hall _].
  injection Hd as Hi. rewrite <-Hi. apply scan_last; [by apply recoverable_line|apply Hall|simpl in Hf; lia].
Qed.

Lemma scan_segment ls cs fuel :
  Forall recoverable ls → cuts cs → Forall recoverable (close cs) → (length ls + length (close cs) ≤ fuel)%nat →
  scan_lines fuel ((ls ≫= item_line) ++ tail_data cs) = (item_data <$> (ls ++ close cs), false).
Proof.
  intros Hall Hcs Hcl. revert fuel. induction Hall as [|i ls Hi _ IH]; intros fuel Hf; [by apply scan_tail|].
  destruct fuel as [|fuel]; [simpl in Hf; lia|]. rewrite bind_cons. unfold item_line at 1.
  pose proof (recoverable_line i Hi) as [Hnl Hcr Hne]. set (rest := (ls ≫= item_line) ++ tail_data cs) in *.
  assert (((item_data i ++ [newline]) ++ (ls ≫= item_line)) ++ tail_data cs = item_data i ++ newline :: rest) as ->.
  { unfold rest. by rewrite <-!app_assoc. }
  destruct (take_drop_until newline (item_data i) rest Hnl) as [Ht Hd].
  destruct (item_data i ++ newline :: rest) as [|b r] eqn:Hbr; [by destruct (item_data i)|].
  cbn [scan_lines]. rewrite Ht, Hd. rewrite (proj2 (Z.leb_gt _ _)) by apply Hi.
  cbn [drop]. rewrite IH by (simpl in Hf; lia). by rewrite drop_cr_none.
Qed.

(** The map the replay of [es] leaves. *)
Definition replayed es (m : gmap string MemTableEntry) : gmap string MemTableEntry :=
  foldl (λ m e, <[mt_Key (replay_entry e) := replay_entry e]> m) m es.

Definition max_sequence es (n : Z) : Z := foldl (λ n e, Z.max n (cl_SequenceNumber e)) n es.

Lemma recover_line_whole coins st m e :
  recoverable (Whole e) → is_service (rc_mem st) m →
  ∃ mem, recover_line coins st (marshal e) =
      Some (mkRecovery mem (S (rc_puts st)) (rc_count st + 1) (rc_skipped st)
              (Z.max (rc_max st) (cl_SequenceNumber e))) ∧
    is_service mem (<[mt_Key (replay_entry e) := replay_entry e]> m).
Proof.
  intros [_ [Henc Hck]] Hm. unfold recover_line.
  destruct (marshal e) as [|b r] eqn:Hmar; [by apply marshal_nonempty in Hmar|]. rewrite <-Hmar.
  rewrite unmarshal_marshal by done. unfold ValidateChecksum. rewrite <-Hck, bool_decide_eq_true_2 by done.
  rewrite andb_false_r. destruct (Put_spec (coins (rc_puts st)) (replay_entry e) _ _ Hm) as (mem & -> & Hmem & _).
  cbn [mbind option_bind]. exists mem. split; [|done]. f_equal. f_equal.
  destruct (Z.ltb_spec (rc_max st) (cl_SequenceNumber e)); lia.
Qed.

Lemma recover_line_broken coins st l : item_ok (Broken l) → recover_line coins st l = Some (skip st).
Proof. intros [[_ _ Hne] Hnone]. unfold recover_line. destruct l; [done|]. by rewrite Hnone. Qed.

Lemma recover_items coins ls st m :
  Forall recoverable ls → is_service (rc_mem st) m →
  ∃ mem, foldM (recover_line coins) st (item_data <$> ls) =
      Some (mkRecovery mem (rc_puts st + length (wholes ls)) (rc_count st + Z.of_nat (length (wholes ls)))
              (rc_skipped st + Z.of_nat (broken_count ls)) (max_sequence (wholes ls) (rc_max st))) ∧
    is_service mem (replayed (wholes ls) m).
Proof.
  intros Hall. revert st m. induction Hall as [|i ls Hi Hls IH]; intros st m Hm.
  { exists (rc_mem st). simpl. split; [|done]. destruct st. simpl. by rewrite Nat.add_0_r, !Z.add_0_r. }
  rewrite fmap_cons. cbn [foldM]. pose proof (length_wholes ls). destruct i as [e|l]; cbn [item_data].
  - destruct (recover_line_whole coins st m e Hi Hm) as (mem & -> & Hmem). cbn [mbind option_bind].
    match goal with |- context [foldM _ ?st1 _] => destruct (IH st1 _ Hmem) as (mem' & -> & Hmem') end.
    exists mem'. split; [|done]. unfold broken_count in *. cbn [rc_puts rc_count rc_skipped rc_max].
    change (wholes (Whole e :: ls)) with (e :: wholes ls). cbn [length]. f_equal. f_equal; lia.
  - rewrite recover_line_broken by apply Hi. cbn [mbind option_bind].
    destruct (IH (skip st) m Hm) as (mem' & -> & Hmem'). exists mem'. split; [|done].
    unfold broken_count in *. cbn [rc_puts rc_count rc_skipped rc_max skip].
    change (wholes (Broken l :: ls)) with (wholes ls). cbn [length]. f_equal. f_equal; lia.
Qed.

Lemma max_sequence_max es a b : max_sequence es (Z.max a b) = Z.max a (max_sequence es b).
Proof.
  unfold max_sequence. revert b. induction es as [|e es IH]; intros b; simpl; [done|].
  rewrite <-IH. f_equal. lia.
Qed.

Lemma length_segment ls cs : cuts cs → (length ls + length (close cs) ≤ length ((ls ≫= item_line) ++ tail_data cs))%nat.
Proof.
  intros Hcs. induction ls as [|i ls IH].
  - assert (length (close cs) = length (item_data <$> close cs)) as -> by by rewrite length_fmap.
    rewrite (close_data cs Hcs). simpl. destruct (tail_data cs); simpl; lia.
  - rewrite bind_cons. unfold item_line at 1. rewrite !length_app in *. simpl. lia.
Qed.

Lemma recover_file_lines coins lg name ls cs st m :
  lg !! name = Some ((ls ≫= item_line) ++ tail_data cs) → cuts cs → Forall recoverable (ls ++ close cs) →
  is_service (rc_mem st) m → 0 ≤ rc_max st →
  let l := ls ++ close cs in
  ∃ mem, recover_file coins lg st name =
      Some (mkRecovery mem (rc_puts st + length (wholes l)) (rc_count st + Z.of_nat (length (wholes l)))
              (rc_skipped st + Z.of_nat (broken_count l)) (max_sequence (wholes l) (rc_max st))) ∧
    is_service mem (replayed (wholes l) m).
Proof.
  intros Hlg Hcs Hall Hm Hmax l. pose proof Hall as [Hls Hcl]%Forall_app. fold l in Hall.
  unfold recover_file, recoverFromFile. rewrite Hlg. cbn [default from_option id].
  rewrite (scan_segment ls cs _ Hls Hcs Hcl); [|eapply length_segment; exact Hcs]. fold l.
  destruct (recover_items coins l (mkRecovery (rc_mem st) (rc_puts st) 0 0 0) m Hall Hm) as (mem & Hf & Hmem).
  rewrite Hf. exists mem. split; [|done]. cbn [mbind option_bind rc_mem rc_puts rc_count rc_skipped rc_max].
  f_equal. f_equal; try lia.
  rewrite <-(Z.max_l (rc_max st) 0) at 3 by lia. rewrite max_sequence_max.
  destruct (Z.ltb_spec (rc_max st) (max_sequence (wholes l) 0)); lia.
Qed.
End replay.

(** ** Segments *)

Section segments.
Context `{Codec CommitLogEntry} `{!CutCodec CommitLogEntry}.
Implicit Types (e : CommitLogEntry) (ls : list item) (w : written) (fs : list (string * written)).

Definition segment_data w : list byte := (w.1 ≫= item_line) ++ tail_data w.2.
Definition segment_ok w : Prop := Forall item_ok w.1 ∧ cuts w.2.

Definition items_of fs : list item := mjoin (lines_of <$> fs.*2).

(** The directory holds exactly the segments [fs], oldest first. *)
Record log_is fs (lg : gmap string (list byte)) : Prop := {
  li_sorted : StronglySorted str_lt fs.*1;
  li_names : Forall (λ name, is_segment name = true) fs.*1;
  li_ok : Forall segment_ok fs.*2;
  li_map : lg = list_to_map (prod_map id segment_data <$> fs);
}.

Lemma prod_map_fst fs : (prod_map id segment_data <$> fs).*1 = fs.*1.
Proof. rewrite <-list_fmap_compose. by apply list_fmap_ext. Qed.

Lemma log_is_lookup fs lg name w : log_is fs lg → (name, w) ∈ fs → lg !! name = Some (segment_data w).
Proof.
  intros [Hs _ _ ->] Hin. apply elem_of_list_to_map_1.
  - rewrite prod_map_fst. by apply sorted_keys_NoDup.
  - apply (list_elem_of_fmap_2 (prod_map id segment_data) _ _ Hin).
Qed.

Lemma items_of_snoc fs name w : items_of (fs ++ [(name, w)]) = items_of fs ++ lines_of w.
Proof. unfold items_of. rewrite !fmap_app, join_app. simpl. by rewrite app_nil_r. Qed.

Lemma items_of_ok fs lg : log_is fs lg → Forall item_ok (items_of fs).
Proof.
  intros [_ _ Hok _]. unfold items_of. induction Hok as [|w ws [Hl Hc] _ IH]; [constructor|].
  rewrite fmap_cons. simpl. apply Forall_app. split; [|done]. apply Forall_app. split; [done|by apply close_ok].
Qed.

Lemma sorted_str_unique (l1 l2 : list string) :
  StronglySorted str_lt l1 → Sorted String.le l2 → l1 ≡ₚ l2 → l2 = l1.
Proof.
  intros H1 H2 Hp. symmetry. apply (Sorted_unique String.le); [|done|done].
  apply StronglySorted_Sorted. clear -H1. induction H1 as [|x l _ IH Hall]; constructor; [done|].
  eapply Forall_impl; [exact Hall|]. by intros ? [? _].
Qed.

Lemma segment_files_spec fs lg : log_is fs lg → segment_files lg = fs.*1.
Proof.
  intros [Hs Hn _ Hm]. apply sorted_str_unique; [done|apply Sorted_merge_sort; apply _|].
  unfold segment_files. rewrite merge_sort_Permutation.
  assert ((map_to_list lg).*1 ≡ₚ fs.*1) as Hp.
  { subst lg. rewrite map_to_list_to_map; rewrite prod_map_fst; [done|]. by apply sorted_keys_NoDup. }
  rewrite Hp. by rewrite filter_all.
Qed.

Lemma recover_segments coins fs lg st m :
  log_is fs lg → Forall recoverable (items_of fs) → is_service (rc_mem st) m → 0 ≤ rc_max st →
  let l := items_of fs in
  ∃ mem, foldM (recover_file coins lg) st fs.*1 =
      Some (mkRecovery mem (rc_puts st + length (wholes l)) (rc_count st + Z.of_nat (length (wholes l)))
              (rc_skipped st + Z.of_nat (broken_count l)) (max_sequence (wholes l) (rc_max st))) ∧
    is_service mem (replayed (wholes l) m).
Proof.
  intros Hli. assert (∀ name w, (name, w) ∈ fs → lg !! name = Some (segment_data w)) as Hlk.
  { intros name w. by apply log_is_lookup. }
  pose proof (li_ok _ _ Hli) as Hok.
  clear Hli. revert st m. induction fs as [|[name [ls cs]] fs IH]; intros st m Hall Hm Hmax.
  { exists (rc_mem st). simpl. split; [|done]. destruct st. simpl. by rewrite Nat.add_0_r, !Z.add_0_r. }
  change (items_of ((name, (ls, cs)) :: fs)) with ((ls ++ close cs) ++ items_of fs) in *.
  rewrite !fmap_cons in Hok. apply Forall_cons in Hok as [[_ Hcs] Hok]. cbn [fst snd] in Hcs.
  apply Forall_app in Hall as [Hls Hall]. rewrite fmap_cons. cbn [foldM fst].
  destruct (recover_file_lines coins lg name ls cs st m) as (mem & -> & Hmem); [apply (Hlk name (ls, cs)); left|done..|].
  cbn [mbind option_bind].
  match goal with |- context [foldM _ ?st1 _] =>
    destruct (IH ltac:(intros; apply Hlk; by right) Hok st1 _ Hall Hmem) as (mem' & -> & Hmem') end.
  { cbn [rc_max]. rewrite <-(Z.max_l (rc_max st) 0), max_sequence_max by lia. lia. }
  exists mem'. cbn [rc_puts rc_count rc_skipped rc_max]. rewrite !wholes_app, !broken_count_app, !length_app. split.
  - f_equal. f_equal; [lia|lia|lia|]. unfold max_sequence. by rewrite !foldl_app.
  - unfold replayed in *. by rewrite !wholes_app, !foldl_app in *.
Qed.

Lemma is_segment_name id : is_segment (segment_name id) = true.
Proof.
  unfold is_segment, segment_name. apply bool_decide_eq_true_2. rewrite !bytes_app, !length_app.
  split_and!; [done|simpl; lia|]. rewrite (assoc (++)), drop_app_length'; [done|].
  rewrite length_app. simpl. lia.
Qed.

(** The file the log writes to, also after it was closed. *)
Definition handle_name (h : handle) : option string :=
  match h with NoFile => None | Open name | Closed name => Some name end.

(** The state of a log: the current segment is the newest one, and the next
    one will not sort before it. *)
Definition log_inv (s : CommitLogService) w (t : Z) : Prop :=
  ∃ fs i ls, handle_name (currentFile s) = Some (segment_name i) ∧
    unix_time i ∧ unix_time (segmentID s) ∧ unix_time t ∧ i ≤ segmentID s ≤ t ∧
    log_is (fs ++ [(segment_name i, (ls, w.2))]) (log s) ∧ w.1 = items_of fs ++ ls.

(** A segment later than every other is appended empty. *)
Lemma open_append_new fs lg name :
  log_is fs lg → is_segment name = true → Forall (λ n, str_lt n name) fs.*1 →
  log_is (fs ++ [(name, ([], []))]) (open_append name lg).
Proof.
  intros [Hs Hn Ht ->] Hname Hlt.
  assert (name ∉ (prod_map id segment_data <$> fs).*1) as Hni.
  { rewrite prod_map_fst. intros Hin. rewrite Forall_forall in Hlt. by destruct (Hlt name Hin). }
  unfold open_append. rewrite not_elem_of_list_to_map_1 by done. split.
  - rewrite fmap_app. apply StronglySorted_app_2; [|done|repeat constructor].
    intros n n' Hn' ->%list_elem_of_singleton. rewrite Forall_forall in Hlt. by apply Hlt.
  - rewrite fmap_app. apply Forall_app. split; [done|by repeat constructor].
  - rewrite fmap_app. apply Forall_app. split; [done|]. repeat constructor.
  - rewrite fmap_app. cbn [fmap list_fmap prod_map]. by rewrite list_to_map_snoc.
Qed.

(** The contents of the last segment are replaced. *)
Lemma log_is_last fs lg name w w' :
  log_is (fs ++ [(name, w)]) lg → segment_ok w' →
  log_is (fs ++ [(name, w')]) (<[name := segment_data w']> lg).
Proof.
  intros [Hs Hn Ht ->] Hp. rewrite fmap_app in Hs, Hn. cbn [fmap list_fmap fst] in Hs, Hn.
  rewrite fmap_app in Ht. apply Forall_app in Ht as [Ht _].
  assert (name ∉ (prod_map id segment_data <$> fs).*1) as Hni.
  { rewrite prod_map_fst. apply sorted_keys_NoDup, NoDup_app in Hs as (_ & Hd & _). intros Hx. apply (Hd _ Hx). by left. }
  split.
  - by rewrite fmap_app.
  - by rewrite fmap_app.
  - rewrite fmap_app. apply Forall_app. split; [done|constructor; [done|constructor]].
  - rewrite !fmap_app. cbn [fmap list_fmap prod_map]. by rewrite !list_to_map_snoc, insert_insert_eq.
Qed.

Lemma log_is_last_ok fs name w lg : log_is (fs ++ [(name, w)]) lg → segment_ok w ∧ lg !! name = Some (segment_data w).
Proof.
  intros Hli. split.
  - pose proof (li_ok _ _ Hli) as Hok. rewrite fmap_app in Hok. apply Forall_app in Hok as [_ Hok]. by apply Forall_cons in Hok as [? _].
  - apply (log_is_lookup _ _ name w Hli). apply elem_of_app. right. by left.
Qed.

(** What an open of the segment [new] does to the current one. *)
Definition reopened (old new : option string) w : written :=
  if decide (old = new) then w else (lines_of w, []).

(** Opening the segment [j] when the newest one is [i]. *)
Lemma log_is_open lg i fs ls cs j :
  unix_time i → unix_time j → i ≤ j →
  log_is (fs ++ [(segment_name i, (ls, cs))]) lg →
  ∃ fs' lsj, log_is (fs' ++ [(segment_name j, (lsj, (reopened (Some (segment_name i)) (Some (segment_name j)) (items_of fs ++ ls, cs)).2))])
      (open_append (segment_name j) lg) ∧
    (reopened (Some (segment_name i)) (Some (segment_name j)) (items_of fs ++ ls, cs)).1 = items_of fs' ++ lsj.
Proof.
  intros Hi Hj Hij Hli. unfold reopened. destruct (decide (i = j)) as [->|Hne].
  - rewrite decide_True by done. exists fs, ls. split; [|done]. unfold open_append.
    by rewrite (proj2 (log_is_last_ok _ _ _ _ Hli)).
  - pose proof (segment_name_lt i j Hi Hj ltac:(lia)) as Hlt.
    rewrite decide_False by (intros Heq%(inj Some); by destruct Hlt).
    exists (fs ++ [(segment_name i, (ls, cs))]), []. cbn [fst snd]. split.
    + apply open_append_new; [done|apply is_segment_name|].
      destruct Hli as [Hs _ _ _]. rewrite fmap_app in *. apply Forall_app. split; [|by apply Forall_singleton].
      apply Forall_forall. intros n Hn. etrans; [|exact Hlt].
      apply (StronglySorted_app_1_elem_of str_lt fs.*1 [segment_name i]); [done|done|by left].
    + rewrite items_of_snoc, app_nil_r. unfold lines_of. cbn [fst snd]. by rewrite <-app_assoc.
Qed.

(** *** Runs *)

Definition appended (out : write_outcome) e (s : CommitLogService) w : written :=
  match currentFile s with
  | Open _ => append_written out (sealed e (u64 (sequenceNumber s + 1))) w
  | _ => w
  end.

(** Runs of the log: created in an empty directory, appended to with any
    outcome of the write, rotated when due, and opened again after a stop, also
    a stop in the middle of a line, which is an append of which some bytes were
    written; [t] is the latest clock reading. *)
Inductive log_run (cfg : CommitLogConfig) : CommitLogService → written → Z → Prop :=
  | run_new now1 now2 s :
      unix_time now1 → unix_time now2 → now1 ≤ now2 →
      NewCommitLogService cfg false now1 now2 ∅ = Ok s → log_run cfg s ([], []) now2
  | run_append s w t out e r s' :
      log_run cfg s w t → Append out e s = (r, s') → log_run cfg s' (appended out e s w) t
  | run_rotate s w t fails now s' :
      log_run cfg s w t → t ≤ now → unix_time now → checkRotation fails now s = s' →
      log_run cfg s' (reopened (handle_name (currentFile s)) (handle_name (currentFile s')) w) now
  | run_reopen s w t now1 now2 s' :
      log_run cfg s w t → t ≤ now1 ≤ now2 → unix_time now2 →
      NewCommitLogService cfg false now1 now2 (log s) = Ok s' →
      log_run cfg s' (reopened (handle_name (currentFile s)) (handle_name (currentFile s')) w) now2
  | run_recover s w t coins mem st s' :
      log_run cfg s w t → Recover coins mem s = Some (st, s') → log_run cfg s' w t.

Lemma append_written_app out e ls ls' cs :
  append_written out e (ls ++ ls', cs) =
    (ls ++ (append_written out e (ls', cs)).1, (append_written out e (ls', cs)).2).
Proof. unfold append_written. destruct out; repeat case_decide; simpl; by rewrite <-?app_assoc. Qed.

Lemma append_segment_ok out e w : segment_ok w → segment_ok (append_written out e w).
Proof.
  intros [Hl Hc]. split; [|by apply append_written_cuts].
  assert (Forall item_ok (w.1 ++ [finish w.2 e])) as Hf.
  { apply Forall_app. split; [done|]. constructor; [by apply finish_ok|constructor]. }
  unfold append_written. destruct out; repeat case_decide; done.
Qed.

Lemma append_inv s w t out e r s' :
  log_inv s w t → Append out e s = (r, s') → log_inv s' (appended out e s w) t.
Proof.
  intros (fs & i & ls & Hcur & Hi & Hid & Ht & Hle & Hli & Hw) Happ. destruct w as [wl cs]. cbn [fst snd] in *. subst wl.
  unfold Append, appended in *. destruct (currentFile s) as [|name|name] eqn:Hf; [done| |].
  2:{ injection Happ as _ <-. exists fs, i, ls. by rewrite ?Hf. }
  simpl in Hcur. injection Hcur as ->. destruct (log_is_last_ok _ _ _ _ Hli) as [Hok Hlk].
  rewrite Hlk in Happ. cbn [default from_option id] in Happ. cbv zeta in Happ. set (e' := sealed e _) in *.
  rewrite append_written_app. exists fs, i, (append_written out e' (ls, cs)).1. cbn [fst snd].
  pose proof (log_is_last _ _ _ _ _ Hli (append_segment_ok out e' _ Hok)) as Hl.
  pose proof (append_written_data out e' (ls, cs)) as Hd. cbv zeta in Hd.
  assert (log s' = <[segment_name i := segment_data (append_written out e' (ls, cs))]> (log s) ∧
          currentFile s' = Open (segment_name i) ∧ segmentID s' = segmentID s) as (-> & -> & ->).
  { unfold segment_data. rewrite Hd. destruct out; injection Happ as _ <-; done. }
  split_and!; try done; [lia|lia|]. by destruct (append_written out e' (ls, cs)).
Qed.

Lemma rotate_inv s w t fails now s' :
  log_inv s w t → t ≤ now → unix_time now → checkRotation fails now s = s' →
  log_inv s' (reopened (handle_name (currentFile s)) (handle_name (currentFile s')) w) now.
Proof.
  intros Hinv Hle Hnow <-.
  assert (∀ s1, handle_name (currentFile s1) = handle_name (currentFile s) → log s1 = log s → segmentID s1 = segmentID s →
    log_inv s1 (reopened (handle_name (currentFile s)) (handle_name (currentFile s1)) w) now) as Hsame.
  { intros s1 H1 H2 H3. destruct Hinv as (fs & i & ls & Hcur & Hi & Hid & Ht & Hle' & Hli & Hw).
    unfold reopened. rewrite decide_True by congruence. exists fs, i, ls. rewrite H1, H2, H3. split_and!; try done; lia. }
  unfold checkRotation. destruct (currentFile s) as [|name|name] eqn:Hf; [by apply Hsame; rewrite ?Hf| |by apply Hsame; rewrite ?Hf].
  destruct (_ <=? _); [|by apply Hsame; rewrite ?Hf]. unfold openNewSegment. rewrite Hf.
  destruct fails; [by apply Hsame|]. cbn [snd currentFile].
  destruct Hinv as (fs & i & ls & Hcur & Hi & Hid & Ht & Hle' & Hli & Hw). rewrite Hf in Hcur. simpl in Hcur. injection Hcur as ->.
  destruct w as [wl cs]. cbn [fst snd] in *. subst wl.
  destruct (log_is_open (log s) i fs ls cs (segmentID s)) as (fs' & lsj & Hli' & Heq); [done|done|lia|done|].
  exists fs', (segmentID s), lsj. cbn [currentFile segmentID log]. split_and!; try done; lia.
Qed.

Lemma reopen_inv cfg s w t now1 now2 s' :
  log_inv s w t → t ≤ now1 ≤ now2 → unix_time now2 → NewCommitLogService cfg false now1 now2 (log s) = Ok s' →
  log_inv s' (reopened (handle_name (currentFile s)) (handle_name (currentFile s')) w) now2.
Proof.
  intros (fs & i & ls & Hcur & Hi & Hid & Ht & Hle' & Hli & Hw) Hle Hnow Hnew.
  unfold NewCommitLogService in Hnew. simpl in Hnew. injection Hnew as <-. cbn [currentFile]. rewrite Hcur.
  assert (unix_time now1) as Hn1 by (unfold unix_time in *; lia).
  destruct w as [wl cs]. cbn [fst snd] in *. subst wl.
  destruct (log_is_open (log s) i fs ls cs now1) as (fs' & lsj & Hli' & Heq); [done|done|lia|done|].
  exists fs', now1, lsj. cbn [currentFile segmentID log]. split_and!; try done; lia.
Qed.
End segments.

Section runs.
Context `{Codec CommitLogEntry} `{!CutCodec CommitLogEntry}.

Lemma log_run_inv cfg s w t : log_run cfg s w t → log_inv s w t.
Proof.
  induction 1 as [now1 now2 s H1 H2 Hle Hnew|s w t out e r s' _ IH Happ|s w t fails now s' _ IH Hle Hnow Hs
                 |s w t now1 now2 s' _ IH Hle Hnow Hnew|s w t coins mem st s' _ IH Hrec].
  - unfold NewCommitLogService in Hnew. simpl in Hnew. injection Hnew as <-.
    exists [], now1, []. cbn [currentFile segmentID log fst snd]. split_and!; try done.
    apply (open_append_new [] ∅); [split; constructor|apply is_segment_name|constructor].
  - by eapply append_inv.
  - by eapply rotate_inv.
  - by eapply reopen_inv.
  - unfold Recover in Hrec. destruct (foldM _ _ _) as [st'|]; [|done]. by injection Hrec as <- <-.
Qed.

(** An append that leaves the directory as it was adds no line. *)
Lemma append_same_log cfg s w t out e r s' :
  log_run cfg s w t → Append out e s = (r, s') → log s' = log s → appended out e s w = w.
Proof.
  intros Hrun Happ Hlog. destruct (log_run_inv _ _ _ _ Hrun) as (fs & i & ls & Hcur & _ & _ & _ & _ & Hli & _).
  unfold appended, Append in *. destruct (currentFile s) as [|name|name]; [done| |done]. simpl in Hcur. injection Hcur as ->.
  destruct (log_is_last_ok _ _ _ _ Hli) as [_ Hlk]. rewrite Hlk in Happ. cbn [default from_option id] in Happ. cbv zeta in Happ.
  set (e' := sealed e _) in *. set (d := segment_data _) in *.
  assert (∀ x, <[segment_name i := d ++ x]> (log s) = log s → x = []) as Hx.
  { intros x Hx. apply (f_equal (.!! segment_name i)) in Hx. rewrite lookup_insert_eq, Hlk in Hx. injection Hx as Hx.
    apply (app_inv_head d). by rewrite app_nil_r. }
  assert (marshal e' ++ [newline] ≠ []) as Hne by (by intros [_ ?]%app_eq_nil).
  destruct out as [|k|]; injection Happ as _ <-; cbn [log] in Hlog; apply Hx in Hlog; try done.
  destruct k as [|k]; [done|]. by destruct (marshal e' ++ [newline]).
Qed.

(** What an append that succeeds adds behind a whole line. *)
Lemma append_ok cfg s ls t out e e' s' :
  log_run cfg s (ls, []) t → Append out e s = (Ok e', s') →
  e' = sealed e (u64 (sequenceNumber s + 1)) ∧ log_run cfg s' (ls ++ [Whole e'], []) t.
Proof.
  intros Hrun Happ. pose proof (run_append _ _ _ _ _ _ _ _ Hrun Happ) as Hrun'. unfold appended, Append in *.
  destruct (currentFile s) as [|name|name]; [done| |done]. cbv zeta in Happ.
  destruct out as [|k|]; [|done|destruct (SyncWrites _); [done|]]; by injection Happ as <- <-.
Qed.

Lemma log_run_ok cfg s w t : log_run cfg s w t → Forall item_ok (lines_of w).
Proof.
  intros Hrun. destruct (log_run_inv _ _ _ _ Hrun) as (fs & i & ls & _ & _ & _ & _ & _ & Hli & Hw).
  apply items_of_ok in Hli. rewrite items_of_snoc in Hli. destruct w as [wl cs]. unfold lines_of in *. cbn [fst snd] in *. subst wl.
  by rewrite <-app_assoc.
Qed.

(** *** Checksums *)

Definition has_checksum (e : CommitLogEntry) : Prop := cl_Checksum e = ComputeChecksum (marshal (with_checksum e 0)).

Lemma sealed_checksum e n : has_checksum (sealed e n).
Proof. done. Qed.

Definition checksums (w : written) : Prop := Forall has_checksum (wholes w.1) ∧ Forall (λ c, has_checksum c.1) w.2.

Lemma finish_checksum cs e : has_checksum e → Forall has_checksum (wholes [finish cs e]).
Proof. intros He. destruct cs; simpl; repeat constructor; done. Qed.

Lemma lines_checksums w : checksums w → Forall has_checksum (wholes (lines_of w)).
Proof.
  intros [Hl Hc]. unfold lines_of. rewrite wholes_app. apply Forall_app. split; [done|].
  destruct w.2 as [|[e k] [|? ?]]; [constructor| |constructor]. apply Forall_cons in Hc as [He _]. simpl.
  case_decide; repeat constructor; done.
Qed.

Lemma append_checksums out e w : has_checksum e → checksums w → checksums (append_written out e w).
Proof.
  intros He [Hl Hc]. assert (checksums (w.1 ++ [finish w.2 e], [])) as Hf.
  { split; [|constructor]. cbn [fst]. rewrite wholes_app. apply Forall_app. split; [done|by apply finish_checksum]. }
  unfold append_written. destruct out as [|k|]; [done| |done]. case_decide; [by split|]. case_decide; [|done].
  split; [done|]. apply Forall_app. split; [done|]. by constructor.
Qed.

Lemma reopened_checksums old new w : checksums w → checksums (reopened old new w).
Proof.
  intros Hw. unfold reopened. case_decide; [done|]. split; [by apply lines_checksums|constructor].
Qed.

Lemma log_run_checksums cfg s w t : log_run cfg s w t → checksums w.
Proof.
  induction 1 as [|s w t out e r s' _ IH _|s w t fails now s' _ IH _ _ _|s w t now1 now2 s' _ IH _ _ _|]; [repeat constructor|..|done].
  - unfold appended. case_match; [done| |done]. by apply append_checksums.
  - by apply reopened_checksums.
  - by apply reopened_checksums.
Qed.

(** Recovery starts no flush. *)
Lemma foldM_immutable {X} (step : recovery → X → option recovery) st xs st' :
  (∀ st x st', step st x = Some st' → immutableMT (rc_mem st') = immutableMT (rc_mem st)) →
  foldM step st xs = Some st' → immutableMT (rc_mem st') = immutableMT (rc_mem st).
Proof.
  intros Hstep. revert st. induction xs as [|x xs IH]; intros st; simpl; [by intros [= <-]|].
  destruct (step st x) as [st1|] eqn:Hs; simpl; [|done]. intros Hf. rewrite (IH st1 Hf). by eapply Hstep.
Qed.

Lemma recover_line_immutable coins st l st' :
  recover_line coins st l = Some st' → immutableMT (rc_mem st') = immutableMT (rc_mem st).
Proof.
  unfold recover_line, Put. destruct l; [by intros [= <-]|]. case_match; [|by intros [= <-]].
  case_match; [by intros [= <-]|]. destruct (mt_Put _ _ _); simpl; [|done]. by intros [= <-].
Qed.

Lemma Recover_immutable coins mem s st s' :
  Recover coins mem s = Some (st, s') → immutableMT (rc_mem st) = immutableMT mem.
Proof.
  unfold Recover. destruct (foldM _ _ _) as [st1|] eqn:Hf; [|done]. intros [= <- _].
  apply (foldM_immutable _ (mkRecovery mem 0 0 0 0) _ _) in Hf; [done|].
  intros st2 name st3. unfold recover_file, recoverFromFile. destruct (scan_lines _ _) as [lines err].
  destruct (foldM _ _ lines) as [st4|] eqn:Hl; simpl; [|done].
  apply foldM_immutable in Hl; [|apply recover_line_immutable]. by destruct err; intros [= <-].
Qed.

(** Recovery after a run. *)
Lemma recover_run cfg s w t mcfg coins :
  log_run cfg s w t → let ls := lines_of w in Forall encodable (wholes ls) → Forall short ls →
  ∃ st s', Recover coins (NewMemTableService mcfg) s = Some (st, s') ∧
    rc_count st = Z.of_nat (length (wholes ls)) ∧ rc_skipped st = Z.of_nat (broken_count ls) ∧
    sequenceNumber s' = max_sequence (wholes ls) 0 ∧ log s' = log s ∧ is_service (rc_mem st) (replayed (wholes ls) ∅).
Proof.
  intros Hrun ls Henc Hshort. pose proof (lines_checksums _ (log_run_checksums _ _ _ _ Hrun)) as Hck.
  pose proof (log_run_ok _ _ _ _ Hrun) as Hok. fold ls in Hck, Hok.
  assert (Forall recoverable ls) as Hrec.
  { clear -Henc Hshort Hck Hok. induction ls as [|i ls IH]; [constructor|].
    apply Forall_cons in Hshort as [? ?]. apply Forall_cons in Hok as [? ?]. destruct i as [e|l].
    - apply Forall_cons in Henc as [? ?]. apply Forall_cons in Hck as [? ?]. constructor; [done|auto].
    - constructor; [done|auto]. }
  destruct (log_run_inv _ _ _ _ Hrun) as (fs & i & lsi & _ & _ & _ & _ & _ & Hli & Hw).
  assert (items_of (fs ++ [(segment_name i, (lsi, w.2))]) = ls) as Hls.
  { rewrite items_of_snoc. unfold ls, lines_of. cbn [fst snd]. by rewrite Hw, <-app_assoc. }
  destruct (recover_segments coins _ _ (mkRecovery (NewMemTableService mcfg) 0 0 0 0) ∅ Hli)
    as (mem & Hf & Hmem); [by rewrite Hls|apply NewMemTableService_spec|done|]. rewrite Hls in Hf, Hmem.
  unfold Recover. rewrite (segment_files_spec _ _ Hli), Hf. cbn [mbind option_bind].
  eexists _, _. split; [done|]. done.
Qed.

(** ** Properties *)

(** C11: what is in the log comes back.  After any run of appends, whatever
    became of each write (written whole, cut after any number of bytes, written
    and not synced), rotations that open the next segment or fail to, and
    restarts, also in the middle of a line, with a clock that does not go back,
    recovery reads the segments in the order they were written, takes every
    whole line and skips every broken one, where a line is broken when a write
    was cut and another record or nothing followed; it leaves in the memtable
    for every key the last entry on a whole line under it, deletes as
    tombstones, and the sequence number continues after the greatest one.  The
    entries must be encodable (strings in UTF-8), each line must fit the
    scanner's 10 MiB, and the clock must be one of ten digits. *)
Theorem commitlog_recover cfg s w t mcfg coins :
  log_run cfg s w t → let ls := lines_of w in Forall encodable (wholes ls) → Forall short ls →
  ∃ st s', Recover coins (NewMemTableService mcfg) s = Some (st, s') ∧
    rc_count st = Z.of_nat (length (wholes ls)) ∧ rc_skipped st = Z.of_nat (broken_count ls) ∧
    sequenceNumber s' = max_sequence (wholes ls) 0 ∧ log s' = log s ∧
    ∀ key, Get (rc_mem st) key = Some (replayed (wholes ls) ∅ !! key).
Proof.
  intros Hrun ls Henc Hshort. destruct (recover_run cfg s w t mcfg coins Hrun Henc Hshort)
    as (st & s' & Hr & Hc & Hsk & Hseq & Hlog & Hmem).
  exists st, s'. split_and!; try done. intros key. by apply Get_spec.
Qed.

(** A closed log takes no entry and its directory stays as it is. *)
Lemma Close_refuses s :
  let s' := (Close s).2 in
  log s' = log s ∧ ∀ out e, (Append out e s').1 = Err LogWrite ∧ log (Append out e s').2 = log s.
Proof.
  unfold Close, Append. destruct (currentFile s) eqn:Hf; cbn [snd currentFile log]; rewrite ?Hf; (split; [done|]); by intros [].
Qed.

(** C36: an acknowledged entry is lost after a failed append.  After any run
    of the log that ends with a whole line, let the write of a record fail after
    some of its bytes and the next append succeed: the second record stands
    behind the bytes of the first, and a recovery finds neither; it finds what
    was in the log before, and skips one line more. *)
Theorem torn_append_loses_next cfg s ls t k e1 e2 e2' s2 mcfg coins :
  log_run cfg s (ls, []) t → Forall encodable (wholes ls) → Forall short ls →
  let e1' := sealed e1 (u64 (sequenceNumber s + 1)) in let s1 := (Append (TornAfter k) e1 s).2 in
  (0 < k ≤ length (marshal e1'))%nat → Append Written e2 s1 = (Ok e2', s2) →
  Z.of_nat (k + length (marshal e2')) < maxToken →
  (Append (TornAfter k) e1 s).1 = Err LogWrite ∧
  ∃ st s', Recover coins (NewMemTableService mcfg) s2 = Some (st, s') ∧
    rc_count st = Z.of_nat (length (wholes ls)) ∧ rc_skipped st = Z.of_nat (S (broken_count ls)) ∧
    ∀ key, Get (rc_mem st) key = Some (replayed (wholes ls) ∅ !! key).
Proof.
  intros Hrun Henc Hshort e1' s1 Hk Happ Hlen.
  assert (∃ name, currentFile s = Open name) as [name Hname].
  { unfold s1, Append in Happ. destruct (currentFile s) as [|name|name] eqn:Hf; [|by exists name|].
    all: cbn [currentFile snd] in Happ; rewrite ?Hf in Happ; done. }
  split; [unfold Append; by rewrite Hname|].
  pose proof (run_append cfg s (ls, []) t (TornAfter k) e1 _ s1 Hrun (surjective_pairing _)) as Hrun1.
  pose proof (run_append cfg s1 _ t Written e2 _ s2 Hrun1 Happ) as Hrun2.
  assert (appended Written e2 s1 (appended (TornAfter k) e1 s (ls, [])) =
          (ls ++ [Broken (cut_data (e1', k) ++ marshal e2')], [])) as Hw.
  { assert (currentFile s1 = Open name) as Hname1 by (unfold s1, Append; by rewrite Hname).
    assert (e2' = sealed e2 (u64 (sequenceNumber s1 + 1))) as -> by (unfold Append in Happ; rewrite Hname1 in Happ; by injection Happ).
    unfold appended. rewrite Hname1, Hname. fold e1'. unfold append_written. cbn [fst snd].
    rewrite decide_False by lia. rewrite decide_True by lia. cbn [fst snd app finish]. unfold tail_data. simpl. by rewrite app_nil_r. }
  rewrite Hw in Hrun2.
  assert (lines_of (ls ++ [Broken (cut_data (e1', k) ++ marshal e2')], []) = ls ++ [Broken (cut_data (e1', k) ++ marshal e2')]) as Hl
    by apply app_nil_r.
  destruct (recover_run cfg s2 _ t mcfg coins Hrun2) as (st & s' & Hr & Hc & Hsk & _ & _ & Hmem); rewrite Hl in *.
  - by rewrite wholes_app, app_nil_r.
  - apply Forall_app. split; [done|]. constructor; [|constructor]. unfold short. cbn [item_data].
    rewrite length_app. unfold cut_data. cbn [fst snd]. rewrite length_take. lia.
  - rewrite wholes_app, app_nil_r in Hc, Hmem. exists st, s'. split_and!; try done.
    + rewrite Hsk, broken_count_app. f_equal. unfold broken_count. simpl. lia.
    + intros key. by apply Get_spec.
Qed.
End runs.

(** ** An example: a write, a rotation, a delete of another key, a crash in the
    middle of a line, a restart, an overwrite, and an append that fails half way
    with another behind it *)

Definition example_log_cfg : CommitLogConfig := mkCommitLogConfig 10 true.
Definition example_record (key value : string) (op : OperationType) : CommitLogEntry :=
  mkCLE 0 "t1" key (bytes value) (mkVC [mkVCE "c1" 1]) 1700000000 op 0.
Definition example_s0 : CommitLogService :=
  match NewCommitLogService example_log_cfg false 1700000000 1700000001 ∅ with
  | Ok s => s | Err _ => mkCommitLogService example_log_cfg NoFile 0 0 ∅ end.
Definition example_s1 : CommitLogService := (Append Written (example_record "a" "old" OperationTypeWrite) example_s0).2.
Definition example_s2 : CommitLogService := checkRotation false 1700000060 example_s1.
Definition example_s3 : CommitLogService := (Append Written (example_record "b" "" OperationTypeDelete) example_s2).2.
Definition example_s4 : CommitLogService := (Append (TornAfter 20) (example_record "a" "lost" OperationTypeWrite) example_s3).2.
Definition example_s5 : CommitLogService :=
  match NewCommitLogService example_log_cfg false 1700000100 1700000100 (log example_s4) with
  | Ok s => s | Err _ => example_s4 end.
Definition example_s6 : CommitLogService := (Append Written (example_record "a" "new" OperationTypeWrite) example_s5).2.
Definition example_s7 : CommitLogService := (Append (TornAfter 40) (example_record "c" "torn" OperationTypeWrite) example_s6).2.
Definition example_s8 : CommitLogService := (Append Written (example_record "c" "kept?" OperationTypeWrite) example_s7).2.

Definition example_lines : list item :=
  [Whole (sealed (example_record "a" "old" OperationTypeWrite) 1);
   Whole (sealed (example_record "b" "" OperationTypeDelete) 2);
   Broken (cut_data (sealed (example_record "a" "lost" OperationTypeWrite) 3, 20%nat));
   Whole (sealed (example_record "a" "new" OperationTypeWrite) 1)].
Definition example_broken : item :=
  Broken (cut_data (sealed (example_record "c" "torn" OperationTypeWrite) 2, 40%nat) ++
          marshal (sealed (example_record "c" "kept?" OperationTypeWrite) 3)).

Lemma run_append_to cfg s w t out e s' w' :
  log_run cfg s w t → (Append out e s).2 = s' → appended out e s w = w' → log_run cfg s' w' t.
Proof. intros Hrun <- <-. apply (run_append cfg s w t out e _ _ Hrun (surjective_pairing _)). Qed.

Lemma run_rotate_to cfg s w t now s' w' :
  log_run cfg s w t → t ≤ now → unix_time now → checkRotation false now s = s' →
  reopened (handle_name (currentFile s)) (handle_name (currentFile s')) w = w' → log_run cfg s' w' now.
Proof. intros ? ? ? ? <-. by eapply run_rotate. Qed.

Lemma run_reopen_to cfg s w t now s' w' :
  log_run cfg s w t → t ≤ now → unix_time now → NewCommitLogService cfg false now now (log s) = Ok s' →
  reopened (handle_name (currentFile s)) (handle_name (currentFile s')) w = w' → log_run cfg s' w' now.
Proof. intros ? ? ? ? <-. eapply run_reopen; [done| |done|done]. lia. Qed.

Lemma example_run : log_run example_log_cfg example_s6 (example_lines, []) 1700000100.
Proof.
  apply (run_append_to _ example_s5 (take 3 example_lines, []) _ Written (example_record "a" "new" OperationTypeWrite));
    [|reflexivity|by vm_compute].
  apply (run_reopen_to _ example_s4 (take 2 example_lines, [(sealed (example_record "a" "lost" OperationTypeWrite) 3, 20%nat)]) 1700000060);
    [|lia|by vm_compute|reflexivity|by vm_compute].
  apply (run_append_to _ example_s3 (take 2 example_lines, []) _ (TornAfter 20) (example_record "a" "lost" OperationTypeWrite));
    [|reflexivity|by vm_compute].
  apply (run_append_to _ example_s2 (take 1 example_lines, []) _ Written (example_record "b" "" OperationTypeDelete));
    [|reflexivity|by vm_compute].
  apply (run_rotate_to _ example_s1 (take 1 example_lines, []) 1700000001); [|lia|by vm_compute|reflexivity|by vm_compute].
  apply (run_append_to _ example_s0 ([], []) _ Written (example_record "a" "old" OperationTypeWrite)); [|reflexivity|by vm_compute].
  apply (run_new _ 1700000000); [by vm_compute..|reflexivity].
Qed.

Lemma example_run_broken : log_run example_log_cfg example_s8 (example_lines ++ [example_broken], []) 1700000100.
Proof.
  apply (run_append_to _ example_s7 (example_lines, [(sealed (example_record "c" "torn" OperationTypeWrite) 2, 40%nat)]) _ Written
    (example_record "c" "kept?" OperationTypeWrite)); [|reflexivity|by vm_compute].
  apply (run_append_to _ example_s6 (example_lines, []) _ (TornAfter 40) (example_record "c" "torn" OperationTypeWrite));
    [apply example_run|reflexivity|by vm_compute].
Qed.

Lemma example_short : Forall short (example_lines ++ [example_broken]).
Proof. repeat constructor; by vm_compute. Qed.

Lemma commitlog_recover_witness :
  ∃ st s', Recover (λ _, [true]) (NewMemTableService (mkMemTableConfig 1024 512 2)) example_s8 = Some (st, s') ∧
    rc_count st = 3 ∧ rc_skipped st = 2 ∧ (mt_Value <$> (default None (Get (rc_mem st) "t1:a"))) = Some (bytes "new").
Proof.
  destruct (commitlog_recover example_log_cfg example_s8 (example_lines ++ [example_broken], []) 1700000100
    (mkMemTableConfig 1024 512 2) (λ _, [true])) as (st & s' & Hr & Hc & Hs & _ & _ & Hget).
  - exact example_run_broken.
  - repeat constructor.
  - exact example_short.
  - exists st, s'. split; [exact Hr|]. split; [rewrite Hc; reflexivity|].
    split; [rewrite Hs; reflexivity|]. rewrite Hget. vm_compute. reflexivity.
Defined.

Lemma torn_append_loses_next_witness :
  ∃ st s', Recover (λ _, [true]) (NewMemTableService (mkMemTableConfig 1024 512 2)) example_s8 = Some (st, s') ∧
    Get (rc_mem st) "t1:c" = Some None.
Proof.
  destruct (torn_append_loses_next example_log_cfg example_s6 example_lines 1700000100 40
    (example_record "c" "torn" OperationTypeWrite) (example_record "c" "kept?" OperationTypeWrite)
    (sealed (example_record "c" "kept?" OperationTypeWrite) 3) example_s8 (mkMemTableConfig 1024 512 2) (λ _, [true]))
    as (_ & st & s' & Hr & _ & _ & Hget).
  - exact example_run.
  - repeat constructor.
  - exact (proj1 (proj1 (Forall_app _ _ _) example_short)).
  - apply (bool_decide_unpack _). by vm_compute.
  - by vm_compute.
  - by vm_compute.
  - exists st, s'. split; [exact Hr|]. rewrite Hget. vm_compute. reflexivity.
Defined.
