(* ===== verification/Cache.v ===== *)
(** * The read cache: [storage-node/internal/service/cache_service.go]

    A map with a running size.  A new key makes room by evicting the entry
    with the lowest score; the scores are the code's floating-point
    arithmetic on access counts and ages, and ties are broken by the order in
    which Go visits the map.  The eviction loop has fuel: [None] means that
    it is still running. *)

From S2P Require Import Prelude Model Float64.
#[local] Open Scope Z_scope.

(** ** Definitions *)

(** Times are in nanoseconds. *)
Record CacheEntry := mkCacheEntry {
  ce_Key : string;
  ce_Value : list byte;
  ce_VectorClock : VectorClock;
  AccessCount : Z;
  LastAccess : Z;
  Score : float64;
}.

Record CacheConfig := mkCacheConfig {
  cache_MaxSize : Z;
  FrequencyWeight : float64;
  RecencyWeight : float64;
  AdaptiveWindow : Z;
}.

Record CacheService := mkCacheService {
  cache_config : CacheConfig;
  cache : gmap string CacheEntry;
  currentSize : Z;
  frequencyWeight : float64;
  recencyWeight : float64;
}.

Definition NewCacheService (cfg : CacheConfig) : CacheService :=
  mkCacheService cfg ∅ 0 (FrequencyWeight cfg) (RecencyWeight cfg).

Definition with_cache (s : CacheService) (c : gmap string CacheEntry) (size : Z) : CacheService :=
  mkCacheService (cache_config s) c size (frequencyWeight s) (recencyWeight s).

(** [int64(len(key) + len(value) + 64)]. *)
Definition cache_size (key : string) (value : list byte) : Z :=
  Z.of_nat (length (bytes key)) + Z.of_nat (length value) + 64.

Definition entry_bytes (e : CacheEntry) : Z := cache_size (ce_Key e) (ce_Value e).

(** [now] is the clock reading of [time.Since]. *)
Definition calculateScore (s : CacheService) (now count last : Z) : float64 :=
  f64_sub (f64_mul (frequencyWeight s) (f64_of count)) (f64_mul (recencyWeight s) (seconds (now - last))).

(** [t1] is the reading stored in [LastAccess], [t2] the one the score uses. *)
Definition cache_Get (t1 t2 : Z) (key : string) (s : CacheService) : option CacheEntry * CacheService :=
  match cache s !! key with
  | None => (None, s)
  | Some entry =>
      let count := i64 (AccessCount entry + 1) in
      let entry := mkCacheEntry (ce_Key entry) (ce_Value entry) (ce_VectorClock entry) count t1
                     (calculateScore s t2 count t1) in
      (Some entry, with_cache s (<[key := entry]> (cache s)) (currentSize s))
  end.

Definition cache_Remove (key : string) (s : CacheService) : CacheService :=
  match cache s !! key with
  | None => s
  | Some entry => with_cache s (delete key (cache s)) (i64 (currentSize s - entry_bytes entry))
  end.

Section order.
Context `{MapRange}.

Definition lowest_step (acc : string * float64) (kv : string * CacheEntry) : string * float64 :=
  if f64_lt (Score kv.2) acc.2 then (kv.1, Score kv.2) else acc.

Definition lowest (s : CacheService) : string :=
  (foldl lowest_step (EmptyString, f64_of (10 ^ 9)) (map_range (cache s))).1.

Definition evictLowestScore (s : CacheService) : CacheService :=
  if decide (lowest s = EmptyString) then s
  else match cache s !! lowest s with
       | Some entry => with_cache s (delete (lowest s) (cache s)) (i64 (currentSize s - entry_bytes entry))
       | None => s
       end.

(** The loop [for s.currentSize+entrySize > s.config.MaxSize]. *)
Fixpoint make_room (fuel : nat) (entrySize : Z) (s : CacheService) : option CacheService :=
  if cache_MaxSize (cache_config s) <? i64 (currentSize s + entrySize) then
    match fuel with
    | O => None
    | S fuel => make_room fuel entrySize (evictLowestScore s)
    end
  else Some s.

Definition put_fuel (fuel : nat) (t1 t2 : Z) (key : string) (value : list byte) (vectorClock : VectorClock)
    (s : CacheService) : option CacheService :=
  let entrySize := cache_size key value in
  match cache s !! key with
  | Some existing =>
      let count := i64 (AccessCount existing + 1) in
      let entry := mkCacheEntry (ce_Key existing) value vectorClock count t1 (calculateScore s t2 count t1) in
      Some (with_cache s (<[key := entry]> (cache s))
              (i64 (i64 (currentSize s - entry_bytes existing) + entrySize)))
  | None =>
      s ← make_room fuel entrySize s;
      let entry := mkCacheEntry key value vectorClock 1 t1 (calculateScore s t2 1 t1) in
      Some (with_cache s (<[key := entry]> (cache s)) (i64 (currentSize s + entrySize)))
  end.

(** One round more than there are entries: a round that evicts nothing changes
    nothing, so a loop that is still running then never ends. *)
Definition cache_Put (t1 t2 : Z) (key : string) (value : list byte) (vectorClock : VectorClock)
    (s : CacheService) : option CacheService :=
  put_fuel (S (size (cache s))) t1 t2 key value vectorClock s.

Definition AdjustWeights (now : Z) (s : CacheService) : CacheService :=
  let recentThreshold := now - AdaptiveWindow (cache_config s) in
  let '(totalAccesses, recentAccesses) :=
    foldl (λ '(total, recent) kv,
      (i64 (total + AccessCount kv.2),
       if recentThreshold <? LastAccess kv.2 then i64 (recent + 1) else recent))
      (0, 0) (map_range (cache s)) in
  if totalAccesses =? 0 then s else
  let hotnessRatio := f64_div (f64_of recentAccesses) (f64_of (Z.of_nat (size (cache s)))) in
  let '(recency, frequency) :=
    if f64_lt (f64_lit 7 10) hotnessRatio then (f64_lit 7 10, f64_lit 3 10)
    else if f64_lt hotnessRatio (f64_lit 3 10) then (f64_lit 3 10, f64_lit 7 10)
    else (f64_lit 5 10, f64_lit 5 10) in
  mkCacheService (cache_config s) (cache s) (currentSize s) frequency recency.
End order.

Record CacheStats := mkCacheStats { stat_Size : Z; stat_MaxSize : Z; EntryCount : Z; UsagePercent : float64 }.

Definition Stats (s : CacheService) : CacheStats :=
  mkCacheStats (currentSize s) (cache_MaxSize (cache_config s)) (Z.of_nat (size (cache s)))
    (f64_mul (f64_div (f64_of (currentSize s)) (f64_of (cache_MaxSize (cache_config s)))) (f64_of 100)).

(** ** The size account *)

Definition total_bytes (c : gmap string CacheEntry) : Z := map_fold (λ _ e n, entry_bytes e + n) 0 c.

Lemma total_bytes_insert c k e :
  c !! k = None → total_bytes (<[k := e]> c) = entry_bytes e + total_bytes c.
Proof. intros Hk. unfold total_bytes. rewrite map_fold_insert_L; [done|intros; lia|done]. Qed.

Lemma total_bytes_delete c k e :
  c !! k = Some e → total_bytes (delete k c) = total_bytes c - entry_bytes e.
Proof.
  intros Hk. rewrite <-(insert_id c k e Hk) at 2. rewrite <-insert_delete_eq.
  rewrite total_bytes_insert by apply lookup_delete_eq. lia.
Qed.

Lemma entry_bytes_pos e : 0 < entry_bytes e.
Proof. unfold entry_bytes, cache_size. lia. Qed.

Lemma total_bytes_nonneg c : 0 ≤ total_bytes c.
Proof.
  induction c as [|k e c Hk IH] using map_ind; [done|]. rewrite total_bytes_insert by done.
  pose proof (entry_bytes_pos e). lia.
Qed.

(** Every entry is stored under its key and the running size is the sum of the
    entry sizes, as an [int64]. *)
Record cache_inv (s : CacheService) : Prop := {
  ci_size : currentSize s = i64 (total_bytes (cache s));
  ci_keys : map_Forall (λ k e, ce_Key e = k) (cache s);
}.

(** Every entry can be chosen for eviction. *)
Definition evictable (s : CacheService) : Prop :=
  map_Forall (λ k e, k ≠ EmptyString ∧ f64_lt (Score e) (f64_of (10 ^ 9)) = true) (cache s).

Lemma NewCacheService_inv cfg : cache_inv (NewCacheService cfg) ∧ evictable (NewCacheService cfg).
Proof. split; [split; [done|]|]; apply map_Forall_empty. Qed.

Lemma delete_inv s k e :
  cache_inv s → cache s !! k = Some e →
  cache_inv (with_cache s (delete k (cache s)) (i64 (currentSize s - entry_bytes e))).
Proof.
  intros [Hs Hk] Hin. split; simpl.
  - rewrite (total_bytes_delete _ _ _ Hin), Hs, <-Z.add_opp_r, i64_add_l. f_equal.
  - by apply map_Forall_delete.
Qed.

Lemma cache_Remove_spec key s :
  cache_inv s → cache_inv (cache_Remove key s) ∧ cache (cache_Remove key s) = delete key (cache s) ∧
  cache_config (cache_Remove key s) = cache_config s.
Proof.
  intros Hinv. unfold cache_Remove. destruct (cache s !! key) as [e|] eqn:Hk.
  - split_and!; [by apply delete_inv|done|done].
  - by rewrite delete_id.
Qed.

Lemma cache_Get_spec t1 t2 key s :
  cache_inv s →
  let '(r, s') := cache_Get t1 t2 key s in
  cache_inv s' ∧ cache_config s' = cache_config s ∧
  (∀ k, (λ e, (ce_Value e, ce_VectorClock e)) <$> cache s' !! k = (λ e, (ce_Value e, ce_VectorClock e)) <$> cache s !! k) ∧
  (λ e, (ce_Value e, ce_VectorClock e)) <$> r = (λ e, (ce_Value e, ce_VectorClock e)) <$> cache s !! key.
Proof.
  intros [Hs Hks]. unfold cache_Get. destruct (cache s !! key) as [e|] eqn:Hk; [|by split_and!].
  assert (ce_Key e = key) as Hek by by apply (Hks key).
  split_and!; [|done| |done].
  - split; simpl.
    + rewrite Hs. f_equal. rewrite <-(insert_id _ _ _ Hk) at 1. rewrite <-!(insert_delete_eq (cache s)).
      rewrite !total_bytes_insert by apply lookup_delete_eq. done.
    + by apply map_Forall_insert_2.
  - intros k. simpl. destruct (decide (k = key)) as [->|Hne]; [by rewrite lookup_insert_eq, Hk|by rewrite lookup_insert_ne].
Qed.

Section order.
Context `{MapRange}.

Lemma lowest_fold (c : gmap string CacheEntry) l acc :
  (acc.1 ≠ EmptyString ∧ is_Some (c !! acc.1)) → Forall (λ kv, kv.1 ≠ EmptyString ∧ is_Some (c !! kv.1)) l →
  (foldl lowest_step acc l).1 ≠ EmptyString ∧ is_Some (c !! (foldl lowest_step acc l).1).
Proof.
  intros Hacc Hall. revert acc Hacc. induction Hall as [|kv l Hkv _ IH]; intros acc Hacc; simpl; [done|].
  apply IH. unfold lowest_step. by destruct (f64_lt _ _).
Qed.

(** A cache that is not empty has an entry to evict. *)
Lemma lowest_spec s : evictable s → cache s ≠ ∅ → lowest s ≠ EmptyString ∧ is_Some (cache s !! lowest s).
Proof.
  intros Hev Hne. unfold lowest.
  assert (Forall (λ kv, (kv.1 ≠ EmptyString ∧ is_Some (cache s !! kv.1)) ∧ f64_lt (Score kv.2) (f64_of (10 ^ 9)) = true)
            (map_range (cache s))) as Hall.
  { apply Forall_forall. intros [k e] Hk%elem_of_map_range. simpl. destruct (Hev k e Hk). eauto. }
  destruct (map_range (cache s)) as [|kv l] eqn:Hl.
  { exfalso. apply Hne, map_to_list_empty_iff. apply (f_equal length) in Hl.
    rewrite map_range_perm in Hl. by destruct (map_to_list (cache s)). }
  apply Forall_cons in Hall as [[Hkv Hsc] Hall]. cbn [foldl]. apply lowest_fold.
  - unfold lowest_step. cbn [fst snd]. by rewrite Hsc.
  - eapply Forall_impl; [exact Hall|]. naive_solver.
Qed.

Lemma evict_cases s :
  evictLowestScore s = s ∨
  ∃ k e, cache s !! k = Some e ∧
    evictLowestScore s = with_cache s (delete k (cache s)) (i64 (currentSize s - entry_bytes e)).
Proof.
  unfold evictLowestScore. case_decide; [by left|]. destruct (cache s !! lowest s) as [e|] eqn:Hk; [|by left].
  right. by exists (lowest s), e.
Qed.

Lemma evict_spec s :
  evictable s → cache s ≠ ∅ →
  ∃ k e, cache s !! k = Some e ∧
    evictLowestScore s = with_cache s (delete k (cache s)) (i64 (currentSize s - entry_bytes e)).
Proof.
  intros Hev Hne. destruct (lowest_spec s Hev Hne) as [Hk [e He]]. exists (lowest s), e. split; [done|].
  unfold evictLowestScore. by rewrite decide_False, He.
Qed.

Lemma make_room_spec fuel n s :
  cache_inv s → evictable s → 0 < n ≤ cache_MaxSize (cache_config s) →
  cache_MaxSize (cache_config s) < 2 ^ 63 → (size (cache s) ≤ fuel)%nat →
  ∃ s', make_room fuel n s = Some s' ∧ cache_inv s' ∧ evictable s' ∧ cache s' ⊆ cache s ∧
    cache_config s' = cache_config s ∧ i64 (currentSize s' + n) ≤ cache_MaxSize (cache_config s).
Proof.
  intros Hinv Hev Hn Hmax. revert s Hinv Hev Hn Hmax. induction fuel as [|fuel IH]; intros s Hinv Hev Hn Hmax Hf.
  - assert (cache s = ∅) as He by (apply map_size_empty_inv; lia). exists s. unfold make_room.
    assert (i64 (currentSize s + n) = n) as Hi.
    { rewrite (ci_size s Hinv), He. change (i64 (total_bytes ∅)) with 0. apply i64_small. lia. }
    rewrite Hi. rewrite (proj2 (Z.ltb_ge _ _)) by lia. split_and!; try done; lia.
  - cbn [make_room]. destruct (Z.ltb_spec (cache_MaxSize (cache_config s)) (i64 (currentSize s + n))) as [Hlt|Hge].
    2:{ exists s. by split_and!. }
    destruct (decide (cache s = ∅)) as [He|Hne].
    { exfalso. rewrite (ci_size s Hinv), He in Hlt. change (i64 (total_bytes ∅)) with 0 in Hlt.
      rewrite i64_small in Hlt by lia. lia. }
    destruct (evict_spec s Hev Hne) as (k & e & Hk & ->).
    destruct (IH (with_cache s (delete k (cache s)) (i64 (currentSize s - entry_bytes e)))) as (s' & Hr & Hinv' & Hev' & Hsub & Hcfg & Hle).
    + by apply delete_inv.
    + by apply map_Forall_delete.
    + done.
    + done.
    + simpl. rewrite map_size_delete_Some by eauto. lia.
    + exists s'. split_and!; try done. etrans; [exact Hsub|]. apply delete_subseteq.
Qed.

(** A round that evicts nothing repeats for ever, so [cache_Put] has enough fuel. *)
Lemma make_room_fuel n fuel s :
  (size (cache s) < fuel)%nat → make_room fuel n s = None → ∀ fuel', make_room fuel' n s = None.
Proof.
  revert s. induction fuel as [|fuel IH]; intros s Hf; [lia|]. cbn [make_room].
  destruct (_ <? _) eqn:Hc; [|done]. intros Hnone.
  destruct (evict_cases s) as [Heq|(k & e & Hk & Heq)].
  - intros fuel'. induction fuel' as [|fuel' IH']; cbn [make_room]; rewrite Hc; [done|]. by rewrite Heq.
  - intros [|fuel']; cbn [make_room]; rewrite Hc; [done|]. apply IH; [|done]. rewrite Heq. simpl.
    assert (size (cache s) ≠ 0)%nat by (rewrite map_size_non_empty_iff; intros He; by rewrite He, lookup_empty in Hk).
    rewrite map_size_delete_Some by eauto. lia.
Qed.

Lemma cache_Put_fuel t1 t2 key value vc s :
  cache_Put t1 t2 key value vc s = None → ∀ fuel, put_fuel fuel t1 t2 key value vc s = None.
Proof.
  unfold cache_Put, put_fuel. destruct (cache s !! key); [done|]. intros Hn fuel.
  destruct (make_room (S (size (cache s))) _ s) as [s1|] eqn:Hr; [done|].
  by rewrite (make_room_fuel _ _ _ (Nat.lt_succ_diag_r _) Hr).
Qed.
End order.

(** ** Properties *)

Section properties.
Context `{MapRange}.

Lemma make_room_result fuel n s s' :
  cache_inv s → make_room fuel n s = Some s' →
  cache_inv s' ∧ cache s' ⊆ cache s ∧ cache_config s' = cache_config s ∧
  i64 (currentSize s' + n) ≤ cache_MaxSize (cache_config s).
Proof.
  revert s. induction fuel as [|fuel IH]; intros s Hinv; cbn [make_room];
    (destruct (Z.ltb_spec (cache_MaxSize (cache_config s)) (i64 (currentSize s + n))); [|by intros [= <-]; split_and!]); [done|].
  destruct (evict_cases s) as [Heq|(k & e & Hk & ->)]; [rewrite Heq; by apply IH|]. intros Hr.
  destruct (IH _ (delete_inv s k e Hinv Hk) Hr) as (? & Hsub & ? & ?). split_and!; try done.
  etrans; [exact Hsub|]. apply delete_subseteq.
Qed.

(** What [Put] of a key leaves when it returns. *)
Lemma cache_Put_result t1 t2 key value vc s s' :
  cache_inv s → cache_Put t1 t2 key value vc s = Some s' →
  cache_inv s' ∧ cache_config s' = cache_config s ∧
  (∃ e, cache s' !! key = Some e ∧ ce_Value e = value ∧ ce_VectorClock e = vc) ∧
  (∀ k, k ≠ key → cache s' !! k = cache s !! k ∨ cache s' !! k = None) ∧
  (cache s !! key = None → currentSize s' ≤ cache_MaxSize (cache_config s)).
Proof.
  intros Hinv. unfold cache_Put, put_fuel. destruct (cache s !! key) as [e|] eqn:Hk.
  - intros [= <-]. destruct Hinv as [Hs Hks]. assert (ce_Key e = key) as Hek by by apply (Hks key).
    split; [split; simpl|].
    + rewrite <-insert_delete_eq, total_bytes_insert, (total_bytes_delete _ _ _ Hk) by apply lookup_delete_eq.
      unfold entry_bytes. cbn [ce_Key ce_Value]. rewrite Hek, Hs, <-Z.add_opp_r, i64_add_l, <-Z.add_assoc, i64_add_l. f_equal. lia.
    + by apply map_Forall_insert_2.
    + simpl. split_and!; [done|eexists; by rewrite lookup_insert_eq| |done].
      intros k Hne. left. by rewrite lookup_insert_ne.
  - destruct (make_room _ _ s) as [s1|] eqn:Hr; [|done]. intros [= <-].
    destruct (make_room_result _ _ _ _ Hinv Hr) as ([Hs1 Hks1] & Hsub & Hcfg & Hle).
    assert (cache s1 !! key = None) as Hk1 by by eapply lookup_weaken_None.
    split; [split; simpl|].
    + rewrite total_bytes_insert, Hs1, i64_add_l by done. f_equal. unfold entry_bytes. simpl. lia.
    + by apply map_Forall_insert_2.
    + simpl. split_and!; [done|eexists; by rewrite lookup_insert_eq| |done].
      intros k Hne. rewrite lookup_insert_ne by done.
      destruct (cache s1 !! k) eqn:Hks; [left; symmetry; by eapply lookup_weaken|by right].
Qed.

(** [Put] returns when the entries can be evicted and the new one fits. *)
Lemma cache_Put_returns t1 t2 key value vc s :
  cache_inv s → evictable s → cache_size key value ≤ cache_MaxSize (cache_config s) →
  cache_MaxSize (cache_config s) < 2 ^ 63 → is_Some (cache_Put t1 t2 key value vc s).
Proof.
  intros Hinv Hev Hsz Hmax. unfold cache_Put, put_fuel. destruct (cache s !! key) as [e|] eqn:Hk; [by eexists|].
  destruct (make_room_spec (S (size (cache s))) (cache_size key value) s) as (s1 & -> & _);
    [done|done|unfold cache_size in *; lia|done|lia|by eexists].
Qed.

(** C32: the cache keeps its account and returns what was put.  When the
    entries can be evicted and the new one fits, [Put] returns, the running
    size is the total size of the entries, the key is bound to the new value
    and clock, every other key is unchanged or evicted, and a new key leaves
    the cache within its limit. *)
Theorem cache_put_keeps_account t1 t2 key value vc s :
  cache_inv s → evictable s → cache_size key value ≤ cache_MaxSize (cache_config s) →
  cache_MaxSize (cache_config s) < 2 ^ 63 →
  ∃ s', cache_Put t1 t2 key value vc s = Some s' ∧ cache_inv s' ∧
    (∃ e, (cache_Get t1 t2 key s').1 = Some e ∧ ce_Value e = value ∧ ce_VectorClock e = vc) ∧
    (∀ k, k ≠ key → cache s' !! k = cache s !! k ∨ cache s' !! k = None) ∧
    (cache s !! key = None → currentSize s' ≤ cache_MaxSize (cache_config s)).
Proof.
  intros Hinv Hev Hsz Hmax.
  destruct (cache_Put_returns t1 t2 key value vc s Hinv Hev Hsz Hmax) as [s' Hp].
  destruct (cache_Put_result _ _ _ _ _ _ _ Hinv Hp) as (Hinv' & _ & (e & He & ? & ?) & Ho & Hle).
  exists s'. split_and!; try done. unfold cache_Get. rewrite He. by eexists.
Qed.

Lemma make_room_oversized n fuel s :
  0 < n → cache_inv s → cache_MaxSize (cache_config s) < n → total_bytes (cache s) + n < 2 ^ 63 →
  make_room fuel n s = None.
Proof.
  intros Hn0. revert s. induction fuel as [|fuel IH]; intros s Hinv Hn Hbound; cbn [make_room];
    pose proof (total_bytes_nonneg (cache s)) as Hpos.
  all: assert (i64 (currentSize s + n) = total_bytes (cache s) + n) as ->
    by (rewrite (ci_size s Hinv), i64_add_l; apply i64_small; lia).
  - by rewrite (proj2 (Z.ltb_lt _ _)) by lia.
  - rewrite (proj2 (Z.ltb_lt _ _)) by lia. destruct (evict_cases s) as [->|(k & e & Hk & ->)]; [by apply IH|].
    apply IH; [by apply delete_inv|done|]. simpl. rewrite (total_bytes_delete _ _ _ Hk). pose proof (entry_bytes_pos e). lia.
Qed.

(** A new entry larger than the whole cache is never refused: [Put] evicts
    everything and then loops for ever, with the cache's lock held, however
    many rounds it is given. *)
Theorem cache_put_oversized_diverges t1 t2 key value vc s :
  cache_inv s → cache s !! key = None → cache_MaxSize (cache_config s) < cache_size key value →
  total_bytes (cache s) + cache_size key value < 2 ^ 63 →
  ∀ fuel, put_fuel fuel t1 t2 key value vc s = None.
Proof.
  intros Hinv Hk Hn Hb fuel. unfold put_fuel. rewrite Hk. rewrite make_room_oversized; [done| |done..].
  unfold cache_size. lia.
Qed.
End properties.

Definition example_cache : CacheService :=
  default (NewCacheService (mkCacheConfig 150 (f64_lit 1 2) (f64_lit 1 2) 60))
    (cache_Put 10 20 "t1:a" (bytes "hello") (mkVC []) (NewCacheService (mkCacheConfig 150 (f64_lit 1 2) (f64_lit 1 2) 60))).

Lemma example_cache_ok : cache_inv example_cache ∧ evictable example_cache.
Proof.
  split; [split|]; [by vm_compute|apply (bool_decide_unpack _); by vm_compute..].
Defined.

(** The second key makes room by evicting the first. *)
Lemma cache_put_keeps_account_witness :
  ∃ s', cache_Put 30 40 "t1:b" (bytes "a longer value") (mkVC []) example_cache = Some s' ∧ currentSize s' ≤ 150.
Proof.
  destruct (cache_put_keeps_account 30 40 "t1:b" (bytes "a longer value") (mkVC []) example_cache)
    as (s' & Hp & _ & _ & _ & Hle); [apply example_cache_ok|apply example_cache_ok|by vm_compute|by vm_compute|].
  exists s'. split; [exact Hp|]. apply Hle. reflexivity.
Defined.

Lemma cache_put_oversized_diverges_witness :
  put_fuel 1000 30 40 "t1:b" (replicate 200 x00) (mkVC []) example_cache = None.
Proof.
  apply (cache_put_oversized_diverges 30 40 "t1:b" (replicate 200 x00) (mkVC []) example_cache);
    [apply example_cache_ok|reflexivity|by vm_compute|by vm_compute].
Defined.
