(* ===== verification/DiskManager.v ===== *)
(** * The disk space gate: [storage-node/internal/storage/diskmanager/disk_manager.go]

    The manager caches what [statfs] reports and classifies it against its
    thresholds; [CheckBeforeWrite] refreshes a stale cache and admits or
    rejects a write.  Usage is the code's floating-point percentage. *)

From S2P Require Import Prelude Float64 Errors.
#[local] Open Scope Z_scope.

(** ** Definitions *)

(** The fields of [syscall.Statfs_t] the code reads, as [uint64]. *)
Record Statfs := mkStatfs { Blocks : Z; Bsize : Z; Bavail : Z }.

Record DiskManagerConfig := mkDiskManagerConfig {
  CheckInterval : Z;
  WarningThreshold : float64;
  ThrottleThreshold : float64;
  CircuitBreakerThreshold : float64;
}.

(** [lastCheck] is [None] before the first successful check, a time infinitely
    long ago. *)
Record DiskManager := mkDiskManager {
  dm_config : DiskManagerConfig;
  lastCheck : option Z;
  cachedUsagePercent : float64;
  cachedAvailableBytes : Z;
  isThrottled : bool;
  isCircuitBroken : bool;
}.

Definition DefaultConfig : DiskManagerConfig :=
  mkDiskManagerConfig (10 * second) (f64_of 80) (f64_of 90) (f64_of 95).

Definition usage_percent (totalBytes availableBytes : Z) : float64 :=
  f64_mul (f64_div (f64_of (u64 (totalBytes - availableBytes))) (f64_of totalBytes)) (f64_of 100).

(** [stat] is what [Statfs] returns, [None] when it fails; the result is
    whether the check succeeded. *)
Definition checkDiskSpace (stat : option Statfs) (now : Z) (dm : DiskManager) : bool * DiskManager :=
  match stat with
  | None => (false, dm)
  | Some st =>
      let totalBytes := u64 (Blocks st * Bsize st) in
      let availableBytes := u64 (Bavail st * Bsize st) in
      let usagePercent := usage_percent totalBytes availableBytes in
      let broken := f64_le (CircuitBreakerThreshold (dm_config dm)) usagePercent in
      let throttled := f64_le (ThrottleThreshold (dm_config dm)) usagePercent && negb broken in
      (true, mkDiskManager (dm_config dm) (Some now) usagePercent availableBytes throttled broken)
  end.

Definition NewDiskManager (cfg : DiskManagerConfig) (stat : option Statfs) (now : Z) : DiskManager :=
  (checkDiskSpace stat now (mkDiskManager cfg None (f64_of 0) 0 false false)).2.

Definition stale (now : Z) (dm : DiskManager) : bool :=
  match lastCheck dm with None => true | Some t => CheckInterval (dm_config dm) <? now - t end.

Definition refresh (stat : option Statfs) (now : Z) (dm : DiskManager) : DiskManager :=
  if stale now dm then (checkDiskSpace stat now dm).2 else dm.

(** The decision, on the cached state. *)
Definition write_decision (estimatedBytes : Z) (dm : DiskManager) : res DiskSpaceError unit :=
  let usage := cachedUsagePercent dm in
  let available := cachedAvailableBytes dm in
  if isCircuitBroken dm then
    Err (mkDiskSpaceError DiskFullCode
      ("disk usage at " +:+ sprintf_2f usage +:+ "%, circuit breaker engaged") usage available false true)
  else if isThrottled dm && (available / 10 <? estimatedBytes) then
    Err (mkDiskSpaceError DiskThrottledCode
      ("disk usage at " +:+ sprintf_2f usage +:+ "%, write throttled") usage available true false)
  else if available <? estimatedBytes then
    Err (mkDiskSpaceError InsufficientSpaceCode
      ("insufficient space: need " +:+ pretty estimatedBytes +:+ " bytes, have " +:+ pretty available +:+ " bytes")
      usage available false false)
  else Ok tt.

Definition CheckBeforeWrite (stat : option Statfs) (now estimatedBytes : Z) (dm : DiskManager)
    : res DiskSpaceError unit * DiskManager :=
  let dm := refresh stat now dm in (write_decision estimatedBytes dm, dm).

Record DiskUsageStats := mkDiskUsageStats {
  us_UsagePercent : float64;
  us_AvailableBytes : Z;
  us_IsThrottled : bool;
  us_IsCircuitBroken : bool;
  us_LastCheck : option Z;
}.

Definition GetDiskUsage (stat : option Statfs) (now : Z) (dm : DiskManager) : DiskUsageStats * DiskManager :=
  let dm := refresh stat now dm in
  (mkDiskUsageStats (cachedUsagePercent dm) (cachedAvailableBytes dm) (isThrottled dm) (isCircuitBroken dm)
     (lastCheck dm), dm).

Definition ForceCheck (stat : option Statfs) (now : Z) (dm : DiskManager) : bool * DiskManager :=
  checkDiskSpace stat now dm.

(** ** Lemmas *)

(** The flags follow from the cached percentage, and at most one is set. *)
Record disk_wf (dm : DiskManager) : Prop := {
  dw_avail : 0 ≤ cachedAvailableBytes dm < 2 ^ 64;
  dw_checked : lastCheck dm ≠ None →
    isCircuitBroken dm = f64_le (CircuitBreakerThreshold (dm_config dm)) (cachedUsagePercent dm) ∧
    isThrottled dm = f64_le (ThrottleThreshold (dm_config dm)) (cachedUsagePercent dm) && negb (isCircuitBroken dm);
  dw_unchecked : lastCheck dm = None →
    isCircuitBroken dm = false ∧ isThrottled dm = false ∧ cachedAvailableBytes dm = 0;
}.

Lemma checkDiskSpace_wf stat now dm : disk_wf dm → disk_wf (checkDiskSpace stat now dm).2.
Proof.
  intros Hwf. destruct stat as [st|]; [|done]. split; simpl; [apply u64_range|done|done].
Qed.

Lemma NewDiskManager_wf cfg stat now : disk_wf (NewDiskManager cfg stat now).
Proof. apply checkDiskSpace_wf. by split. Qed.

Lemma refresh_wf stat now dm : disk_wf dm → disk_wf (refresh stat now dm).
Proof. intros Hwf. unfold refresh. destruct (stale now dm); [by apply checkDiskSpace_wf|done]. Qed.

Lemma write_decision_ok n dm :
  write_decision n dm = Ok tt ↔
  isCircuitBroken dm = false ∧ (isThrottled dm = true → n ≤ cachedAvailableBytes dm / 10) ∧ n ≤ cachedAvailableBytes dm.
Proof.
  unfold write_decision. destruct (isCircuitBroken dm), (isThrottled dm); simpl; [naive_solver..| |].
  - destruct (Z.ltb_spec (cachedAvailableBytes dm / 10) n); [split; [done|intros (_ & Ht & _); specialize (Ht eq_refl); lia]|].
    destruct (Z.ltb_spec (cachedAvailableBytes dm) n); naive_solver lia.
  - destruct (Z.ltb_spec (cachedAvailableBytes dm) n); naive_solver lia.
Qed.

(** ** Properties *)

(** The disk gate admits a write exactly when, by the state it decides on,
    the disk is below the circuit-breaker threshold, the write fits the
    available bytes, and a disk at or above the throttle threshold has ten
    times the bytes the write needs; a manager whose checks never succeeded
    admits nothing.  The state is the fresh one when the cached one is stale
    and the file system answers. *)
Theorem disk_gate_spec stat now n dm :
  disk_wf dm → 0 < n →
  let '(r, dm') := CheckBeforeWrite stat now n dm in
  disk_wf dm' ∧
  (∀ st, stale now dm = true → stat = Some st →
     lastCheck dm' = Some now ∧ cachedAvailableBytes dm' = u64 (Bavail st * Bsize st)) ∧
  (r = Ok tt ↔ lastCheck dm' ≠ None ∧
     f64_le (CircuitBreakerThreshold (dm_config dm')) (cachedUsagePercent dm') = false ∧
     n ≤ cachedAvailableBytes dm' ∧
     (f64_le (ThrottleThreshold (dm_config dm')) (cachedUsagePercent dm') = true → 10 * n ≤ cachedAvailableBytes dm')).
Proof.
  intros Hwf Hn. unfold CheckBeforeWrite. pose proof (refresh_wf stat now dm Hwf) as Hwf'.
  split_and!; [done| |].
  - intros st Hs ->. unfold refresh. by rewrite Hs.
  - rewrite write_decision_ok. destruct Hwf' as [Ha Hc Hu]. destruct (lastCheck (refresh stat now dm)) as [t|].
    + destruct (Hc ltac:(done)) as [-> ->]. destruct (f64_le (CircuitBreakerThreshold _) _); simpl; [naive_solver|].
      rewrite andb_true_r. assert (∀ a, n ≤ a / 10 ↔ 10 * n ≤ a) as Hdiv.
      { intros a. Z.to_euclidean_division_equations; lia. }
      rewrite Hdiv. naive_solver.
    + destruct (Hu eq_refl) as (_ & _ & ->). split; [intros (_ & _ & ?); lia|by intros [? _]].
Qed.

(** 8 MiB of 1 GiB left: the breaker is engaged at 99%. *)
Lemma disk_gate_spec_witness :
  let dm := NewDiskManager DefaultConfig (Some (mkStatfs 262144 4096 2048)) 0 in
  (∃ e, (CheckBeforeWrite None 5 100 dm).1 = Err e ∧ dse_Message e = "disk usage at 99.22%, circuit breaker engaged") ∧
  (CheckBeforeWrite (Some (mkStatfs 262144 4096 131072)) (20 * second) 100 dm).1 = Ok tt.
Proof.
  set (dm := NewDiskManager DefaultConfig (Some (mkStatfs 262144 4096 2048)) 0).
  split; [eexists; split; by vm_compute|].
  pose proof (disk_gate_spec (Some (mkStatfs 262144 4096 131072)) (20 * second) 100 dm
    (NewDiskManager_wf _ _ _) (eq_refl : 0 < 100)) as Hg.
  destruct (CheckBeforeWrite _ _ _ _) as [r dm'] eqn:Hc. destruct Hg as (_ & _ & Hr). apply Hr.
  injection Hc as _ <-. split; [discriminate|]. split; [by vm_compute|]. split; [by vm_compute|]. by vm_compute.
Defined.
