(* ===== verification/Streaming.v ===== *)
(** * Streaming to other nodes: [storage-node/internal/service/streaming_service.go]

    The manager keeps one context per target node.  [InterceptWrite] starts a
    goroutine per context a write is to be forwarded to; the goroutines are
    returned as tasks, and [run_live_task] is what one of them does when it
    runs.  [ExecuteStreaming] is the copy of a context's ranges; it reads keys
    through the storage service, which is its argument [read]. *)

From S2P Require Import Prelude Model Float64 Utf8 Validator.
#[local] Open Scope Z_scope.

(** ** Definitions *)

Inductive StreamState :=
  | StreamStateCopying | StreamStateStreaming | StreamStateSyncing
  | StreamStateCompleted | StreamStateFailed.

#[global] Instance StreamState_eq_dec : EqDecision StreamState.
Proof. solve_decision. Defined.

(** [KeyRange] of the source: a range of hashes. *)
Record StreamRange := mkStreamRange { StartHash : Z; EndHash : Z }.

Record StreamContext := mkStreamContext {
  TargetNodeID : string;
  KeyRanges : list StreamRange;
  sc_State : StreamState;
  KeysCopied : Z;
  KeysStreamed : Z;
  BytesCopied : Z;
  BytesStreamed : Z;
  LastSyncTime : Z;
  StartTime : Z;
}.

Definition SetState (st : StreamState) (c : StreamContext) : StreamContext :=
  mkStreamContext (TargetNodeID c) (KeyRanges c) st (KeysCopied c) (KeysStreamed c)
    (BytesCopied c) (BytesStreamed c) (LastSyncTime c) (StartTime c).

(** One more key, and [n] more bytes, copied. *)
Definition count_copied (n : Z) (c : StreamContext) : StreamContext :=
  mkStreamContext (TargetNodeID c) (KeyRanges c) (sc_State c) (i64 (KeysCopied c + 1)) (KeysStreamed c)
    (i64 (BytesCopied c + n)) (BytesStreamed c) (LastSyncTime c) (StartTime c).

(** One more key, and [n] more bytes, streamed. *)
Definition count_streamed (n : Z) (c : StreamContext) : StreamContext :=
  mkStreamContext (TargetNodeID c) (KeyRanges c) (sc_State c) (KeysCopied c) (i64 (KeysStreamed c + 1))
    (BytesCopied c) (i64 (BytesStreamed c + n)) (LastSyncTime c) (StartTime c).

Definition set_start (now : Z) (c : StreamContext) : StreamContext :=
  mkStreamContext (TargetNodeID c) (KeyRanges c) (sc_State c) (KeysCopied c) (KeysStreamed c)
    (BytesCopied c) (BytesStreamed c) (LastSyncTime c) now.

Definition set_synced (now : Z) (c : StreamContext) : StreamContext :=
  mkStreamContext (TargetNodeID c) (KeyRanges c) (sc_State c) (KeysCopied c) (KeysStreamed c)
    (BytesCopied c) (BytesStreamed c) now (StartTime c).

Record StreamingManager := mkStreamingManager {
  activeStreams : gmap string StreamContext;
  batchSize : Z;
  streamBuffer : Z;
  checksumWorkers : Z;
}.

Definition NewStreamingManager (batchSize streamBuffer checksumWorkers : Z) : StreamingManager :=
  mkStreamingManager ∅
    (if batchSize <=? 0 then 1000 else batchSize)
    (if streamBuffer <=? 0 then 10000 else streamBuffer)
    (if checksumWorkers <=? 0 then 4 else checksumWorkers).

Definition with_streams (sm : StreamingManager) (streams : gmap string StreamContext) : StreamingManager :=
  mkStreamingManager streams (batchSize sm) (streamBuffer sm) (checksumWorkers sm).

Inductive stream_error := StreamExists (node : string) | InvalidCompositeKey.

Definition AddStream (now : Z) (targetNodeID : string) (streamCtx : StreamContext) (sm : StreamingManager)
    : res stream_error StreamingManager :=
  match activeStreams sm !! targetNodeID with
  | Some _ => Err (StreamExists targetNodeID)
  | None => Ok (with_streams sm (<[targetNodeID := set_start now streamCtx]> (activeStreams sm)))
  end.

Definition RemoveStream (targetNodeID : string) (sm : StreamingManager) : StreamingManager :=
  with_streams sm (delete targetNodeID (activeStreams sm)).

Definition GetStream (targetNodeID : string) (sm : StreamingManager) : option StreamContext :=
  activeStreams sm !! targetNodeID.

(** [string(State)]. *)
Definition stream_state_string (st : StreamState) : string :=
  match st with
  | StreamStateCopying => "copying"
  | StreamStateStreaming => "streaming"
  | StreamStateSyncing => "syncing"
  | StreamStateCompleted => "completed"
  | StreamStateFailed => "failed"
  end.

Definition GetActiveStreams `{MapRange} (sm : StreamingManager) : list StreamContext := (map_range (activeStreams sm)).*2.

Record StreamMetrics := mkStreamMetrics {
  sm_TargetNodeID : string;
  sm_State : string;
  sm_KeysCopied : Z;
  sm_KeysStreamed : Z;
  sm_BytesCopied : Z;
  sm_BytesStreamed : Z;
  sm_Duration : float64;
}.

Definition GetMetrics (now : Z) (sm : StreamingManager) : gmap string StreamMetrics :=
  (λ c, mkStreamMetrics (TargetNodeID c) (stream_state_string (sc_State c)) (KeysCopied c) (KeysStreamed c) (BytesCopied c)
          (BytesStreamed c) (seconds (now - StartTime c))) <$> activeStreams sm.

Fixpoint keyInRanges (keyHash : Z) (ranges : list StreamRange) : bool :=
  match ranges with
  | [] => false
  | r :: ranges =>
      if (StartHash r <=? keyHash) && (keyHash <? EndHash r) then true
      else if (EndHash r <? StartHash r) && ((StartHash r <=? keyHash) || (keyHash <? EndHash r)) then true
      else keyInRanges keyHash ranges
  end.

(** A goroutine started by [InterceptWrite]: its target and the write. *)
Record live_task := mkLiveTask {
  lt_target : string;
  lt_tenant : string;
  lt_key : string;
  lt_value : list byte;
  lt_clock : VectorClock;
}.

Definition InterceptWrite `{MapRange} (tenantID key : string) (value : list byte) (vectorClock : VectorClock)
    (keyHash : Z) (sm : StreamingManager) : list live_task :=
  (λ kv, mkLiveTask kv.1 tenantID key value vectorClock) <$>
  filter (λ kv, sc_State kv.2 = StreamStateStreaming ∧ keyInRanges keyHash (KeyRanges kv.2) = true)
    (map_range (activeStreams sm)).

(** [sendToTargetNode] only logs. *)
Definition sendToTargetNode (streamCtx : StreamContext) (tenantID key : string) (value : list byte)
    (vectorClock : VectorClock) (isLiveWrite : bool) : res stream_error unit := Ok tt.

Definition run_live_task (t : live_task) (c : StreamContext) : StreamContext :=
  match sendToTargetNode c (lt_tenant t) (lt_key t) (lt_value t) (lt_clock t) true with
  | Err _ => c
  | Ok _ => count_streamed (Z.of_nat (length (lt_value t))) c
  end.

Definition parseCompositeKey (compositeKey : string) : res stream_error (string * string) :=
  match split_loop [] (bytes compositeKey) with
  | Some (tenantID, key) => Ok (string_of tenantID, string_of key)
  | None => Err InvalidCompositeKey
  end.

(** The placeholder of the source. *)
Definition scanKeysInRange (keyRange : StreamRange) : list string := [].

Definition computeRangeChecksum (keyRange : StreamRange) : string :=
  "checksum_" +:+ pretty (StartHash keyRange) +:+ "_" +:+ pretty (EndHash keyRange).

Definition getRemoteChecksum (streamCtx : StreamContext) (keyRange : StreamRange) : string :=
  computeRangeChecksum keyRange.

Section copy.
(** The storage service: its state and its [Read]; [None] is a panic. *)
Context {St Er : Type} (read : string → string → St → option (res Er (list byte * VectorClock) * St)).

(** One key of [copyBatch]; every failure skips the key. *)
Definition copy_key (acc : StreamContext * St) (key : string) : option (StreamContext * St) :=
  let '(c, st) := acc in
  match parseCompositeKey key with
  | Err _ => Some (c, st)
  | Ok (tenantID, actualKey) =>
      '(resp, st) ← read tenantID actualKey st;
      match resp with
      | Err _ => Some (c, st)
      | Ok (value, clock) =>
          match sendToTargetNode c tenantID actualKey value clock false with
          | Err _ => Some (c, st)
          | Ok _ => Some (count_copied (Z.of_nat (length value)) c, st)
          end
      end
  end.

Definition copyBatch (keys : list string) (acc : StreamContext * St) : option (StreamContext * St) :=
  foldM copy_key acc keys.

(** The batches of one range; every batch is non-empty, so the keys bound the rounds. *)
Fixpoint copy_batches (fuel : nat) (size : nat) (keys : list string) (acc : StreamContext * St)
    : option (StreamContext * St) :=
  match fuel, keys with
  | S fuel, _ :: _ => acc ← copyBatch (take size keys) acc; copy_batches fuel size (drop size keys) acc
  | _, _ => Some acc
  end.

Definition bulkCopyPhase (sm : StreamingManager) (acc : StreamContext * St) : option (StreamContext * St) :=
  foldM (λ acc keyRange,
           let keys := scanKeysInRange keyRange in
           copy_batches (length keys) (Z.to_nat (batchSize sm)) keys acc)
    acc (KeyRanges acc.1).

Definition reSyncRange (keyRange : StreamRange) (acc : StreamContext * St) : option (StreamContext * St) :=
  copyBatch (scanKeysInRange keyRange) acc.

Definition syncVerificationPhase (now : Z) (acc : StreamContext * St) : option (StreamContext * St) :=
  '(c, st) ← foldM (λ acc keyRange,
      if decide (computeRangeChecksum keyRange ≠ getRemoteChecksum acc.1 keyRange)
      then reSyncRange keyRange acc else Some acc) acc (KeyRanges acc.1);
  Some (set_synced now c, st).

(** Neither phase can fail: all errors are skipped. *)
Definition ExecuteStreaming (sm : StreamingManager) (now : Z) (c : StreamContext) (st : St)
    : option (StreamContext * St) :=
  '(c, st) ← bulkCopyPhase sm (SetState StreamStateCopying c, st);
  let c := SetState StreamStateStreaming c in
  '(c, st) ← syncVerificationPhase now (SetState StreamStateSyncing c, st);
  Some (SetState StreamStateCompleted c, st).
End copy.

(** ** Lemmas *)

(** The ranges are half open; an end below the start wraps around, and a range
    whose end is its start is empty. *)
Lemma keyInRanges_spec h rs :
  keyInRanges h rs = true ↔
  ∃ r, r ∈ rs ∧ (StartHash r ≤ h < EndHash r ∨ EndHash r < StartHash r ∧ (StartHash r ≤ h ∨ h < EndHash r)).
Proof.
  induction rs as [|r rs IH]; simpl; [split; [done|by intros (? & ?%elem_of_nil & _)]|].
  setoid_rewrite elem_of_cons.
  destruct ((StartHash r <=? h) && (h <? EndHash r)) eqn:H1.
  { split; [|done]. intros _. exists r. split; [by left|]. left. lia. }
  destruct ((EndHash r <? StartHash r) && ((StartHash r <=? h) || (h <? EndHash r))) eqn:H2.
  { split; [|done]. intros _. exists r. split; [by left|]. right. lia. }
  rewrite IH. split; [naive_solver|]. intros (r' & [->|Hin] & Hr); [|by exists r']. lia.
Qed.

(** A write is forwarded to exactly the targets in the live phase whose ranges
    contain its hash. *)
Lemma InterceptWrite_targets `{MapRange} tenantID key value vc h sm target :
  target ∈ lt_target <$> InterceptWrite tenantID key value vc h sm ↔
  ∃ c, activeStreams sm !! target = Some c ∧ sc_State c = StreamStateStreaming ∧ keyInRanges h (KeyRanges c) = true.
Proof.
  unfold InterceptWrite. rewrite <-list_fmap_compose, list_elem_of_fmap. split.
  - intros ([k c] & -> & [[? ?] Hin]%list_elem_of_filter). exists c. split; [by apply elem_of_map_range|done].
  - intros (c & Hc & ?). exists (target, c). split; [done|]. apply list_elem_of_filter. split; [done|].
    by apply elem_of_map_range.
Qed.

Section copy.
Context {St Er : Type} (read : string → string → St → option (res Er (list byte * VectorClock) * St)).

Lemma bulkCopyPhase_nothing sm acc : bulkCopyPhase read sm acc = Some acc.
Proof. unfold bulkCopyPhase. generalize (KeyRanges acc.1). by induction l. Qed.

Lemma syncVerificationPhase_nothing now c st :
  syncVerificationPhase read now (c, st) = Some (set_synced now c, st).
Proof.
  unfold syncVerificationPhase. simpl. generalize (KeyRanges c). intros rs.
  assert (foldM (λ acc keyRange, if decide (computeRangeChecksum keyRange ≠ getRemoteChecksum acc.1 keyRange)
    then reSyncRange read keyRange acc else Some acc) (c, st) rs = Some (c, st)) as ->; [|done].
  induction rs as [|r rs IH]; [done|]. cbn [foldM]. rewrite decide_False by (by intros Hn; apply Hn). apply IH.
Qed.

(** ** Properties *)

(** The streaming of a context reports completion without copying a key:
    whatever the node stores and whatever the ranges are, no key is read, no
    counter moves, the checksums compared are equal by construction, and the
    context ends in the completed state. *)
Theorem streaming_completes_without_copying sm now c (st : St) :
  ExecuteStreaming read sm now c st = Some (SetState StreamStateCompleted (set_synced now c), st).
Proof.
  unfold ExecuteStreaming. rewrite bulkCopyPhase_nothing. cbn [mbind option_bind].
  rewrite syncVerificationPhase_nothing. done.
Qed.
End copy.
