(* ===== verification/Storage.v ===== *)
(** * The storage service: [storage-node/internal/service/storage_service.go]

    [Write], [Read], [Delete] and [Repair] over the commit log, the memtable,
    the SSTables, the cache, the disk gate and the streaming manager.  A
    client operation is one step; a flush is two, because other operations run
    between its critical sections.  [None] is an operation that does not
    return (a panic, or the cache's endless loop). *)

From S2P Require Import Prelude GoHash Checksum Bloom Model Codec Json JsonCut Utf8 Errors Validator.
From S2P Require Import SkipList MemTable SSTable SSTableService CommitLog Float64 Cache DiskManager Streaming.
#[local] Open Scope Z_scope.

(** ** Definitions *)

(** What an operation meets outside the program: clock readings (in seconds
    for entries, in nanoseconds for the rest), the skip list's coins, the
    answers of the file system, and whether the worker pool's queue has room. *)
Record env := mkEnv {
  e_unix : Z;
  e_time : Z;
  e_t1 : Z;
  e_t2 : Z;
  e_coins : list bool;
  e_stat : option Statfs;
  e_out : write_outcome;
  e_submit : bool;
  e_nano : Z;
  e_io : option string;
}.

(** [pending_tasks] are the goroutines started by [InterceptWrite];
    [queued_flushes] and [flushing] are the flushes in the worker pool, waiting
    and between their critical sections. *)
Record StorageService := mkStorageService {
  commitLogService : CommitLogService;
  memTableService : MemTableService;
  sstableService : SSTableService;
  cacheService : CacheService;
  diskManager : DiskManager;
  validator : Validator;
  streamingManager : option StreamingManager;
  pending_tasks : list live_task;
  queued_flushes : nat;
  flushing : list MemTable;
}.

Definition NewStorageService (cl : CommitLogService) (mem : MemTableService) (sst : SSTableService)
    (c : CacheService) (dm : DiskManager) : StorageService :=
  mkStorageService cl mem sst c dm NewValidator None [] 0 [].

Definition SetStreamingManager (sm : StreamingManager) (s : StorageService) : StorageService :=
  mkStorageService (commitLogService s) (memTableService s) (sstableService s) (cacheService s)
    (diskManager s) (validator s) (Some sm) (pending_tasks s) (queued_flushes s) (flushing s).

Definition set_log (cl : CommitLogService) (s : StorageService) : StorageService :=
  mkStorageService cl (memTableService s) (sstableService s) (cacheService s)
    (diskManager s) (validator s) (streamingManager s) (pending_tasks s) (queued_flushes s) (flushing s).
Definition set_mem (mem : MemTableService) (s : StorageService) : StorageService :=
  mkStorageService (commitLogService s) mem (sstableService s) (cacheService s)
    (diskManager s) (validator s) (streamingManager s) (pending_tasks s) (queued_flushes s) (flushing s).
Definition set_sst (sst : SSTableService) (s : StorageService) : StorageService :=
  mkStorageService (commitLogService s) (memTableService s) sst (cacheService s)
    (diskManager s) (validator s) (streamingManager s) (pending_tasks s) (queued_flushes s) (flushing s).
Definition set_cache (c : CacheService) (s : StorageService) : StorageService :=
  mkStorageService (commitLogService s) (memTableService s) (sstableService s) c
    (diskManager s) (validator s) (streamingManager s) (pending_tasks s) (queued_flushes s) (flushing s).
Definition set_disk (dm : DiskManager) (s : StorageService) : StorageService :=
  mkStorageService (commitLogService s) (memTableService s) (sstableService s) (cacheService s)
    dm (validator s) (streamingManager s) (pending_tasks s) (queued_flushes s) (flushing s).
Definition add_tasks (ts : list live_task) (s : StorageService) : StorageService :=
  mkStorageService (commitLogService s) (memTableService s) (sstableService s) (cacheService s)
    (diskManager s) (validator s) (streamingManager s) (pending_tasks s ++ ts) (queued_flushes s) (flushing s).
Definition set_flushes (queued : nat) (fl : list MemTable) (s : StorageService) : StorageService :=
  mkStorageService (commitLogService s) (memTableService s) (sstableService s) (cacheService s)
    (diskManager s) (validator s) (streamingManager s) (pending_tasks s) queued fl.

(** What a failed append returns; the operating system's reason, which the
    message ends with, is not modelled. *)
Definition append_error (e : log_error) : error :=
  ErrText match e with
          | LogWrite => "failed to write to commit log"
          | LogSync => "failed to sync commit log"
          | LogOpen => "failed to open commit log file"
          end.

Definition not_found (tenantID key : string) : error := ErrStorage (KeyNotFound tenantID key).

(** The first eight bytes of the SHA-256 of the composite key. *)
Definition computeKeyHash (tenantID key : string) : Z :=
  be_val (take 8 (sha256 (bytes (buildKey tenantID key)))).

Inductive read_source := FromCache | FromMemTable | FromSSTable.

Record ReadResponse := mkReadResponse {
  rr_Value : list byte;
  rr_VectorClock : VectorClock;
  Source : read_source;
}.

Section ops.
Context `{MapRange} `{Codec MemTableEntry} `{Codec CommitLogEntry}.

(** The body of the flush task; its error is logged. *)
Definition run_flush (ev : env) (s : StorageService) : StorageService :=
  let '(mem, sst, _) := Flush (WriteFromMemTable (e_io ev) (e_nano ev) (e_unix ev))
                          (memTableService s) (sstableService s) in
  set_sst sst (set_mem mem s).

Definition triggerFlushAsync (ev : env) (s : StorageService) : StorageService :=
  if e_submit ev then set_flushes (S (queued_flushes s)) (flushing s) s else run_flush ev s.

(** A queued flush as a worker runs it: up to the write of the table, and the rest. *)
Definition flush_start (s : StorageService) : StorageService :=
  match begin_flush (memTableService s) with
  | None => set_flushes (Nat.pred (queued_flushes s)) (flushing s) s
  | Some (immutable, mem) =>
      set_mem mem (set_flushes (Nat.pred (queued_flushes s)) (flushing s ++ [immutable]) s)
  end.

Definition flush_finish (ev : env) (s : StorageService) : StorageService :=
  match flushing s with
  | [] => s
  | immutable :: rest =>
      let s := set_flushes (queued_flushes s) rest s in
      match WriteFromMemTable (e_io ev) (e_nano ev) (e_unix ev) immutable (sstableService s) with
      | Err _ => s
      | Ok sst => set_sst sst (set_mem (end_flush (memTableService s)) s)
      end
  end.

(** Commit log, then memtable: the part the three mutations share. *)
Definition log_and_put (ev : env) (op : OperationType) (message : string) (tenantID key : string)
    (value : list byte) (vectorClock : VectorClock) (s : StorageService)
    : option (res error unit * StorageService) :=
  let entry := mkCLE 0 tenantID key value vectorClock (e_unix ev) op 0 in
  match Append (e_out ev) entry (commitLogService s) with
  | (Err e, cl) => Some (Err (ErrStorage (CommitLogFailed message (Some (append_error e)))), set_log cl s)
  | (Ok entry, cl) =>
      let memEntry := mkMTE (buildKey tenantID key) value vectorClock (cl_Timestamp entry)
                        (bool_decide (op = OperationTypeDelete)) in
      mem ← Put (e_coins ev) memEntry (memTableService s);
      Some (Ok tt, set_mem mem (set_log cl s))
  end.

Definition intercept (tenantID key : string) (value : list byte) (vectorClock : VectorClock)
    (s : StorageService) : StorageService :=
  match streamingManager s with
  | None => s
  | Some sm => add_tasks (InterceptWrite tenantID key value vectorClock (computeKeyHash tenantID key) sm) s
  end.

Definition storage_Write (ev : env) (tenantID key : string) (value : list byte) (vectorClock : VectorClock)
    (s : StorageService) : option (res error VectorClock * StorageService) :=
  match ValidateWrite (validator s) tenantID key value vectorClock with
  | Err e => Some (Err (ErrStorage e), s)
  | Ok _ =>
      match CheckBeforeWrite (e_stat ev) (e_time ev) (EstimateWriteSize tenantID key value) (diskManager s) with
      | (Err c, dm) => Some (Err (ErrDisk c), set_disk dm s)
      | (Ok _, dm) =>
          '(r, s) ← log_and_put ev OperationTypeWrite "failed to append to commit log"
                      tenantID key value vectorClock (set_disk dm s);
          match r with
          | Err e => Some (Err e, s)
          | Ok _ =>
              c ← cache_Put (e_t1 ev) (e_t2 ev) (buildKey tenantID key) value vectorClock (cacheService s);
              let s := intercept tenantID key value vectorClock (set_cache c s) in
              let s := if ShouldFlush (memTableService s) then triggerFlushAsync ev s else s in
              Some (Ok vectorClock, s)
          end
      end
  end.

Definition storage_Read (ev : env) (tenantID key : string) (s : StorageService)
    : option (res error ReadResponse * StorageService) :=
  let memTableKey := buildKey tenantID key in
  let fill source value vectorClock (s : StorageService) :=
    c ← cache_Put (e_t1 ev) (e_t2 ev) memTableKey value vectorClock (cacheService s);
    Some (Ok (mkReadResponse value vectorClock source), set_cache c s) in
  match cache_Get (e_t1 ev) (e_t2 ev) memTableKey (cacheService s) with
  | (Some entry, c) =>
      Some (Ok (mkReadResponse (ce_Value entry) (ce_VectorClock entry) FromCache), set_cache c s)
  | (None, _) =>
      found ← Get (memTableService s) memTableKey;
      match found with
      | Some entry =>
          if mt_IsTombstone entry then Some (Err (not_found tenantID key), s)
          else fill FromMemTable (mt_Value entry) (mt_VectorClock entry) s
      | None =>
          found ← sst_Get (sstableService s) tenantID key;
          match found with
          | None => Some (Err (not_found tenantID key), s)
          | Some entry =>
              if kv_IsTombstone entry then Some (Err (not_found tenantID key), s)
              else fill FromSSTable (kv_Value entry) (kv_VectorClock entry) s
          end
      end
  end.

Definition storage_Delete (ev : env) (tenantID key : string) (vectorClock : VectorClock)
    (s : StorageService) : option (res error unit * StorageService) :=
  match ValidateTenantID (validator s) tenantID with
  | Err e => Some (Err (ErrStorage e), s)
  | Ok _ =>
      match ValidateKey (validator s) key with
      | Err e => Some (Err (ErrStorage e), s)
      | Ok _ =>
          '(r, s) ← log_and_put ev OperationTypeDelete "failed to append delete to commit log"
                      tenantID key [] vectorClock s;
          match r with
          | Err e => Some (Err e, s)
          | Ok _ => Some (Ok tt, set_cache (cache_Remove (buildKey tenantID key) (cacheService s)) s)
          end
      end
  end.

Definition storage_Repair (ev : env) (tenantID key : string) (value : list byte) (vectorClock : VectorClock)
    (s : StorageService) : option (res error unit * StorageService) :=
  '(r, s) ← log_and_put ev OperationTypeRepair "repair commit log failed" tenantID key value vectorClock s;
  match r with
  | Err e => Some (Err e, s)
  | Ok _ =>
      c ← cache_Put (e_t1 ev) (e_t2 ev) (buildKey tenantID key) value vectorClock (cacheService s);
      Some (Ok tt, set_cache c s)
  end.

(** *** Starting a node *)

(** What [main] reads from the configuration for the services. *)
Record setup := mkSetup {
  su_log : CommitLogConfig;
  su_mem : MemTableConfig;
  su_dir : string;
  su_bloomSize : Z;
  su_bloomHashes : Z;
  su_cache : CacheConfig;
}.

(** [main] up to the wiring of the streaming manager.  [log] and [tables] are
    the files in the two data directories: the log is replayed into the
    memtable, and no table is opened.  A log that cannot be opened is fatal.
    [dm] is the disk manager [NewDiskManager] returned; the worker pool and the
    compaction service start idle and are not part of the state. *)
Definition boot (su : setup) (fails : bool) (now1 now2 : Z) (coins : nat → list bool) (dm : DiskManager)
    (log tables : gmap string (list byte)) : option (res log_error StorageService) :=
  match NewCommitLogService (su_log su) fails now1 now2 log with
  | Err e => Some (Err e)
  | Ok cl =>
      let mem := NewMemTableService (su_mem su) in
      let sst := NewSSTableService (su_dir su) (su_bloomSize su) (su_bloomHashes su) tables in
      let s := NewStorageService cl mem sst (NewCacheService (su_cache su)) dm in
      '(st, cl) ← Recover coins mem cl;
      Some (Ok (SetStreamingManager (NewStreamingManager 1000 10000 4) (set_mem (rc_mem st) (set_log cl s))))
  end.
End ops.

(** ** The abstract state: the last entry of every key *)

Section invariant.
Context `{MapRange} `{Codec MemTableEntry} `{Codec CommitLogEntry} `{!CutCodec CommitLogEntry}.
Implicit Types (s : StorageService) (A cur old m : gmap string MemTableEntry) (e : MemTableEntry) (t f : Z).

(** A version is the last one of its key, or older. *)
Definition current_or_older A k e : Prop :=
  ∃ eA, A !! k = Some eA ∧ (e = eA ∨ mt_Timestamp e < mt_Timestamp eA).

(** Where the entries are: [cur] and [old] are the memtable and the table
    being flushed, [f] is the clock when the last flush started. *)
Record placed A (sst : SSTableService) cur old f t : Prop := {
  pl_cur k e : cur !! k = Some e → A !! k = Some e ∧ f < mt_Timestamp e ≤ t;
  pl_old k e : old !! k = Some e → current_or_older A k e ∧ 0 < mt_Timestamp e ≤ f;
  pl_old_last k e : old !! k = Some e → cur !! k = None → A !! k = Some e;
  pl_sst m k e : holds sst m → m !! k = Some e → current_or_older A k e ∧ 0 < mt_Timestamp e ≤ f;
  pl_all k e : A !! k = Some e → cur !! k = Some e ∨ old !! k = Some e ∨ ∃ m, holds sst m ∧ m !! k = Some e;
  pl_clock : 0 ≤ f ≤ t;
}.

(** The memtable service holds [cur] and, during a flush and after one that
    failed, [old]. *)
Definition mem_is s cur old : Prop :=
  is_memtable (memTable (memTableService s)) cur ∧
  (flushing s = [] ∧ immutableMT (memTableService s) = None ∧ old = ∅ ∨
   ∃ mt, (flushing s = [mt] ∨ flushing s = []) ∧ immutableMT (memTableService s) = Some mt ∧ is_memtable mt old).

(** A cached value is the live value of its key. *)
Definition cache_coherent A (c : CacheService) : Prop :=
  cache_inv c ∧
  ∀ k ce, cache c !! k = Some ce → ∃ e, A !! k = Some e ∧ mt_IsTombstone e = false ∧
    ce_Value ce = mt_Value e ∧ ce_VectorClock ce = mt_VectorClock e.

(** The log ends with a whole line, and its whole lines are [es]. *)
Definition log_intact (lcfg : CommitLogConfig) (cl : CommitLogService) (es : list CommitLogEntry) t : Prop :=
  ∃ ls tl, log_run lcfg cl (ls, []) tl ∧ tl ≤ t ∧ wholes ls = es ∧
    Forall (λ i, match i with Whole _ => True | Broken _ => short i end) ls.

(** [o] are the entries in the log, when it is intact. *)
Record storage_inv (lcfg : CommitLogConfig) s (o : option (list CommitLogEntry)) A f t : Prop := {
  iv_log es : o = Some es → log_intact lcfg (commitLogService s) es t ∧ A = replayed es ∅;
  iv_mem : ∃ cur old, mem_is s cur old ∧ placed A (sstableService s) cur old f t;
  iv_sst : sst_wf (sstableService s);
  iv_bloom : 0 < bloomSize (sstableService s) < 2 ^ 63 ∧ 0 ≤ bloomHashes (sstableService s) < 2 ^ 64;
  iv_cache : cache_coherent A (cacheService s);
}.

(** *** Reading *)

Lemma placed_lookup A sst cur old f t k :
  placed A sst cur old f t → is_Some ((cur ∪ old) !! k) → A !! k = (cur ∪ old) !! k.
Proof.
  intros Hp. rewrite lookup_union. destruct (cur !! k) as [e|] eqn:Hc.
  - intros _. rewrite (proj1 (pl_cur _ _ _ _ _ _ Hp k e Hc)). by destruct (old !! k).
  - destruct (old !! k) as [e|] eqn:Ho; [|by intros [? ?]]. intros _.
    by rewrite (pl_old_last _ _ _ _ _ _ Hp k e Ho Hc).
Qed.

Lemma mem_Get s cur old k : mem_is s cur old → Get (memTableService s) k = Some ((cur ∪ old) !! k).
Proof.
  intros [Hc Ho]. apply Get_spec. exists cur, old. split; [done|]. split; [|done].
  destruct Ho as [(_ & -> & ->)|(mt & _ & -> & ?)]; done.
Qed.

(** What the tables answer for a key that is not in memory. *)
Lemma placed_sst_Get A sst cur old f t tenantID key :
  placed A sst cur old f t → sst_wf sst → (cur ∪ old) !! buildKey tenantID key = None →
  sst_Get sst tenantID key = Some (to_kv <$> A !! buildKey tenantID key).
Proof.
  intros Hp Hwf Hn. apply lookup_union_None in Hn as [Hc Ho]. set (k := buildKey tenantID key) in *.
  destruct (sst_Get_spec sst tenantID key Hwf) as (r & -> & Hr). fold k in Hr. f_equal.
  destruct r as [kv|]; simpl in Hr.
  - destruct Hr as (m & e & Hm & He & -> & Hpos & Hmax).
    destruct (pl_sst _ _ _ _ _ _ Hp m k e Hm He) as [(eA & HA & HeA) _]. rewrite HA. simpl.
    destruct HeA as [->|Hlt]; [done|].
    destruct (pl_all _ _ _ _ _ _ Hp k eA HA) as [?|[?|(m' & Hm' & He')]]; [congruence|congruence|].
    specialize (Hmax m' eA Hm' He'). lia.
  - destruct (A !! k) as [eA|] eqn:HA; [|done].
    destruct (pl_all _ _ _ _ _ _ Hp k eA HA) as [?|[?|(m' & Hm' & He')]]; [congruence|congruence|].
    destruct (pl_sst _ _ _ _ _ _ Hp m' k eA Hm' He') as [_ ?]. specialize (Hr m' eA Hm' He'). lia.
Qed.

(** What a read is to return. *)
Definition read_spec A (tenantID key : string) (r : res error ReadResponse) : Prop :=
  match A !! buildKey tenantID key with
  | Some e =>
      if mt_IsTombstone e then r = Err (not_found tenantID key)
      else ∃ src, r = Ok (mkReadResponse (mt_Value e) (mt_VectorClock e) src)
  | None => r = Err (not_found tenantID key)
  end.

Lemma coherent_put A c c' k v vc e :
  cache_coherent A c → cache_inv c' → (∃ ce, cache c' !! k = Some ce ∧ ce_Value ce = v ∧ ce_VectorClock ce = vc) →
  (∀ k', k' ≠ k → cache c' !! k' = cache c !! k' ∨ cache c' !! k' = None) →
  mt_IsTombstone e = false → mt_Value e = v → mt_VectorClock e = vc →
  cache_coherent (<[k := e]> A) c'.
Proof.
  intros [_ Hc] Hinv (ce & Hce & Hv & Hvc) Ho Ht Hev Hevc. split; [done|]. intros k' ce' Hk'.
  destruct (decide (k' = k)) as [->|Hne].
  - exists e. rewrite lookup_insert_eq. simplify_eq. done.
  - rewrite lookup_insert_ne by done. destruct (Ho k' Hne) as [Heq|Heq]; [|congruence]. apply Hc. congruence.
Qed.

(** The cache can make room for every live value. *)
Definition cache_ready A (c : CacheService) : Prop :=
  evictable c ∧ cache_MaxSize (cache_config c) < 2 ^ 63 ∧
  ∀ k e, A !! k = Some e → cache_size k (mt_Value e) ≤ cache_MaxSize (cache_config c).

Lemma fill_coherent t1 t2 A c c' k e :
  cache_coherent A c → A !! k = Some e → mt_IsTombstone e = false →
  cache_Put t1 t2 k (mt_Value e) (mt_VectorClock e) c = Some c' → cache_coherent A c'.
Proof.
  intros Hc HA Ht Hp. destruct (cache_Put_result _ _ _ _ _ _ _ (proj1 Hc) Hp) as (Hinv & _ & Hk & Ho & _).
  rewrite <-(insert_id A k e HA). by eapply coherent_put.
Qed.

(** A read without its effect on the cache: what is found, and where. *)
Lemma storage_Read_unfold lcfg ev tenantID key s o A f t :
  storage_inv lcfg s o A f t →
  let k := buildKey tenantID key in
  (∃ c, storage_Read ev tenantID key s =
     Some (match A !! k with
           | Some e => Ok (mkReadResponse (mt_Value e) (mt_VectorClock e) FromCache)
           | None => Err (not_found tenantID key)
           end, set_cache c s) ∧ cache_coherent A c ∧ (∀ e, A !! k = Some e → mt_IsTombstone e = false)) ∨
  storage_Read ev tenantID key s = Some (Err (not_found tenantID key), s) ∧ (∀ e, A !! k = Some e → mt_IsTombstone e = true) ∨
  ∃ e src, A !! k = Some e ∧ mt_IsTombstone e = false ∧ storage_Read ev tenantID key s =
    (c ← cache_Put (e_t1 ev) (e_t2 ev) k (mt_Value e) (mt_VectorClock e) (cacheService s);
     Some (Ok (mkReadResponse (mt_Value e) (mt_VectorClock e) src), set_cache c s)).
Proof.
  intros [_ (cur & old & Hmem & Hp) Hwf _ Hc] k.
  unfold storage_Read. fold k. pose proof (cache_Get_spec (e_t1 ev) (e_t2 ev) k (cacheService s) (proj1 Hc)) as Hget.
  destruct (cache_Get _ _ k _) as [[ce|] c] eqn:Hcg; [left|right].
  - destruct Hget as (Hinv & _ & Hsame & Hr). simpl in Hr.
    destruct (cache (cacheService s) !! k) as [ce0|] eqn:Hk; [|done]. simpl in Hr. injection Hr as Hv Hvc.
    destruct (proj2 Hc k ce0 Hk) as (e & HA & Ht & He1 & He2). rewrite HA. exists c.
    split; [by rewrite Hv, Hvc, He1, He2|]. split; [|by intros ? [= <-]]. split; [done|].
    intros k' ce' Hk'. specialize (Hsame k'). rewrite Hk' in Hsame.
    destruct (cache (cacheService s) !! k') as [ce1|] eqn:Hk1; [|done]. simpl in Hsame. injection Hsame as -> ->.
    by apply (proj2 Hc).
  - rewrite (mem_Get _ _ _ _ Hmem). cbn [mbind option_bind].
    destruct ((cur ∪ old) !! k) as [e|] eqn:Hm.
    + assert (A !! k = Some e) as HA by (rewrite (placed_lookup _ _ _ _ _ _ _ Hp); [done|eauto]). rewrite HA.
      destruct (mt_IsTombstone e) eqn:Ht; [left; split; [done|by intros ? [= <-]]|right].
      exists e, FromMemTable. by split_and!.
    + rewrite (placed_sst_Get _ _ _ _ _ _ _ _ Hp Hwf Hm). cbn [mbind option_bind]. fold k.
      destruct (A !! k) as [e|] eqn:HA; simpl; [|by left].
      assert (kv_IsTombstone (to_kv e) = mt_IsTombstone e ∧ kv_Value (to_kv e) = mt_Value e ∧
              kv_VectorClock (to_kv e) = mt_VectorClock e) as (-> & -> & ->)
        by (unfold to_kv; by destruct (splitCompositeKey _)).
      destruct (mt_IsTombstone e) eqn:Ht; [left; split; [done|by intros ? [= <-]]|right].
      exists e, FromSSTable. by split_and!.
Qed.

Lemma storage_Read_result lcfg ev tenantID key s s' r o A f t :
  storage_inv lcfg s o A f t → storage_Read ev tenantID key s = Some (r, s') →
  read_spec A tenantID key r ∧ ∃ c, s' = set_cache c s ∧ cache_coherent A c.
Proof.
  intros Hinv Hread. pose proof (iv_cache _ _ _ _ _ _ Hinv) as Hc. unfold read_spec.
  assert (set_cache (cacheService s) s = s) as Hid by by destruct s.
  destruct (storage_Read_unfold lcfg ev tenantID key s o A f t Hinv) as [(c & Hr & Hc' & Ht)|[[Hr Ht]|(e & src & HA & Ht & Hr)]];
    rewrite Hr in Hread.
  - injection Hread as <- <-. split; [|by exists c]. destruct (A !! _) as [e|]; [|done].
    rewrite (Ht e eq_refl). by eexists.
  - injection Hread as <- <-. split; [|by exists (cacheService s)]. destruct (A !! _) as [e|]; [|done].
    by rewrite (Ht e eq_refl).
  - rewrite HA, Ht. destruct (cache_Put _ _ _ _ _ _) as [c|] eqn:Hp; [|done]. simpl in Hread. injection Hread as <- <-.
    split; [by eexists|]. exists c. split; [done|]. by eapply fill_coherent.
Qed.

Lemma storage_Read_returns lcfg ev tenantID key s o A f t :
  storage_inv lcfg s o A f t → cache_ready A (cacheService s) → is_Some (storage_Read ev tenantID key s).
Proof.
  intros Hinv (Hev & Hmax & Hfit).
  destruct (storage_Read_unfold lcfg ev tenantID key s o A f t Hinv) as [(c & -> & _)|[[-> _]|(e & src & HA & Ht & ->)]];
    [by eexists..|].
  destruct (cache_Put_returns (e_t1 ev) (e_t2 ev) (buildKey tenantID key) (mt_Value e) (mt_VectorClock e) (cacheService s))
    as [c ->]; [apply (iv_cache _ _ _ _ _ _ Hinv)|done|by apply Hfit|done|by eexists].
Qed.
End invariant.

Section steps.
Context `{MapRange} `{Codec MemTableEntry} `{Codec CommitLogEntry} `{!CutCodec CommitLogEntry}.
Implicit Types (s : StorageService) (A cur old m : gmap string MemTableEntry) (e : MemTableEntry) (t f : Z).

(** *** Writing *)

Lemma current_or_older_insert A k k' e e' f :
  f < mt_Timestamp e → current_or_older A k' e' → mt_Timestamp e' ≤ f → current_or_older (<[k := e]> A) k' e'.
Proof.
  intros Hf (eA & HA & He) Hle. destruct (decide (k' = k)) as [->|Hne].
  - exists e. rewrite lookup_insert_eq. split; [done|]. right. lia.
  - exists eA. by rewrite lookup_insert_ne.
Qed.

Lemma placed_put A sst cur old f t now k e :
  placed A sst cur old f t → f < now → t ≤ now → mt_Timestamp e = now →
  placed (<[k := e]> A) sst (<[k := e]> cur) old f now.
Proof.
  intros [Hc Ho Hol Hs Hall Ht] Hf Hle He. split.
  - intros k' e' Hk'. destruct (decide (k' = k)) as [->|Hne].
    + rewrite lookup_insert_eq in Hk' |- *. simplify_eq. split; [done|lia].
    + rewrite lookup_insert_ne in Hk' |- * by done. destruct (Hc k' e' Hk'). split; [done|lia].
  - intros k' e' Hk'. destruct (Ho k' e' Hk') as [? ?]. split; [|done].
    apply (current_or_older_insert A k k' e e' f); [lia|done|lia].
  - intros k' e' Hk' Hn. apply lookup_insert_None in Hn as [Hn Hne]. rewrite lookup_insert_ne by done. auto.
  - intros m k' e' Hm Hk'. destruct (Hs m k' e' Hm Hk') as [? ?]. split; [|done].
    apply (current_or_older_insert A k k' e e' f); [lia|done|lia].
  - intros k' e' Hk'. destruct (decide (k' = k)) as [->|Hne].
    + left. rewrite lookup_insert_eq in Hk' |- *. done.
    + rewrite lookup_insert_ne in Hk' |- * by done. auto.
  - lia.
Qed.

Lemma placed_later A sst cur old f t t' : placed A sst cur old f t → t ≤ t' → placed A sst cur old f t'.
Proof.
  intros [Hc Ho Hol Hs Hall Ht] Hle. split; try done; [|lia].
  intros k e Hk. destruct (Hc k e Hk). split; [done|lia].
Qed.

(** The entry a mutation puts. *)
Definition mutation (ev : env) (op : OperationType) (tenantID key : string) (value : list byte)
    (vc : VectorClock) : MemTableEntry :=
  mkMTE (buildKey tenantID key) value vc (e_unix ev) (bool_decide (op = OperationTypeDelete)).

(** The log entry of a mutation, with the next sequence number. *)
Definition logged (ev : env) (op : OperationType) (tenantID key : string) (value : list byte)
    (vc : VectorClock) s : CommitLogEntry :=
  sealed (mkCLE 0 tenantID key value vc (e_unix ev) op 0) (u64 (sequenceNumber (commitLogService s) + 1)).

Lemma log_intact_later lcfg cl es t t' : log_intact lcfg cl es t → t ≤ t' → log_intact lcfg cl es t'.
Proof. intros (ls & tl & Hrun & Hle & Hes & Hsh) Ht. exists ls, tl. split_and!; [done|lia|done|done]. Qed.

(** What is known of the log after an operation that returned an error. *)
Definition after_failure (cl cl' : CommitLogService) (o : option (list CommitLogEntry)) : option (list CommitLogEntry) :=
  if decide (log cl' = log cl) then o else None.

Lemma after_failure_same cl cl' o : log cl' = log cl → after_failure cl cl' o = o.
Proof. intros Heq. unfold after_failure. by rewrite decide_True. Qed.

Lemma append_failed lcfg cl cl' out entry err es t o :
  Append out entry cl = (Err err, cl') → after_failure cl cl' o = Some es →
  (∀ es, o = Some es → log_intact lcfg cl es t) → log_intact lcfg cl' es t ∧ o = Some es.
Proof.
  intros Happ Ho Hlog. unfold after_failure in Ho. case_decide as Heq; [|done]. split; [|done].
  destruct (Hlog es Ho) as (ls & tl & Hrun & Hle & Hes & Hsh). exists ls, tl. split_and!; try done.
  rewrite <-(append_same_log _ _ _ _ _ _ _ _ Hrun Happ Heq). by eapply run_append.
Qed.

Lemma log_and_put_spec lcfg ev op msg tenantID key value vc s o A f t :
  storage_inv lcfg s o A f t →
  let entry := mkCLE 0 tenantID key value vc (e_unix ev) op 0 in
  match (Append (e_out ev) entry (commitLogService s)).1 with
  | Err _ => ∃ err cl, log_and_put ev op msg tenantID key value vc s = Some (Err err, set_log cl s) ∧
      storage_inv lcfg (set_log cl s) (after_failure (commitLogService s) cl o) A f t
  | Ok _ =>
      let k := buildKey tenantID key in let e := mutation ev op tenantID key value vc in
      ∃ mem cl, log_and_put ev op msg tenantID key value vc s = Some (Ok tt, set_mem mem (set_log cl s)) ∧
        ∀ c, cache_coherent (<[k := e]> A) c → f < e_unix ev → t ≤ e_unix ev →
          storage_inv lcfg (set_cache c (set_mem mem (set_log cl s)))
            ((.++ [logged ev op tenantID key value vc s]) <$> o) (<[k := e]> A) f (e_unix ev)
  end.
Proof.
  intros [Hlog (cur & old & [Hcur Hold] & Hp) Hwf Hbl Hc] entry. unfold log_and_put. fold entry.
  destruct (Append (e_out ev) entry (commitLogService s)) as [[e'|err] cl] eqn:Happ; cbn [fst].
  - destruct (mt_Put_spec (e_coins ev) (mutation ev op tenantID key value vc) _ _ Hcur) as (mt' & Hput & Hmt' & _).
    assert (e' = logged ev op tenantID key value vc s) as ->.
    { unfold Append in Happ. destruct (currentFile _), (e_out ev); repeat case_match; by simplify_eq. }
    exists (mkMemTableService (config (memTableService s)) mt' (immutableMT (memTableService s))), cl.
    cbn [cl_Timestamp logged sealed with_checksum with_sequence]. fold (mutation ev op tenantID key value vc).
    unfold Put. rewrite Hput. cbn [mbind option_bind]. split; [done|].
    intros c Hcc Hf Ht. split; [| |done..].
    + intros es' Hes'. destruct o as [es|]; [|done]. injection Hes' as <-.
      destruct (Hlog es eq_refl) as [(ls & tl & Hrun & Hle & Hes & Hsh) HA]. split.
      * destruct (append_ok _ _ _ _ _ _ _ _ Hrun Happ) as [_ Hrun']. eexists _, tl. split; [exact Hrun'|].
        split_and!; [lia|by rewrite wholes_app, Hes|]. apply Forall_app. split; [done|by repeat constructor].
      * unfold replayed. rewrite foldl_app. simpl. by rewrite HA.
    + exists (<[buildKey tenantID key := mutation ev op tenantID key value vc]> cur), old. split; [split; [done|]|by eapply placed_put]. exact Hold.
  - eexists _, cl. split; [done|]. split; [|by exists cur, old|done..].
    intros es Hes. destruct (append_failed lcfg _ _ _ _ _ es t o Happ Hes) as [Hi ->]; [by intros; apply Hlog|].
    split; [done|]. by apply Hlog.
Qed.

(** The invariant does not mention the other parts. *)
Lemma storage_inv_same lcfg s s' o A f t :
  commitLogService s' = commitLogService s → memTableService s' = memTableService s →
  sstableService s' = sstableService s → cacheService s' = cacheService s → flushing s' = flushing s →
  storage_inv lcfg s o A f t → storage_inv lcfg s' o A f t.
Proof.
  intros E1 E2 E3 E4 E5 [Hl (cur & old & Hm & Hp) Hw Hb Hc].
  split; rewrite ?E1, ?E3, ?E4; try done. exists cur, old. split; [|done]. unfold mem_is in *. by rewrite E2, E5.
Qed.

Lemma storage_inv_disk lcfg s o A f t dm : storage_inv lcfg s o A f t → storage_inv lcfg (set_disk dm s) o A f t.
Proof. by apply storage_inv_same. Qed.

Lemma coherent_mutation t1 t2 ev op tenantID key value vc A c c' :
  cache_coherent A c → op ≠ OperationTypeDelete →
  cache_Put t1 t2 (buildKey tenantID key) value vc c = Some c' →
  cache_coherent (<[buildKey tenantID key := mutation ev op tenantID key value vc]> A) c'.
Proof.
  intros Hc Hop Hp. destruct (cache_Put_result _ _ _ _ _ _ _ (proj1 Hc) Hp) as (Hinv & _ & Hk & Ho & _).
  eapply coherent_put; [done..| |done|done]. simpl. by apply bool_decide_eq_false_2.
Qed.

(** What is known after a mutation that returned: it is the last one of its
    key, or nothing changed but the log. *)
Definition mutated (lcfg : CommitLogConfig) (ev : env) (op : OperationType) (tenantID key : string) (value : list byte)
    (vc : VectorClock) s o A f t (ok : bool) s' : Prop :=
  if ok then f < e_unix ev → t ≤ e_unix ev →
             storage_inv lcfg s' ((.++ [logged ev op tenantID key value vc s]) <$> o)
               (<[buildKey tenantID key := mutation ev op tenantID key value vc]> A) f (e_unix ev)
  else storage_inv lcfg s' (after_failure (commitLogService s) (commitLogService s') o) A f t.

Lemma not_mutated lcfg ev op tenantID key value vc s o A f t s' :
  storage_inv lcfg s' o A f t → commitLogService s' = commitLogService s →
  mutated lcfg ev op tenantID key value vc s o A f t false s'.
Proof. intros Hinv Heq. unfold mutated. rewrite Heq. by rewrite after_failure_same. Qed.

Lemma storage_Write_result lcfg ev tenantID key value vc s s' r o A f t :
  storage_inv lcfg s o A f t → e_submit ev = true →
  storage_Write ev tenantID key value vc s = Some (r, s') →
  mutated lcfg ev OperationTypeWrite tenantID key value vc s o A f t (match r with Ok _ => true | Err _ => false end) s'.
Proof.
  intros Hinv Hsub. unfold storage_Write.
  destruct (ValidateWrite _ _ _ _ _) as [|e]; [|intros [= <- <-]; by apply not_mutated].
  destruct (CheckBeforeWrite _ _ _ _) as [[[]|c] dm]; [|intros [= <- <-]; apply not_mutated; [by apply storage_inv_disk|done]].
  pose proof (log_and_put_spec lcfg ev OperationTypeWrite "failed to append to commit log" tenantID key value vc
    (set_disk dm s) o A f t (storage_inv_disk _ _ _ _ _ _ _ Hinv)) as Hspec. cbv zeta in Hspec.
  destruct (Append _ _ _).1 as [e'|err]; [|by destruct Hspec as (err' & cl & -> & ?); intros [= <- <-]].
  destruct Hspec as (mem & cl & Hlp & Hnew).
  rewrite Hlp. cbn [mbind option_bind]. destruct (cache_Put _ _ _ _ _ _) as [c|] eqn:Hp; [|done].
  cbn [mbind option_bind]. intros [= <- <-].
  intros Hf Ht.
  specialize (Hnew c (coherent_mutation _ _ ev OperationTypeWrite _ _ _ _ _ _ _ (iv_cache _ _ _ _ _ _ Hinv) ltac:(done) Hp) Hf Ht).
  eapply storage_inv_same; [..|exact Hnew]; unfold intercept, triggerFlushAsync; rewrite Hsub; repeat case_match; done.
Qed.

Lemma storage_Delete_result lcfg ev tenantID key vc s s' r o A f t :
  storage_inv lcfg s o A f t →
  storage_Delete ev tenantID key vc s = Some (r, s') →
  mutated lcfg ev OperationTypeDelete tenantID key [] vc s o A f t (match r with Ok _ => true | Err _ => false end) s'.
Proof.
  intros Hinv. unfold storage_Delete.
  destruct (ValidateTenantID _ _) as [|e]; [|intros [= <- <-]; by apply not_mutated].
  destruct (ValidateKey _ _) as [|e]; [|intros [= <- <-]; by apply not_mutated].
  pose proof (log_and_put_spec lcfg ev OperationTypeDelete "failed to append delete to commit log" tenantID key [] vc
    s o A f t Hinv) as Hspec. cbv zeta in Hspec.
  destruct (Append _ _ _).1 as [e'|err]; [|by destruct Hspec as (err' & cl & -> & ?); intros [= <- <-]].
  destruct Hspec as (mem & cl & Hlp & Hnew). rewrite Hlp. cbn [mbind option_bind]. intros [= <- <-] Hf Ht. apply Hnew; [|done..]. simpl.
  destruct (iv_cache _ _ _ _ _ _ Hinv) as [Hci Hco].
  destruct (cache_Remove_spec (buildKey tenantID key) _ Hci) as (Hi' & Hc' & _). split; [done|].
  intros k ce. rewrite Hc'. intros [Hne Hk]%lookup_delete_Some. rewrite lookup_insert_ne by done. by apply Hco.
Qed.

Lemma storage_Repair_result lcfg ev tenantID key value vc s s' r o A f t :
  storage_inv lcfg s o A f t →
  storage_Repair ev tenantID key value vc s = Some (r, s') →
  mutated lcfg ev OperationTypeRepair tenantID key value vc s o A f t (match r with Ok _ => true | Err _ => false end) s'.
Proof.
  intros Hinv. unfold storage_Repair.
  pose proof (log_and_put_spec lcfg ev OperationTypeRepair "repair commit log failed" tenantID key value vc
    s o A f t Hinv) as Hspec. cbv zeta in Hspec.
  destruct (Append _ _ _).1 as [e'|err]; [|by destruct Hspec as (err' & cl & -> & ?); intros [= <- <-]].
  destruct Hspec as (mem & cl & Hlp & Hnew).
  rewrite Hlp. cbn [mbind option_bind]. destruct (cache_Put _ _ _ _ _ _) as [c|] eqn:Hp; [|done].
  cbn [mbind option_bind]. intros [= <- <-] Hf Ht. apply Hnew; [|done..].
  by eapply (coherent_mutation _ _ ev OperationTypeRepair); [apply (iv_cache _ _ _ _ _ _ Hinv)| |].
Qed.

(** *** Flushing *)

(** The clock of the last flush after [flush_start], which does nothing when
    the memtable is empty. *)
Definition flush_clock s f t : Z := match begin_flush (memTableService s) with None => f | Some _ => t end.

Lemma flush_start_inv lcfg s o A f t :
  storage_inv lcfg s o A f t → immutableMT (memTableService s) = None →
  storage_inv lcfg (flush_start s) o A (flush_clock s f t) t.
Proof.
  intros Hinv Him. unfold flush_start, flush_clock.
  destruct (begin_flush (memTableService s)) as [[imm mem]|] eqn:Hb.
  2:{ by eapply storage_inv_same; [..|exact Hinv]. }
  destruct Hinv as [Hl (cur & old & [Hcur Hold] & Hp) Hw Hbl Hc].
  pose proof (pl_clock _ _ _ _ _ _ Hp) as Hft.
  destruct Hold as [(Hfl & _ & ->)|(mt & _ & Him' & _)]; [|congruence].
  unfold begin_flush in Hb. destruct (_ =? _); [done|]. injection Hb as <- <-.
  split; try done. exists ∅, cur. split.
  - split; [apply NewMemTable_spec|]. right. exists (memTable (memTableService s)). simpl. rewrite Hfl. auto.
  - destruct Hp as [Hpc _ _ Hps Hpa _]. split; try done.
    + intros k e Hk. destruct (Hpc k e Hk) as [? ?]. split; [exists e; auto|lia].
    + intros k e Hk _. by destruct (Hpc k e Hk).
    + intros m k e Hm Hk. destruct (Hps m k e Hm Hk) as [? ?]. split; [done|lia].
    + intros k e Hk. destruct (Hpa k e Hk) as [?|[?|?]]; auto.
    + lia.
Qed.

Lemma flush_finish_inv lcfg ev s o A f t :
  storage_inv lcfg s o A f t → fresh (e_nano ev) (sstableService s) →
  (∀ mt m, flushing s = [mt] → is_memtable mt m → writable_map m) →
  storage_inv lcfg (flush_finish ev s) o A f t.
Proof.
  intros Hinv Hfresh Hwr. unfold flush_finish.
  destruct Hinv as [Hl (cur & old & [Hcur Hold] & Hp) Hw [Hb1 Hb2] Hc].
  assert (∀ s', flushing s' = [] → commitLogService s' = commitLogService s → memTableService s' = memTableService s →
    sstableService s' = sstableService s → cacheService s' = cacheService s → storage_inv lcfg s' o A f t) as Hsame.
  { intros s' E0 E1 E2 E3 E4. split; rewrite ?E1, ?E3, ?E4; try done. exists cur, old. split; [|done].
    split; rewrite E2; [done|]. rewrite E0. destruct Hold as [(_ & ? & ?)|(mt & _ & ? & ?)]; [by left|right; exists mt; auto]. }
  destruct (flushing s) as [|mt rest] eqn:Hfl; [by apply Hsame|].
  destruct Hold as [(? & _)|(mt' & [[= -> ->]|?] & Him & Hold)]; [done| |done].
  destruct (e_io ev) as [reason|]; [by apply Hsame|]. cbn [sstableService set_flushes].
  destruct (WriteFromMemTable_spec (e_nano ev) (e_unix ev) mt' old (sstableService s)) as (sst & -> & Hw' & Hh & _ & Hbs & Hbh);
    [done..|by eapply Hwr|done|].
  split; try done; [|cbn [sstableService set_sst]; by rewrite Hbs, Hbh]. exists cur, ∅. split; [split; [done|by left]|].
  destruct Hp as [Hpc Hpo Hpl Hps Hpa Hft]. split; try done.
  - intros m k e [->|Hm]%Hh Hk; [by apply Hpo|by eapply Hps].
  - intros k e Hk. destruct (Hpa k e Hk) as [?|[?|(m & ? & ?)]]; [by left|right; right; exists old; by rewrite Hh; auto|].
    right; right. exists m. rewrite Hh. auto.
Qed.
End steps.

(** ** Restarting *)

(** The entries can be read back from the log. *)
Definition readable `{Codec CommitLogEntry} (es : list CommitLogEntry) : Prop :=
  Forall encodable es ∧ Forall (λ e, Z.of_nat (length (marshal e)) < maxToken) es.

(** The set-up of a node and the clock at its start. *)
Definition startable (lcfg : CommitLogConfig) (su : setup) (t now1 now2 : Z) : Prop :=
  su_log su = lcfg ∧ 0 < su_bloomSize su < 2 ^ 63 ∧ 0 ≤ su_bloomHashes su < 2 ^ 64 ∧
  t ≤ now1 ≤ now2 ∧ unix_time now2.

Section restart.
Context `{MapRange} `{Codec MemTableEntry} `{Codec CommitLogEntry} `{!CutCodec CommitLogEntry}.

(** Where the process stops: between the lines of the log, or when [k] bytes of
    the line of an entry that is not answered have been written. *)
Definition stop : Type := option (CommitLogEntry * nat).

Definition stopped_log (st : stop) (cl : CommitLogService) : gmap string (list byte) :=
  match st with None => log cl | Some (entry, k) => log (Append (TornAfter k) entry cl).2 end.

(** The entry that was not answered is in the log when its record is there. *)
Definition unanswered (st : stop) (cl : CommitLogService) : list CommitLogEntry :=
  match st, currentFile cl with
  | Some (entry, k), Open _ =>
      let entry := sealed entry (u64 (sequenceNumber cl + 1)) in
      if decide (length (marshal entry) ≤ k)%nat then [entry] else []
  | _, _ => []
  end.

Definition stop_ok (st : stop) (cl : CommitLogService) (now : Z) : Prop :=
  match st with
  | None => True
  | Some (entry, _) => 0 < cl_Timestamp entry ≤ now ∧ short (Whole (sealed entry (u64 (sequenceNumber cl + 1))))
  end.

(** The log of the new process ends with a whole line: nothing was cut, or
    another segment is opened, in a later second. *)
Definition clean_start (st : stop) (t now : Z) : bool := match st with None => true | Some _ => t <? now end.

Lemma placed_timestamp A sst cur old f t k e :
  placed A sst cur old f t → A !! k = Some e → 0 < mt_Timestamp e ≤ t.
Proof.
  intros [Hc Ho _ Hs Ha Hft] Hk. destruct (Ha k e Hk) as [He|[He|(m & Hm & He)]].
  - destruct (Hc k e He). lia.
  - destruct (Ho k e He). lia.
  - destruct (Hs m k e Hm He). lia.
Qed.

(** The memtable of a restarted node holds everything. *)
Lemma placed_restart A dir bs bh tables now :
  (∀ k e, A !! k = Some e → 0 < mt_Timestamp e ≤ now) → 0 ≤ now →
  placed A (NewSSTableService dir bs bh tables) A ∅ 0 now.
Proof.
  intros HA Hnow. split.
  - intros k e He. split; [done|]. by apply (HA k).
  - done.
  - done.
  - intros m k e (md & Hin & _). by apply elem_of_nil in Hin.
  - by left.
  - lia.
Qed.

Lemma unanswered_timestamp st cl now A :
  stop_ok st cl now → (∀ k e, A !! k = Some e → 0 < mt_Timestamp e ≤ now) →
  ∀ k e, replayed (unanswered st cl) A !! k = Some e → 0 < mt_Timestamp e ≤ now.
Proof.
  intros Hst HA. unfold unanswered. destruct st as [[entry n]|]; [|done]. destruct (currentFile cl); [done| |done].
  cbv zeta. case_decide; [|done]. destruct Hst as [Hts _]. intros k e. simpl. rewrite lookup_insert_Some.
  intros [[_ <-]|[_ Hk]]; [done|by apply (HA k)].
Qed.

Lemma lines_of_reopened old new w : lines_of (reopened old new w) = lines_of w.
Proof. unfold reopened. case_decide; [done|]. apply app_nil_r. Qed.

(** The lines of the log of a stopped process. *)
Lemma stopped_run lcfg st cl ls t now :
  log_run lcfg cl (ls, []) t → stop_ok st cl now →
  ∃ cl1 w, log_run lcfg cl1 w t ∧ log cl1 = stopped_log st cl ∧ (st = None → w.2 = []) ∧
    ∃ ls', lines_of w = ls ++ ls' ∧ wholes ls' = unanswered st cl ∧ Forall short ls'.
Proof.
  intros Hrun Hst. destruct st as [[entry k]|]; simpl in *.
  2:{ exists cl, (ls, []). split_and!; try done. by exists []. }
  pose proof (run_append lcfg cl _ t (TornAfter k) entry _ _ Hrun (surjective_pairing _)) as Hrun1.
  eexists _, _. split; [exact Hrun1|]. split; [done|]. split; [done|].
  unfold appended, unanswered. destruct (currentFile cl); [by exists []| |by exists []]. cbv zeta.
  set (e := sealed entry _) in *. destruct Hst as [_ Hsh]. unfold append_written, lines_of. cbn [fst snd].
  pose proof (marshal_nonempty e) as Hne. assert (0 < length (marshal e))%nat by (destruct (marshal e); simpl; [done|lia]).
  case_decide; [subst k; exists []; by rewrite (decide_False (P := (length (marshal e) ≤ 0)%nat)) by lia|].
  case_decide; cbn [fst snd close finish].
  - simpl. case_decide; [exists [Whole e]; by repeat constructor|].
    exists [Broken (cut_data (e, k))]. split_and!; [done|done|]. constructor; [|constructor].
    unfold short, cut_data in *. simpl in *. rewrite length_take. lia.
  - exists [Whole e]. rewrite app_nil_r, decide_True by lia. split_and!; [done|done|by repeat constructor].
Qed.

Lemma reopened_later lcfg cl1 w t now1 now2 lg cl :
  log_run lcfg cl1 w t → t < now1 < 10 ^ 10 → NewCommitLogService lcfg false now1 now2 lg = Ok cl →
  (reopened (handle_name (currentFile cl1)) (handle_name (currentFile cl)) w).2 = [].
Proof.
  intros Hrun Hlt Hnew. destruct (log_run_inv _ _ _ _ Hrun) as (fs & i & lsi & Hcur & Hi & _ & Ht & Hle & _).
  assert (unix_time now1) as Hu by (unfold unix_time in *; lia).
  unfold NewCommitLogService in Hnew. simpl in Hnew. injection Hnew as <-. cbn [currentFile handle_name]. rewrite Hcur.
  unfold reopened. rewrite decide_False; [done|]. intros Heq%(inj Some).
  destruct (segment_name_lt i now1 Hi Hu ltac:(lia)). done.
Qed.

(** A stopped node starts again, with everything that was written. *)
Lemma boot_restart lcfg s es A f t st su now1 now2 coins dm tables :
  storage_inv lcfg s (Some es) A f t → stop_ok st (commitLogService s) now1 →
  readable (es ++ unanswered st (commitLogService s)) → startable lcfg su t now1 now2 →
  let es' := es ++ unanswered st (commitLogService s) in let A' := replayed (unanswered st (commitLogService s)) A in
  ∃ s', boot su false now1 now2 coins dm (stopped_log st (commitLogService s)) tables = Some (Ok s') ∧
    is_service (memTableService s') A' ∧
    storage_inv lcfg s' (if clean_start st t now1 then Some es' else None) A' 0 now2.
Proof.
  intros [Hlog (cur & old & Hm & Hp) _ _ _] Hst [Henc Hshort] (<- & Hbs & Hbh & Hle & Hu) es' A'.
  destruct (Hlog es eq_refl) as [(ls & tl & Hrun & Htl & Hes & Hsh) HA]. clear Hlog.
  destruct (stopped_run _ st _ ls tl now1 Hrun Hst) as (cl1 & w & Hrun1 & Hlg & Hnone & ls' & Hlines & Hwh & Hsh').
  unfold boot. rewrite <-Hlg. destruct (NewCommitLogService _ _ _ _ _) as [cl|] eqn:Hcl; [|discriminate].
  pose proof (run_reopen _ _ _ _ now1 now2 cl Hrun1 ltac:(lia) Hu Hcl) as Hrun2.
  set (w2 := reopened _ _ w) in *. assert (lines_of w2 = ls ++ ls') as Hl2 by by unfold w2; rewrite lines_of_reopened.
  assert (wholes (lines_of w2) = es') as Hw2 by by rewrite Hl2, wholes_app, Hes, Hwh.
  assert (Forall short (lines_of w2)) as Hshort2.
  { rewrite Hl2. apply Forall_app. split; [|done]. unfold es' in Hshort. apply Forall_app in Hshort as [Hshort _].
    rewrite <-Hes in Hshort. clear -Hshort Hsh. induction Hsh as [|[e|l] ls Hi _ IH]; [constructor| |constructor; auto].
    apply Forall_cons in Hshort as [? ?]. constructor; auto. }
  destruct (recover_run _ cl w2 now2 (su_mem su) coins Hrun2) as (rc & cl' & Hr & _ & _ & _ & Hlg' & Hmem); [by rewrite Hw2|done|].
  assert (A' = replayed es' ∅) as HA' by (unfold A', es', replayed; by rewrite foldl_app, HA).
  rewrite Hw2, <-HA' in Hmem. rewrite Hr. cbn [mbind option_bind]. eexists. split; [done|]. split; [done|].
  destruct Hmem as (c & o & Hc & Ho & HAeq). apply Recover_immutable in Hr as Him. rewrite Him in Ho. simpl in Ho. subst o.
  rewrite (right_id_L ∅ (∪)) in HAeq. subst c. split; [| | |done|].
  - intros es2 Hes2. destruct (clean_start st t now1) eqn:Hcs; [|done]. injection Hes2 as <-. split; [|done].
    assert (w2.2 = []) as Hw2e.
    { destruct st as [[entry k]|]; simpl in Hcs.
      - eapply reopened_later; [done| |exact Hcl]. unfold unix_time in *. lia.
      - unfold w2, reopened. case_decide; [by apply Hnone|done]. }
    exists (lines_of w2), now2. split_and!; [|lia|done|].
    + replace (lines_of w2, []) with w2; [by eapply run_recover|]. destruct w2 as [l2 c2]. simpl in Hw2e. subst c2.
      unfold lines_of. simpl. by rewrite app_nil_r.
    + eapply Forall_impl; [exact Hshort2|]. by intros [|].
  - exists A', ∅. split; [split; [done|by left]|]. apply placed_restart.
    + intros k e Hk. pose proof (pl_clock _ _ _ _ _ _ Hp).
      destruct (unanswered_timestamp st (commitLogService s) now1 A Hst) with k e; [|done|lia].
      intros k' e' Hk'. pose proof (placed_timestamp _ _ _ _ _ _ _ _ Hp Hk'). lia.
    + unfold unix_time in Hu. lia.
  - intros md Hin. by apply elem_of_nil in Hin.
  - split; [apply NewCacheService_inv|done].
Qed.
End restart.

(** ** Runs of a storage node *)

Section runs.
Context `{MapRange} `{Codec MemTableEntry} `{Codec CommitLogEntry} `{!CutCodec CommitLogEntry}.
Implicit Types (s : StorageService) (o : option (list CommitLogEntry)) (A m : gmap string MemTableEntry) (t f : Z).

(** A mutation that returned an error. *)
Definition fails (ev : env) s s' : Prop :=
  ∃ tenantID key value vc e,
    storage_Write ev tenantID key value vc s = Some (Err e, s') ∨
    storage_Delete ev tenantID key vc s = Some (Err e, s') ∨
    storage_Repair ev tenantID key value vc s = Some (Err e, s').

(** [storage_run s o A f t]: [s] is reached from a new node by operations that
    returned, with or without an error; [A] maps every key to the entry of the
    last mutation on it that returned none; [t] is the clock and [f] the clock
    when the last flush started.  [o] are the entries in the log, as long as no
    failed write left something in it.

    Entries are stamped in whole seconds, the clock does not go back, and a
    mutation that succeeds is stamped later than the start of the last flush
    ([f < e_unix ev]).  The worker pool accepts the flushes.  A flush may fail,
    which keeps its table in memory; there is then no other flush.

    The process may stop and be started again on the files it left, as long as
    the log is intact: between operations, in the middle of a line of the log, after
    the line of a mutation and before its answer, or during a flush, with
    whatever that left among the tables. *)
Inductive storage_run (lcfg : CommitLogConfig)
    : StorageService → option (list CommitLogEntry) → gmap string MemTableEntry → Z → Z → Prop :=
  | sr_new now1 now2 cl mcfg dir bs bh ccfg dm :
      unix_time now1 → unix_time now2 → now1 ≤ now2 →
      NewCommitLogService lcfg false now1 now2 ∅ = Ok cl →
      0 < bs < 2 ^ 63 → 0 ≤ bh < 2 ^ 64 →
      storage_run lcfg (NewStorageService cl (NewMemTableService mcfg) (NewSSTableService dir bs bh ∅)
                          (NewCacheService ccfg) dm) (Some []) ∅ 0 now2
  | sr_stream s o A f t sm :
      storage_run lcfg s o A f t → storage_run lcfg (SetStreamingManager sm s) o A f t
  | sr_write s o A f t ev tenantID key value vc s' :
      storage_run lcfg s o A f t → e_submit ev = true → f < e_unix ev → t ≤ e_unix ev →
      storage_Write ev tenantID key value vc s = Some (Ok vc, s') →
      storage_run lcfg s' ((.++ [logged ev OperationTypeWrite tenantID key value vc s]) <$> o)
        (<[buildKey tenantID key := mutation ev OperationTypeWrite tenantID key value vc]> A) f (e_unix ev)
  | sr_delete s o A f t ev tenantID key vc s' :
      storage_run lcfg s o A f t → f < e_unix ev → t ≤ e_unix ev →
      storage_Delete ev tenantID key vc s = Some (Ok tt, s') →
      storage_run lcfg s' ((.++ [logged ev OperationTypeDelete tenantID key [] vc s]) <$> o)
        (<[buildKey tenantID key := mutation ev OperationTypeDelete tenantID key [] vc]> A) f (e_unix ev)
  | sr_repair s o A f t ev tenantID key value vc s' :
      storage_run lcfg s o A f t → f < e_unix ev → t ≤ e_unix ev →
      storage_Repair ev tenantID key value vc s = Some (Ok tt, s') →
      storage_run lcfg s' ((.++ [logged ev OperationTypeRepair tenantID key value vc s]) <$> o)
        (<[buildKey tenantID key := mutation ev OperationTypeRepair tenantID key value vc]> A) f (e_unix ev)
  | sr_failed s o A f t ev s' :
      storage_run lcfg s o A f t → e_submit ev = true → fails ev s s' →
      storage_run lcfg s' (after_failure (commitLogService s) (commitLogService s') o) A f t
  | sr_read s o A f t ev tenantID key r s' :
      storage_run lcfg s o A f t → storage_Read ev tenantID key s = Some (r, s') → storage_run lcfg s' o A f t
  | sr_rotate s o A f t failing now :
      storage_run lcfg s o A f t → t ≤ now → unix_time now →
      storage_run lcfg (set_log (checkRotation failing now (commitLogService s)) s) o A f now
  | sr_flush_start s o A f t :
      storage_run lcfg s o A f t → immutableMT (memTableService s) = None →
      storage_run lcfg (flush_start s) o A (flush_clock s f t) t
  | sr_flush_finish s o A f t ev :
      storage_run lcfg s o A f t → fresh (e_nano ev) (sstableService s) →
      (∀ mt m, flushing s = [mt] → is_memtable mt m → writable_map m) →
      storage_run lcfg (flush_finish ev s) o A f t
  | sr_restart s es A f t st su now1 now2 coins dm tables s' :
      storage_run lcfg s (Some es) A f t → stop_ok st (commitLogService s) now1 →
      readable (es ++ unanswered st (commitLogService s)) → startable lcfg su t now1 now2 →
      boot su false now1 now2 coins dm (stopped_log st (commitLogService s)) tables = Some (Ok s') →
      storage_run lcfg s' (if clean_start st t now1 then Some (es ++ unanswered st (commitLogService s)) else None)
        (replayed (unanswered st (commitLogService s)) A) 0 now2.

Lemma new_inv lcfg now1 now2 cl mcfg dir bs bh ccfg dm :
  unix_time now1 → unix_time now2 → now1 ≤ now2 → NewCommitLogService lcfg false now1 now2 ∅ = Ok cl →
  0 < bs < 2 ^ 63 → 0 ≤ bh < 2 ^ 64 →
  storage_inv lcfg (NewStorageService cl (NewMemTableService mcfg) (NewSSTableService dir bs bh ∅) (NewCacheService ccfg) dm)
    (Some []) ∅ 0 now2.
Proof.
  intros H1' H2' Hle Hnew Hbs Hbh. split; try done.
  - intros es [= <-]. split; [|done]. exists [], now2. split_and!; [by apply (run_new lcfg now1 now2)|lia|done|constructor].
  - exists ∅, ∅. split; [split; [apply NewMemTable_spec|by left]|].
    unfold unix_time in *. split; try done; [|lia]. intros m k e (md & Hin & _). by apply elem_of_nil in Hin.
  - intros md Hin. by apply elem_of_nil in Hin.
Qed.

Lemma failed_inv lcfg s o A f t ev s' :
  storage_inv lcfg s o A f t → e_submit ev = true → fails ev s s' →
  storage_inv lcfg s' (after_failure (commitLogService s) (commitLogService s') o) A f t.
Proof.
  intros IH Hsub (tenantID & key & value & vc & e & [Hw|[Hw|Hw]]).
  - by apply (storage_Write_result lcfg ev tenantID key value vc s s' _ o A f t IH Hsub) in Hw.
  - by apply (storage_Delete_result lcfg ev tenantID key vc s s' _ o A f t IH) in Hw.
  - by apply (storage_Repair_result lcfg ev tenantID key value vc s s' _ o A f t IH) in Hw.
Qed.

Lemma rotated_inv lcfg s o A f t failing now :
  storage_inv lcfg s o A f t → t ≤ now → unix_time now →
  storage_inv lcfg (set_log (checkRotation failing now (commitLogService s)) s) o A f now.
Proof.
  intros [Hl (cur & old & Hm & Hp) Hw Hb Hc] Hle Hnow. split; try done.
  - intros es Hes. destruct (Hl es Hes) as [(ls & tl & Hrun & Htl & Hwh & Hsh) HA]. split; [|done].
    pose proof (run_rotate _ _ _ _ failing now _ Hrun ltac:(lia) Hnow eq_refl) as Hrun'.
    exists ls, now. split_and!; [|lia|done|done]. revert Hrun'. unfold reopened. case_decide; [done|].
    unfold lines_of. cbn [fst snd close]. by rewrite app_nil_r.
  - exists cur, old. split; [done|]. by eapply placed_later.
Qed.

Lemma storage_run_inv lcfg s o A f t : storage_run lcfg s o A f t → storage_inv lcfg s o A f t.
Proof.
  induction 1 as [now1 now2 cl mcfg dir bs bh ccfg dm H1' H2' Hle Hnew Hbs Hbh|s o A f t sm _ IH
    |s o A f t ev tenantID key value vc s' _ IH Hsub Hf Ht Hw|s o A f t ev tenantID key vc s' _ IH Hf Ht Hw
    |s o A f t ev tenantID key value vc s' _ IH Hf Ht Hw|s o A f t ev s' _ IH Hsub Hw
    |s o A f t ev tenantID key r s' _ IH Hr|s o A f t failing now _ IH Hle Hnow|s o A f t _ IH Hfl|s o A f t ev _ IH Hfr Hwr
    |s es A f t st su now1 now2 coins dm tables s' _ IH Hst Hrec Hsu Hb].
  - by apply (new_inv lcfg now1).
  - by eapply storage_inv_same; [..|exact IH].
  - by apply (storage_Write_result lcfg ev tenantID key value vc s s' _ o A f t IH Hsub Hw).
  - by apply (storage_Delete_result lcfg ev tenantID key vc s s' _ o A f t IH Hw).
  - by apply (storage_Repair_result lcfg ev tenantID key value vc s s' _ o A f t IH Hw).
  - by eapply failed_inv.
  - destruct (storage_Read_result _ _ _ _ _ _ _ _ _ _ _ IH Hr) as (_ & c & -> & Hc).
    destruct IH as [Hl Hm Hw Hb _]. by split.
  - by eapply rotated_inv.
  - by apply flush_start_inv.
  - by apply flush_finish_inv.
  - destruct (boot_restart lcfg s es A f t st su now1 now2 coins dm tables IH Hst Hrec Hsu) as (s1 & Hb1 & _ & Hinv).
    rewrite Hb in Hb1. by injection Hb1 as <-.
Qed.

(** ** Properties *)


(** C4: a valid write is accepted and read back.  After any run, when
    validation and the disk gate have nothing against a write, the log takes its
    line, the cache can evict and the entry fits the cache's maximal size,
    [Write] returns its clock, whatever the clock of the node and whatever
    becomes of a flush it starts, and the next read of the key, at any time,
    returns the written value and clock from the cache. *)
Theorem storage_write_read lcfg s o A f t ev tenantID key value vc e :
  storage_run lcfg s o A f t → evictable (cacheService s) →
  cache_size (buildKey tenantID key) value ≤ cache_MaxSize (cache_config (cacheService s)) < 2 ^ 63 →
  ValidateWrite (validator s) tenantID key value vc = Ok tt →
  (CheckBeforeWrite (e_stat ev) (e_time ev) (EstimateWriteSize tenantID key value) (diskManager s)).1 = Ok tt →
  (Append (e_out ev) (mkCLE 0 tenantID key value vc (e_unix ev) OperationTypeWrite 0) (commitLogService s)).1 = Ok e →
  ∃ s', storage_Write ev tenantID key value vc s = Some (Ok vc, s') ∧
    ∀ ev', ∃ s'', storage_Read ev' tenantID key s' = Some (Ok (mkReadResponse value vc FromCache), s'').
Proof.
  intros Hrun Hev Hsz Hval Hdisk Happ. pose proof (storage_run_inv _ _ _ _ _ _ Hrun) as Hinv.
  unfold storage_Write. rewrite Hval. destruct (CheckBeforeWrite _ _ _ _) as [r dm]. simpl in Hdisk. subst r.
  pose proof (log_and_put_spec lcfg ev OperationTypeWrite "failed to append to commit log" tenantID key value vc
    (set_disk dm s) o A f t (storage_inv_disk _ _ _ _ _ _ _ Hinv)) as Hspec. cbv zeta in Hspec. simpl in Hspec.
  rewrite Happ in Hspec. destruct Hspec as (mem & cl & Hlp & _).
  rewrite Hlp. cbn [mbind option_bind cacheService set_mem set_log set_disk].
  destruct (iv_cache _ _ _ _ _ _ Hinv) as [Hci _].
  destruct (cache_Put_returns (e_t1 ev) (e_t2 ev) (buildKey tenantID key) value vc _ Hci Hev) as [c Hp]; [lia|lia|].
  rewrite Hp. cbn [mbind option_bind]. eexists. split; [done|]. intros ev'.
  destruct (cache_Put_result _ _ _ _ _ _ _ Hci Hp) as (_ & _ & (ce & Hce & Hv & Hvc) & _).
  unfold storage_Read. match goal with |- context [cache_Get _ _ _ (cacheService ?s1)] => set (s' := s1) end.
  assert (cacheService s' = c) as Hs'.
  { unfold s', intercept, triggerFlushAsync, run_flush. by repeat case_match. }
  rewrite Hs'. unfold cache_Get. rewrite Hce. cbn [ce_Value ce_VectorClock]. rewrite Hv, Hvc. by eexists.
Qed.

(** C3: a crash loses no acknowledged mutation.  When the process stops after
    any run that left no remains of failed writes in the log, between
    operations, after any number of bytes of the line of a mutation that is not
    answered, or during a flush, and is started again on the files it left,
    [main] gets through, and the memtable of the new process maps every key to
    the entry of the last mutation that returned no error, or of the unanswered
    one when its record is whole in the log; what is proved of runs holds of
    the new process from there.  Its log is intact again, for further restarts,
    unless it was started in the very second the line was cut.  The entries of
    the log must be encodable and shorter than the 10 MiB of the scanner, and the
    clock must not have gone back. *)
Theorem storage_crash_recovery lcfg s es A f t st su now1 now2 coins dm tables :
  storage_run lcfg s (Some es) A f t → stop_ok st (commitLogService s) now1 →
  readable (es ++ unanswered st (commitLogService s)) → startable lcfg su t now1 now2 →
  let A' := replayed (unanswered st (commitLogService s)) A in
  ∃ s', boot su false now1 now2 coins dm (stopped_log st (commitLogService s)) tables = Some (Ok s') ∧
    (∀ key, Get (memTableService s') key = Some (A' !! key)) ∧
    storage_run lcfg s' (if clean_start st t now1 then Some (es ++ unanswered st (commitLogService s)) else None) A' 0 now2.
Proof.
  intros Hrun Hst Hrec Hsu A'. pose proof (storage_run_inv _ _ _ _ _ _ Hrun) as Hinv.
  destruct (boot_restart lcfg s es A f t st su now1 now2 coins dm tables Hinv Hst Hrec Hsu) as (s' & Hb & Hmem & _).
  exists s'. split; [done|]. split; [intros key; by apply Get_spec|]. by eapply sr_restart.
Qed.
End runs.

(** ** An example run: a write, its flush, an overwrite while the table is
    being written, and a delete of another key *)

Definition x_env (now nano : Z) : env :=
  mkEnv now (now * second) (now * second) (now * second + 5) [true] None Written true nano None.

Definition x_after {X} (o : option (X * StorageService)) (s : StorageService) : StorageService :=
  match o with Some (_, s') => s' | None => s end.

Definition x_lcfg : CommitLogConfig := mkCommitLogConfig 1048576 true.
Definition x_cl : CommitLogService :=
  match NewCommitLogService x_lcfg false 1700000000 1700000000 ∅ with
  | Ok cl => cl | Err _ => mkCommitLogService x_lcfg NoFile 0 0 ∅ end.
Definition x_dm : DiskManager :=
  NewDiskManager DefaultConfig (Some (mkStatfs 1000000 4096 900000)) (1700000000 * second).
Definition x_vc : VectorClock := mkVC [mkVCE "c1" 1].

Definition x0 : StorageService :=
  NewStorageService x_cl (NewMemTableService (mkMemTableConfig 1048576 60 2)) (NewSSTableService "/data" 64 3 ∅)
    (NewCacheService (mkCacheConfig 4096 (f64_lit 1 2) (f64_lit 1 2) 60)) x_dm.
Definition x1 : StorageService := x_after (storage_Write (x_env 1700000001 1) "t1" "a" (bytes "old") x_vc x0) x0.
Definition x2 : StorageService := flush_start x1.
Definition x3 : StorageService := x_after (storage_Write (x_env 1700000002 2) "t1" "a" (bytes "new") x_vc x2) x2.
Definition x4 : StorageService := flush_finish (x_env 1700000002 3) x3.
Definition x5 : StorageService := x_after (storage_Delete (x_env 1700000003 4) "t1" "b" x_vc x4) x4.

Definition x_log : list CommitLogEntry :=
  [logged (x_env 1700000001 1) OperationTypeWrite "t1" "a" (bytes "old") x_vc x0;
   logged (x_env 1700000002 2) OperationTypeWrite "t1" "a" (bytes "new") x_vc x2;
   logged (x_env 1700000003 4) OperationTypeDelete "t1" "b" [] x_vc x4].

Definition x_A : gmap string MemTableEntry :=
  <["t1:b" := mutation (x_env 1700000003 4) OperationTypeDelete "t1" "b" [] x_vc]>
  (<["t1:a" := mutation (x_env 1700000002 2) OperationTypeWrite "t1" "a" (bytes "new") x_vc]>
  (<["t1:a" := mutation (x_env 1700000001 1) OperationTypeWrite "t1" "a" (bytes "old") x_vc]> ∅)).

Lemma x_run : storage_run x_lcfg x5 (Some x_log) x_A 1700000001 1700000003.
Proof.
  apply (sr_delete x_lcfg x4 (Some [_; _]) _ 1700000001 1700000002 (x_env 1700000003 4)); [|done|done|by vm_compute].
  apply (sr_flush_finish _ x3); [|by repeat split|].
  2:{ intros mt m Hfl Hm.
      assert (mt = default (NewMemTable 0) (head (flushing x3))) as -> by by rewrite Hfl.
      apply (memtable_writable _ _ [mutation (x_env 1700000001 1) OperationTypeWrite "t1" "a" (bytes "old") x_vc] Hm);
        [by vm_compute|]. split; [split; [repeat constructor..|reflexivity]|repeat constructor|repeat constructor; by vm_compute]. }
  apply (sr_write x_lcfg x2 (Some [_]) _ 1700000001 1700000001 (x_env 1700000002 2)); [|done|done|done|by vm_compute].
  apply (sr_flush_start x_lcfg x1 _ _ 0 1700000001); [|done].
  apply (sr_write x_lcfg x0 (Some []) _ 0 1700000000 (x_env 1700000001 1)); [|done|done|done|by vm_compute].
  apply (sr_new x_lcfg 1700000000 1700000000); done.
Defined.

(** A write to the same key that fails half way in the log. *)
Definition x_failing : env :=
  mkEnv 1700000004 (1700000004 * second) (1700000004 * second) (1700000004 * second + 5) [true] None (TornAfter 9) true 5 None.
Definition x6 : StorageService := x_after (storage_Write x_failing "t1" "a" (bytes "unlogged") x_vc x5) x5.

Lemma x_run_failed : storage_run x_lcfg x6 None x_A 1700000001 1700000003.
Proof.
  assert (∃ e, storage_Write x_failing "t1" "a" (bytes "unlogged") x_vc x5 = Some (Err e, x6) ∧
    after_failure (commitLogService x5) (commitLogService x6) (Some x_log) = None) as (e & Hw & Ho).
  { eexists. split; [by vm_compute|]. unfold after_failure. apply decide_False. intros Heq.
    apply (f_equal (λ m, length <$> (map_to_list m).*2)) in Heq. by vm_compute in Heq. }
  rewrite <-Ho. apply (sr_failed x_lcfg x5 _ _ _ _ x_failing); [apply x_run|done|]. exists "t1", "a", (bytes "unlogged"), x_vc, e. by left.
Qed.


Lemma storage_write_read_witness :
  ∃ s', storage_Write (x_env 1700000010 9) "t2" "k" (bytes "v") x_vc x5 = Some (Ok x_vc, s').
Proof.
  destruct (storage_write_read x_lcfg x5 (Some x_log) x_A 1700000001 1700000003 (x_env 1700000010 9) "t2" "k" (bytes "v") x_vc
    (logged (x_env 1700000010 9) OperationTypeWrite "t2" "k" (bytes "v") x_vc x5) x_run)
    as (s' & Hw & _).
  - apply (bool_decide_unpack _). by vm_compute.
  - by vm_compute.
  - by vm_compute.
  - by vm_compute.
  - reflexivity.
  - exists s'. exact Hw.
Defined.

Definition x_setup : setup :=
  mkSetup x_lcfg (mkMemTableConfig 1024 512 2) "/data" 64 3 (mkCacheConfig 4096 (f64_lit 1 2) (f64_lit 1 2) 60).

(** The first 30 bytes of a line are in the log when the process dies. *)
Definition x_stop : stop := Some (mkCLE 0 "t1" "a" (bytes "lost") x_vc 1700000004 OperationTypeWrite 0, 30%nat).

Lemma storage_crash_recovery_witness :
  ∃ s', boot x_setup false 1700000020 1700000020 (λ _, []) x_dm (stopped_log x_stop (commitLogService x5)) ∅ = Some (Ok s') ∧
    Get (memTableService s') "t1:a" = Some (x_A !! "t1:a").
Proof.
  destruct (storage_crash_recovery x_lcfg x5 x_log x_A 1700000001 1700000003 x_stop x_setup
    1700000020 1700000020 (λ _, []) x_dm ∅ x_run) as (s' & Hb & Hget & _).
  - by vm_compute.
  - split; [repeat constructor|repeat constructor; by vm_compute].
  - by vm_compute.
  - exists s'. split; [exact Hb|exact (Hget "t1:a")].
Defined.
