(* ===== verification/Compaction.v ===== *)
(** * Compaction: [storage-node/internal/service/compaction_service.go]

    The scheduler turns full levels into jobs; a job merges its input tables
    with a heap into one output table, registers it at the next level, and
    removes the inputs with their files.  The heap is [container/heap] on the
    merger's slice.  [None] is a run-time panic. *)

From S2P Require Import Prelude GoHash Checksum Bloom Model VectorClock Codec Json Utf8 Validator.
From S2P Require Import SkipList MemTable SSTable SSTableService.
#[local] Open Scope Z_scope.

(** ** Definitions *)

Record CompactionConfig := mkCompactionConfig {
  L0Trigger : Z;
  L0Size : Z;
  L1Size : Z;
  L2Size : Z;
  LevelMultiplier : Z;
}.

Inductive CompactionStatus := CompactionPending | CompactionRunning | CompactionCompleted | CompactionFailed.

Record CompactionJob := mkCompactionJob {
  JobID : string;
  job_Level : Z;
  InputTables : list SSTableMetadata;
  OutputLevel : Z;
  StartedAt : Z;
  job_Status : CompactionStatus;
}.

Record CompactionService := mkCompactionService {
  cs_config : CompactionConfig;
  cs_sstables : SSTableService;
  jobQueue : list CompactionJob;
  bytesCompacted : Z;
  tablesCompacted : Z;
}.

Definition NewCompactionService (cfg : CompactionConfig) (sst : SSTableService) : CompactionService :=
  mkCompactionService cfg sst [] 0 0.

(** The channel has room for 100 jobs; a job that does not fit is dropped. *)
Definition enqueue (job : CompactionJob) (s : CompactionService) : CompactionService :=
  if (length (jobQueue s) <? 100)%nat
  then mkCompactionService (cs_config s) (cs_sstables s) (jobQueue s ++ [job]) (bytesCompacted s) (tablesCompacted s)
  else s.

Definition getLevelThreshold (cfg : CompactionConfig) (level : Z) : Z :=
  if level =? 0 then L0Size cfg
  else if level =? 1 then L1Size cfg
  else if level =? 2 then L2Size cfg
  else
    let multiplier := foldl (λ m _, i64 (m * LevelMultiplier cfg)) 1 (seq 2 (Z.to_nat level - 2)) in
    i64 (L2Size cfg * multiplier).

Definition shouldCompactLevel (s : CompactionService) (level : Z) : bool :=
  let totalSize := foldl (λ n t, i64 (n + sst_Size t)) 0 (GetTablesForLevel level (cs_sstables s)) in
  getLevelThreshold (cs_config s) level <? totalSize.

Definition triggerLevelCompaction (now : Z) (level : Z) (s : CompactionService) : CompactionService :=
  match GetTablesForLevel level (cs_sstables s) with
  | [] => s
  | tables => enqueue (mkCompactionJob ("compact-l" +:+ pretty level +:+ "-" +:+ pretty now) level tables
                         (level + 1) now CompactionPending) s
  end.

Definition checkCompactionNeeded (now : Z) (s : CompactionService) : CompactionService :=
  let l0Tables := GetTablesForLevel 0 (cs_sstables s) in
  let s := if L0Trigger (cs_config s) <=? Z.of_nat (length l0Tables)
           then enqueue (mkCompactionJob ("compact-l0-" +:+ pretty now) 0 l0Tables 1 now CompactionPending) s
           else s in
  foldl (λ s level, if shouldCompactLevel s level then triggerLevelCompaction now level s else s) s [1; 2; 3].

(** *** The heap *)

Record mergeEntry := mkMergeEntry { me_entry : KeyValueEntry; me_reader : nat }.

Definition Less (h : list mergeEntry) (i j : nat) : bool :=
  match h !! i, h !! j with
  | Some a, Some b => bool_decide (str_lt (kv_Key (me_entry a)) (kv_Key (me_entry b)))
  | _, _ => false
  end.

Definition Swap (i j : nat) (h : list mergeEntry) : list mergeEntry :=
  match h !! i, h !! j with
  | Some a, Some b => <[i := b]> (<[j := a]> h)
  | _, _ => h
  end.

(** [heap.up]; the index halves, so it bounds the rounds. *)
Fixpoint heap_up (fuel j : nat) (h : list mergeEntry) : list mergeEntry :=
  match fuel with
  | O => h
  | S fuel =>
      let i := ((j - 1) / 2)%nat in
      if (i =? j)%nat || negb (Less h j i) then h else heap_up fuel i (Swap i j h)
  end.

(** [heap.down] on the first [n] elements; the index grows, so [n] bounds the rounds. *)
Fixpoint heap_down (fuel i n : nat) (h : list mergeEntry) : list mergeEntry :=
  match fuel with
  | O => h
  | S fuel =>
      let j1 := (2 * i + 1)%nat in
      if (n <=? j1)%nat then h
      else
        let j2 := (j1 + 1)%nat in
        let j := if (j2 <? n)%nat && Less h j2 j1 then j2 else j1 in
        if negb (Less h j i) then h else heap_down fuel j n (Swap i j h)
  end.

Definition heap_Push (x : mergeEntry) (h : list mergeEntry) : list mergeEntry :=
  let h := h ++ [x] in heap_up (length h) (length h - 1) h.

Definition heap_Pop (h : list mergeEntry) : option (mergeEntry * list mergeEntry) :=
  match h with
  | [] => None
  | _ =>
      let n := (length h - 1)%nat in
      let h := heap_down n 0 n (Swap 0 n h) in
      x ← h !! n; Some (x, take n h)
  end.

(** *** The merger *)

Record kWayMerger := mkMerger {
  readers : list SSTableReader;
  mheap : list mergeEntry;
  keys : list (list string);
  indices : list nat;
}.

Inductive compaction_error := NoInputTables | OpenFailed (id : string).

Section codec.
Context `{MapRange} `{Codec MemTableEntry}.

Definition advance (m : kWayMerger) (readerIdx : nat) : option kWayMerger :=
  ks ← keys m !! readerIdx;
  i ← indices m !! readerIdx;
  r ← readers m !! readerIdx;
  match ks !! i with
  | None => Some m
  | Some key =>
      let m' h := mkMerger (readers m) h (keys m) (<[readerIdx := S i]> (indices m)) in
      match reader_Get r key with
      | Err ReadPanic => None
      | Err _ | Ok None => Some (m' (mheap m))
      | Ok (Some entry) => Some (m' (heap_Push (mkMergeEntry entry readerIdx) (mheap m)))
      end
  end.

Definition newKWayMerger (rs : list SSTableReader) : option kWayMerger :=
  foldM advance (mkMerger rs [] (GetAllKeys <$> rs) (replicate (length rs) 0%nat)) (seq 0 (length rs)).

Definition hasNext (m : kWayMerger) : bool := (0 <? length (mheap m))%nat.

Definition next (m : kWayMerger) : option (KeyValueEntry * kWayMerger) :=
  '(e, h) ← heap_Pop (mheap m);
  m ← advance (mkMerger (readers m) h (keys m) (indices m)) (me_reader e);
  Some (me_entry e, m).

(** The writer and the numbers of entries written and tombstones removed. *)
Definition output : Type := SSTableWriter * Z * Z.

Definition writeEntryIfNotTombstone (entry : KeyValueEntry) (out : output) : option output :=
  let '(writer, written, removed) := out in
  if kv_IsTombstone entry then Some (writer, written, removed + 1)
  else
    writer ← Write (mkMTE (buildKey (kv_TenantID entry) (kv_Key entry)) (kv_Value entry)
                      (kv_VectorClock entry) (kv_Timestamp entry) false) writer;
    Some (writer, written + 1, removed).

Definition write_best (best : option KeyValueEntry) (out : output) : option output :=
  match best with None => Some out | Some e => writeEntryIfNotTombstone e out end.

(** The loop over the merged entries: every round takes one of the keys, so the
    fuel, one more than there are keys, does not run out. *)
Fixpoint merge_loop (fuel : nat) (m : kWayMerger) (lastKey : string) (best : option KeyValueEntry)
    (out : output) : option (option KeyValueEntry * output) :=
  match fuel with
  | O => None
  | S fuel =>
      if negb (hasNext m) then Some (best, out) else
      '(entry, m) ← next m;
      if decide (kv_Key entry = lastKey) then
        let best := match best with
                    | Some b => if 0 <? compareVectorClocks (kv_VectorClock entry) (kv_VectorClock b)
                                then Some entry else best
                    | None => best
                    end in
        merge_loop fuel m lastKey best out
      else
        out ← write_best best out;
        merge_loop fuel m (kv_Key entry) (Some entry) out
  end.

Fixpoint open_all (disk : gmap string (list byte)) (tables : list SSTableMetadata)
    : option (res compaction_error (list SSTableReader)) :=
  match tables with
  | [] => Some (Ok [])
  | t :: tables =>
      match open_reader disk t with
      | Err ReadPanic => None
      | Err _ => Some (Err (OpenFailed (SSTableID t)))
      | Ok r =>
          rest ← open_all disk tables;
          Some (rs ← rest; Ok (r :: rs))
      end
  end.

Definition remove_files (tables : list SSTableMetadata) (disk : gmap string (list byte)) : gmap string (list byte) :=
  foldl (λ d t, delete (BloomPath t) (delete (IndexPath t) (delete (FilePath t) d))) disk tables.

(** [bs] and [bh] size the output's filter; [nano1] and [nano2] are the clock
    readings of the path and of the identifier. *)
Definition mergeSSTables (bs bh nano1 nano2 now : Z) (job : CompactionJob) (s : SSTableService)
    : option (res compaction_error SSTableService) :=
  match InputTables job with
  | [] => Some (Err NoInputTables)
  | _ =>
      opened ← open_all (disk s) (InputTables job);
      match opened with
      | Err e => Some (Err e)
      | Ok rs =>
          let outputPath := sst_dataDir s +:+ "/sstable_l" +:+ pretty (OutputLevel job) +:+ "_" +:+ pretty nano1 +:+ ".sst" in
          m ← newKWayMerger rs;
          let rounds := S (sum_list (length <$> keys m)) in
          '(best, out) ← merge_loop rounds m EmptyString None (NewSSTableWriter bs bh, 0, 0);
          '(writer, _, _) ← write_best best out;
          let writer := Finalize writer in
          let outputSSTable := mkSSTableMetadata
            ("sstable_l" +:+ pretty (OutputLevel job) +:+ "_" +:+ pretty nano2) EmptyString (OutputLevel job)
            (offset writer) (mkKeyRange EmptyString EmptyString) now
            outputPath (outputPath +:+ ".idx") (outputPath +:+ ".bloom") in
          let disk' := <[outputPath := dataFile writer]> (<[outputPath +:+ ".idx" := indexFile writer]>
                       (<[outputPath +:+ ".bloom" := bloomFile writer]> (disk s))) in
          let s := mkSSTableService (sst_dataDir s) (bloomSize s) (bloomHashes s) (levels s) disk' in
          let s := AddTable (OutputLevel job) outputSSTable s in
          let s := RemoveTables (job_Level job) (SSTableID <$> InputTables job) s in
          Some (Ok (mkSSTableService (sst_dataDir s) (bloomSize s) (bloomHashes s) (levels s)
                      (remove_files (InputTables job) (disk s))))
      end
  end.

(** A worker takes the first job; a failed merge changes nothing. *)
Definition executeCompaction (bs bh nano1 nano2 now : Z) (s : CompactionService)
    : option (option CompactionStatus * CompactionService) :=
  match jobQueue s with
  | [] => Some (None, s)
  | job :: queue =>
      r ← mergeSSTables bs bh nano1 nano2 now job (cs_sstables s);
      match r with
      | Err _ => Some (Some CompactionFailed,
                   mkCompactionService (cs_config s) (cs_sstables s) queue (bytesCompacted s) (tablesCompacted s))
      | Ok sst =>
          let totalInputSize := foldl (λ n t, i64 (n + sst_Size t)) 0 (InputTables job) in
          Some (Some CompactionCompleted,
            mkCompactionService (cs_config s) sst queue (u64 (bytesCompacted s + totalInputSize))
              (u64 (tablesCompacted s + Z.of_nat (length (InputTables job)))))
      end
  end.
End codec.

(** ** The heap keeps its elements *)

Lemma length_Swap i j h : length (Swap i j h) = length h.
Proof. unfold Swap. repeat case_match; by rewrite ?length_insert. Qed.

Lemma Forall_Swap P i j h : Forall P h → Forall P (Swap i j h).
Proof.
  intros Hall. unfold Swap. destruct (h !! i) as [a|] eqn:Ha, (h !! j) as [b|] eqn:Hb; try done.
  rewrite Forall_lookup in Hall. apply Forall_insert; [apply Forall_insert|]; [by apply Forall_lookup|eauto|eauto].
Qed.

Lemma length_heap_up fuel j h : length (heap_up fuel j h) = length h.
Proof. revert j h. induction fuel as [|fuel IH]; intros j h; simpl; [done|]. case_match; [done|]. by rewrite IH, length_Swap. Qed.

Lemma Forall_heap_up P fuel j h : Forall P h → Forall P (heap_up fuel j h).
Proof. revert j h. induction fuel as [|fuel IH]; intros j h Hh; simpl; [done|]. case_match; [done|]. by apply IH, Forall_Swap. Qed.

Lemma length_heap_down fuel i n h : length (heap_down fuel i n h) = length h.
Proof.
  revert i h. induction fuel as [|fuel IH]; intros i h; [done|]. cbn [heap_down].
  destruct (n <=? _)%nat; [done|]. destruct (negb _); [done|]. by rewrite IH, length_Swap.
Qed.

Lemma Forall_heap_down P fuel i n h : Forall P h → Forall P (heap_down fuel i n h).
Proof.
  revert i h. induction fuel as [|fuel IH]; intros i h Hh; [done|]. cbn [heap_down].
  destruct (n <=? _)%nat; [done|]. destruct (negb _); [done|]. by apply IH, Forall_Swap.
Qed.

Lemma heap_Push_spec P x h : P x → Forall P h → Forall P (heap_Push x h) ∧ length (heap_Push x h) = S (length h).
Proof.
  intros Hx Hh. unfold heap_Push. split.
  - apply Forall_heap_up, Forall_app. split; [done|by constructor].
  - rewrite length_heap_up, length_app. simpl. lia.
Qed.

Lemma heap_Pop_spec P h :
  Forall P h → h ≠ [] → ∃ x h', heap_Pop h = Some (x, h') ∧ P x ∧ Forall P h' ∧ S (length h') = length h.
Proof.
  intros Hh Hne. unfold heap_Pop. destruct h as [|a h0]; [done|]. set (h := a :: h0) in *.
  set (h1 := heap_down _ _ _ _). assert (Forall P h1) as H1 by by apply Forall_heap_down, Forall_Swap.
  assert (length h1 = length h) as Hl by by unfold h1; rewrite length_heap_down, length_Swap.
  destruct (lookup_lt_is_Some_2 h1 (length h - 1)) as [x Hx]; [rewrite Hl; simpl; lia|]. rewrite Hx.
  cbn [mbind option_bind]. eexists _, _. split; [done|]. split_and!.
  - rewrite Forall_lookup in H1. eauto.
  - by apply Forall_take.
  - rewrite length_take, Hl. simpl. lia.
Qed.

(** ** The merge ends *)

Section merge.
Context `{MapRange} `{Codec MemTableEntry}.

(** The readers never panic and the heap refers to existing readers. *)
Record merger_ok (m : kWayMerger) : Prop := {
  mo_keys : length (keys m) = length (readers m);
  mo_indices : length (indices m) = length (readers m);
  mo_reads : Forall (λ r, ∀ k, reader_Get r k ≠ Err ReadPanic) (readers m);
  mo_heap : Forall (λ e, me_reader e < length (readers m))%nat (mheap m);
}.

(** The keys not yet taken from the readers. *)
Definition unread (ks : list (list string)) (ix : list nat) : nat :=
  sum_list (zip_with (λ k i, length k - i)%nat ks ix).

Definition potential (m : kWayMerger) : nat := (length (mheap m) + unread (keys m) (indices m))%nat.

Lemma unread_step ks ix j k i :
  ks !! j = Some k → ix !! j = Some i → (i < length k)%nat →
  S (unread ks (<[j := S i]> ix)) = unread ks ix.
Proof.
  unfold unread. revert ix j. induction ks as [|k0 ks IH]; intros [|i0 ix] [|j] Hk Hi Hlt; simplify_eq/=; [lia|].
  rewrite <-(IH ix j) by done. lia.
Qed.

Lemma unread_start ks : unread ks (replicate (length ks) 0%nat) = sum_list (length <$> ks).
Proof. unfold unread. induction ks as [|k ks IH]; [done|]. rewrite fmap_cons. simpl in *. lia. Qed.

Lemma advance_spec m j :
  merger_ok m → (j < length (readers m))%nat →
  ∃ m', advance m j = Some m' ∧ merger_ok m' ∧ (potential m' ≤ potential m)%nat ∧
    readers m' = readers m ∧ keys m' = keys m.
Proof.
  intros [Hk Hi Hr Hh] Hj. unfold advance.
  destruct (lookup_lt_is_Some_2 (keys m) j) as [ks Hks]; [lia|].
  destruct (lookup_lt_is_Some_2 (indices m) j) as [i His]; [lia|].
  destruct (lookup_lt_is_Some_2 (readers m) j) as [r Hrj]; [lia|].
  rewrite Hks, His, Hrj. cbn [mbind option_bind]. destruct (ks !! i) as [key|] eqn:Hkey; [|by exists m].
  pose proof (unread_step _ _ _ _ _ Hks His (lookup_lt_Some _ _ _ Hkey)) as Hu.
  rewrite Forall_lookup in Hr. pose proof (Hr j r Hrj key) as Hnp.
  assert (∀ h, Forall (λ e, me_reader e < length (readers m))%nat h →
    merger_ok (mkMerger (readers m) h (keys m) (<[j := S i]> (indices m)))) as Hok.
  { intros h Hh'. split; simpl; [done|by rewrite length_insert|by apply Forall_lookup|done]. }
  destruct (reader_Get r key) as [[entry|]|er]; [| |destruct er; try done].
  1: destruct (heap_Push_spec (λ e, me_reader e < length (readers m))%nat (mkMergeEntry entry j) (mheap m) Hj Hh) as [Hp Hlen].
  all: eexists; split; [done|]; split; [by apply Hok|]; split; [|done]; unfold potential; simpl; rewrite ?Hlen; lia.
Qed.

Lemma next_spec m :
  merger_ok m → hasNext m = true →
  ∃ e m', next m = Some (e, m') ∧ merger_ok m' ∧ (potential m' < potential m)%nat.
Proof.
  intros Hok Hn. unfold hasNext in Hn. apply Nat.ltb_lt in Hn. unfold next.
  destruct (heap_Pop_spec _ (mheap m) (mo_heap m Hok)) as (x & h' & -> & Hx & Hh' & Hlen); [by destruct (mheap m); [simpl in Hn; lia|]|].
  cbn [mbind option_bind].
  destruct (advance_spec (mkMerger (readers m) h' (keys m) (indices m)) (me_reader x)) as (m' & -> & Hok' & Hpot & _);
    [by destruct Hok; split|done|].
  eexists _, m'. split; [done|]. split; [done|]. unfold potential in *. simpl in *. lia.
Qed.

Lemma write_best_total best w n k :
  bloom_wf (bloomFilter w) → ∃ w' n' k', write_best best (w, n, k) = Some (w', n', k') ∧ bloom_wf (bloomFilter w').
Proof.
  intros Hwf. destruct best as [e|]; simpl; [|by exists w, n, k]. destruct (kv_IsTombstone e); [by eexists _, _, _|].
  unfold Write. simpl. destruct (Add_spec (bloomFilter w) (buildKey (kv_TenantID e) (kv_Key e)) Hwf) as (bf & -> & Hbf & _).
  simpl. by eexists _, _, _.
Qed.

Lemma merge_loop_total fuel m last best w n k :
  merger_ok m → (potential m < fuel)%nat → bloom_wf (bloomFilter w) →
  ∃ best' w' n' k', merge_loop fuel m last best (w, n, k) = Some (best', (w', n', k')) ∧ bloom_wf (bloomFilter w').
Proof.
  revert m last best w n k. induction fuel as [|fuel IH]; intros m last best w n k Hok Hf Hwf; [lia|].
  cbn [merge_loop]. destruct (hasNext m) eqn:Hn; cbn [negb]; [|by eexists _, _, _, _].
  destruct (next_spec m Hok Hn) as (e & m' & -> & Hok' & Hpot). cbn [mbind option_bind].
  case_decide; [apply IH; [done|lia|done]|].
  destruct (write_best_total best w n k Hwf) as (w' & n' & k' & -> & Hwf'). cbn [mbind option_bind].
  apply IH; [done|lia|done].
Qed.

Lemma newKWayMerger_spec rs :
  Forall (λ r, ∀ k, reader_Get r k ≠ Err ReadPanic) rs →
  ∃ m, newKWayMerger rs = Some m ∧ merger_ok m ∧ (potential m ≤ sum_list (length <$> keys m))%nat.
Proof.
  intros Hr. unfold newKWayMerger. set (m0 := mkMerger rs [] (GetAllKeys <$> rs) (replicate (length rs) 0%nat)).
  assert (merger_ok m0) as Hok0.
  { split; simpl; [by rewrite length_fmap|by rewrite length_replicate|done|constructor]. }
  assert (potential m0 ≤ sum_list (length <$> keys m0))%nat as Hp0.
  { unfold potential, m0. cbn [mheap keys indices length]. rewrite <-(length_fmap GetAllKeys rs), unread_start. lia. }
  destruct (foldM_inv advance (λ m, merger_ok m ∧ readers m = rs ∧ keys m = keys m0 ∧ (potential m ≤ potential m0)%nat)
    m0 (seq 0 (length rs))) as (m & -> & Hok & _ & Hk & Hp).
  - intros m j Hj%elem_of_seq (Hok & Hrs & Hk & Hp).
    destruct (advance_spec m j Hok) as (m' & -> & Hok' & Hp' & Hr' & Hk'); [rewrite Hrs; lia|].
    exists m'. split_and!; [done|done|congruence|congruence|lia].
  - done.
  - exists m. split_and!; [done|done|]. rewrite Hk. lia.
Qed.

Lemma open_all_stored d tables :
  (∀ md, md ∈ tables → ∃ m, stored d md m) →
  ∃ rs, open_all d tables = Some (Ok rs) ∧ Forall (λ r, ∀ k, reader_Get r k ≠ Err ReadPanic) rs.
Proof.
  induction tables as [|md tables IH]; intros Hst; [by exists []|]. cbn [open_all].
  destruct (Hst md ltac:(left)) as (m & Hm). destruct (stored_open d md m Hm) as (r & -> & Hget & _).
  destruct IH as (rs & -> & Hrs); [intros md' Hin; apply Hst; by right|].
  exists (r :: rs). split; [done|]. constructor; [|done]. intros k. by rewrite Hget.
Qed.

(** A merge of stored tables succeeds; the table it adds has an empty key range. *)
Lemma mergeSSTables_result bs bh nano1 nano2 now job s :
  0 < bs < 2 ^ 63 → 0 ≤ bh < 2 ^ 64 → (∀ md, md ∈ InputTables job → ∃ m, stored (disk s) md m) → InputTables job ≠ [] →
  ∃ s' out, mergeSSTables bs bh nano1 nano2 now job s = Some (Ok s') ∧
    sst_KeyRange out = mkKeyRange EmptyString EmptyString ∧
    levels s' = levels (RemoveTables (job_Level job) (SSTableID <$> InputTables job) (AddTable (OutputLevel job) out s)).
Proof.
  intros Hbs Hbh Hst Hne. unfold mergeSSTables. destruct (InputTables job) as [|md tables] eqn:Hin; [done|]. rewrite <-Hin in *.
  destruct (open_all_stored (disk s) (InputTables job) Hst) as (rs & -> & Hrs). cbn [mbind option_bind].
  destruct (newKWayMerger_spec rs Hrs) as (m & -> & Hok & Hp). cbn [mbind option_bind].
  destruct (merge_loop_total (S (sum_list (length <$> keys m))) m EmptyString None (NewSSTableWriter bs bh) 0 0)
    as (best & w & n & k & -> & Hwf); [done|lia|by apply NewBloomFilter_wf|]. cbn [mbind option_bind].
  destruct (write_best_total best w n k Hwf) as (w' & n' & k' & -> & _). cbn [mbind option_bind].
  eexists _, _. split; [done|]. split; cycle 1.
  - cbn [levels RemoveTables AddTable]. reflexivity.
  - reflexivity.
Qed.
End merge.

(** ** Properties *)

Section properties.
Context `{MapRange} `{Codec MemTableEntry}.

Lemma empty_range tenantID key :
  keyInRange (buildKey tenantID key) (mkKeyRange EmptyString EmptyString) = false.
Proof. unfold keyInRange, buildKey. simpl. apply andb_false_iff. right. apply bool_decide_eq_false_2.
  unfold String.le, String.leb. destruct tenantID; by intros ?.
Qed.

(** The tables that stay when a job is done, in the order they are searched. *)
Definition remaining (job : CompactionJob) (s : SSTableService) : list SSTableMetadata :=
  all_levels ≫= λ level,
    if decide (level = job_Level job)
    then filter (λ t, SSTableID t ∉ SSTableID <$> InputTables job) (GetTablesForLevel level s)
    else GetTablesForLevel level s.

Lemma get_skip k d acc t : keyInRange k (sst_KeyRange t) = false → get_step k d acc t = Some acc.
Proof. intros Ht. unfold get_step. by rewrite Ht. Qed.

Lemma get_skips k d tables acc :
  Forall (λ t, keyInRange k (sst_KeyRange t) = false) tables → foldM (get_step k d) acc tables = Some acc.
Proof.
  induction 1 as [|t tables Ht _ IH]; [done|]. cbn [foldM]. rewrite get_skip by done. apply IH.
Qed.

(** Tables whose range does not have the key make no difference. *)
Lemma get_filter k d tables acc :
  foldM (get_step k d) acc (filter (λ t, keyInRange k (sst_KeyRange t) = true) tables) = foldM (get_step k d) acc tables.
Proof.
  revert acc. induction tables as [|t tables IH]; intros acc; [done|]. rewrite filter_cons. cbn [foldM]. case_decide as Ht.
  - cbn [foldM]. destruct (get_step k d acc t); [|done]. apply IH.
  - rewrite (get_skip k d acc t) by by apply not_true_is_false. apply IH.
Qed.

Lemma filter_bind {A B} (P : B → Prop) `{!∀ x, Decision (P x)} (f : A → list B) l :
  filter P (l ≫= f) = l ≫= λ x, filter P (f x).
Proof. induction l as [|x l IH]; [done|]. by rewrite !bind_cons, filter_app, IH. Qed.

(** The output's range has no key. *)
Lemma merged_tables tenantID key out job s s' :
  sst_KeyRange out = mkKeyRange EmptyString EmptyString → OutputLevel job = job_Level job + 1 →
  levels s' = levels (RemoveTables (job_Level job) (SSTableID <$> InputTables job) (AddTable (OutputLevel job) out s)) →
  let P t := keyInRange (buildKey tenantID key) (sst_KeyRange t) = true in
  filter P (all_tables s') = filter P (remaining job s).
Proof.
  intros Hout Ho Hlev P. unfold all_tables, remaining. rewrite !filter_bind. apply list_bind_ext; [|done]. intros level.
  assert (filter P [out] = []) as Hskip.
  { unfold P. rewrite filter_cons_False; [done|]. by rewrite Hout, empty_range. }
  unfold GetTablesForLevel at 1. rewrite Hlev. cbn [RemoveTables levels]. case_decide as Hl.
  - subst level. rewrite lookup_insert_eq. cbn [default from_option id]. unfold GetTablesForLevel, AddTable. cbn [levels].
    rewrite lookup_insert_ne by lia. f_equal. apply list_filter_iff. intros t. by rewrite elem_of_list_to_set.
  - rewrite lookup_insert_ne by done. unfold AddTable. cbn [levels]. destruct (decide (level = OutputLevel job)) as [->|Hne].
    + rewrite lookup_insert_eq. cbn [default from_option id]. by rewrite filter_app, Hskip, app_nil_r.
    + by rewrite lookup_insert_ne.
Qed.

(** C38: compaction hides what it compacts.  Whatever tables the levels hold, a
    job whose inputs are well-formed tables is carried out: the merge terminates
    and succeeds, and afterwards a lookup of any key of any tenant looks only at
    the tables that were not inputs; the output's key range is never set, so
    [Get] skips the output for every key.  A key that is in the range of none of
    the remaining tables is not found, whatever the inputs held under it. *)
Theorem compaction_hides_keys bs bh nano1 nano2 now job s :
  0 < bs < 2 ^ 63 → 0 ≤ bh < 2 ^ 64 → OutputLevel job = job_Level job + 1 → InputTables job ≠ [] →
  (∀ md, md ∈ InputTables job → ∃ m, stored (disk s) md m) →
  ∃ s', mergeSSTables bs bh nano1 nano2 now job s = Some (Ok s') ∧
    ∀ tenantID key, let k := buildKey tenantID key in
      sst_Get s' tenantID key = fst <$> foldM (get_step k (disk s')) (None, 0) (remaining job s) ∧
      (Forall (λ t, keyInRange k (sst_KeyRange t) = false) (remaining job s) → sst_Get s' tenantID key = Some None).
Proof.
  intros Hbs Hbh Ho Hne Hst.
  destruct (mergeSSTables_result bs bh nano1 nano2 now job s Hbs Hbh Hst Hne) as (s' & out & Hm & Hout & Hlev).
  exists s'. split; [done|]. intros tenantID key k.
  assert (sst_Get s' tenantID key = fst <$> foldM (get_step k (disk s')) (None, 0) (remaining job s)) as Hget.
  { unfold sst_Get. fold k. rewrite <-(get_filter k (disk s') (all_tables s')), <-(get_filter k (disk s') (remaining job s)).
    f_equal. f_equal. by apply (merged_tables tenantID key out). }
  split; [done|]. intros Hnone. by rewrite Hget, get_skips.
Qed.
End properties.

Lemma compaction_hides_keys_witness :
  ∃ s s', sst_Get s "t1" "a" = Some (Some (to_kv example_entry)) ∧
    mergeSSTables 64 3 5 6 7 (mkCompactionJob "j" 0 (GetTablesForLevel 0 s) 1 0 CompactionPending) s = Some (Ok s') ∧
    sst_Get s' "t1" "a" = Some None.
Proof.
  destruct (WriteFromMemTable None 1 1700000001 example_memtable example_service) as [s|] eqn:Hw; [|by vm_compute in Hw].
  assert (s = match WriteFromMemTable None 1 1700000001 example_memtable example_service with Ok s => s | Err _ => example_service end) as Hs
    by by rewrite Hw.
  destruct (WriteFromMemTable_spec 1 1700000001 example_memtable {[ "t1:a" := example_entry ]} example_service)
    as (s0 & Hw0 & Hwf & _); [split; reflexivity|split; [discriminate|reflexivity]|exact example_wf|
      exact example_is_memtable|exact example_writable|exact example_fresh|].
  assert (s0 = s) as -> by congruence.
  destruct (compaction_hides_keys 64 3 5 6 7 (mkCompactionJob "j" 0 (GetTablesForLevel 0 s) 1 0 CompactionPending) s)
    as (s' & Hm & Hget).
  - split; reflexivity.
  - split; [discriminate|reflexivity].
  - reflexivity.
  - rewrite Hs. by vm_compute.
  - intros md Hin. apply Hwf. unfold all_tables. apply list_elem_of_bind. exists 0. split; [exact Hin|by left].
  - exists s, s'. split; [rewrite Hs; by vm_compute|]. split; [exact Hm|]. apply (Hget "t1" "a").
    assert (remaining (mkCompactionJob "j" 0 (GetTablesForLevel 0 s) 1 0 CompactionPending) s = []) as ->
      by (rewrite Hs; by vm_compute).
    constructor.
Defined.
