(* ===== verification/StorageHandler.v ===== *)
(** * StorageHandler: [storage-node/internal/handler/storage_handler.go]

    The messages of [storage.proto] a coordinator exchanges with a storage
    node, and the handlers that serve them on the storage service of
    Storage.v.  The generated message code is not part of the repository: a
    message is the record of its fields, an absent sub-message is [None], and a
    [bytes] field that is empty on the wire is the nil slice. *)

From S2P Require Import Prelude Model VectorClock Errors Validator Codec MemTable SSTable SSTableService CommitLog Cache DiskManager Streaming Storage.
#[local] Open Scope Z_scope.

(** ** Definitions *)

(** *** Messages *)

Record pb_VectorClock := mkPbVC { pb_Entries : list (string * Z) }.

Inductive pb_ErrorCode :=
  | pb_UNKNOWN | pb_INVALID_REQUEST | pb_TENANT_NOT_FOUND | pb_KEY_NOT_FOUND | pb_INTERNAL_ERROR
  | pb_DISK_FULL | pb_MEMORY_PRESSURE | pb_NODE_DRAINING | pb_CORRUPTED_DATA.

Record pb_WriteRequest := mkPbWriteRequest {
  wq_TenantId : string;
  wq_Key : string;
  wq_Value : list byte;
  wq_VectorClock : option pb_VectorClock;
}.

Record pb_WriteResponse := mkPbWriteResponse {
  wp_Success : bool;
  wp_UpdatedVectorClock : option pb_VectorClock;
  wp_ErrorMessage : string;
  wp_ErrorCode : pb_ErrorCode;
}.

Record pb_ReadRequest := mkPbReadRequest { rq_TenantId : string; rq_Key : string }.

Record pb_ReadResponse := mkPbReadResponse {
  rp_Success : bool;
  rp_Value : list byte;
  rp_VectorClock : option pb_VectorClock;
  rp_ErrorMessage : string;
  rp_ErrorCode : pb_ErrorCode;
}.

Record pb_RepairRequest := mkPbRepairRequest {
  pq_TenantId : string;
  pq_Key : string;
  pq_Value : list byte;
  pq_VectorClock : option pb_VectorClock;
}.

Record pb_RepairResponse := mkPbRepairResponse {
  pp_Success : bool;
  pp_ErrorMessage : string;
  pp_ErrorCode : pb_ErrorCode;
}.

(** *** Clocks on the wire *)

Definition toProtoVectorClock (vc : VectorClock) : pb_VectorClock :=
  mkPbVC ((λ e, (CoordinatorNodeID e, LogicalTimestamp e)) <$> Entries vc).

Definition fromProtoVectorClock (vc : option pb_VectorClock) : VectorClock :=
  match vc with
  | None => mkVC []
  | Some vc => mkVC ((λ e, mkVCE e.1 e.2) <$> pb_Entries vc)
  end.

(** *** The handlers *)

(** The message of a [status.Error] that [err.Error()] prints. *)
Definition invalid_argument (message : string) : string :=
  "rpc error: code = InvalidArgument desc = " +:+ message.

Definition validateWriteRequest (req : pb_WriteRequest) : res string unit :=
  _ ← ensure (negb (bool_decide (wq_TenantId req = EmptyString))) (invalid_argument "tenant_id is required");
  _ ← ensure (negb (bool_decide (wq_Key req = EmptyString))) (invalid_argument "key is required");
  ensure (negb (bool_decide (wq_Value req = []))) (invalid_argument "value is required").

Definition validateReadRequest (req : pb_ReadRequest) : res string unit :=
  _ ← ensure (negb (bool_decide (rq_TenantId req = EmptyString))) (invalid_argument "tenant_id is required");
  ensure (negb (bool_decide (rq_Key req = EmptyString))) (invalid_argument "key is required").

Section handlers.
Context `{MapRange} `{Codec MemTableEntry} `{Codec CommitLogEntry}.

(** The error of a handler is always nil: failures are in the response. *)
Definition handler_Write (ev : env) (req : pb_WriteRequest) (s : StorageService)
    : option (pb_WriteResponse * StorageService) :=
  match validateWriteRequest req with
  | Err e => Some (mkPbWriteResponse false None e pb_INVALID_REQUEST, s)
  | Ok _ =>
      let vectorClock := fromProtoVectorClock (wq_VectorClock req) in
      '(resp, s) ← storage_Write ev (wq_TenantId req) (wq_Key req) (wq_Value req) vectorClock s;
      match resp with
      | Err _ => Some (mkPbWriteResponse false None "write failed" pb_INTERNAL_ERROR, s)
      | Ok vc => Some (mkPbWriteResponse true (Some (toProtoVectorClock vc)) EmptyString pb_UNKNOWN, s)
      end
  end.

Definition handler_Read (ev : env) (req : pb_ReadRequest) (s : StorageService)
    : option (pb_ReadResponse * StorageService) :=
  match validateReadRequest req with
  | Err e => Some (mkPbReadResponse false [] None e pb_INVALID_REQUEST, s)
  | Ok _ =>
      '(resp, s) ← storage_Read ev (rq_TenantId req) (rq_Key req) s;
      match resp with
      | Err _ => Some (mkPbReadResponse false [] None "key not found" pb_KEY_NOT_FOUND, s)
      | Ok r => Some (mkPbReadResponse true (rr_Value r) (Some (toProtoVectorClock (rr_VectorClock r)))
                        EmptyString pb_UNKNOWN, s)
      end
  end.

Definition handler_Repair (ev : env) (req : pb_RepairRequest) (s : StorageService)
    : option (pb_RepairResponse * StorageService) :=
  if bool_decide (pq_TenantId req = EmptyString) || bool_decide (pq_Key req = EmptyString)
  then Some (mkPbRepairResponse false "invalid request" pb_INVALID_REQUEST, s)
  else
    let vectorClock := fromProtoVectorClock (pq_VectorClock req) in
    '(r, s) ← storage_Repair ev (pq_TenantId req) (pq_Key req) (pq_Value req) vectorClock s;
    match r with
    | Err _ => Some (mkPbRepairResponse false "repair failed" pb_INTERNAL_ERROR, s)
    | Ok _ => Some (mkPbRepairResponse true EmptyString pb_UNKNOWN, s)
    end.

(** [ReplicateData]: the keys are read, and counted, and nothing is sent. *)
Definition replicate_step (ev : env) (tenantID : string) (acc : Z * StorageService) (key : string)
    : option (Z * StorageService) :=
  let '(keysReplicated, s) := acc in
  '(r, s) ← storage_Read ev tenantID key s;
  Some (if is_ok r then i64 (keysReplicated + 1) else keysReplicated, s).

Definition ReplicateData (ev : env) (tenantID : string) (keys : list string) (s : StorageService)
    : option ((bool * Z) * StorageService) :=
  if decide (tenantID = EmptyString) then Some ((false, 0), s)
  else '(n, s) ← foldM (replicate_step ev tenantID) (0, s) keys; Some ((true, n), s).

End handlers.

(** *** Health, key listing and draining

    [StreamKeys] sends nothing before it returns, [GetKeyRange] lists no key,
    and [DrainNode] leaves the storage service as it is: their results depend on
    the request alone.  A returned error is the message of its
    InvalidArgument status. *)

Record pb_HealthResponse := mkPbHealthResponse {
  hp_Healthy : bool;
  hp_Status : string;
  hp_Metrics : gmap string string;
}.

Definition handler_HealthCheck : pb_HealthResponse :=
  mkPbHealthResponse true "healthy" {["node_status" := "operational"]}.

Record pb_KeyRangeResponse := mkPbKeyRangeResponse {
  kr_Keys : list string;
  kr_HasMore : bool;
  kr_NextKey : string;
}.

(** The messages sent on the stream, and the status it ends with. *)
Definition StreamKeys (tenantID : string) : list (string * list byte) * res string unit :=
  if decide (tenantID = EmptyString) then ([], Err "tenant_id is required") else ([], Ok tt).

Definition GetKeyRange (tenantID : string) : pb_KeyRangeResponse * res string unit :=
  (mkPbKeyRangeResponse [] false EmptyString,
   if decide (tenantID = EmptyString) then Err "tenant_id is required" else Ok tt).

Record pb_DrainResponse := mkPbDrainResponse {
  dr_Success : bool;
  dr_Status : string;
  dr_ErrorMessage : string;
  dr_ErrorCode : pb_ErrorCode;
}.

Definition DrainNode (graceful : bool) : pb_DrainResponse :=
  if negb graceful
  then mkPbDrainResponse false "drain_not_implemented" "non-graceful drain not supported" pb_INVALID_REQUEST
  else mkPbDrainResponse true "draining" EmptyString pb_UNKNOWN.

(** *** Streaming management

    The goroutine [StartStreaming] leaves behind runs [ExecuteStreaming] of
    Streaming.v on the registered context. *)

Definition StartStreaming (now : Z) (sourceNodeID targetNodeID : string) (keyRanges : list StreamRange)
    (sm : StreamingManager) : (bool * string) * StreamingManager :=
  if bool_decide (sourceNodeID = EmptyString) || bool_decide (targetNodeID = EmptyString)
  then ((false, "source_node_id and target_node_id are required"), sm)
  else if decide (keyRanges = []) then ((false, "at least one key range is required"), sm)
  else
    let streamCtx := mkStreamContext targetNodeID keyRanges StreamStateCopying 0 0 0 0 0 0 in
    match AddStream now targetNodeID streamCtx sm with
    | Err _ => ((false, "failed to add streaming context: stream already exists for node " +:+ targetNodeID), sm)
    | Ok sm => ((true, "streaming started"), sm)
    end.

Definition StopStreaming (targetNodeID : string) (sm : StreamingManager) : (bool * string) * StreamingManager :=
  if decide (targetNodeID = EmptyString) then ((false, "target_node_id is required"), sm)
  else ((true, "streaming stopped"), RemoveStream targetNodeID sm).

(** The state as a string, whether it is still active, and the counters. *)
Definition GetStreamStatus (targetNodeID : string) (sm : StreamingManager)
    : res string (bool * string * (Z * Z * Z * Z)) :=
  if decide (targetNodeID = EmptyString) then Err (invalid_argument "target_node_id is required")
  else match GetStream targetNodeID sm with
  | None => Ok (false, "not_found", (0, 0, 0, 0))
  | Some c =>
      let st := sc_State c in
      Ok (bool_decide (st ≠ StreamStateCompleted ∧ st ≠ StreamStateFailed), stream_state_string st,
          (KeysCopied c, KeysStreamed c, BytesCopied c, BytesStreamed c))
  end.

Definition NotifyStreamingComplete (targetNodeID : string) (sm : StreamingManager)
    : (bool * string) * StreamingManager :=
  if decide (targetNodeID = EmptyString) then ((false, "target_node_id is required"), sm)
  else match GetStream targetNodeID sm with
  | None => ((false, "no active streaming found for target node"), sm)
  | Some c =>
      if decide (sc_State c ≠ StreamStateCompleted)
      then ((false, "streaming not completed, current state: " +:+ stream_state_string (sc_State c)), sm)
      else ((true, "streaming completion acknowledged"), RemoveStream targetNodeID sm)
  end.

(** ** Lemmas *)

Lemma proto_clock_roundtrip vc : fromProtoVectorClock (Some (toProtoVectorClock vc)) = vc.
Proof.
  destruct vc as [es]. unfold fromProtoVectorClock, toProtoVectorClock. cbn [pb_Entries Entries]. f_equal.
  rewrite <-list_fmap_compose. induction es as [|[n x] es IH]; [done|]. rewrite fmap_cons, IH. done.
Qed.

Section handler_lemmas.
Context `{MapRange} `{Codec MemTableEntry} `{Codec CommitLogEntry}.

(** A write is acknowledged exactly when the service performed it. *)
Lemma handler_Write_ok ev tenantID key value vc s resp s' :
  handler_Write ev (mkPbWriteRequest tenantID key value (Some (toProtoVectorClock vc))) s = Some (resp, s') →
  wp_Success resp = true →
  ∃ vc', storage_Write ev tenantID key value vc s = Some (Ok vc', s') ∧
    fromProtoVectorClock (wp_UpdatedVectorClock resp) = vc'.
Proof.
  unfold handler_Write. destruct (validateWriteRequest _); [|intros [= <- <-]; done].
  cbn [wq_VectorClock wq_TenantId wq_Key wq_Value]. rewrite proto_clock_roundtrip.
  destruct (storage_Write _ _ _ _ _ _) as [[[vc'|e] s1]|]; simpl; intros [= <- <-]; [intros _|done].
  exists vc'. split; [done|]. cbn [wp_UpdatedVectorClock]. apply proto_clock_roundtrip.
Qed.

(** What a read of a node that has run for a while answers. *)
Definition read_answer (e : option MemTableEntry) (resp : pb_ReadResponse) : Prop :=
  match e with
  | Some e => if mt_IsTombstone e then rp_Success resp = false
              else rp_Success resp = true ∧ rp_Value resp = mt_Value e ∧
                   fromProtoVectorClock (rp_VectorClock resp) = mt_VectorClock e
  | None => rp_Success resp = false
  end.

Lemma handler_Read_result lcfg ev tenantID key s es A f t resp s' :
  storage_inv lcfg s es A f t → tenantID ≠ EmptyString → key ≠ EmptyString →
  handler_Read ev (mkPbReadRequest tenantID key) s = Some (resp, s') →
  read_answer (A !! buildKey tenantID key) resp.
Proof.
  intros Hinv Ht Hk. unfold handler_Read, validateReadRequest. cbn [rq_TenantId rq_Key].
  rewrite !bool_decide_false by done. cbn [negb ensure mbind res_bind].
  destruct (storage_Read ev tenantID key s) as [[r s1]|] eqn:Hr; [|done]. cbn [mbind option_bind].
  destruct (storage_Read_result _ _ _ _ _ _ _ _ _ _ _ Hinv Hr) as [Hspec _]. unfold read_spec in Hspec. unfold read_answer.
  destruct (A !! buildKey tenantID key) as [e|]; [destruct (mt_IsTombstone e)|].
  - rewrite Hspec. by intros [= <- <-].
  - destruct Hspec as [src ->]. intros [= <- <-]. cbn [rp_Success rp_Value rp_VectorClock rr_Value rr_VectorClock].
    by rewrite proto_clock_roundtrip.
  - rewrite Hspec. by intros [= <- <-].
Qed.
End handler_lemmas.
