(* ===== verification/StorageClient.v ===== *)
(** * StorageClient: [coordinator/internal/client/storage_client.go]

    The coordinator's gRPC client of a storage node.  The network is an
    argument of every call: whether a connection to an address that is not yet
    open can be dialled, and the answer of the remote procedure to the request
    that is sent, which may be a transport error. *)

From S2P Require Import Prelude Model VectorClock StorageHandler.
#[local] Open Scope Z_scope.

(** ** Definitions *)

(** The connections are known by their address; [timeout] only bounds the
    time of a call. *)
Record StorageClient := mkStorageClient { connections : gset string }.

Definition NewStorageClient : StorageClient := mkStorageClient ∅.

Inductive client_error := ConnectFailed (addr : string) | RpcFailed (message : string).

Record StorageResponse := mkStorageResponse {
  sr_NodeID : string;
  sr_Success : bool;
  sr_Value : list byte;
  sr_VectorClock : VectorClock;
  sr_Timestamp : Z;
  sr_Found : bool;
  sr_Error : option client_error;
}.

Definition node_addr (node : StorageNode) : string := Host node +:+ ":" +:+ pretty (Port node).

Definition getConnection (dialled : bool) (node : StorageNode) (c : StorageClient)
    : res client_error StorageClient :=
  let addr := node_addr node in
  if decide (addr ∈ connections c) then Ok c
  else if dialled then Ok (mkStorageClient ({[addr]} ∪ connections c))
  else Err (ConnectFailed addr).

(** What the network does with one call. *)
Record link (Req Resp : Type) := mkLink {
  dials : bool;
  answer : Req → res string Resp;
}.
Arguments mkLink {Req Resp} _ _.
Arguments dials {Req Resp} _.
Arguments answer {Req Resp} _ _.

Definition client_Write (net : link pb_WriteRequest pb_WriteResponse) (node : StorageNode)
    (tenantID key : string) (value : list byte) (vectorClock : VectorClock) (c : StorageClient)
    : res client_error StorageResponse * StorageClient :=
  match getConnection (dials net) node c with
  | Err e => (Err e, c)
  | Ok c =>
      match answer net (mkPbWriteRequest tenantID key value (Some (toProtoVectorClock vectorClock))) with
      | Err e => (Err (RpcFailed e), c)
      | Ok resp =>
          (Ok (mkStorageResponse (NodeID node) (wp_Success resp) []
                 (fromProtoVectorClock (wp_UpdatedVectorClock resp)) 0 false None), c)
      end
  end.

Definition client_Read (net : link pb_ReadRequest pb_ReadResponse) (node : StorageNode)
    (tenantID key : string) (c : StorageClient) : res client_error StorageResponse * StorageClient :=
  match getConnection (dials net) node c with
  | Err e => (Err e, c)
  | Ok c =>
      match answer net (mkPbReadRequest tenantID key) with
      | Err e => (Err (RpcFailed e), c)
      | Ok resp =>
          (Ok (mkStorageResponse (NodeID node) (rp_Success resp) (rp_Value resp)
                 (fromProtoVectorClock (rp_VectorClock resp)) 0
                 (rp_Success resp && (0 <? length (rp_Value resp))%nat) None), c)
      end
  end.

(** The timestamp of a repair is not sent, and its answer is not looked at. *)
Definition client_Repair (net : link pb_RepairRequest pb_RepairResponse) (node : StorageNode)
    (tenantID key : string) (value : list byte) (vectorClock : VectorClock) (timestamp : Z) (c : StorageClient)
    : res client_error unit * StorageClient :=
  match getConnection (dials net) node c with
  | Err e => (Err e, c)
  | Ok c =>
      match answer net (mkPbRepairRequest tenantID key value (Some (toProtoVectorClock vectorClock))) with
      | Err e => (Err (RpcFailed e), c)
      | Ok _ => (Ok tt, c)
      end
  end.

Definition client_Close (c : StorageClient) : StorageClient := mkStorageClient ∅.

Definition CloseConnection (node : StorageNode) (c : StorageClient) : StorageClient :=
  mkStorageClient (connections c ∖ {[node_addr node]}).

(** ** Lemmas *)

Lemma client_Read_ok net node tenantID key c resp c' :
  client_Read net node tenantID key c = (Ok resp, c') →
  sr_NodeID resp = NodeID node ∧ sr_Timestamp resp = 0 ∧
  ∃ a, answer net (mkPbReadRequest tenantID key) = Ok a ∧
    sr_Success resp = rp_Success a ∧ sr_Value resp = rp_Value a ∧
    sr_VectorClock resp = fromProtoVectorClock (rp_VectorClock a) ∧
    sr_Found resp = rp_Success a && (0 <? length (rp_Value a))%nat.
Proof.
  unfold client_Read. destruct (getConnection _ _ _) as [c1|]; [|done].
  destruct (answer net _) as [a|] eqn:Ha; [|done]. intros [= <- <-]. cbn [sr_NodeID sr_Timestamp]. eauto 10.
Qed.

Lemma client_Write_ok net node tenantID key value vc c resp c' :
  client_Write net node tenantID key value vc c = (Ok resp, c') →
  sr_NodeID resp = NodeID node ∧
  ∃ a, answer net (mkPbWriteRequest tenantID key value (Some (toProtoVectorClock vc))) = Ok a ∧
    sr_Success resp = wp_Success a ∧ sr_Error resp = None.
Proof.
  unfold client_Write. destruct (getConnection _ _ _) as [c1|]; [|done].
  destruct (answer net _) as [a|] eqn:Ha; [|done]. intros [= <- <-]. cbn [sr_NodeID sr_Success sr_Error]. eauto 10.
Qed.
