(* ===== verification/Conflict.v ===== *)
(** * Conflict: [coordinator/internal/service/conflict_service.go]

    Which of the answers of the replicas a read returns, and the repairs it
    may queue.  The repair workers are steps that take the request at the head
    of the queue; the network is an argument, as in StorageClient.v. *)

From S2P Require Import Prelude Model VectorClock StorageHandler StorageClient.
#[local] Open Scope Z_scope.

(** ** Definitions *)

Record RepairRequest := mkRepairRequest {
  rr_TenantID : string;
  rr_Key : string;
  rr_Value : list byte;
  rr_VectorClock : VectorClock;
  rr_Timestamp : Z;
  rr_Replicas : list StorageNode;
}.

Record ConflictService := mkConflictService {
  repairQueue : list RepairRequest;
  repairAsync : bool;
}.

(** The capacity of the channel [repairQueue]. *)
Definition repair_queue_cap : nat := 1000.

Definition NewConflictService (async : bool) : ConflictService := mkConflictService [] async.

Inductive repair_error := RepairQueueFull | RepairErrors (errorCount total : nat).

Section definitions.
Context `{MapRange}.

(** One round of the loop of [DetectConflicts], on [latest] and [hasConflict]. *)
Definition detect_step (acc : option StorageResponse * bool) (resp : StorageResponse)
    : option StorageResponse * bool :=
  let '(latest, hasConflict) := acc in
  if negb (sr_Success resp) || negb (sr_Found resp) then acc
  else match latest with
  | None => (Some resp, hasConflict)
  | Some l =>
      match Compare (sr_VectorClock resp) (sr_VectorClock l) with
      | After => (Some resp, hasConflict)
      | Before => acc
      | Concurrent => (if sr_Timestamp l <? sr_Timestamp resp then Some resp else Some l, true)
      | Identical => acc
      end
  end.

Definition DetectConflicts (responses : list StorageResponse) : option StorageResponse * bool :=
  if decide (responses = []) then (None, false)
  else match foldl detect_step (None, false) responses with
  | (None, _) => (None, false)
  | (Some latest, hasConflict) => (Some latest, hasConflict)
  end.

(** The goroutines of [executeRepair], in the order their calls end. *)
Definition repair_step (net : StorageNode → link pb_RepairRequest pb_RepairResponse) (req : RepairRequest)
    (acc : nat * StorageClient) (node : StorageNode) : nat * StorageClient :=
  let '(errorCount, c) := acc in
  match client_Repair (net node) node (rr_TenantID req) (rr_Key req) (rr_Value req) (rr_VectorClock req)
          (rr_Timestamp req) c with
  | (Err _, c) => (S errorCount, c)
  | (Ok _, c) => (errorCount, c)
  end.

Definition executeRepair (net : StorageNode → link pb_RepairRequest pb_RepairResponse) (req : RepairRequest)
    (c : StorageClient) : res repair_error unit * StorageClient :=
  let '(errorCount, c) := foldl (repair_step net req) (0%nat, c) (rr_Replicas req) in
  if (0 <? errorCount)%nat then (Err (RepairErrors errorCount (length (rr_Replicas req))), c) else (Ok tt, c).

Definition TriggerRepair (net : StorageNode → link pb_RepairRequest pb_RepairResponse)
    (tenantID key : string) (latest : StorageResponse) (replicas : list StorageNode)
    (s : ConflictService) (c : StorageClient) : res repair_error unit * ConflictService * StorageClient :=
  let needsRepair := filter (λ replica, sr_NodeID latest ≠ NodeID replica) replicas in
  if decide (needsRepair = []) then (Ok tt, s, c)
  else
    let repairReq := mkRepairRequest tenantID key (sr_Value latest) (sr_VectorClock latest)
                       (sr_Timestamp latest) needsRepair in
    if repairAsync s then
      if (length (repairQueue s) <? repair_queue_cap)%nat
      then (Ok tt, mkConflictService (repairQueue s ++ [repairReq]) (repairAsync s), c)
      else (Err RepairQueueFull, s, c)
    else let '(r, c) := executeRepair net repairReq c in (r, s, c).

(** A worker takes the next request; the error of the repair is logged. *)
Definition repairWorker (net : StorageNode → link pb_RepairRequest pb_RepairResponse)
    (s : ConflictService) (c : StorageClient) : ConflictService * StorageClient :=
  match repairQueue s with
  | [] => (s, c)
  | req :: queue => (mkConflictService queue (repairAsync s), (executeRepair net req c).2)
  end.

Definition GetQueueSize (s : ConflictService) : nat := length (repairQueue s).

(** ** Lemmas *)

Definition answered (resp : StorageResponse) : Prop := sr_Success resp = true ∧ sr_Found resp = true.

(** The versions are ordered by their clocks: strictly, and not at all. *)
Definition newer (r l : StorageResponse) : Prop :=
  vc_le (sr_VectorClock l) (sr_VectorClock r) ∧ ¬ vc_le (sr_VectorClock r) (sr_VectorClock l).

Definition conflicting (r l : StorageResponse) : Prop :=
  ¬ vc_le (sr_VectorClock l) (sr_VectorClock r) ∧ ¬ vc_le (sr_VectorClock r) (sr_VectorClock l).

(** The timestamps of the answers do not contradict their clocks. *)
Definition causal_timestamps (rs : list StorageResponse) : Prop :=
  ∀ r l, r ∈ rs → l ∈ rs → answered r → answered l → vc_le (sr_VectorClock r) (sr_VectorClock l) →
    sr_Timestamp r ≤ sr_Timestamp l.

(** What the loop has established after the answers [seen]. *)
Record detected (seen : list StorageResponse) (l : StorageResponse) (conflict : bool) : Prop := {
  dt_in : l ∈ seen;
  dt_answered : answered l;
  dt_time : ∀ r, r ∈ seen → answered r → sr_Timestamp r ≤ sr_Timestamp l;
  dt_max : ∀ r, r ∈ seen → answered r → ¬ newer r l;
  dt_conflict : conflict = true → ∃ r1 r2, r1 ∈ seen ∧ r2 ∈ seen ∧ answered r1 ∧ answered r2 ∧ conflicting r1 r2;
  dt_chain : conflict = false → ∀ r, r ∈ seen → answered r → vc_le (sr_VectorClock r) (sr_VectorClock l);
}.

Lemma decide_vc_le a b : vc_le a b ∨ ¬ vc_le a b.
Proof. destruct (Compare_le a b) as [Hle _]. destruct (Compare a b); [left|left|right|right]; rewrite <-Hle; naive_solver. Qed.

Lemma vc_le_trans a b c : vc_le a b → vc_le b c → vc_le a c.
Proof. intros H1 H2 n. specialize (H1 n). specialize (H2 n). lia. Qed.

Lemma newer_trans r1 r2 r3 : newer r1 r2 → newer r2 r3 → newer r1 r3.
Proof.
  intros [H1 H1'] [H2 H2']. split; [by eapply vc_le_trans|]. intros H3. apply H2'. by eapply vc_le_trans.
Qed.

Lemma answered_dec_spec resp : negb (sr_Success resp) || negb (sr_Found resp) = false ↔ answered resp.
Proof. unfold answered. destruct (sr_Success resp), (sr_Found resp); naive_solver. Qed.

(** An answer that does not replace the latest one. *)
Lemma detected_keep seen l cf r :
  detected seen l cf →
  (answered r → sr_Timestamp r ≤ sr_Timestamp l ∧ vc_le (sr_VectorClock r) (sr_VectorClock l)) →
  detected (seen ++ [r]) l cf.
Proof.
  intros [Hin Ha Ht Hm Hc Hch] Hr. split; [set_solver|done|..].
  - intros r' [?| ->%list_elem_of_singleton]%elem_of_app; [by auto|]. by intros [? ?]%Hr.
  - intros r' [?| ->%list_elem_of_singleton]%elem_of_app; [by auto|]. intros [_ Hle]%Hr [_ Hn]. done.
  - intros H1. destruct (Hc H1) as (r1 & r2 & ? & ? & ?). exists r1, r2. set_solver.
  - intros H1 r' [?| ->%list_elem_of_singleton]%elem_of_app; [by apply Hch|]. by intros [? ?]%Hr.
Qed.

(** An answer whose clock dominates the latest one. *)
Lemma detected_after seen l cf r :
  detected seen l cf → answered r → newer r l → sr_Timestamp l ≤ sr_Timestamp r →
  detected (seen ++ [r]) r cf.
Proof.
  intros [Hin Ha Ht Hm Hc Hch] Hr Hn Hts. split; [set_solver|done|..].
  - intros r' [?| ->%list_elem_of_singleton]%elem_of_app Hr'; [|lia]. transitivity (sr_Timestamp l); auto.
  - intros r' [?| ->%list_elem_of_singleton]%elem_of_app Hr' Hn'; [|by destruct Hn'].
    apply (Hm r'); [done..|]. by eapply newer_trans.
  - intros H1. destruct (Hc H1) as (r1 & r2 & ? & ? & ?). exists r1, r2. set_solver.
  - intros H1 r' [?| ->%list_elem_of_singleton]%elem_of_app Hr'; [|by intros n].
    apply vc_le_trans with (sr_VectorClock l); [by apply Hch|apply Hn].
Qed.

(** A concurrent answer: the later timestamp wins. *)
Lemma detected_concurrent seen l cf r :
  detected seen l cf → causal_timestamps (seen ++ [r]) → answered r → conflicting r l →
  detected (seen ++ [r]) (if sr_Timestamp l <? sr_Timestamp r then r else l) true.
Proof.
  intros [Hin Ha Ht Hm Hc Hch] Hcausal Hr Hcf.
  assert (∃ r1 r2, r1 ∈ seen ++ [r] ∧ r2 ∈ seen ++ [r] ∧ answered r1 ∧ answered r2 ∧ conflicting r1 r2)
    by (exists r, l; set_solver).
  destruct (Z.ltb_spec (sr_Timestamp l) (sr_Timestamp r)); (split; [set_solver|done| | |done|done]).
  - intros r' [?| ->%list_elem_of_singleton]%elem_of_app Hr'; [|lia]. transitivity (sr_Timestamp l); [auto|lia].
  - intros r' [Hin'| ->%list_elem_of_singleton]%elem_of_app Hr' [Hle Hn]; [|done].
    pose proof (Hcausal r r' ltac:(set_solver) ltac:(set_solver) Hr Hr' Hle). specialize (Ht r' Hin' Hr'). lia.
  - intros r' [?| ->%list_elem_of_singleton]%elem_of_app Hr'; auto.
  - intros r' [?| ->%list_elem_of_singleton]%elem_of_app Hr' Hn; [by eapply Hm|]. by destruct Hn, Hcf.
Qed.

Lemma detected_step seen l cf r :
  detected seen l cf → causal_timestamps (seen ++ [r]) →
  ∃ l' cf', detect_step (Some l, cf) r = (Some l', cf') ∧ detected (seen ++ [r]) l' cf'.
Proof.
  intros Hd Hcausal. pose proof Hd as [Hin Ha _ _ _ _]. unfold detect_step.
  destruct (negb (sr_Success r) || negb (sr_Found r)) eqn:Hans.
  { exists l, cf. split; [done|]. apply detected_keep; [done|]. intros Hr%answered_dec_spec. congruence. }
  apply answered_dec_spec in Hans as Hr.
  pose proof (Hcausal r l ltac:(set_solver) ltac:(set_solver) Hr Ha) as H1.
  pose proof (Hcausal l r ltac:(set_solver) ltac:(set_solver) Ha Hr) as H2.
  destruct (Compare_spec (sr_VectorClock r) (sr_VectorClock l)) as (Hid & Hbe & Haf & Hco).
  destruct (Compare (sr_VectorClock r) (sr_VectorClock l)).
  - assert (vc_le (sr_VectorClock r) (sr_VectorClock l)) as Hle by (intros n; by rewrite (proj1 Hid eq_refl n)).
    exists l, cf. split; [done|]. apply detected_keep; auto.
  - destruct (proj1 Hbe eq_refl) as [Hle _]. exists l, cf. split; [done|]. apply detected_keep; auto.
  - destruct (proj1 Haf eq_refl) as [Hle Hn]. exists r, cf. split; [done|]. apply (detected_after _ l cf); auto. by split.
  - destruct (proj1 Hco eq_refl) as [Hn1 Hn2].
    exists (if sr_Timestamp l <? sr_Timestamp r then r else l), true. split; [by destruct (_ <? _)|].
    apply (detected_concurrent _ _ cf); [done..|]. by split.
Qed.

(** The loop from an accumulator that describes what was seen. *)
Definition detect_state (seen : list StorageResponse) (acc : option StorageResponse * bool) : Prop :=
  match acc.1 with
  | None => acc.2 = false ∧ Forall (λ r, ¬ answered r) seen
  | Some l => detected seen l acc.2
  end.

Lemma detect_state_step seen acc r :
  detect_state seen acc → causal_timestamps (seen ++ [r]) → detect_state (seen ++ [r]) (detect_step acc r).
Proof.
  destruct acc as [[l|] cf]; intros Hs Hc.
  - destruct (detected_step seen l cf r Hs Hc) as (l' & cf' & -> & Hd). exact Hd.
  - destruct Hs as [Hcf Hnone]. cbn [snd] in Hcf. subst cf. unfold detect_step.
    destruct (negb (sr_Success r) || negb (sr_Found r)) eqn:Hans.
    + split; [done|]. apply Forall_app. split; [done|]. apply Forall_singleton.
      intros Hr%answered_dec_spec. congruence.
    + apply answered_dec_spec in Hans. rewrite Forall_forall in Hnone.
      assert (∀ r', r' ∈ seen ++ [r] → answered r' → r' = r) as Honly.
      { intros r' [Hin| ->%list_elem_of_singleton]%elem_of_app Hr'; [|done]. by destruct (Hnone r' Hin). }
      split; cbn [fst snd].
      * set_solver.
      * done.
      * by intros r' Hin ->%Honly.
      * intros r' Hin ->%Honly [_ Hn]; [|done]. by apply Hn.
      * done.
      * intros _ r' Hin ->%Honly; [by intros n|done].
Qed.

Lemma DetectConflicts_state responses :
  causal_timestamps responses → detect_state responses (DetectConflicts responses).
Proof.
  intros Hc. assert (detect_state responses (foldl detect_step (None, false) responses)) as Hs.
  { induction responses as [|r rs IH] using rev_ind; [by split|].
    rewrite foldl_app. cbn [foldl]. apply detect_state_step; [|done]. apply IH.
    intros r1 r2 H1 H2. apply Hc; set_solver. }
  unfold DetectConflicts. destruct (decide (responses = [])) as [->|]; [by split|].
  destruct (foldl _ _ _) as [[l|] cf]; [done|]. destruct Hs as [_ Hn]. by split.
Qed.

(** ** Properties *)

(** A read returns a causally latest version.  When the timestamps of the
    answers do not contradict their clocks, [DetectConflicts] returns nothing
    exactly when no replica found the key; otherwise it returns one of the
    answers, no other answer has a clock that dominates it or a later
    timestamp, a reported conflict is a pair of concurrent answers, and without
    one the returned clock dominates every other. *)
Theorem detect_conflicts_latest (responses : list StorageResponse) :
  causal_timestamps responses →
  match DetectConflicts responses with
  | (None, conflict) => conflict = false ∧ Forall (λ r, ¬ answered r) responses
  | (Some l, conflict) =>
      l ∈ responses ∧ answered l ∧
      (∀ r, r ∈ responses → answered r → ¬ newer r l ∧ sr_Timestamp r ≤ sr_Timestamp l) ∧
      (conflict = true → ∃ r1 r2, r1 ∈ responses ∧ r2 ∈ responses ∧ answered r1 ∧ answered r2 ∧ conflicting r1 r2) ∧
      (conflict = false → ∀ r, r ∈ responses → answered r → vc_le (sr_VectorClock r) (sr_VectorClock l))
  end.
Proof.
  intros Hs%DetectConflicts_state. destruct (DetectConflicts responses) as [[l|] cf]; [|done].
  destruct Hs as [Hin Ha Ht Hm Hc Hch]. cbn [fst snd] in *. split_and!; auto.
Qed.
End definitions.

(** *** Witnesses *)

Definition x_answer (id : string) (vc : VectorClock) : StorageResponse :=
  mkStorageResponse id true (bytes id) vc 0 true None.
Definition x_answers : list StorageResponse :=
  [x_answer "n1" (mkVC [mkVCE "c1" 1]); x_answer "n2" (mkVC [mkVCE "c2" 1]); x_answer "n3" (mkVC [mkVCE "c1" 2])].

Lemma detect_conflicts_latest_witness :
  (DetectConflicts x_answers).2 = true ∧
  ∃ l, (DetectConflicts x_answers).1 = Some l ∧ sr_NodeID l = "n3" ∧
    ∀ r, r ∈ x_answers → answered r → ¬ newer r l ∧ sr_Timestamp r ≤ sr_Timestamp l.
Proof.
  split; [by vm_compute|]. eexists. split; [by vm_compute|]. split; [done|].
  assert (causal_timestamps x_answers) as Hc.
  { intros r l Hr Hl _ _ _. assert (Forall (λ r, sr_Timestamp r = 0) x_answers) as Hz by by repeat constructor.
    rewrite Forall_forall in Hz. rewrite (Hz r Hr), (Hz l Hl). done. }
  apply (detect_conflicts_latest x_answers) in Hc. vm_compute DetectConflicts in Hc. apply Hc.
Defined.
