(* ===== verification/HintedHandoff.v ===== *)
(** * HintedHandoff: [coordinator/internal/service/hintedhandoff_service.go]

    Hints are shared objects: the lists of the service and the copies a replay
    works on hold pointers to them, and a failed replay counts its retries in
    the object.  The heap of hints is part of the state.  A replay is a
    sequence of rounds, one per hint of the copied list, and other operations
    may come between two rounds; a stored clock reading is a number of
    nanoseconds. *)

From S2P Require Import Prelude Model VectorClock StorageHandler StorageClient.
#[local] Open Scope Z_scope.

(** ** Definitions *)

Record Hint := mkHint {
  h_NodeID : string;
  h_TenantID : string;
  h_Key : string;
  h_Value : list byte;
  h_VectorClock : VectorClock;
  h_Timestamp : Z;
  h_Retries : Z;
}.

Record HintedHandoffService := mkHandoff {
  hint_heap : list Hint;
  hints : gmap string (list nat);
  maxHints : Z;
  hintTTL : Z;
}.

Definition hour : Z := 3600 * 10 ^ 9.

Definition NewHintedHandoffService (maxHints hintTTL : Z) : HintedHandoffService :=
  mkHandoff [] ∅ (if maxHints <=? 0 then 10000 else maxHints) (if hintTTL =? 0 then 3 * hour else hintTTL).

(** [h.hints[nodeID]]: the nil slice when absent. *)
Definition node_hints (nodeID : string) (h : HintedHandoffService) : list nat := default [] (hints h !! nodeID).

Definition with_hints (m : gmap string (list nat)) (h : HintedHandoffService) : HintedHandoffService :=
  mkHandoff (hint_heap h) m (maxHints h) (hintTTL h).
Definition with_heap (hp : list Hint) (h : HintedHandoffService) : HintedHandoffService :=
  mkHandoff hp (hints h) (maxHints h) (hintTTL h).

(** The list that is cut has at least [maxHints > 0] elements. *)
Definition drop_oldest (nodeID : string) (h : HintedHandoffService) : HintedHandoffService :=
  if maxHints h <=? Z.of_nat (length (node_hints nodeID h))
  then with_hints (<[nodeID := drop 1 (node_hints nodeID h)]> (hints h)) h else h.

Definition StoreHint (now : Z) (nodeID tenantID key : string) (value : list byte) (vectorClock : VectorClock)
    (h : HintedHandoffService) : HintedHandoffService :=
  let h := drop_oldest nodeID h in
  let hint := mkHint nodeID tenantID key value vectorClock now 0 in
  let p := length (hint_heap h) in
  with_hints (<[nodeID := node_hints nodeID h ++ [p]]> (hints h)) (with_heap (hint_heap h ++ [hint]) h).

(** Hints are compared by key and timestamp. *)
Definition same_hint (h : HintedHandoffService) (hintToRemove : Hint) (p : nat) : Prop :=
  match hint_heap h !! p with
  | Some hint => h_Key hint = h_Key hintToRemove ∧ h_Timestamp hint = h_Timestamp hintToRemove
  | None => False
  end.

#[global] Instance same_hint_dec h hint p : Decision (same_hint h hint p).
Proof. unfold same_hint. destruct (hint_heap h !! p); apply _. Defined.

(** [make([]*Hint, 0, len(nodeHints)-1)] panics when the node has no hints. *)
Definition removeHint (nodeID : string) (hintToRemove : Hint) (h : HintedHandoffService)
    : option HintedHandoffService :=
  if decide (node_hints nodeID h = []) then None
  else
    let newHints := filter (λ p, ¬ same_hint h hintToRemove p) (node_hints nodeID h) in
    Some (with_hints (if decide (newHints = []) then delete nodeID (hints h)
                      else <[nodeID := newHints]> (hints h)) h).

(** [&model.StorageNode{NodeID: id}]: no host and no port.  The client reads
    nothing else of a node; the status and the state stand for empty strings. *)
Definition bare_node (id : string) : StorageNode :=
  mkStorageNode id EmptyString 0 NodeStatusInactive NodeStateDown 0 [] [] [] 0 0.

(** One hint sent to its node. *)
Definition replayHint (net : link pb_WriteRequest pb_WriteResponse) (hint : Hint) (c : StorageClient)
    : res client_error unit * StorageClient :=
  match client_Write net (bare_node (h_NodeID hint)) (h_TenantID hint) (h_Key hint) (h_Value hint)
          (h_VectorClock hint) c with
  | (Err e, c) => (Err e, c)
  | (Ok _, c) => (Ok tt, c)
  end.

Definition set_retries (r : Z) (hint : Hint) : Hint :=
  mkHint (h_NodeID hint) (h_TenantID hint) (h_Key hint) (h_Value hint) (h_VectorClock hint) (h_Timestamp hint) r.

Definition max_retries : Z := 10.

(** What one round of [replayHintsForNode] did with its hint. *)
Inductive round_result := Expired | Delivered | Failed | GaveUp.

(** One round, for the hint at [p]: [now] is the time of its expiry check. *)
Definition replay_round (now : Z) (net : link pb_WriteRequest pb_WriteResponse) (nodeID : string) (p : nat)
    (h : HintedHandoffService) (c : StorageClient) : option (round_result * HintedHandoffService * StorageClient) :=
  hint ← hint_heap h !! p;
  if hintTTL h <? now - h_Timestamp hint then h ← removeHint nodeID hint h; Some (Expired, h, c)
  else match replayHint net hint c with
  | (Ok _, c) => h ← removeHint nodeID hint h; Some (Delivered, h, c)
  | (Err _, c) =>
      let hint := set_retries (i64 (h_Retries hint + 1)) hint in
      let h := with_heap (<[p := hint]> (hint_heap h)) h in
      if max_retries <=? h_Retries hint then h ← removeHint nodeID hint h; Some (GaveUp, h, c)
      else Some (Failed, h, c)
  end.

(** The loop over the copied list, when nothing else happens meanwhile; the
    [i]-th round sees the time [now i] and the network [net i]. *)
Fixpoint replay_rounds (now : nat → Z) (net : nat → link pb_WriteRequest pb_WriteResponse) (i : nat)
    (nodeID : string) (hintsToReplay : list nat) (h : HintedHandoffService) (c : StorageClient)
    : option (HintedHandoffService * StorageClient) :=
  match hintsToReplay with
  | [] => Some (h, c)
  | p :: rest =>
      '(_, h, c) ← replay_round (now i) (net i) nodeID p h c;
      replay_rounds now net (S i) nodeID rest h c
  end.

Definition replayHintsForNode (now : nat → Z) (net : nat → link pb_WriteRequest pb_WriteResponse)
    (nodeID : string) (h : HintedHandoffService) (c : StorageClient) : option (HintedHandoffService * StorageClient) :=
  replay_rounds now net 0 nodeID (node_hints nodeID h) h c.

Definition GetHintCount (nodeID : string) (h : HintedHandoffService) : nat := length (node_hints nodeID h).

Definition ClearHintsForNode (nodeID : string) (h : HintedHandoffService) : nat * HintedHandoffService :=
  (length (node_hints nodeID h), with_hints (delete nodeID (hints h)) h).

Section ranges.
Context `{MapRange}.

(** The nodes [replayAllHints] starts a replay for. *)
Definition replayAllHints (h : HintedHandoffService) : list string := (map_range (hints h)).*1.

Definition GetTotalHintCount (h : HintedHandoffService) : nat :=
  foldl (λ total kv, total + length kv.2)%nat 0%nat (map_range (hints h)).
End ranges.

(** ** Runs

    The operations of the service in any order.  A round may be of a hint
    that has left the list since it was copied.  Clock readings increase from
    one stored hint to the next.  The trace records what happened to which
    hint, as the operations' results and the state before them say. *)

Inductive event :=
  | EDropped (p : nat)
  | ERound (r : round_result) (p : nat)
  | ECleared (nodeID : string).

#[global] Instance round_result_eq_dec : EqDecision round_result.
Proof. solve_decision. Defined.
#[global] Instance event_eq_dec : EqDecision event.
Proof. solve_decision. Defined.

Definition dropped (nodeID : string) (h : HintedHandoffService) : list event :=
  if maxHints h <=? Z.of_nat (length (node_hints nodeID h)) then EDropped <$> take 1 (node_hints nodeID h) else [].

Inductive hint_run (maxHints hintTTL : Z) : HintedHandoffService → list event → Z → Prop :=
  | hr_new t : hint_run maxHints hintTTL (NewHintedHandoffService maxHints hintTTL) [] t
  | hr_store h tr t now nodeID tenantID key value vc :
      hint_run maxHints hintTTL h tr t → t < now →
      hint_run maxHints hintTTL (StoreHint now nodeID tenantID key value vc h) (tr ++ dropped nodeID h) now
  | hr_round h tr t now net nodeID hint p r h' c c' :
      hint_run maxHints hintTTL h tr t → hint_heap h !! p = Some hint → h_NodeID hint = nodeID →
      replay_round now net nodeID p h c = Some (r, h', c') →
      hint_run maxHints hintTTL h' (tr ++ [ERound r p]) t
  | hr_clear h tr t nodeID :
      hint_run maxHints hintTTL h tr t →
      hint_run maxHints hintTTL (ClearHintsForNode nodeID h).2 (tr ++ [ECleared nodeID]) t.

(** How often the replay of a hint failed. *)
Definition failures (p : nat) (tr : list event) : Z :=
  Z.of_nat (length (filter (λ e, e = ERound Failed p ∨ e = ERound GaveUp p) tr)).

(** ** Lemmas *)

Lemma node_hints_insert n n' l h :
  node_hints n (with_hints (<[n' := l]> (hints h)) h) = if decide (n = n') then l else node_hints n h.
Proof.
  unfold node_hints. cbn [hints with_hints]. destruct (decide (n = n')) as [->|].
  - by rewrite lookup_insert_eq.
  - by rewrite lookup_insert_ne.
Qed.

Lemma node_hints_delete n n' h :
  node_hints n (with_hints (delete n' (hints h)) h) = if decide (n = n') then [] else node_hints n h.
Proof.
  unfold node_hints. cbn [hints with_hints]. destruct (decide (n = n')) as [->|].
  - by rewrite lookup_delete_eq.
  - by rewrite lookup_delete_ne.
Qed.

(** The lists and the objects fit together. *)
Record hints_ok (h : HintedHandoffService) (t : Z) : Prop := {
  ho_max : 0 < maxHints h;
  ho_len n : Z.of_nat (length (node_hints n h)) ≤ maxHints h;
  ho_sorted n : StronglySorted Nat.lt (node_hints n h);
  ho_ptr n p : p ∈ node_hints n h → ∃ hint, hint_heap h !! p = Some hint ∧ h_NodeID hint = n;
  ho_time p hint : hint_heap h !! p = Some hint → h_Timestamp hint ≤ t;
  ho_times p q a b : (p < q)%nat → hint_heap h !! p = Some a → hint_heap h !! q = Some b → h_Timestamp a < h_Timestamp b;
}.

Lemma same_hint_ptr h t p q hint hint' :
  hints_ok h t → hint_heap h !! p = Some hint → h_Key hint' = h_Key hint → h_Timestamp hint' = h_Timestamp hint →
  same_hint h hint' q ↔ q = p.
Proof.
  intros Hok Hp Hk Ht. unfold same_hint. split; [|by intros ->; rewrite Hp].
  destruct (hint_heap h !! q) as [hq|] eqn:Hq; [|done]. intros [_ Hts].
  destruct (lt_eq_lt_dec p q) as [[Hlt| ->]|Hlt]; [|done|].
  - pose proof (ho_times h t Hok p q hint hq Hlt Hp Hq). lia.
  - pose proof (ho_times h t Hok q p hq hint Hlt Hq Hp). lia.
Qed.

(** Removing a hint removes that hint and nothing else. *)
Lemma removeHint_spec h t n p hint hint' :
  hints_ok h t → hint_heap h !! p = Some hint → h_Key hint' = h_Key hint → h_Timestamp hint' = h_Timestamp hint →
  (removeHint n hint' h = None ↔ node_hints n h = []) ∧
  ∀ h', removeHint n hint' h = Some h' →
    hint_heap h' = hint_heap h ∧ maxHints h' = maxHints h ∧ hintTTL h' = hintTTL h ∧
    ∀ n', node_hints n' h' = if decide (n' = n) then filter (λ q, q ≠ p) (node_hints n h) else node_hints n' h.
Proof.
  intros Hok Hp Hk Ht. unfold removeHint.
  destruct (decide (node_hints n h = [])) as [He|He]; [by split|]. split; [by split|].
  rewrite (list_filter_iff (λ q, ¬ same_hint h hint' q) (λ q, q ≠ p))
    by (intros q; by rewrite (same_hint_ptr h t p q hint hint')).
  intros h' [= <-]. split_and!; [done..|]. intros n'.
  destruct (decide (filter _ _ = [])) as [->|].
  - apply node_hints_delete.
  - apply node_hints_insert.
Qed.

Lemma removeHint_ok h t n p hint hint' h' :
  hints_ok h t → hint_heap h !! p = Some hint → h_Key hint' = h_Key hint → h_Timestamp hint' = h_Timestamp hint →
  removeHint n hint' h = Some h' → hints_ok h' t.
Proof.
  intros Hok Hp Hk Ht Hr. destruct (removeHint_spec h t n p hint hint' Hok Hp Hk Ht) as [_ Hspec].
  destruct (Hspec h' Hr) as (Hheap & Hmax & _ & Hl). destruct Hok as [Ho1 Ho2 Ho3 Ho4 Ho5 Ho6].
  split; rewrite ?Hheap, ?Hmax; try done.
  - intros n'. rewrite Hl. case_decide; [|done]. subst. pose proof (length_filter (λ q, q ≠ p) (node_hints n h)).
    specialize (Ho2 n). lia.
  - intros n'. rewrite Hl. case_decide; [|done]. by apply StronglySorted_filter.
  - intros n' q. rewrite Hl. case_decide as Hn; [|apply Ho4]. subst. intros [_ Hq]%list_elem_of_filter. by apply Ho4.
Qed.

(** A hint is no longer kept: delivered, expired, given up, pushed out by
    newer ones, or its node was removed. *)
Definition gone (p : nat) (nodeID : string) (tr : list event) : Prop :=
  ERound Delivered p ∈ tr ∨ ERound Expired p ∈ tr ∨ ERound GaveUp p ∈ tr ∨ EDropped p ∈ tr ∨ ECleared nodeID ∈ tr.

Record hint_inv (h : HintedHandoffService) (tr : list event) (t : Z) : Prop := {
  hi_ok : hints_ok h t;
  hi_retries p hint : hint_heap h !! p = Some hint → h_Retries hint = i64 (failures p tr);
  hi_kept p hint : hint_heap h !! p = Some hint → p ∈ node_hints (h_NodeID hint) h ∨ gone p (h_NodeID hint) tr;
  hi_gaveup p : ERound GaveUp p ∈ tr → max_retries ≤ failures p tr;
  hi_fresh p : hint_heap h !! p = None → failures p tr = 0;
}.

Lemma gone_app p n tr tr' : gone p n tr → gone p n (tr ++ tr').
Proof. unfold gone. rewrite !elem_of_app. tauto. Qed.

Lemma failures_app p tr tr' : failures p (tr ++ tr') = failures p tr + failures p tr'.
Proof. unfold failures. rewrite filter_app, length_app. lia. Qed.

Lemma failures_nonneg p tr : 0 ≤ failures p tr.
Proof. unfold failures. lia. Qed.

Lemma failures_round p r q :
  failures p [ERound r q] = if decide (p = q ∧ (r = Failed ∨ r = GaveUp)) then 1 else 0.
Proof.
  unfold failures. rewrite filter_cons, filter_nil. repeat case_decide; naive_solver.
Qed.

Lemma failures_dropped p n h : failures p (dropped n h) = 0.
Proof.
  unfold failures, dropped. destruct (_ <=? _); [|done]. rewrite filter_none; [done|].
  apply Forall_fmap, Forall_forall. intros q _ [?|?]; done.
Qed.

(** *** Storing *)

Lemma drop_oldest_spec n h :
  hint_heap (drop_oldest n h) = hint_heap h ∧ maxHints (drop_oldest n h) = maxHints h ∧
  ∀ n', node_hints n' (drop_oldest n h) =
    if decide (n' = n) then drop (length (dropped n h)) (node_hints n h) else node_hints n' h.
Proof.
  unfold drop_oldest, dropped. destruct (_ <=? _) eqn:Hle; cbn [length]; (split_and!; [done..|]); intros n'.
  - rewrite node_hints_insert. case_decide; [|done]. rewrite length_fmap, length_take.
    destruct (node_hints n h); [done|]. by cbn [length Nat.min drop].
  - case_decide; [by subst|done].
Qed.

Lemma StoreHint_spec now n tenantID key value vc h :
  let h' := StoreHint now n tenantID key value vc h in
  hint_heap h' = hint_heap h ++ [mkHint n tenantID key value vc now 0] ∧ maxHints h' = maxHints h ∧
  ∀ n', node_hints n' h' = if decide (n' = n)
    then drop (length (dropped n h)) (node_hints n h) ++ [length (hint_heap h)] else node_hints n' h.
Proof.
  destruct (drop_oldest_spec n h) as (H1 & H2 & H3). unfold StoreHint. cbn zeta.
  split_and!; [cbn [hint_heap with_hints with_heap]; by rewrite H1|done|]. intros n'.
  unfold node_hints at 1. cbn [hints with_hints with_heap]. destruct (decide (n' = n)) as [->|Hne].
  - by rewrite lookup_insert_eq, H3, decide_True, H1.
  - rewrite lookup_insert_ne by done. change (node_hints n' (drop_oldest n h) = node_hints n' h).
    by rewrite H3, decide_False.
Qed.

Lemma dropped_length n h t : hints_ok h t →
  Z.of_nat (length (drop (length (dropped n h)) (node_hints n h))) < maxHints h.
Proof.
  intros [Ho1 Ho2 _ _ _ _]. specialize (Ho2 n).
  unfold dropped. destruct (Z.leb_spec (maxHints h) (Z.of_nat (length (node_hints n h)))); cbn [length].
  - rewrite length_drop, length_fmap, length_take. lia.
  - rewrite drop_0. lia.
Qed.

Lemma lookup_snoc_inv {A} (l : list A) x p y :
  (l ++ [x]) !! p = Some y ↔ l !! p = Some y ∨ p = length l ∧ y = x.
Proof. rewrite lookup_snoc_Some. intuition (subst; auto; lia || by eapply lookup_lt_Some). Qed.

Lemma StoreHint_ok now n tenantID key value vc h t :
  hints_ok h t → t < now → hints_ok (StoreHint now n tenantID key value vc h) now.
Proof.
  intros Hok Hnow. pose proof (dropped_length n h t Hok) as Hlen. destruct Hok as [Ho1 Ho2 Ho3 Ho4 Ho5 Ho6].
  destruct (StoreHint_spec now n tenantID key value vc h) as (Hh & Hm & Hl).
  assert (∀ p q, p ∈ node_hints q h → (p < length (hint_heap h))%nat) as Hlt.
  { intros p q (hint & Hp & _)%Ho4. by eapply lookup_lt_Some. }
  split; rewrite ?Hh, ?Hm; [done|..].
  - intros n'. rewrite Hl. case_decide; [|done]. rewrite length_app. cbn [length]. lia.
  - intros n'. rewrite Hl. case_decide; [|done]. apply StronglySorted_snoc.
    + eapply (StronglySorted_app_1_r _ (take (length (dropped n h)) (node_hints n h))). by rewrite take_drop.
    + apply Forall_forall. intros q Hq. apply (Hlt q n). rewrite list_elem_of_lookup in Hq. destruct Hq as [i Hi].
      rewrite lookup_drop in Hi. by eapply list_elem_of_lookup_2.
  - intros n' p. rewrite Hl. case_decide as Hn.
    + subst n'. intros [Hp| ->%list_elem_of_singleton]%elem_of_app.
      * assert (p ∈ node_hints n h) as (hint & Hp' & Hid)%Ho4.
        { rewrite <-(take_drop (length (dropped n h)) (node_hints n h)). apply elem_of_app. by right. }
        exists hint. split; [|done]. by apply lookup_app_l_Some.
      * eexists. rewrite lookup_snoc_inv. split; [by right|done].
    + intros (hint & Hp' & Hid)%Ho4. exists hint. split; [|done]. by apply lookup_app_l_Some.
  - intros p hint [Hp|[-> ->]]%lookup_snoc_inv; [|by cbn]. apply Ho5 in Hp. lia.
  - intros p q a b Hpq [Hp|[-> ->]]%lookup_snoc_inv [Hq|[-> ->]]%lookup_snoc_inv.
    + by eapply Ho6.
    + apply Ho5 in Hp. cbn [h_Timestamp]. lia.
    + apply lookup_lt_Some in Hq. lia.
    + lia.
Qed.

Lemma StoreHint_inv now n tenantID key value vc h tr t :
  hint_inv h tr t → t < now → hint_inv (StoreHint now n tenantID key value vc h) (tr ++ dropped n h) now.
Proof.
  intros [Hok Hr Hk Hg Hf] Hnow. destruct (StoreHint_spec now n tenantID key value vc h) as (Hh & Hm & Hl).
  assert (∀ p, failures p (tr ++ dropped n h) = failures p tr) as Hfa
    by (intros p; rewrite failures_app, failures_dropped; lia).
  split; rewrite ?Hh.
  - by eapply StoreHint_ok.
  - intros p hint. rewrite Hfa. intros [Hp|[-> ->]]%lookup_snoc_inv; [by apply Hr|].
    rewrite Hf by by apply lookup_ge_None_2. done.
  - intros p hint [Hp|[-> ->]]%lookup_snoc_inv; rewrite Hl.
    + destruct (Hk p hint Hp) as [Hin|Hgone]; [|right; by apply gone_app].
      case_decide as Hn; [|by left].
      rewrite Hn, <-(take_drop (length (dropped n h)) (node_hints n h)) in Hin.
      apply elem_of_app in Hin as [Hin|Hin]; [right|left; set_solver].
      unfold gone. rewrite !elem_of_app. do 3 right. left. right. unfold dropped in Hin |- *.
      destruct (_ <=? _); [|by apply elem_of_nil in Hin]. apply list_elem_of_fmap_2.
      rewrite length_fmap, length_take in Hin. revert Hin. destruct (node_hints n h); [done|]. by cbn.
    + left. cbn [h_NodeID]. rewrite decide_True by done. set_solver.
  - intros p. rewrite Hfa. intros [Hp|Hp]%elem_of_app; [by apply Hg|].
    unfold dropped in Hp. destruct (_ <=? _); [|by apply elem_of_nil in Hp].
    apply list_elem_of_fmap in Hp as (q & ? & _). done.
  - intros p Hp. rewrite Hfa. apply Hf. apply lookup_ge_None. apply lookup_ge_None in Hp. rewrite length_app in Hp.
    cbn [length] in Hp. lia.
Qed.

(** *** Replaying *)

Definition retried (p : nat) (hint : Hint) (h : HintedHandoffService) : HintedHandoffService :=
  with_heap (<[p := set_retries (i64 (h_Retries hint + 1)) hint]> (hint_heap h)) h.

(** Counting a retry changes no field but the counter. *)
Lemma retried_lookup h p hint q hint' :
  hint_heap h !! p = Some hint → hint_heap (retried p hint h) !! q = Some hint' →
  ∃ hint0, hint_heap h !! q = Some hint0 ∧ h_NodeID hint' = h_NodeID hint0 ∧ h_Timestamp hint' = h_Timestamp hint0 ∧
    h_Retries hint' = if decide (p = q) then i64 (h_Retries hint0 + 1) else h_Retries hint0.
Proof.
  intros Hp. cbn [retried hint_heap with_heap]. destruct (decide (p = q)) as [<-|Hne].
  - rewrite list_lookup_insert_eq by by eapply lookup_lt_Some. intros [= <-]. exists hint. done.
  - rewrite list_lookup_insert_ne by done. intros Hq. by exists hint'.
Qed.

Lemma retried_ok h t p hint : hints_ok h t → hint_heap h !! p = Some hint → hints_ok (retried p hint h) t.
Proof.
  intros [Ho1 Ho2 Ho3 Ho4 Ho5 Ho6] Hp. split; [done|done|done|..].
  - intros n q (hint0 & Hq & Hid)%Ho4. destruct (decide (p = q)) as [<-|Hne].
    + exists (set_retries (i64 (h_Retries hint + 1)) hint). cbn [retried hint_heap with_heap].
      rewrite list_lookup_insert_eq by by eapply lookup_lt_Some. split; [done|]. by simplify_eq.
    + exists hint0. cbn [retried hint_heap with_heap]. by rewrite list_lookup_insert_ne.
  - intros q hint' (hint0 & Hq & _ & -> & _)%(retried_lookup _ _ _ _ _ Hp). by eapply Ho5.
  - intros q r a b Hqr (a0 & Ha & _ & -> & _)%(retried_lookup _ _ _ _ _ Hp)
      (b0 & Hb & _ & -> & _)%(retried_lookup _ _ _ _ _ Hp). by eapply Ho6.
Qed.

(** What a round does: nothing to the lists, or the removal of its own hint. *)
Lemma replay_round_spec now net n p hint h t c r h' c' :
  hints_ok h t → hint_heap h !! p = Some hint → replay_round now net n p h c = Some (r, h', c') →
  let h1 := match r with Expired | Delivered => h | _ => retried p hint h end in
  hint_heap h' = hint_heap h1 ∧ maxHints h' = maxHints h ∧ hints_ok h' t ∧
  (r = Failed ∧ hints h' = hints h ∨
   r ≠ Failed ∧ ∀ n', node_hints n' h' =
     if decide (n' = n) then filter (λ q, q ≠ p) (node_hints n h) else node_hints n' h) ∧
  (r = GaveUp → max_retries ≤ i64 (h_Retries hint + 1)).
Proof.
  intros Hok Hp Hround. unfold replay_round in Hround. rewrite Hp in Hround. cbn [mbind option_bind] in Hround.
  pose proof (removeHint_spec h t n p hint hint Hok Hp eq_refl eq_refl) as [_ Hrm].
  pose proof (λ h', removeHint_ok h t n p hint hint h' Hok Hp eq_refl eq_refl) as Hrmok.
  pose proof (retried_ok h t p hint Hok Hp) as Hok1.
  assert (hint_heap (retried p hint h) !! p = Some (set_retries (i64 (h_Retries hint + 1)) hint)) as Hp1.
  { cbn [retried hint_heap with_heap]. by rewrite list_lookup_insert_eq by by eapply lookup_lt_Some. }
  pose proof (removeHint_spec _ t n p _ _ Hok1 Hp1 eq_refl eq_refl) as [_ Hrm1].
  pose proof (λ h', removeHint_ok _ t n p _ _ h' Hok1 Hp1 eq_refl eq_refl) as Hrmok1.
  fold (retried p hint h) in Hround.
  destruct (_ <? _); [|destruct (replayHint _ _ _) as [[[]|e] c1]; [|cbn zeta in Hround;
    destruct (Z.leb_spec max_retries (h_Retries (set_retries (i64 (h_Retries hint + 1)) hint)))]].
  - destruct (removeHint n hint h) as [h2|]; [|done]. injection Hround as <- <- <-.
    destruct (Hrm _ eq_refl) as (Hh & Hm & _ & Hl). split_and!; [done|done|by apply Hrmok|by right|done].
  - destruct (removeHint n hint h) as [h2|]; [|done]. injection Hround as <- <- <-.
    destruct (Hrm _ eq_refl) as (Hh & Hm & _ & Hl). split_and!; [done|done|by apply Hrmok|by right|done].
  - destruct (removeHint n _ (retried p hint h)) as [h2|]; [|done]. injection Hround as <- <- <-.
    destruct (Hrm1 _ eq_refl) as (Hh & Hm & _ & Hl). split_and!; [done|done|by apply Hrmok1|by right|done].
  - injection Hround as <- <- <-. split_and!; [done|done|done|by left|done].
Qed.

Lemma i64_succ_failures p tr : i64 (i64 (failures p tr) + 1) = i64 (failures p tr + 1).
Proof. apply i64_add_l. Qed.

Lemma gave_up_failures x : max_retries ≤ i64 x → 0 ≤ x → max_retries ≤ x.
Proof.
  unfold max_retries. intros Hi Hx. destruct (Z.le_gt_cases 10 x); [done|]. rewrite i64_small in Hi by lia. lia.
Qed.

Lemma replay_round_inv now net n p hint h tr t c r h' c' :
  hint_inv h tr t → hint_heap h !! p = Some hint → h_NodeID hint = n →
  replay_round now net n p h c = Some (r, h', c') → hint_inv h' (tr ++ [ERound r p]) t.
Proof.
  intros [Hok Hr Hk Hg Hf] Hp Hn Hround.
  destruct (replay_round_spec now net n p hint h t c r h' c' Hok Hp Hround) as (Hh & _ & Hok' & Hl & Hgu).
  assert (∀ q hint', hint_heap h' !! q = Some hint' → ∃ hint0, hint_heap h !! q = Some hint0 ∧
    h_NodeID hint' = h_NodeID hint0 ∧ h_Retries hint' = i64 (failures q (tr ++ [ERound r p]))) as Hlook.
  { intros q hint' Hq. rewrite Hh in Hq. rewrite failures_app, failures_round.
    assert (r = Expired ∨ r = Delivered ∨ r = Failed ∨ r = GaveUp) as Hcases by (destruct r; auto).
    destruct Hcases as [-> |[-> |Hcase]];
      [exists hint'; rewrite decide_False, Z.add_0_r by naive_solver; auto..|].
    destruct (retried_lookup h p hint q hint' Hp) as (hint0 & Hq0 & Hid & _ & Hret); [by destruct Hcase as [-> | ->]|].
    exists hint0. split_and!; [done..|]. rewrite Hret, (Hr q hint0 Hq0).
    destruct (decide (p = q)) as [->|Hpq].
    - rewrite decide_True by done. apply i64_succ_failures.
    - rewrite decide_False by (intros [? _]; by apply Hpq). by rewrite Z.add_0_r. }
  split; [done|..].
  - by intros q hint' (hint0 & _ & _ & ?)%Hlook.
  - intros q hint' (hint0 & Hq & Hid & _)%Hlook. rewrite Hid.
    destruct (Hk q hint0 Hq) as [Hin|?]; [|right; by apply gone_app].
    destruct Hl as [[_ Hl]|[Hne Hl]]; [left; unfold node_hints; by rewrite Hl|].
    rewrite Hl. case_decide as Hn'; [|by left]. rewrite Hn' in Hin.
    destruct (decide (q = p)) as [->|]; [right|left; by apply list_elem_of_filter].
    unfold gone. rewrite !elem_of_app, !list_elem_of_singleton. destruct r; naive_solver.
  - intros q. rewrite failures_app. pose proof (failures_nonneg q [ERound r p]).
    intros [Hq%Hg|Hq%list_elem_of_singleton]%elem_of_app; [lia|]. injection Hq as <- ->.
    rewrite failures_round, decide_True by auto. apply gave_up_failures; [|pose proof (failures_nonneg p tr); lia].
    rewrite <-i64_succ_failures, <-(Hr p hint Hp). auto.
  - intros q Hq. assert (hint_heap h !! q = None) as Hq0.
    { rewrite Hh in Hq. revert Hq. rewrite !lookup_ge_None. destruct r; cbn [retried hint_heap with_heap];
        by rewrite ?length_insert. }
    rewrite failures_app, (Hf q Hq0), failures_round, decide_False; [done|]. intros [-> _]. congruence.
Qed.

(** A round on a node with hints does not panic. *)
Lemma replay_round_returns now net n p hint h t c :
  hints_ok h t → hint_heap h !! p = Some hint → node_hints n h ≠ [] → is_Some (replay_round now net n p h c).
Proof.
  intros Hok Hp Hne. unfold replay_round. rewrite Hp. cbn [mbind option_bind].
  assert (∀ hint' h1, node_hints n h1 = node_hints n h → is_Some (removeHint n hint' h1)) as Hrm.
  { intros hint' h1 Heq. unfold removeHint. rewrite Heq, decide_False by done. by eexists. }
  destruct (_ <? _); [|destruct (replayHint _ _ _) as [[[]|e] c1]; [|cbn zeta; destruct (_ <=? _)]]; [..|by eexists];
    match goal with |- context [removeHint n ?x ?y] => destruct (Hrm x y eq_refl) as [? ->] end; by eexists.
Qed.

(** A replay with nothing in between: every hint is in the list at its turn. *)
Lemma replay_rounds_returns now net i n ps h t c :
  hints_ok h t → NoDup ps → (∀ p, p ∈ ps → p ∈ node_hints n h) →
  is_Some (replay_rounds now net i n ps h c).
Proof.
  revert i h c. induction ps as [|p ps IH]; intros i h c Hok Hnd Hin; [by eexists|].
  apply NoDup_cons in Hnd as [Hni Hnd]. cbn [replay_rounds].
  destruct (ho_ptr h t Hok n p (Hin p ltac:(left))) as (hint & Hp & Hid).
  destruct (replay_round_returns (now i) (net i) n p hint h t c Hok Hp) as [[[r h'] c'] Hr].
  { intros Hnil. specialize (Hin p ltac:(left)). rewrite Hnil in Hin. by apply elem_of_nil in Hin. }
  rewrite Hr. cbn [mbind option_bind].
  destruct (replay_round_spec _ _ _ _ _ _ _ _ _ _ _ Hok Hp Hr) as (_ & _ & Hok' & Hl & _).
  apply IH; [done|done|]. intros q Hq. specialize (Hin q ltac:(by right)).
  destruct Hl as [[_ Hl]|[_ Hl]]; [unfold node_hints; by rewrite Hl|].
  rewrite Hl, decide_True by done. apply list_elem_of_filter. split; [|done]. intros ->. done.
Qed.

Lemma hint_run_inv M T h tr t : hint_run M T h tr t → hint_inv h tr t.
Proof.
  induction 1 as [t|h tr t now n tn key v vc _ IH Hlt|h tr t now net n hint p r h' c c' _ IH Hp Hn Hr|h tr t n _ IH].
  - assert (∀ n, node_hints n (NewHintedHandoffService M T) = []) as Hnil
      by (intros n; unfold node_hints; cbn [hints NewHintedHandoffService]; by rewrite lookup_empty).
    assert (0 < maxHints (NewHintedHandoffService M T)) as Hmax
      by (cbn [maxHints NewHintedHandoffService]; destruct (Z.leb_spec M 0); lia).
    split; try done; [|intros p Hp; by apply elem_of_nil in Hp].
    split; try done; intros n; rewrite ?Hnil; [cbn [length]; lia|constructor|by intros p ?%elem_of_nil].
  - by eapply StoreHint_inv.
  - by eapply replay_round_inv.
  - destruct IH as [Hok Hr Hk Hg Hf]. cbn [snd ClearHintsForNode].
    assert (∀ p, failures p (tr ++ [ECleared n]) = failures p tr) as Hfa by (intros p; rewrite failures_app; apply Z.add_0_r).
    split; cbn [hint_heap with_hints].
    + destruct Hok as [Ho1 Ho2 Ho3 Ho4 Ho5 Ho6].
      split; cbn [hint_heap with_hints maxHints]; try done; intros n'; rewrite ?node_hints_delete;
        (case_decide; [|by auto]); [cbn; lia|constructor|by intros p ?%elem_of_nil].
    + intros p hint. rewrite Hfa. apply Hr.
    + intros p hint Hp. destruct (Hk p hint Hp) as [Hin|?]; [|right; by apply gone_app].
      rewrite node_hints_delete. case_decide as Hn; [right|by left].
      unfold gone. rewrite !elem_of_app, !list_elem_of_singleton. rewrite Hn. tauto.
    + intros p. rewrite Hfa. intros [Hp|Hp%list_elem_of_singleton]%elem_of_app; [by apply Hg|done].
    + intros p Hp. rewrite Hfa. by apply Hf.
Qed.

Lemma removeHint_empty n hint h : node_hints n h = [] → removeHint n hint h = None.
Proof. intros Hn. unfold removeHint. by rewrite decide_True. Qed.

(** ** Properties *)

(** C26: no hint is lost without a reason.  After any run of stores, replay
    rounds and clears, every hint that was ever stored is still queued for its
    node, or it was delivered, expired, failed at least ten times, was the
    oldest of a full queue when a newer one came, or its node was cleared; the
    queues hold at most the configured number of hints, oldest first; and a
    replay that nothing interferes with does not panic.  In these runs the clock
    moves between two hints that are stored, since [removeHint] identifies a hint
    by its key and time. *)
Theorem hints_accounted M T h tr t :
  hint_run M T h tr t →
  (∀ p hint, hint_heap h !! p = Some hint → p ∈ node_hints (h_NodeID hint) h ∨ gone p (h_NodeID hint) tr) ∧
  (∀ p, ERound GaveUp p ∈ tr → max_retries ≤ failures p tr) ∧
  (∀ n, Z.of_nat (GetHintCount n h) ≤ maxHints h ∧ StronglySorted Nat.lt (node_hints n h)) ∧
  (∀ now net n c, is_Some (replayHintsForNode now net n h c)).
Proof.
  intros [Hok Hr Hk Hg Hf]%hint_run_inv. split_and!; [done|done|..].
  - intros n. split; apply Hok.
  - intros now net n c. apply (replay_rounds_returns _ _ _ _ _ _ t); [done| |done].
    apply (StronglySorted_NoDup Nat.lt), Hok.
Qed.

(** A replay that overlaps a clear crashes.  When the hints of a node are
    cleared while a replay of them is under way, the next round whose hint has
    expired or is delivered panics, because [removeHint] allocates a slice of
    negative capacity. *)
Theorem cleared_replay_panics h now net p hint c :
  hint_heap h !! p = Some hint →
  hintTTL h < now - h_Timestamp hint ∨ (replayHint net hint c).1 = Ok tt →
  replay_round now net (h_NodeID hint) p (ClearHintsForNode (h_NodeID hint) h).2 c = None.
Proof.
  intros Hp Hcase. unfold replay_round. cbn [ClearHintsForNode snd hint_heap with_hints hintTTL].
  rewrite Hp. cbn [mbind option_bind].
  rewrite removeHint_empty by by rewrite node_hints_delete, decide_True.
  destruct (Z.ltb_spec (hintTTL h) (now - h_Timestamp hint)); [done|]. destruct Hcase as [?|Hdel]; [lia|].
  destruct (replayHint net hint c) as [r c']. cbn [fst] in Hdel. by rewrite Hdel.
Qed.

(** *** Witnesses *)

Definition x_vc : VectorClock := mkVC [mkVCE "c1" 1].
Definition x_store (now : Z) (key : string) (h : HintedHandoffService) : HintedHandoffService :=
  StoreHint now "n1" "t1" key (bytes "v") x_vc h.
Definition x_h : HintedHandoffService := x_store 3 "c" (x_store 2 "b" (x_store 1 "a" (NewHintedHandoffService 2 0))).

Lemma x_hint_run : hint_run 2 0 x_h [EDropped 0] 3.
Proof.
  refine (hr_store 2 0 _ [] 2 3 "n1" "t1" "c" _ _ _ _); [|lia].
  refine (hr_store 2 0 _ [] 1 2 "n1" "t1" "b" _ _ _ _); [|lia].
  refine (hr_store 2 0 _ [] 0 1 "n1" "t1" "a" _ _ _ _); [|lia]. constructor.
Qed.

Lemma hints_accounted_witness :
  node_hints "n1" x_h = [1%nat; 2%nat] ∧ gone 0 "n1" [EDropped 0] ∧
  ∀ now net c, is_Some (replayHintsForNode now net "n1" x_h c).
Proof.
  split; [by vm_compute|].
  destruct (hints_accounted 2 0 x_h [EDropped 0] 3 x_hint_run) as (Hk & _ & _ & Hr). split; [|intros; apply Hr].
  destruct (Hk 0%nat (mkHint "n1" "t1" "a" (bytes "v") x_vc 1 0) eq_refl) as [Hin|Hg]; [|exact Hg].
  apply (bool_decide_pack _) in Hin. vm_compute in Hin. done.
Defined.

Lemma cleared_replay_panics_witness :
  replay_round (4 * hour) (mkLink false (λ _, Err "unavailable")) "n1" 1 (ClearHintsForNode "n1" x_h).2 NewStorageClient = None.
Proof.
  apply (cleared_replay_panics x_h _ _ 1 (mkHint "n1" "t1" "b" (bytes "v") x_vc 2 0) _ eq_refl).
  left. by vm_compute.
Defined.
