(* ===== verification/Tenant.v ===== *)
(** * Tenant: [coordinator/internal/store/memory_cache.go] and
    [coordinator/internal/service/tenant_service.go]

    The in-memory cache holds pointers: the tenant a caller receives, the one
    in the cache and the one an update changes are the same object.  The heap
    of tenants is part of the state.  The metadata store is an argument: every
    call takes the answer it gets. *)

From S2P Require Import Prelude Model.
#[local] Open Scope Z_scope.

(** ** Definitions *)

(** *** [InMemoryCache] *)

Record cacheItem (V : Type) := mkCacheItem { ci_value : V; expiresAt : Z }.
Arguments mkCacheItem {V} _ _.
Arguments ci_value {V} _.
Arguments expiresAt {V} _.

Record InMemoryCache (V : Type) := mkMemCache { mc_data : gmap string (cacheItem V); maxSize : Z }.
Arguments mkMemCache {V} _ _.
Arguments mc_data {V} _.
Arguments maxSize {V} _.

Definition NewInMemoryCache {V} (maxSize : Z) : InMemoryCache V := mkMemCache ∅ maxSize.

Definition mc_Get {V} (now : Z) (key : string) (c : InMemoryCache V) : option V :=
  match mc_data c !! key with
  | None => None
  | Some item => if expiresAt item <? now then None else Some (ci_value item)
  end.

(** The key the first eviction loop stops at; the clock is read for every entry. *)
Fixpoint first_expired {V} (now : nat → Z) (i : nat) (l : list (string * cacheItem V)) : option string :=
  match l with
  | [] => None
  | (k, v) :: l => if expiresAt v <? now i then Some k else first_expired now (S i) l
  end.

Section cache.
Context `{MapRange} {V : Type}.
Implicit Types (c : InMemoryCache V).

Definition evict_expired (now : nat → Z) (data : gmap string (cacheItem V)) : gmap string (cacheItem V) :=
  match first_expired now 0 (map_range data) with
  | Some k => delete k data
  | None => data
  end.

Definition evict_any (data : gmap string (cacheItem V)) : gmap string (cacheItem V) :=
  match map_range data with
  | [] => data
  | (k, _) :: _ => delete k data
  end.

Definition full (maxSize : Z) (data : gmap string (cacheItem V)) : bool := maxSize <=? Z.of_nat (size data).

(** [clock] is read by the first loop, [now] when the item is made. *)
Definition mc_Set (clock : nat → Z) (now : Z) (key : string) (value : V) (ttl : Z) c : InMemoryCache V :=
  let data := mc_data c in
  let data :=
    if full (maxSize c) data then
      let data := evict_expired clock data in
      if full (maxSize c) data then evict_any data else data
    else data in
  mkMemCache (<[key := mkCacheItem value (now + ttl)]> data) (maxSize c).

Definition mc_Delete (key : string) c : InMemoryCache V := mkMemCache (delete key (mc_data c)) (maxSize c).

(** One tick of the [cleanup] goroutine. *)
Definition cleanup (now : Z) c : InMemoryCache V :=
  mkMemCache (foldl (λ d kv, if expiresAt kv.2 <? now then delete kv.1 d else d) (mc_data c) (map_range (mc_data c)))
    (maxSize c).

Definition mc_Size c : nat := size (mc_data c).
End cache.

(** *** [TenantService] *)

Record TenantService := mkTenantService {
  tenant_heap : list Tenant;
  tenant_cache : InMemoryCache nat;
  cacheTTL : Z;
}.

Definition NewTenantService (maxSize cacheTTL : Z) : TenantService :=
  mkTenantService [] (NewInMemoryCache maxSize) cacheTTL.

Inductive tenant_error := InvalidReplicationFactor (f : Z) | MetadataStoreFailed (message : string).

Definition tenantCacheKey (tenantID : string) : string := "tenant:config:" +:+ tenantID.

Definition with_cache (c : InMemoryCache nat) (s : TenantService) : TenantService :=
  mkTenantService (tenant_heap s) c (cacheTTL s).
Definition with_tenants (hp : list Tenant) (s : TenantService) : TenantService :=
  mkTenantService hp (tenant_cache s) (cacheTTL s).

(** A tenant the store or a constructor returns is a new object. *)
Definition new_tenant (t : Tenant) (s : TenantService) : nat * TenantService :=
  (length (tenant_heap s), with_tenants (tenant_heap s ++ [t]) s).

Section tenants.
Context `{MapRange}.

(** [now] is the time of the lookup, [clock] and [later] those of [Set];
    [fetched] is what the metadata store answers. *)
Definition GetTenant (now : Z) (clock : nat → Z) (later : Z) (fetched : res string Tenant) (tenantID : string)
    (s : TenantService) : res tenant_error nat * TenantService :=
  let cacheKey := tenantCacheKey tenantID in
  match mc_Get now cacheKey (tenant_cache s) with
  | Some p => (Ok p, s)
  | None =>
      match fetched with
      | Err e => (Err (MetadataStoreFailed e), s)
      | Ok t =>
          let '(p, s) := new_tenant t s in
          (Ok p, with_cache (mc_Set clock later cacheKey p (cacheTTL s) (tenant_cache s)) s)
      end
  end.

Definition factor_ok (f : Z) : bool := (1 <=? f) && (f <=? 10).

Definition CreateTenant (created updated : Z) (clock : nat → Z) (later : Z) (saved : res string unit) (tenantID : string)
    (replicationFactor : Z) (s : TenantService) : res tenant_error nat * TenantService :=
  if negb (factor_ok replicationFactor) then (Err (InvalidReplicationFactor replicationFactor), s)
  else
    let '(p, s) := new_tenant (mkTenant tenantID replicationFactor created updated 1) s in
    match saved with
    | Err e => (Err (MetadataStoreFailed e), s)
    | Ok _ => (Ok p, with_cache (mc_Set clock later (tenantCacheKey tenantID) p (cacheTTL s) (tenant_cache s)) s)
    end.

(** The object is changed before it is saved. *)
Definition UpdateReplicationFactor (now : Z) (clock : nat → Z) (later updated : Z) (fetched : res string Tenant)
    (saved : res string unit) (tenantID : string) (newFactor : Z) (s : TenantService)
    : option (res tenant_error nat * TenantService) :=
  if negb (factor_ok newFactor) then Some (Err (InvalidReplicationFactor newFactor), s)
  else match GetTenant now clock later fetched tenantID s with
  | (Err e, s) => Some (Err e, s)
  | (Ok p, s) =>
      t ← tenant_heap s !! p;
      if ReplicationFactor t =? newFactor then Some (Ok p, s)
      else
        let t := mkTenant (TenantID t) newFactor (t_CreatedAt t) updated (i64 (Version t + 1)) in
        let s := with_tenants (<[p := t]> (tenant_heap s)) s in
        match saved with
        | Err e => Some (Err (MetadataStoreFailed e), s)
        | Ok _ => Some (Ok p, with_cache (mc_Delete (tenantCacheKey tenantID) (tenant_cache s)) s)
        end
  end.

Definition DeleteTenant (deleted : res string unit) (tenantID : string) (s : TenantService)
    : res tenant_error unit * TenantService :=
  match deleted with
  | Err e => (Err (MetadataStoreFailed e), s)
  | Ok _ => (Ok tt, with_cache (mc_Delete (tenantCacheKey tenantID) (tenant_cache s)) s)
  end.
End tenants.

(** ** Lemmas *)

(** *** The cache *)

Section cache_lemmas.
Context `{MapRange} {V : Type}.
Implicit Types (c : InMemoryCache V) (d : gmap string (cacheItem V)).

(** Evictions only remove entries, and an eviction from a full cache makes room. *)
Lemma evict_expired_subseteq now d : evict_expired now d ⊆ d.
Proof. unfold evict_expired. destruct (first_expired _ _ _); [apply delete_subseteq|done]. Qed.

Lemma evict_any_subseteq d : evict_any d ⊆ d.
Proof. unfold evict_any. destruct (map_range d) as [|[k v] l]; [done|apply delete_subseteq]. Qed.

Lemma size_evict_any d : size (evict_any d) = Nat.pred (size d).
Proof.
  unfold evict_any. destruct (map_range d) as [|[k v] l] eqn:Hd.
  - pose proof (length_map_range d) as Hl. rewrite Hd in Hl. rewrite <-Hl. done.
  - rewrite map_size_delete_Some; [done|]. exists v. apply elem_of_map_range. rewrite Hd. by left.
Qed.

Lemma mc_Set_spec clock now k v ttl c :
  let c' := mc_Set clock now k v ttl c in
  mc_data c' !! k = Some (mkCacheItem v (now + ttl)) ∧
  (∀ k' item, k' ≠ k → mc_data c' !! k' = Some item → mc_data c !! k' = Some item) ∧
  maxSize c' = maxSize c ∧
  (Z.of_nat (size (mc_data c)) ≤ Z.max 1 (maxSize c) → Z.of_nat (size (mc_data c')) ≤ Z.max 1 (maxSize c)).
Proof.
  intros c'. unfold c', mc_Set. cbn zeta. cbn [mc_data maxSize].
  set (d := if full _ _ then _ else _).
  assert (d ⊆ mc_data c ∧ (Z.of_nat (size (mc_data c)) ≤ Z.max 1 (maxSize c) →
    Z.of_nat (size d) < Z.max 1 (maxSize c))) as [Hsub Hsz].
  { subst d. pose proof (evict_expired_subseteq clock (mc_data c)) as H1.
    pose proof (map_subseteq_size _ _ H1) as H2. unfold full.
    destruct (Z.leb_spec (maxSize c) (Z.of_nat (size (mc_data c))));
      [destruct (Z.leb_spec (maxSize c) (Z.of_nat (size (evict_expired clock (mc_data c)))))|]; [|split; [done|lia]..].
    split; [by etransitivity; [apply evict_any_subseteq|]|]. rewrite size_evict_any. lia. }
  split_and!; [by rewrite lookup_insert_eq| |done|].
  - intros k' item Hne. rewrite lookup_insert_ne by done. intros Hd. by eapply lookup_weaken.
  - intros Hle. specialize (Hsz Hle). destruct (d !! k) eqn:Hk.
    + rewrite map_size_insert_Some by by eexists. lia.
    + rewrite map_size_insert_None by done. lia.
Qed.

Lemma mc_Get_Some now k c v :
  mc_Get now k c = Some v ↔ ∃ item, mc_data c !! k = Some item ∧ ci_value item = v ∧ now ≤ expiresAt item.
Proof.
  unfold mc_Get. destruct (mc_data c !! k) as [item|]; [|naive_solver].
  destruct (Z.ltb_spec (expiresAt item) now); split; [done|naive_solver lia|naive_solver|naive_solver].
Qed.
End cache_lemmas.

(** *** Tenants *)

Section tenant_lemmas.
Context `{MapRange}.
Implicit Types (s : TenantService).

(** The rows of the metadata store: the tenant asked for, with a legal factor. *)
Definition row_ok (tenantID : string) (t : Tenant) : Prop :=
  TenantID t = tenantID ∧ 1 ≤ ReplicationFactor t ≤ 10.

(** A cached pointer leads to the tenant its key names. *)
Record tenants_ok s : Prop := {
  to_heap p t : tenant_heap s !! p = Some t → 1 ≤ ReplicationFactor t ≤ 10;
  to_cache k item : mc_data (tenant_cache s) !! k = Some item →
    ∃ t, tenant_heap s !! ci_value item = Some t ∧ k = tenantCacheKey (TenantID t);
  to_size : Z.of_nat (mc_Size (tenant_cache s)) ≤ Z.max 1 (maxSize (tenant_cache s));
}.

Lemma tenantCacheKey_inj t1 t2 : tenantCacheKey t1 = tenantCacheKey t2 → t1 = t2.
Proof. unfold tenantCacheKey. intros Heq. by injection Heq. Qed.

(** A new object that is put in the cache under its key. *)
Lemma cache_new_ok clock later t s :
  tenants_ok s → 1 ≤ ReplicationFactor t ≤ 10 →
  let '(p, s1) := new_tenant t s in
  tenant_heap s1 !! p = Some t ∧ tenants_ok s1 ∧
  tenants_ok (with_cache (mc_Set clock later (tenantCacheKey (TenantID t)) p (cacheTTL s1) (tenant_cache s1)) s1).
Proof.
  intros [Hh Hc Hs] Ht. cbn [new_tenant with_tenants tenant_heap tenant_cache cacheTTL].
  assert ((tenant_heap s ++ [t]) !! length (tenant_heap s) = Some t) as Hp.
  { rewrite lookup_app_r by lia. by rewrite Nat.sub_diag. }
  assert (∀ q t', (tenant_heap s ++ [t]) !! q = Some t' → 1 ≤ ReplicationFactor t' ≤ 10) as Hh1.
  { intros q t' [[_ Hq]|[_ <-]]%lookup_snoc_Some; [by eapply Hh|done]. }
  assert (∀ k item, mc_data (tenant_cache s) !! k = Some item →
    ∃ t', (tenant_heap s ++ [t]) !! ci_value item = Some t' ∧ k = tenantCacheKey (TenantID t')) as Hc1.
  { intros k item (t' & Ht' & Hk)%Hc. exists t'. split; [|done]. by apply lookup_app_l_Some. }
  split_and!; [done|by split|].
  destruct (mc_Set_spec clock later (tenantCacheKey (TenantID t)) (length (tenant_heap s))
    (cacheTTL s) (tenant_cache s)) as (Hk & Ho & Hm & Hz).
  split; cbn [with_cache tenant_heap tenant_cache cacheTTL].
  - done.
  - intros k item Hki. destruct (decide (k = tenantCacheKey (TenantID t))) as [->|Hne].
    + rewrite Hk in Hki. injection Hki as <-. by exists t.
    + apply (Hc1 k). by apply Ho.
  - rewrite Hm. by apply Hz.
Qed.

Lemma GetTenant_ok now clock later fetched id s r s' :
  tenants_ok s → (∀ t, fetched = Ok t → row_ok id t) → GetTenant now clock later fetched id s = (r, s') →
  tenants_ok s' ∧ ∀ p, r = Ok p → ∃ t, tenant_heap s' !! p = Some t ∧ TenantID t = id.
Proof.
  intros Hok Hrow. unfold GetTenant. destruct (mc_Get _ _ _) as [p|] eqn:Hg.
  - intros [= <- <-]. split; [done|]. intros p' [= <-].
    apply mc_Get_Some in Hg as (item & Hi & Hv & _). destruct (to_cache s Hok _ _ Hi) as (t & Ht & Hk).
    rewrite Hv in Ht. exists t. split; [done|]. symmetry. by apply tenantCacheKey_inj.
  - destruct fetched as [t|e]; [|by intros [= <- <-]]. destruct (Hrow t eq_refl) as [Hid Hf]. subst id.
    pose proof (cache_new_ok clock later t s Hok Hf) as Hnew. destruct (new_tenant t s) as [p s1].
    destruct Hnew as (Hp & _ & Hok'). intros [= <- <-]. split; [done|]. intros p' [= <-]. by exists t.
Qed.

(** Entries may leave the cache at any time. *)
Lemma shrink_ok c s :
  tenants_ok s → mc_data c ⊆ mc_data (tenant_cache s) → maxSize c = maxSize (tenant_cache s) → tenants_ok (with_cache c s).
Proof.
  intros [Hh Hc Hs] Hsub Hm. split; cbn [with_cache tenant_heap tenant_cache]; [done|..].
  - intros k item Hk. eapply Hc, lookup_weaken; done.
  - rewrite Hm. apply map_subseteq_size in Hsub. unfold mc_Size in *. lia.
Qed.

Lemma delete_ok id s :
  tenants_ok s → tenants_ok (with_cache (mc_Delete (tenantCacheKey id) (tenant_cache s)) s).
Proof. intros Hok. apply shrink_ok; [done|apply delete_subseteq|done]. Qed.

Lemma cleanup_ok now s : tenants_ok s → tenants_ok (with_cache (cleanup now (tenant_cache s)) s).
Proof.
  intros Hok. apply shrink_ok; [done| |done]. cbn [cleanup mc_data]. generalize (map_range (mc_data (tenant_cache s))).
  intros l. set (d0 := mc_data (tenant_cache s)). assert (d0 ⊆ d0) as Hd by done. revert Hd. generalize d0 at 1 3.
  induction l as [|kv l IH]; intros d Hd; [done|]. cbn [foldl]. apply IH.
  destruct (_ <? _); [|done]. etransitivity; [apply delete_subseteq|done].
Qed.

Lemma CreateTenant_ok created updated clock later saved id f s r s' :
  tenants_ok s → CreateTenant created updated clock later saved id f s = (r, s') →
  tenants_ok s' ∧ ∀ p, r = Ok p → is_Some (tenant_heap s' !! p).
Proof.
  intros Hok. unfold CreateTenant. destruct (factor_ok f) eqn:Hf; cbn [negb]; [|by intros [= <- <-]].
  pose proof (cache_new_ok clock later (mkTenant id f created updated 1) s Hok) as Hnew.
  destruct (new_tenant _ s) as [p s1]. destruct Hnew as (H1 & H2 & H3).
  { unfold factor_ok in Hf. cbn [ReplicationFactor]. lia. }
  destruct saved as [[]|e]; intros [= <- <-]; split; [done| |done|done]. intros q [= <-]. by eexists.
Qed.

Lemma UpdateReplicationFactor_ok now clock later updated fetched saved id f s :
  tenants_ok s → (∀ t, fetched = Ok t → row_ok id t) →
  ∃ r s', UpdateReplicationFactor now clock later updated fetched saved id f s = Some (r, s') ∧ tenants_ok s'.
Proof.
  intros Hok Hrow. unfold UpdateReplicationFactor. destruct (factor_ok f) eqn:Hf; cbn [negb]; [|eauto].
  destruct (GetTenant _ _ _ _ _ _) as [r s1] eqn:Hg.
  destruct (GetTenant_ok _ _ _ _ _ _ _ _ Hok Hrow Hg) as [Hok1 Hp]. destruct r as [p|e]; [|eauto].
  destruct (Hp p eq_refl) as (t & Ht & Hid). rewrite Ht. cbn [mbind option_bind].
  destruct (_ =? _); [eauto|].
  set (t' := mkTenant (TenantID t) f (t_CreatedAt t) updated (i64 (Version t + 1))). cbn zeta.
  assert (tenants_ok (with_tenants (<[p := t']> (tenant_heap s1)) s1)) as Hok2.
  { destruct Hok1 as [Hh Hc Hs]. split; cbn [with_tenants tenant_heap tenant_cache]; [| |done].
    - intros q u [(-> & <- & _)|[_ Hq]]%list_lookup_insert_Some; [|by eapply Hh].
      unfold factor_ok in Hf. cbn [t' ReplicationFactor]. lia.
    - intros k item (u & Hu & Hk)%Hc. destruct (decide (p = ci_value item)) as [->|Hne].
      + exists t'. rewrite list_lookup_insert_eq by by eapply lookup_lt_Some. split; [done|].
        rewrite Ht in Hu. by injection Hu as ->.
      + exists u. by rewrite list_lookup_insert_ne. }
  destruct saved as [[]|e]; eexists _, _; (split; [done|]); [by apply delete_ok|done].
Qed.
End tenant_lemmas.

(** ** Runs and properties *)

(** The operations of the service in any order, with any answers of the
    metadata store whose rows are as they should be. *)
Inductive tenant_run `{MapRange} (maxSize ttl : Z) : TenantService → Prop :=
  | tr_new : tenant_run maxSize ttl (NewTenantService maxSize ttl)
  | tr_get s now clock later fetched id :
      tenant_run maxSize ttl s → (∀ t, fetched = Ok t → row_ok id t) →
      tenant_run maxSize ttl (GetTenant now clock later fetched id s).2
  | tr_create s created updated clock later saved id f :
      tenant_run maxSize ttl s → tenant_run maxSize ttl (CreateTenant created updated clock later saved id f s).2
  | tr_update s now clock later updated fetched saved id f r s' :
      tenant_run maxSize ttl s → (∀ t, fetched = Ok t → row_ok id t) →
      UpdateReplicationFactor now clock later updated fetched saved id f s = Some (r, s') → tenant_run maxSize ttl s'
  | tr_delete s deleted id :
      tenant_run maxSize ttl s → tenant_run maxSize ttl (DeleteTenant deleted id s).2
  | tr_cleanup s now :
      tenant_run maxSize ttl s → tenant_run maxSize ttl (with_cache (cleanup now (tenant_cache s)) s).

Lemma tenant_run_ok `{MapRange} maxSize ttl s : tenant_run maxSize ttl s → tenants_ok s.
Proof.
  induction 1 as [|s now clock later fetched id _ IH Hrow|s cr up clock later saved id f _ IH
    |s now clock later up fetched saved id f r s' _ IH Hrow Hu|s deleted id _ IH|s now _ IH].
  - split; [done|done|]. change (0 ≤ Z.max 1 maxSize). lia.
  - destruct (GetTenant _ _ _ _ _ _) as [r s'] eqn:Hg. by eapply GetTenant_ok.
  - destruct (CreateTenant _ _ _ _ _ _ _ _) as [r s'] eqn:Hc. by eapply CreateTenant_ok.
  - destruct (UpdateReplicationFactor_ok now clock later up fetched saved id f s IH Hrow) as (r1 & s1 & Hu' & Hok).
    rewrite Hu in Hu'. by injection Hu' as <- <-.
  - unfold DeleteTenant. destruct deleted; [by apply delete_ok|done].
  - by apply cleanup_ok.
Qed.

(** the tenant service serves the tenant asked for.  After any run, a
    successful [GetTenant] returns the tenant with that id and a replication
    factor between 1 and 10, an update does not panic, and the cache stays
    within its size. *)
Theorem tenant_served `{MapRange} M ttl s now clock later fetched id :
  tenant_run M ttl s → (∀ t, fetched = Ok t → row_ok id t) →
  (∀ p s', GetTenant now clock later fetched id s = (Ok p, s') →
     ∃ t, tenant_heap s' !! p = Some t ∧ row_ok id t) ∧
  (∀ updated saved f, is_Some (UpdateReplicationFactor now clock later updated fetched saved id f s)) ∧
  Z.of_nat (mc_Size (tenant_cache s)) ≤ Z.max 1 (maxSize (tenant_cache s)).
Proof.
  intros Hok%tenant_run_ok Hrow. split_and!.
  - intros p s' Hg. destruct (GetTenant_ok _ _ _ _ _ _ _ _ Hok Hrow Hg) as [Hok' Hp].
    destruct (Hp p eq_refl) as (t & Ht & Hid). exists t. split; [done|]. split; [done|]. by eapply to_heap.
  - intros updated saved f.
    destruct (UpdateReplicationFactor_ok now clock later updated fetched saved id f s Hok Hrow) as (r & s' & -> & _). by eexists.
  - by apply to_size.
Qed.

(** A failed update changes what is served.  When the tenant is cached
    and the metadata store refuses the update, [UpdateReplicationFactor] returns
    the error, and until the entry expires [GetTenant] returns the new factor,
    which the store does not have. *)
Theorem failed_update_is_served `{MapRange} s now clock later updated fetched e id f p t now' clock' later' fetched' :
  mc_Get now (tenantCacheKey id) (tenant_cache s) = Some p → tenant_heap s !! p = Some t →
  ReplicationFactor t ≠ f → 1 ≤ f ≤ 10 →
  mc_Get now' (tenantCacheKey id) (tenant_cache s) = Some p →
  ∃ s', UpdateReplicationFactor now clock later updated fetched (Err e) id f s = Some (Err (MetadataStoreFailed e), s') ∧
    GetTenant now' clock' later' fetched' id s' = (Ok p, s') ∧
    ∃ t', tenant_heap s' !! p = Some t' ∧ ReplicationFactor t' = f.
Proof.
  intros Hg Hp Hne Hf Hg'. unfold UpdateReplicationFactor, GetTenant. cbn zeta. rewrite Hg.
  assert (factor_ok f = true) as -> by (unfold factor_ok; lia). cbn [negb]. rewrite Hp. cbn [mbind option_bind].
  rewrite (proj2 (Z.eqb_neq _ _) Hne). eexists. split; [done|]. cbn [tenant_cache with_tenants].
  rewrite Hg'. split; [done|]. eexists. cbn [tenant_heap with_tenants].
  rewrite list_lookup_insert_eq by by eapply lookup_lt_Some. done.
Qed.

(** *** Witnesses *)

Definition x_tenant : Tenant := mkTenant "acme" 3 0 0 1.
Definition x_tenants : TenantService := (GetTenant 1 (λ _, 1) 1 (Ok x_tenant) "acme" (NewTenantService 100 60)).2.

Lemma tenant_served_witness :
  ∃ t, tenant_heap x_tenants !! 0%nat = Some t ∧ row_ok "acme" t.
Proof.
  destruct (tenant_served 100 60 x_tenants 5 (λ _, 5) 5 (Err "down") "acme") as (Hget & _ & _);
    [apply tr_get; [apply tr_new|intros t [= <-]; by split]|done|].
  apply (Hget 0%nat x_tenants). by vm_compute.
Defined.

Lemma failed_update_is_served_witness :
  ∃ s', UpdateReplicationFactor 2 (λ _, 2) 2 2 (Err "down") (Err "down") "acme" 5 x_tenants =
          Some (Err (MetadataStoreFailed "down"), s') ∧
    GetTenant 3 (λ _, 3) 3 (Err "down") "acme" s' = (Ok 0%nat, s') ∧
    ∃ t', tenant_heap s' !! 0%nat = Some t' ∧ ReplicationFactor t' = 5.
Proof.
  apply (failed_update_is_served x_tenants 2 (λ _, 2) 2 2 (Err "down") "down" "acme" 5 0 x_tenant);
    [by vm_compute|by vm_compute|done|lia|by vm_compute].
Defined.
