(* ===== verification/Idempotency.v ===== *)
(** * Idempotency: [coordinator/internal/service/idempotency_service.go] and
    [coordinator/internal/store/redis_idempotency_store.go]

    A value of type [interface{}] carries its dynamic type.  A store is what
    [IdempotencyStore] asks for; the Redis store keeps the JSON text of a value
    and decodes it into an [interface{}].  The Redis server is an argument (its
    answer to each command), and so are [json.Marshal] and [json.Unmarshal],
    which on an [interface{}] target produces nil, a bool, a float64, a string,
    a slice or a map, as the package documents. *)

From S2P Require Import Prelude GoHash Model Json.
#[local] Open Scope Z_scope.

(** ** Definitions *)

Record IdempotencyResponse := mkIdempotencyResponse {
  ir_Success : bool;
  ir_Key : string;
  ir_VectorClock : list byte;
  ir_ReplicaCount : Z;
  ir_Consistency : string;
  ir_Timestamp : Z;
}.

(** What [json.Unmarshal] leaves in an [interface{}], by its dynamic type; the
    numbers, slices and maps are known by their JSON text. *)
Inductive json_value :=
  | JNull
  | JBool (b : bool)
  | JNumber (text : string)
  | JString (s : string)
  | JArray (text : string)
  | JObject (text : string).

(** The dynamic types a value of the store can have. *)
Inductive any := AnyNil | AnyJson (j : json_value) | AnyResponse (r : IdempotencyResponse).

Definition json_any (j : json_value) : any :=
  match j with
  | JNull => AnyNil
  | _ => AnyJson j
  end.

Inductive store_error := ErrNotFound | StoreFailed (message : string).

(** *** [RedisIdempotencyStore] *)

(** The answer of the server to a GET: a value, [redis.Nil], or an error. *)
Inductive redis_reply := RedisValue (data : list byte) | RedisNil | RedisError (message : string).

Section redis.
Context (unmarshal_any : list byte → res string json_value) (marshal_any : any → res string (list byte)).

Definition redis_Get (reply : redis_reply) : res store_error any :=
  match reply with
  | RedisNil => Err ErrNotFound
  | RedisError e => Err (StoreFailed e)
  | RedisValue data =>
      match unmarshal_any data with
      | Err e => Err (StoreFailed e)
      | Ok j => Ok (json_any j)
      end
  end.

(** What is sent to the server, and the error of [Set]. *)
Definition redis_Set (reply : res string unit) (value : any) : option (list byte) * res store_error unit :=
  match marshal_any value with
  | Err e => (None, Err (StoreFailed e))
  | Ok data => (Some data, match reply with Ok _ => Ok tt | Err e => Err (StoreFailed e) end)
  end.
End redis.

(** The answer of the server to the DEL; a missing key is no error. *)
Definition redis_Delete (reply : res string Z) : res store_error unit :=
  match reply with
  | Ok _ => Ok tt
  | Err e => Err (StoreFailed e)
  end.

(** *** [IdempotencyService] *)

(** [fmt.Sprintf("idempotency:%s:%s:%s", ...)]. *)
Definition buildStoreKey (tenantID key idempotencyKey : string) : string :=
  "idempotency:" +:+ tenantID +:+ ":" +:+ key +:+ ":" +:+ idempotencyKey.

Inductive idempotency_error := IdempotencyStoreFailed (e : store_error) | InvalidResponseType.

(** [stored] is what the store returns for [buildStoreKey]. *)
Definition idem_Get (stored : res store_error any) : res idempotency_error (option IdempotencyResponse) :=
  match stored with
  | Err ErrNotFound => Ok None
  | Err e => Err (IdempotencyStoreFailed e)
  | Ok AnyNil => Ok None
  | Ok (AnyResponse response) => Ok (Some response)
  | Ok _ => Err InvalidResponseType
  end.

(** The store key to remove, and the error of [Delete]; [deleted] is what the
    store answers for that key. *)
Definition idem_Delete (deleted : string → res store_error unit) (tenantID key idempotencyKey : string)
    : res idempotency_error unit :=
  match deleted (buildStoreKey tenantID key idempotencyKey) with
  | Err e => Err (IdempotencyStoreFailed e)
  | Ok _ => Ok tt
  end.

(** The value [Store] hands to the store. *)
Definition stamped (now : Z) (r : IdempotencyResponse) : any :=
  AnyResponse (mkIdempotencyResponse (ir_Success r) (ir_Key r) (ir_VectorClock r) (ir_ReplicaCount r)
                 (ir_Consistency r) now).

(** [hex.EncodeToString]: two lower-case digits a byte. *)
Definition hex_encode (l : list byte) : list byte :=
  mjoin ((λ b, [hex_digit (byte_val b / 16); hex_digit (byte_val b mod 16)]) <$> l).

Definition Generate (now : Z) (uuid : string) (tenantID key : string) : string :=
  string_of (hex_encode (sha256 (bytes (tenantID +:+ ":" +:+ key +:+ ":" +:+ pretty now +:+ ":" +:+ uuid)))).

(** The loop ranges over runes; one outside ASCII fails the test as its bytes do. *)
Definition is_hex_char (b : byte) : bool :=
  let c := byte_val b in ((48 <=? c) && (c <=? 57)) || ((97 <=? c) && (c <=? 102)).

Definition ValidateIdempotencyKey (idempotencyKey : string) : bool :=
  if negb (length (bytes idempotencyKey) =? 64)%nat then false else forallb is_hex_char (bytes idempotencyKey).

(** ** Lemmas *)

Lemma length_sha_round st kw : length st = 8%nat → length (sha_round st kw) = 8%nat.
Proof. intros Hl. do 8 (destruct st as [|? st]; [done|]). by destruct st. Qed.

Lemma length_sha_rounds st kws : length st = 8%nat → length (foldl sha_round st kws) = 8%nat.
Proof.
  revert st. induction kws as [|kw kws IH]; intros st Hl; [done|]. cbn [foldl]. apply IH. by apply length_sha_round.
Qed.

Lemma length_sha_blocks fuel st words : length st = 8%nat → length (sha_blocks fuel st words) = 8%nat.
Proof.
  revert st words. induction fuel as [|fuel IH]; intros st words Hl; [done|]. cbn [sha_blocks].
  destruct words as [|w words]; [done|]. apply IH. unfold sha_block.
  rewrite length_zip_with, length_sha_rounds by done. lia.
Qed.

Lemma length_sha256 l : length (sha256 l) = 32%nat.
Proof.
  unfold sha256. cbn zeta. pose proof (length_sha_blocks (length (sha_words (sha_pad l))) sha_init
    (sha_words (sha_pad l)) eq_refl) as Hl.
  revert Hl. generalize (sha_blocks (length (sha_words (sha_pad l))) sha_init (sha_words (sha_pad l))).
  intros st Hl.
  assert (∀ ws : list Z, length (mjoin ((λ w, reverse (le_bytes 4 w)) <$> ws)) = (4 * length ws)%nat) as ->; [|lia].
  induction ws as [|w ws IH]; [done|].
  change (length (reverse (le_bytes 4 w) ++ mjoin ((λ w, reverse (le_bytes 4 w)) <$> ws)) = (4 * S (length ws))%nat).
  rewrite length_app, length_reverse, length_le_bytes, IH. lia.
Qed.

Lemma hex_digit_char n : 0 ≤ n < 16 → is_hex_char (hex_digit n) = true.
Proof.
  intros Hn. unfold is_hex_char, hex_digit. rewrite byte_val_of.
  destruct (Z.ltb_spec n 10); rewrite Z.mod_small by lia; lia.
Qed.

Lemma hex_encode_ok l : length (hex_encode l) = (2 * length l)%nat ∧ forallb is_hex_char (hex_encode l) = true.
Proof.
  induction l as [|b l [IHl IHc]]; [done|].
  change (hex_encode (b :: l)) with ([hex_digit (byte_val b / 16); hex_digit (byte_val b mod 16)] ++ hex_encode l).
  rewrite length_app, forallb_app, IHl, IHc. cbn [length]. split; [lia|].
  pose proof (byte_val_range b). cbn [forallb]. rewrite !hex_digit_char; [done|apply Z.mod_pos_bound; lia|].
  split; [apply Z.div_pos; lia|apply Z.div_lt_upper_bound; lia].
Qed.

(** ** Properties *)

(** Generated keys are valid.  The key [Generate] makes is 64 lower-case
    hexadecimal digits, whatever the tenant, the key, the time and the UUID, so
    [ValidateIdempotencyKey] accepts it. *)
Theorem generated_key_valid now uuid tenantID key :
  ValidateIdempotencyKey (Generate now uuid tenantID key) = true.
Proof.
  unfold ValidateIdempotencyKey, Generate. rewrite bytes_string_of.
  destruct (hex_encode_ok (sha256 (bytes (tenantID +:+ ":" +:+ key +:+ ":" +:+ pretty now +:+ ":" +:+ uuid)))) as [Hl Hc].
  rewrite Hl, length_sha256, Hc. done.
Qed.
