(* ===== verification/Coordinator.v ===== *)
(** * Coordinator: [coordinator/internal/service/coordinator_service_v2.go]

    Writes and reads of the coordinator, composed of the tenant, routing,
    consistency, idempotency, vector-clock, conflict and hinted-handoff services.
    A fan-out to the replicas is run in the order in which its goroutines end,
    which is an argument; so are the answers of the network, of the metadata
    store and of Redis, and the readings of the clock.  A goroutine the handler
    leaves behind (the read repair) is a task in the result. *)

From S2P Require Import Prelude GoHash Model VectorClock Ring Consistency Routing Validator Codec JsonCut CommitLog Storage StorageHandler StorageClient Conflict HintedHandoff Tenant Idempotency.
#[local] Open Scope Z_scope.

(** ** Definitions *)

Record WriteResult := mkWriteResult {
  wr_Success : bool;
  wr_Key : string;
  wr_VectorClock : VectorClock;
  wr_ReplicaCount : Z;
  wr_Consistency : string;
  wr_IsDuplicate : bool;
}.

Record ReadResult := mkReadResult {
  rd_Success : bool;
  rd_Key : string;
  rd_Value : list byte;
  rd_VectorClock : VectorClock;
}.

Inductive coordinator_error :=
  | ConsistencyInvalid
  | TenantFailed (e : tenant_error)
  | RoutingFailed (e : routing_error)
  | QuorumNotReached (successCount requiredReplicas : Z)
  | KeyNotFoundError
  | NilTenant.

Record CoordinatorService := mkCoordinator {
  tenantService : TenantService;
  routingService : RoutingService;
  consistencyService : ConsistencyService;
  vcService : VectorClockService;
  hintedHandoffService : HintedHandoffService;
  storageClient : StorageClient;
}.

Definition set_tenants (x : TenantService) (s : CoordinatorService) : CoordinatorService :=
  mkCoordinator x (routingService s) (consistencyService s) (vcService s) (hintedHandoffService s) (storageClient s).
Definition set_vc (x : VectorClockService) (s : CoordinatorService) : CoordinatorService :=
  mkCoordinator (tenantService s) (routingService s) (consistencyService s) x (hintedHandoffService s) (storageClient s).
Definition set_net (h : HintedHandoffService) (c : StorageClient) (s : CoordinatorService) : CoordinatorService :=
  mkCoordinator (tenantService s) (routingService s) (consistencyService s) (vcService s) h c.

Definition write_net : Type := StorageNode → link pb_WriteRequest pb_WriteResponse.
Definition read_net : Type := StorageNode → link pb_ReadRequest pb_ReadResponse.

(** The response recorded for a replica that could not be reached. *)
Definition failed_response (node : StorageNode) (e : client_error) : StorageResponse :=
  mkStorageResponse (NodeID node) false [] (mkVC []) 0 false (Some e).

(** *** Writing to the replicas *)

(** One goroutine of [writeToReplicasWithHints]; [now] gives the time of the
    hint for a node. *)
Definition write_replica (net : write_net) (now : StorageNode → Z) (tenantID key : string) (value : list byte)
    (vectorClock : VectorClock) (acc : list StorageResponse * HintedHandoffService * StorageClient)
    (node : StorageNode) : list StorageResponse * HintedHandoffService * StorageClient :=
  let '(responses, h, c) := acc in
  match client_Write (net node) node tenantID key value vectorClock c with
  | (Err e, c) =>
      (responses ++ [failed_response node e], StoreHint (now node) (NodeID node) tenantID key value vectorClock h, c)
  | (Ok resp, c) => (responses ++ [resp], h, c)
  end.

Definition count_success (responses : list StorageResponse) : Z :=
  foldl (λ n resp, if sr_Success resp then n + 1 else n) 0 responses.

(** [order] is the list [replicas] in the order the writes end. *)
Definition writeToReplicasWithHints (net : write_net) (now : StorageNode → Z) (order replicas : list StorageNode)
    (tenantID key : string) (value : list byte) (vectorClock : VectorClock) (consistency : string)
    (h : HintedHandoffService) (c : StorageClient)
    : res coordinator_error WriteResult * HintedHandoffService * StorageClient :=
  let requiredReplicas := GetRequiredReplicasForWriteSet consistency replicas in
  let '(responses, h, c) := foldl (write_replica net now tenantID key value vectorClock) ([], h, c) order in
  let successCount := count_success responses in
  if negb (IsQuorumReached successCount (Z.of_nat (length replicas)) consistency)
  then (Err (QuorumNotReached successCount requiredReplicas), h, c)
  else (Ok (mkWriteResult true key vectorClock (i32 successCount) consistency false), h, c).

(** *** Reading from the replicas *)

Section definitions.
Context `{MapRange}.

Definition read_replica (net : read_net) (tenantID key : string) (acc : list StorageResponse * StorageClient)
    (node : StorageNode) : list StorageResponse * StorageClient :=
  let '(responses, c) := acc in
  match client_Read (net node) node tenantID key c with
  | (Err e, c) => (responses ++ [failed_response node e], c)
  | (Ok resp, c) => (responses ++ [resp], c)
  end.

Definition count_found (responses : list StorageResponse) : Z :=
  foldl (λ n resp, if sr_Success resp && sr_Found resp then n + 1 else n) 0 responses.

(** The arguments of the goroutine that runs [performReadRepair]. *)
Record repair_task := mkRepairTask {
  rt_tenantID : string;
  rt_key : string;
  rt_latest : StorageResponse;
  rt_responses : list StorageResponse;
}.

Definition readFromReplicasWithRepair (net : read_net) (order replicas : list StorageNode)
    (tenantID key consistency : string) (c : StorageClient)
    : res coordinator_error ReadResult * list repair_task * StorageClient :=
  let requiredReplicas := GetRequiredReplicas consistency (Z.of_nat (length replicas)) in
  let '(responses, c) := foldl (read_replica net tenantID key) ([], c) order in
  let successCount := count_found responses in
  if negb (IsQuorumReached successCount (Z.of_nat (length replicas)) consistency)
  then (Err (QuorumNotReached successCount requiredReplicas), [], c)
  else match DetectConflicts responses with
  | (None, _) => (Err KeyNotFoundError, [], c)
  | (Some latest, hasConflict) =>
      (Ok (mkReadResult true key (sr_Value latest) (sr_VectorClock latest)),
       if hasConflict then [mkRepairTask tenantID key latest responses] else [], c)
  end.

(** One round of [performReadRepair]; the node has only its id. *)
Definition repair_replica (net : write_net) (now : StorageNode → Z) (t : repair_task)
    (acc : nat * HintedHandoffService * StorageClient) (resp : StorageResponse)
    : nat * HintedHandoffService * StorageClient :=
  let '(repairedCount, h, c) := acc in
  if Equals (sr_VectorClock resp) (sr_VectorClock (rt_latest t)) then acc
  else
    let node := bare_node (sr_NodeID resp) in
    let value := sr_Value (rt_latest t) in
    let vectorClock := sr_VectorClock (rt_latest t) in
    match client_Write (net node) node (rt_tenantID t) (rt_key t) value vectorClock c with
    | (Err _, c) =>
        (repairedCount, StoreHint (now node) (NodeID node) (rt_tenantID t) (rt_key t) value vectorClock h, c)
    | (Ok _, c) => (S repairedCount, h, c)
    end.

Definition performReadRepair (net : write_net) (now : StorageNode → Z) (t : repair_task)
    (h : HintedHandoffService) (c : StorageClient) : nat * HintedHandoffService * StorageClient :=
  foldl (repair_replica net now t) (0%nat, h, c) (rt_responses t).

(** One goroutine of [readExistingValue]: it may find the flag
    [responseReceived] set when it starts, if it is set by the time it ends. *)
Definition read_existing_step (net : read_net) (late : StorageNode → bool) (tenantID key : string)
    (acc : option StorageResponse * StorageClient) (node : StorageNode) : option StorageResponse * StorageClient :=
  let '(firstResponse, c) := acc in
  if bool_decide (is_Some firstResponse) && late node then acc
  else match client_Read (net node) node tenantID key c with
  | (Err _, c) => (firstResponse, c)
  | (Ok resp, c) =>
      if sr_Success resp && sr_Found resp
      then (match firstResponse with None => Some resp | Some _ => firstResponse end, c)
      else (firstResponse, c)
  end.

Definition readExistingValue (net : read_net) (late : StorageNode → bool) (order : list StorageNode)
    (tenantID key : string) (c : StorageClient) : option (list byte * VectorClock) * StorageClient :=
  let '(firstResponse, c) := foldl (read_existing_step net late tenantID key) (None, c) order in
  match firstResponse with
  | None => (None, c)
  | Some resp => if negb (sr_Found resp) then (None, c) else (Some (sr_Value resp, sr_VectorClock resp), c)
  end.

(** *** The handlers *)

(** What a request meets outside the coordinator.  [q_order] is the order in
    which the goroutines of a fan-out to the given nodes end. *)
Record request_env := mkRequestEnv {
  q_now : Z;
  q_clock : nat → Z;
  q_later : Z;
  q_tenant : res string Tenant;
  q_nodes : res string (list StorageNode);
  q_stored : res store_error any;
  q_nano : Z;
  q_uuid : string;
  q_read : read_net;
  q_write : write_net;
  q_late : StorageNode → bool;
  q_hint_time : StorageNode → Z;
  q_order : list StorageNode → list StorageNode;
  q_order_perm l : q_order l ≡ₚ l;
}.

(** The replication factor of the tenant. *)
Definition tenant_factor (q : request_env) (tenantID : string) (s : CoordinatorService)
    : res coordinator_error Z * CoordinatorService :=
  match GetTenant (q_now q) (q_clock q) (q_later q) (q_tenant q) tenantID (tenantService s) with
  | (Err e, ts) => (Err (TenantFailed e), set_tenants ts s)
  | (Ok p, ts) =>
      match tenant_heap ts !! p with
      | None => (Err NilTenant, set_tenants ts s)
      | Some t => (Ok (ReplicationFactor t), set_tenants ts s)
      end
  end.

Definition cached_result (key : string) (r : IdempotencyResponse) : WriteResult :=
  mkWriteResult (ir_Success r) key (mkVC []) (ir_ReplicaCount r) (ir_Consistency r) true.

(** The clock of a write: after the one of the version found, or a new one. *)
Definition next_clock (existing : option (list byte * VectorClock)) (vs : VectorClockService)
    : VectorClock * VectorClockService :=
  match existing with
  | None => svc_Increment vs
  | Some (_, existingVC) => svc_IncrementFrom vs existingVC
  end.

(** The part of [WriteKeyValue] after the idempotency check. *)
Definition write_fresh (q : request_env) (tenantID key : string) (value : list byte) (consistency : string)
    (s : CoordinatorService) : res coordinator_error WriteResult * CoordinatorService :=
  match tenant_factor q tenantID s with
  | (Err e, s) => (Err e, s)
  | (Ok factor, s) =>
      match GetWriteReplicas (routingService s) (q_nodes q) tenantID key (Z.to_nat factor) with
      | Err e => (Err (RoutingFailed e), s)
      | Ok replicas =>
          let '(existing, c) := readExistingValue (q_read q) (q_late q) (q_order q replicas) tenantID key (storageClient s) in
          let '(vectorClock, vs) := next_clock existing (vcService s) in
          let '(r, h, c) := writeToReplicasWithHints (q_write q) (q_hint_time q) (q_order q replicas) replicas
                              tenantID key value vectorClock consistency (hintedHandoffService s) c in
          (r, set_net h c (set_vc vs s))
      end
  end.

(** What a successful write stores under its idempotency key. *)
Definition idempotency_record (q : request_env) (tenantID key consistency idempotencyKey : string) (r : WriteResult)
    : string * any :=
  (buildStoreKey tenantID key idempotencyKey,
   stamped (q_nano q) (mkIdempotencyResponse (wr_Success r) key [] (wr_ReplicaCount r) consistency 0)).

(** The result, what is handed to the idempotency store, whose error is only
    logged, and the new state. *)
Definition WriteKeyValue (q : request_env) (tenantID key : string) (value : list byte)
    (consistency idempotencyKey : string) (s : CoordinatorService)
    : res coordinator_error WriteResult * option (string * any) * CoordinatorService :=
  match NormalizeConsistencyLevel (consistencyService s) consistency with
  | Err _ => (Err ConsistencyInvalid, None, s)
  | Ok consistency =>
      let fresh idempotencyKey :=
        match write_fresh q tenantID key value consistency s with
        | (Err e, s) => (Err e, None, s)
        | (Ok r, s) => (Ok r, Some (idempotency_record q tenantID key consistency idempotencyKey r), s)
        end in
      if decide (idempotencyKey = EmptyString) then fresh (Generate (q_nano q) (q_uuid q) tenantID key)
      else match idem_Get (q_stored q) with
      | Ok (Some cachedResp) => (Ok (cached_result key cachedResp), None, s)
      | _ => fresh idempotencyKey
      end
  end.

Definition ReadKeyValue (q : request_env) (tenantID key consistency : string) (s : CoordinatorService)
    : res coordinator_error ReadResult * list repair_task * CoordinatorService :=
  match NormalizeConsistencyLevel (consistencyService s) consistency with
  | Err _ => (Err ConsistencyInvalid, [], s)
  | Ok consistency =>
      match tenant_factor q tenantID s with
      | (Err e, s) => (Err e, [], s)
      | (Ok factor, s) =>
          match GetReadReplicas (routingService s) (q_nodes q) tenantID key (Z.to_nat factor) with
          | Err e => (Err (RoutingFailed e), [], s)
          | Ok replicas =>
              let '(r, tasks, c) := readFromReplicasWithRepair (q_read q) (q_order q replicas) replicas
                                      tenantID key consistency (storageClient s) in
              (r, tasks, set_net (hintedHandoffService s) c s)
          end
      end
  end.
End definitions.

(** ** Lemmas *)

(** *** The fan-out of a write *)

(** What one replica did with a write. *)
Definition write_outcome (node : StorageNode) (resp : StorageResponse) : Prop :=
  sr_NodeID resp = NodeID node ∧ (is_Some (sr_Error resp) → sr_Success resp = false).

(** The newest hint of a node is this write. *)
Definition hinted (tenantID key : string) (value : list byte) (vc : VectorClock) (h : HintedHandoffService)
    (node : StorageNode) : Prop :=
  ∃ p hint, last (node_hints (NodeID node) h) = Some p ∧ hint_heap h !! p = Some hint ∧
    h_NodeID hint = NodeID node ∧ h_TenantID hint = tenantID ∧ h_Key hint = key ∧ h_Value hint = value ∧
    h_VectorClock hint = vc.

Lemma StoreHint_hinted now tenantID key value vc h node :
  hinted tenantID key value vc (StoreHint now (NodeID node) tenantID key value vc h) node.
Proof.
  destruct (StoreHint_spec now (NodeID node) tenantID key value vc h) as (Hh & _ & Hl).
  eexists (length (hint_heap h)), _. rewrite Hl, decide_True, last_snoc, Hh by done.
  rewrite lookup_app_r, Nat.sub_diag by lia. done.
Qed.

Lemma StoreHint_hinted_other now n tenantID key value vc h node :
  NodeID node ≠ n → hinted tenantID key value vc h node →
  hinted tenantID key value vc (StoreHint now n tenantID key value vc h) node.
Proof.
  intros Hne (p & hint & Hl & Hp & Hrest). destruct (StoreHint_spec now n tenantID key value vc h) as (Hh & _ & Hl').
  exists p, hint. rewrite Hl', decide_False, Hh by done. split; [done|]. split; [by apply lookup_app_l_Some|done].
Qed.

Section write_fold.
Context (net : write_net) (now : StorageNode → Z) (tenantID key : string) (value : list byte) (vc : VectorClock).
Let step := write_replica net now tenantID key value vc.

(** Every replica answers once, and one that could not be reached has a hint. *)
Lemma write_fold_spec order rs0 h0 c0 rs h c :
  NoDup (NodeID <$> order) → foldl step (rs0, h0, c0) order = (rs, h, c) →
  (∀ node, NodeID node ∉ NodeID <$> order → hinted tenantID key value vc h0 node → hinted tenantID key value vc h node) ∧
  ∃ rs1, rs = rs0 ++ rs1 ∧
    Forall2 (λ node resp, write_outcome node resp ∧
      (is_Some (sr_Error resp) → hinted tenantID key value vc h node)) order rs1.
Proof.
  revert rs0 h0 c0. induction order as [|node order IH]; intros rs0 h0 c0 Hnd Hf.
  { injection Hf as <- <- <-. split; [done|]. exists []. by rewrite app_nil_r. }
  rewrite fmap_cons in Hnd. apply NoDup_cons in Hnd as [Hni Hnd]. cbn [foldl] in Hf.
  assert (∃ resp h1 c1, step (rs0, h0, c0) node = (rs0 ++ [resp], h1, c1) ∧ write_outcome node resp ∧
    (is_Some (sr_Error resp) → hinted tenantID key value vc h1 node) ∧
    (∀ node', NodeID node' ≠ NodeID node → hinted tenantID key value vc h0 node' → hinted tenantID key value vc h1 node'))
    as (resp & h1 & c1 & Hstep & Hout & Hhint & Hkeep).
  { unfold step, write_replica. destruct (client_Write _ _ _ _ _ _ _) as [[resp|e] c1] eqn:Hw.
    - apply client_Write_ok in Hw as (Hid & a & _ & _ & Herr). exists resp, h0, c1.
      split_and!; [done|split; [done|]|..]; rewrite ?Herr; try done; by intros [? ?].
    - eexists _, _, _. split_and!; [done|by split|by intros _; apply StoreHint_hinted|].
      intros node' Hne. by apply StoreHint_hinted_other. }
  rewrite Hstep in Hf. destruct (IH _ _ _ Hnd Hf) as (Hpres & rs1 & -> & Hall). split.
  - intros node' Hni' Hh. rewrite fmap_cons, not_elem_of_cons in Hni'. destruct Hni' as [Hne Hni'].
    apply Hpres; [done|]. by apply Hkeep.
  - exists (resp :: rs1). rewrite <-app_assoc. split; [done|]. constructor; [|done].
    split; [done|]. intros He. apply Hpres; [done|]. by apply Hhint.
Qed.
End write_fold.

Lemma count_success_eq rs : count_success rs = Z.of_nat (length (filter (λ r, sr_Success r = true) rs)).
Proof. apply foldl_count. Qed.

(** *** The fan-out of a read *)

(** What a replica answered to a read. *)
Definition read_outcome (net : read_net) (tenantID key : string) (node : StorageNode) (resp : StorageResponse) : Prop :=
  sr_NodeID resp = NodeID node ∧ sr_Timestamp resp = 0 ∧
  (sr_Success resp = true → ∃ a, answer (net node) (mkPbReadRequest tenantID key) = Ok a ∧ rp_Success a = true ∧
     sr_Value resp = rp_Value a ∧ sr_VectorClock resp = fromProtoVectorClock (rp_VectorClock a) ∧
     sr_Found resp = (0 <? length (rp_Value a))%nat).

Lemma read_fold_spec net tenantID key order rs0 c0 :
  ∃ rs1, (foldl (read_replica net tenantID key) (rs0, c0) order).1 = rs0 ++ rs1 ∧
    Forall2 (read_outcome net tenantID key) order rs1.
Proof.
  revert rs0 c0. induction order as [|node order IH]; intros rs0 c0; [exists []; by rewrite app_nil_r|].
  cbn [foldl]. assert (∃ resp c1, read_replica net tenantID key (rs0, c0) node = (rs0 ++ [resp], c1) ∧
    read_outcome net tenantID key node resp) as (resp & c1 & -> & Hout).
  { unfold read_replica. destruct (client_Read _ _ _ _ _) as [[resp|e] c1] eqn:Hr.
    - apply client_Read_ok in Hr as (Hid & Hts & a & Ha & Hs & Hv & Hvc & Hfd). exists resp, c1.
      split; [done|]. split_and!; [done|done|]. intros Hsucc. exists a. rewrite Hs in Hsucc. rewrite Hfd, Hsucc. done.
    - eexists _, _. by split. }
  destruct (IH (rs0 ++ [resp]) c1) as (rs1 & -> & Hall). exists (resp :: rs1). rewrite <-app_assoc.
  split; [done|]. by constructor.
Qed.

Lemma count_found_eq rs :
  count_found rs = Z.of_nat (length (filter (λ r, sr_Success r && sr_Found r = true) rs)).
Proof. apply (foldl_count (λ r, sr_Success r && sr_Found r)). Qed.

(** All timestamps of the answers are zero, so they contradict no clock. *)
Lemma zero_causal rs : Forall (λ r, sr_Timestamp r = 0) rs → causal_timestamps rs.
Proof. intros Hz r l Hr Hl _ _ _. rewrite Forall_forall in Hz. by rewrite (Hz r Hr), (Hz l Hl). Qed.

(** *** Quorums of answers *)

Lemma outcome_ids (P : StorageNode → StorageResponse → Prop) order rs :
  (∀ node resp, P node resp → sr_NodeID resp = NodeID node) → Forall2 P order rs →
  sr_NodeID <$> rs = NodeID <$> order.
Proof. intros HP. induction 1 as [|node resp order rs Hr _ IH]; [done|]. by rewrite !fmap_cons, IH, (HP _ _ Hr). Qed.

Definition id_set (P : StorageResponse → Prop) `{!∀ r, Decision (P r)} (rs : list StorageResponse) : gset string :=
  list_to_set (sr_NodeID <$> filter P rs).

Lemma size_id_set P `{!∀ r, Decision (P r)} rs :
  NoDup (sr_NodeID <$> rs) → size (id_set P rs) = length (filter P rs).
Proof.
  intros Hnd. unfold id_set. rewrite size_list_to_set, length_fmap; [done|].
  eapply sublist_NoDup; [exact Hnd|]. apply fmap_sublist, sublist_filter.
Qed.

Lemma elem_of_id_set P `{!∀ r, Decision (P r)} rs n :
  n ∈ id_set P rs ↔ ∃ r, r ∈ rs ∧ P r ∧ sr_NodeID r = n.
Proof.
  unfold id_set. rewrite elem_of_list_to_set, list_elem_of_fmap. split.
  - intros (r & -> & [HP Hr]%list_elem_of_filter). eauto.
  - intros (r & Hr & HP & <-). exists r. split; [done|]. by apply list_elem_of_filter.
Qed.

(** A quorum of acknowledged writes and a quorum of answered reads meet. *)
Lemma quorums_meet replicas ws rs P Q `{!∀ r, Decision (P r), !∀ r, Decision (Q r)} :
  NoDup (NodeID <$> replicas) → sr_NodeID <$> ws ≡ₚ NodeID <$> replicas → sr_NodeID <$> rs ≡ₚ NodeID <$> replicas →
  IsQuorumReached (Z.of_nat (length (filter P ws))) (Z.of_nat (length replicas)) "quorum" = true →
  IsQuorumReached (Z.of_nat (length (filter Q rs))) (Z.of_nat (length replicas)) "quorum" = true →
  ∃ w r, w ∈ ws ∧ P w ∧ r ∈ rs ∧ Q r ∧ sr_NodeID w = sr_NodeID r.
Proof.
  intros Hnd Hws Hrs Hw%IsQuorumReached_quorum Hr%IsQuorumReached_quorum.
  assert (size (list_to_set (NodeID <$> replicas) : gset string) = length replicas) as Hsz
    by by rewrite size_list_to_set, length_fmap.
  assert (∀ P `{!∀ r, Decision (P r)} rs, sr_NodeID <$> rs ≡ₚ NodeID <$> replicas →
    id_set P rs ⊆ list_to_set (NodeID <$> replicas) ∧ size (id_set P rs) = length (filter P rs)) as Hid.
  { intros P' ? rs' Hp. split; [|apply size_id_set; by rewrite Hp]. intros n (r & Hin & _ & <-)%elem_of_id_set.
    rewrite elem_of_list_to_set, <-Hp. by apply list_elem_of_fmap_2. }
  destruct (Hid P _ ws Hws) as [HW HWs], (Hid Q _ rs Hrs) as [HR HRs].
  destruct (majorities_intersect (list_to_set (NodeID <$> replicas)) (id_set P ws) (id_set Q rs)) as (n & Hn1 & Hn2);
    [done|done|by rewrite Hsz, HWs|by rewrite Hsz, HRs|].
  apply elem_of_id_set in Hn1 as (w & ? & ? & <-). apply elem_of_id_set in Hn2 as (r & ? & ? & ?). by exists w, r.
Qed.

(** *** Replicas that hold a write *)

Section replicas.
Context `{MapRange} `{Codec MemTableEntry} `{Codec CommitLogEntry} `{!CutCodec CommitLogEntry}.

(** The node answers the read from a state, reached by a run of the storage
    service, in which the last mutation of the key is this write. *)
Definition holds_write (net : read_net) (tenantID key : string) (value : list byte) (vc : VectorClock)
    (node : StorageNode) : Prop :=
  ∀ b, answer (net node) (mkPbReadRequest tenantID key) = Ok b →
  ∃ lcfg s es A f t ev evw s',
    storage_run lcfg s es A f t ∧
    A !! buildKey tenantID key = Some (mutation evw OperationTypeWrite tenantID key value vc) ∧
    handler_Read ev (mkPbReadRequest tenantID key) s = Some (b, s').

Lemma holds_write_answer net tenantID key value vc node b :
  tenantID ≠ EmptyString → key ≠ EmptyString → holds_write net tenantID key value vc node →
  answer (net node) (mkPbReadRequest tenantID key) = Ok b →
  rp_Success b = true ∧ rp_Value b = value ∧ fromProtoVectorClock (rp_VectorClock b) = vc.
Proof.
  intros Ht Hk Hh Hb. destruct (Hh b Hb) as (lcfg & s & es & A & f & t & ev & evw & s' & Hrun & HA & Hr).
  apply storage_run_inv in Hrun.
  pose proof (handler_Read_result _ _ _ _ _ _ _ _ _ _ _ Hrun Ht Hk Hr) as Hans. rewrite HA in Hans. exact Hans.
Qed.
End replicas.

(** ** Properties *)

(** C23: an unreachable replica has a hint.  Whatever the order in which the
    writes end, every replica answered or the newest hint for it is this write,
    whether [writeToReplicasWithHints] succeeds or not.  It succeeds exactly when
    as many replicas acknowledged as the consistency level asks of all the
    replicas, and reports how many did.  That number is never below the one
    documented, which the level asks of the NORMAL replicas and which the error
    names, and is the same when all replicas are NORMAL; with others among them a
    write can fail that reached the documented number. *)
Theorem write_acknowledged_or_hinted net now order replicas tenantID key value vc consistency h c :
  order ≡ₚ replicas → NoDup (NodeID <$> replicas) →
  let '(r, h', _) := writeToReplicasWithHints net now order replicas tenantID key value vc consistency h c in
  let tested := GetRequiredReplicas consistency (Z.of_nat (length replicas)) in
  let documented := GetRequiredReplicasForWriteSet consistency replicas in
  documented ≤ tested ∧ (Forall (λ node, State node = NodeStateNormal) replicas → documented = tested) ∧
  ∃ responses,
    sr_NodeID <$> responses = NodeID <$> order ∧
    (∀ node, node ∈ replicas → ∃ resp, resp ∈ responses ∧ sr_NodeID resp = NodeID node ∧
       (sr_Error resp = None ∨ sr_Success resp = false ∧ hinted tenantID key value vc h' node)) ∧
    let n := Z.of_nat (length (filter (λ resp, sr_Success resp = true) responses)) in
    if tested <=? n
    then r = Ok (mkWriteResult true key vc (i32 n) consistency false)
    else r = Err (QuorumNotReached n documented).
Proof.
  intros Hperm Hnd. unfold writeToReplicasWithHints.
  destruct (foldl _ _ order) as [[responses h'] c'] eqn:Hf.
  destruct (write_fold_spec net now tenantID key value vc order [] h c responses h' c') as (_ & rs & Hrs & Hall);
    [by rewrite Hperm|done|]. simpl in Hrs. subst rs. rewrite count_success_eq. unfold IsQuorumReached.
  pose proof (write_set_le consistency replicas) as Hws. pose proof (write_set_normal consistency replicas) as Hwn.
  assert (sr_NodeID <$> responses = NodeID <$> order ∧ ∀ node, node ∈ replicas →
    ∃ resp, resp ∈ responses ∧ sr_NodeID resp = NodeID node ∧
      (sr_Error resp = None ∨ sr_Success resp = false ∧ hinted tenantID key value vc h' node)) as [H1 H2].
  { split; [by eapply outcome_ids; [|exact Hall]; intros node resp [[? _] _]|].
    intros node Hin. rewrite <-Hperm in Hin. apply list_elem_of_lookup in Hin as [i Hi].
    destruct (Forall2_lookup_l _ _ _ _ _ Hall Hi) as (resp & Hresp & [[Hid Herr] Hhint]).
    exists resp. split_and!; [by eapply list_elem_of_lookup_2|done|].
    destruct (sr_Error resp) as [e|]; [right|by left]. split; [by apply Herr|by apply Hhint]. }
  destruct (_ <=? _) eqn:Hle; cbn [negb]; cbv zeta; (split; [done|]); (split; [done|]); exists responses; cbn zeta; rewrite Hle; done.
Qed.

Section read_after_write.
Context `{MapRange} `{Codec MemTableEntry} `{Codec CommitLogEntry} `{!CutCodec CommitLogEntry}.

Definition write_responses net now order tenantID key value vc h c : list StorageResponse :=
  (foldl (write_replica net now tenantID key value vc) ([], h, c) order).1.1.

(** The node acknowledged the write. *)
Definition acknowledged (responses : list StorageResponse) (node : StorageNode) : Prop :=
  ∃ resp, resp ∈ responses ∧ sr_NodeID resp = NodeID node ∧ sr_Success resp = true.

Lemma read_outcomes_elem net tenantID key order replicas rs resp :
  order ≡ₚ replicas → Forall2 (read_outcome net tenantID key) order rs → resp ∈ rs →
  ∃ node, node ∈ replicas ∧ read_outcome net tenantID key node resp.
Proof.
  intros Hperm Hall [i Hi]%list_elem_of_lookup. destruct (Forall2_lookup_r _ _ _ _ _ Hall Hi) as (node & Hnode & Ho).
  exists node. split; [|done]. rewrite <-Hperm. by eapply list_elem_of_lookup_2.
Qed.

(** A read at quorum that succeeds: the answers it had, and the one it returns. *)
Lemma quorum_read_latest net order replicas tenantID key c r tasks c' :
  readFromReplicasWithRepair net order replicas tenantID key "quorum" c = (Ok r, tasks, c') →
  ∃ rs latest, Forall2 (read_outcome net tenantID key) order rs ∧
    IsQuorumReached (Z.of_nat (length (filter (λ r, sr_Success r && sr_Found r = true) rs)))
      (Z.of_nat (length replicas)) "quorum" = true ∧
    latest ∈ rs ∧ answered latest ∧ (∀ x, x ∈ rs → answered x → ¬ newer x latest) ∧
    rd_Value r = sr_Value latest ∧ rd_VectorClock r = sr_VectorClock latest.
Proof.
  unfold readFromReplicasWithRepair. destruct (read_fold_spec net tenantID key order [] c) as (rs & Hrs & Hall).
  destruct (foldl _ _ order) as [responses c1]. simpl in Hrs. subst responses. rewrite count_found_eq.
  destruct (IsQuorumReached _ _ _) eqn:Hq; [|done]. cbn [negb].
  assert (causal_timestamps rs) as Hs%DetectConflicts_state.
  { apply zero_causal, Forall_forall. intros x (node & _ & _ & Hts & _)%(read_outcomes_elem _ _ _ _ order rs x ltac:(done) Hall). done. }
  destruct (DetectConflicts rs) as [[latest|] cf]; [|done]. intros [= <- _ _]. destruct Hs as [Hin Ha _ Hm _ _].
  exists rs, latest. by split_and!.
Qed.

(** A successful write at quorum: who answered, and how many acknowledged. *)
Lemma acknowledged_quorum net now order replicas tenantID key value vc h c w h' c' :
  NoDup (NodeID <$> replicas) → order ≡ₚ replicas →
  writeToReplicasWithHints net now order replicas tenantID key value vc "quorum" h c = (Ok w, h', c') →
  let acks := write_responses net now order tenantID key value vc h c in
  sr_NodeID <$> acks ≡ₚ NodeID <$> replicas ∧
  IsQuorumReached (Z.of_nat (length (filter (λ r, sr_Success r = true) acks))) (Z.of_nat (length replicas)) "quorum" = true.
Proof.
  intros Hnd Hperm Hw. unfold writeToReplicasWithHints in Hw. unfold write_responses. cbn zeta.
  destruct (foldl _ _ order) as [[responses h1] c1] eqn:Hf. cbn [fst].
  destruct (write_fold_spec net now tenantID key value vc order [] h c responses h1 c1) as (_ & rs & Hrs & Hall);
    [by rewrite Hperm|done|]. simpl in Hrs. subst rs. split.
  - assert (sr_NodeID <$> responses = NodeID <$> order) as ->; [|by rewrite Hperm].
    eapply outcome_ids; [|exact Hall]. by intros ? ? [[? _] _].
  - rewrite count_success_eq in Hw. by destruct (IsQuorumReached _ _ _).
Qed.

#[local] Instance acknowledged_dec responses node : Decision (acknowledged responses node).
Proof.
  destruct (decide (Exists (λ resp, sr_NodeID resp = NodeID node ∧ sr_Success resp = true) responses)) as [He|He];
    [left|right]; unfold acknowledged; rewrite Exists_exists in He; naive_solver.
Qed.

(** A quorum read sees an acknowledged quorum write.  Suppose a write at
    quorum succeeded, and every node that acknowledged it still answers reads
    from a state of the storage service whose last mutation of the key is that
    write.  Then no read at quorum from the same replicas that succeeds returns
    a version older than the write; and if the other replicas that answer hold
    only older versions, it returns exactly the written value and clock. *)
Theorem quorum_read_after_write wnet now worder rnet rorder replicas tenantID key value vc h c w h' c' c1 r tasks c2 :
  NoDup (NodeID <$> replicas) → worder ≡ₚ replicas → rorder ≡ₚ replicas →
  tenantID ≠ EmptyString → key ≠ EmptyString →
  writeToReplicasWithHints wnet now worder replicas tenantID key value vc "quorum" h c = (Ok w, h', c') →
  let acks := write_responses wnet now worder tenantID key value vc h c in
  (∀ node, node ∈ replicas → acknowledged acks node → holds_write rnet tenantID key value vc node) →
  readFromReplicasWithRepair rnet rorder replicas tenantID key "quorum" c1 = (Ok r, tasks, c2) →
  (vc_le (rd_VectorClock r) vc → vc_le vc (rd_VectorClock r)) ∧
  ((∀ node b, node ∈ replicas → ¬ acknowledged acks node →
      answer (rnet node) (mkPbReadRequest tenantID key) = Ok b → rp_Success b = true →
      vc_le (fromProtoVectorClock (rp_VectorClock b)) vc ∧ ¬ vc_le vc (fromProtoVectorClock (rp_VectorClock b))) →
   rd_Value r = value ∧ rd_VectorClock r = vc).
Proof.
  intros Hnd Hwo Hro Ht Hk Hw acks Hholds Hread.
  destruct (quorum_read_latest _ _ _ _ _ _ _ _ _ Hread) as (rs & latest & Hall & Hqr & Hlin & Hla & Hmax & Hrv & Hrc).
  destruct (acknowledged_quorum _ _ _ _ _ _ _ _ _ _ _ _ _ Hnd Hwo Hw) as [Hids Hqw].
  assert (sr_NodeID <$> rs ≡ₚ NodeID <$> replicas) as Hrids.
  { rewrite (outcome_ids (read_outcome rnet tenantID key) rorder rs); [by rewrite Hro|by intros ? ? [? _]|done]. }
  destruct (quorums_meet replicas acks rs _ _ Hnd Hids Hrids Hqw Hqr) as (a & x & Ha & Has & Hx & Hxa & Hax).
  (* what a node that acknowledged answers *)
  assert (∀ y, y ∈ rs → sr_Success y = true → (∃ node, node ∈ replicas ∧ sr_NodeID y = NodeID node ∧ acknowledged acks node) →
    sr_Value y = value ∧ sr_VectorClock y = vc) as Hack.
  { intros y Hy Hys (node & Hin & Hid & Hak).
    destruct (read_outcomes_elem _ _ _ _ _ _ _ Hro Hall Hy) as (node' & Hin' & Hid' & _ & Hans).
    assert (node' = node) as ->. { apply (NoDup_fmap_elem NodeID replicas); [done..|]. by rewrite <-Hid', Hid. }
    destruct (Hans Hys) as (b & Hb & _ & -> & -> & _). by destruct (holds_write_answer _ _ _ _ _ _ _ Ht Hk (Hholds _ Hin Hak) Hb) as (_ & ? & ?). }
  apply andb_prop in Hxa as [Hxs Hxf].
  assert (sr_VectorClock x = vc) as Hxvc.
  { apply (Hack x Hx Hxs). destruct (read_outcomes_elem _ _ _ _ _ _ _ Hro Hall Hx) as (node & Hin & Hid & _).
    exists node. split_and!; [done|done|]. exists a. by rewrite Hax, Hid. }
  assert (vc_le (sr_VectorClock latest) vc → vc_le vc (sr_VectorClock latest)) as Hfresh.
  { intros Hle. destruct (decide_vc_le vc (sr_VectorClock latest)) as [|Hn]; [done|].
    destruct (Hmax x Hx (conj Hxs Hxf)). split; rewrite Hxvc; done. }
  rewrite Hrv, Hrc. split; [done|]. intros Hold.
  destruct (read_outcomes_elem _ _ _ _ _ _ _ Hro Hall Hlin) as (node & Hin & Hid & Hts & Hans).
  destruct (acknowledged_dec acks node) as [Hak|Hnak]; [apply (Hack latest Hlin (proj1 Hla)); eauto|].
  destruct (Hans (proj1 Hla)) as (b & Hb & Hbs & _ & Hbc & _).
  destruct (Hold node b Hin Hnak Hb Hbs) as [Hle Hnle]. rewrite <-Hbc in Hle, Hnle. by destruct Hnle; apply Hfresh.
Qed.
End read_after_write.

Section requests.
Context `{MapRange}.

(** The errors of a write that is refused before it reaches a replica. *)
Definition refused (e : coordinator_error) : Prop := ∀ n m, e ≠ QuorumNotReached n m.

Lemma tenant_factor_other q tenantID s r s' :
  tenant_factor q tenantID s = (r, s') →
  routingService s' = routingService s ∧ consistencyService s' = consistencyService s ∧ vcService s' = vcService s ∧
  hintedHandoffService s' = hintedHandoffService s ∧ storageClient s' = storageClient s.
Proof.
  unfold tenant_factor. destruct (GetTenant _ _ _ _ _ _) as [[p|e] ts]; [destruct (tenant_heap ts !! p)|];
    by intros [= _ <-].
Qed.

Lemma write_fresh_error q tenantID key value consistency s e s' :
  write_fresh q tenantID key value consistency s = (Err e, s') → refused e →
  vcService s' = vcService s ∧ hintedHandoffService s' = hintedHandoffService s ∧ storageClient s' = storageClient s.
Proof.
  unfold write_fresh. destruct (tenant_factor q tenantID s) as [r s1] eqn:Ht.
  destruct (tenant_factor_other _ _ _ _ _ Ht) as (_ & _ & Hv & Hh & Hc).
  destruct r as [factor|e']; [|intros [= <- <-] _; by split_and!].
  destruct (GetWriteReplicas _ _ _ _ _) as [replicas|e']; [|intros [= <- <-] _; by split_and!].
  destruct (readExistingValue _ _ _ _ _ _) as [existing c]. destruct (next_clock _ _) as [vc vs].
  unfold writeToReplicasWithHints. destruct (foldl _ _ _) as [[responses h] c'].
  destruct (negb _); intros [= <- _]; intros Hr; by destruct (Hr _ _ eq_refl).
Qed.

(** C24: a refused write has no effect.  A write with an unknown consistency
    level changes nothing at all; one whose tenant or replicas cannot be found
    leaves the clock, the hints and the connections as they were; and no write
    that fails, for whatever reason, is recorded as done under its
    idempotency key. *)
Theorem refused_write_no_effect q tenantID key value consistency ik s e rec s' :
  WriteKeyValue q tenantID key value consistency ik s = (Err e, rec, s') →
  rec = None ∧
  (ValidateConsistencyLevel consistency = false → consistency ≠ EmptyString → e = ConsistencyInvalid ∧ s' = s) ∧
  (refused e → vcService s' = vcService s ∧ hintedHandoffService s' = hintedHandoffService s ∧
               storageClient s' = storageClient s).
Proof.
  unfold WriteKeyValue. destruct (NormalizeConsistencyLevel _ _) as [level|[]] eqn:Hn.
  2: { intros [= <- <- <-]. by split_and!. }
  assert (ValidateConsistencyLevel consistency = false → consistency ≠ EmptyString → e = ConsistencyInvalid ∧ s' = s) as Hval.
  { intros Hv Hne. unfold NormalizeConsistencyLevel in Hn. rewrite decide_False, Hv in Hn by done. done. }
  destruct (write_fresh q tenantID key value level s) as [[w|e'] s1] eqn:Hw; cbn zeta.
  - by destruct (decide _); [|destruct (idem_Get _) as [[r|]|]].
  - assert ((Err e' : res coordinator_error WriteResult, None : option (string * any), s1) = (Err e, rec, s') → rec = None ∧
      (ValidateConsistencyLevel consistency = false → consistency ≠ EmptyString → e = ConsistencyInvalid ∧ s' = s) ∧
      (refused e → vcService s' = vcService s ∧ hintedHandoffService s' = hintedHandoffService s ∧
               storageClient s' = storageClient s)) as Hgoal.
    { intros [= <- <- <-]. split_and!; [done|done|]. by apply (write_fresh_error _ _ _ _ _ _ _ _ Hw). }
    destruct (decide _); [done|]. by destruct (idem_Get _) as [[r|]|].
Qed.

Lemma redis_never_response unmarshal_any reply r : redis_Get unmarshal_any reply ≠ Ok (AnyResponse r).
Proof. destruct reply as [data| |m]; cbn; [|done|done]. destruct (unmarshal_any data) as [[]|]; done. Qed.

(** C25: retries are recognised by a store of objects and never by Redis.  When
    a store returns the response object it was given, as the type assertion of
    [WriteKeyValue] expects (no store of the program does), a retry at a legal
    level answers with the recorded outcome and changes nothing.  Through the Redis store, whatever the
    server replies, a write with an idempotency key does exactly what the same
    write without one does, so a retry is applied again. *)
Theorem idempotent_retry q tenantID key value consistency ik s :
  ik ≠ EmptyString →
  (∀ level resp, NormalizeConsistencyLevel (consistencyService s) consistency = Ok level →
     q_stored q = Ok (AnyResponse resp) →
     WriteKeyValue q tenantID key value consistency ik s = (Ok (cached_result key resp), None, s)) ∧
  (∀ unmarshal_any reply, q_stored q = redis_Get unmarshal_any reply →
     let '(r, _, s1) := WriteKeyValue q tenantID key value consistency ik s in
     let '(r', _, s2) := WriteKeyValue q tenantID key value consistency EmptyString s in
     r = r' ∧ s1 = s2 ∧ ∀ w, r = Ok w → wr_IsDuplicate w = false).
Proof.
  intros Hik. split.
  - intros level resp Hn Hst. unfold WriteKeyValue. rewrite Hn, decide_False by done. by rewrite Hst.
  - intros unmarshal_any reply Hst. unfold WriteKeyValue.
    destruct (NormalizeConsistencyLevel _ _) as [level|]; [|done]. rewrite decide_False, decide_True by done. cbn zeta.
    assert (∀ w s', write_fresh q tenantID key value level s = (Ok w, s') → wr_IsDuplicate w = false) as Hdup.
    { intros w s'. unfold write_fresh. destruct (tenant_factor _ _ _) as [[f|] s1]; [|done].
      destruct (GetWriteReplicas _ _ _ _ _); [|done]. destruct (readExistingValue _ _ _ _ _ _), (next_clock _ _).
      unfold writeToReplicasWithHints. destruct (foldl _ _ _) as [[? ?] ?]. destruct (negb _); [done|]. by intros [= <- _]. }
    pose proof (redis_never_response unmarshal_any reply) as Hnever. rewrite <-Hst in Hnever.
    assert (∀ r, idem_Get (q_stored q) ≠ Ok (Some r)) as Hget.
    { intros r Hr. unfold idem_Get in Hr. destruct (q_stored q) as [[| |r']|[]]; try done. by apply (Hnever r'). }
    destruct (idem_Get (q_stored q)) as [[r|]|]; [by destruct (Hget r)|..];
      destruct (write_fresh q tenantID key value level s) as [[w|] s'] eqn:Hw; split_and!; naive_solver.
Qed.
End requests.

(** *** Witnesses *)

Definition x_node (id : string) : StorageNode := mkStorageNode id id 9000 NodeStatusActive NodeStateNormal 2 [] [] [] 0 0.
Definition x_replicas : list StorageNode := [x_node "n1"; x_node "n2"; x_node "n3"].

(** The third node cannot be reached. *)
Definition x_wnet : write_net := λ node,
  mkLink (negb (bool_decide (NodeID node = "n3"))) (λ req, Ok (mkPbWriteResponse true (wq_VectorClock req) EmptyString pb_UNKNOWN)).

Definition x_read_answer : pb_ReadResponse :=
  match handler_Read (x_env 1700000009 9) (mkPbReadRequest "t1" "a") x5 with
  | Some (resp, _) => resp
  | None => mkPbReadResponse false [] None EmptyString pb_UNKNOWN
  end.

Definition x_rnet : read_net := λ node,
  mkLink true (λ _, if decide (NodeID node = "n3") then Err "unavailable" else Ok x_read_answer).

Definition x_handoff : HintedHandoffService := NewHintedHandoffService 10 0.

Lemma write_acknowledged_or_hinted_witness :
  let '(r, h', _) := writeToReplicasWithHints x_wnet (λ _, 7) x_replicas x_replicas "t1" "a" (bytes "new")
                       Storage.x_vc "quorum" x_handoff NewStorageClient in
  is_ok r = true ∧ hinted "t1" "a" (bytes "new") Storage.x_vc h' (x_node "n3").
Proof.
  pose proof (write_acknowledged_or_hinted x_wnet (λ _, 7) x_replicas x_replicas "t1" "a" (bytes "new") Storage.x_vc
    "quorum" x_handoff NewStorageClient) as Hw.
  destruct (writeToReplicasWithHints _ _ _ _ _ _ _ _ _ _ _) as [[r h'] c'] eqn:Hr.
  destruct Hw as (_ & _ & responses & _ & Hnode & _); [done|apply (bool_decide_unpack _); by vm_compute|].
  split; [by vm_compute in Hr; injection Hr as <- _ _|].
  destruct (Hnode (x_node "n3")) as (resp & _ & _ & [He|[_ Hh]]); [by apply (bool_decide_unpack _); vm_compute| |exact Hh].
  vm_compute in Hr. injection Hr as _ <- _. by eexists 0%nat, _.
Defined.

Lemma x_read_state : ∃ s', handler_Read (x_env 1700000009 9) (mkPbReadRequest "t1" "a") x5 = Some (x_read_answer, s').
Proof.
  unfold x_read_answer. destruct (handler_Read (x_env 1700000009 9) (mkPbReadRequest "t1" "a") x5) as [[resp s']|] eqn:Hr;
    [by exists s'|]. exfalso. revert Hr. vm_compute. discriminate.
Qed.

Lemma x_holds node : holds_write x_rnet "t1" "a" (bytes "new") Storage.x_vc node.
Proof.
  intros b Hb. unfold x_rnet in Hb. cbn [answer] in Hb. destruct (decide _); [discriminate Hb|].
  pose proof (f_equal (λ r, match r with Ok a => a | Err _ => b end) Hb) as Heq. cbn iota in Heq. rewrite <-Heq.
  destruct x_read_state as [s' Hs].
  exists x_lcfg, x5, (Some x_log), x_A, 1700000001, 1700000003, (x_env 1700000009 9), (x_env 1700000002 2), s'.
  split; [exact x_run|]. split; [vm_compute; reflexivity|exact Hs].
Qed.

Lemma x_acknowledged i node :
  take 2 x_replicas !! i = Some node →
  acknowledged (write_responses x_wnet (λ _, 7) x_replicas "t1" "a" (bytes "new") Storage.x_vc x_handoff NewStorageClient) node.
Proof.
  intros Hi. exists (mkStorageResponse (NodeID node) true [] Storage.x_vc 0 false None). split; [|by split].
  apply (list_elem_of_lookup_2 _ i). destruct i as [|[|i]]; [..|done]; injection Hi as <-; vm_compute; reflexivity.
Qed.

Lemma quorum_read_after_write_witness :
  ∃ r c, readFromReplicasWithRepair x_rnet x_replicas x_replicas "t1" "a" "quorum" NewStorageClient = (Ok r, [], c) ∧
    rd_Value r = bytes "new" ∧ rd_VectorClock r = Storage.x_vc.
Proof.
  destruct (readFromReplicasWithRepair x_rnet x_replicas x_replicas "t1" "a" "quorum" NewStorageClient)
    as [[[r|e] tasks] c] eqn:Hr; [|by vm_compute in Hr].
  exists r, c. split; [by vm_compute in Hr; injection Hr as <- <- <-|].
  destruct (writeToReplicasWithHints x_wnet (λ _, 7) x_replicas x_replicas "t1" "a" (bytes "new") Storage.x_vc
    "quorum" x_handoff NewStorageClient) as [[[w|e] h'] c'] eqn:Hw; [|by vm_compute in Hw].
  destruct (quorum_read_after_write x_wnet (λ _, 7) x_replicas x_rnet x_replicas x_replicas "t1" "a" (bytes "new")
    Storage.x_vc x_handoff NewStorageClient w h' c' NewStorageClient r tasks c) as [_ Hexact];
    [apply (bool_decide_unpack _); by vm_compute|done|done|done|done|exact Hw| |exact Hr|].
  - intros node _ _. apply x_holds.
  - apply Hexact. intros node b Hin Hnak Hb _. exfalso. unfold x_rnet in Hb. cbn [answer] in Hb.
    apply list_elem_of_lookup in Hin as [[|[|[|i]]] Hi]; [by apply Hnak, (x_acknowledged 0)|by apply Hnak, (x_acknowledged 1)| |done].
    injection Hi as <-. rewrite decide_True in Hb by done. discriminate Hb.
Defined.

(** A request whose node list cannot be read, with an earlier response in Redis. *)
Definition x_request (stored : res store_error any) : request_env :=
  {| q_now := 1; q_clock := λ _, 1; q_later := 1; q_tenant := Ok x_tenant; q_nodes := Err "connection refused";
     q_stored := stored; q_nano := 5; q_uuid := "u"; q_read := x_rnet; q_write := x_wnet; q_late := λ _, false;
     q_hint_time := λ _, 1; q_order := λ l, l; q_order_perm := λ l, Permutation_refl l |}.

Definition x_coordinator : CoordinatorService :=
  mkCoordinator (NewTenantService 100 60) (mkRouting (run_ring demo_ring)) (mkConsistency "quorum")
    (NewVectorClockService "c1") x_handoff NewStorageClient.

Definition x_redis : res store_error any :=
  redis_Get (λ _, Ok (JObject "{}")) (RedisValue (bytes "{}")).

Lemma refused_write_no_effect_witness :
  ∃ s', WriteKeyValue (x_request x_redis) "acme" "k" (bytes "v") "one" "id" x_coordinator =
          (Err (RoutingFailed ListFailed), None, s') ∧ vcService s' = vcService x_coordinator.
Proof.
  assert ((WriteKeyValue (x_request x_redis) "acme" "k" (bytes "v") "one" "id" x_coordinator).1.1 = Err (RoutingFailed ListFailed))
    as He by (vm_compute; reflexivity).
  destruct (WriteKeyValue (x_request x_redis) "acme" "k" (bytes "v") "one" "id" x_coordinator) as [[r rec] s'] eqn:Hw.
  cbn [fst] in He. subst r.
  destruct (refused_write_no_effect _ _ _ _ _ _ _ _ _ _ Hw) as (-> & _ & Hsame). exists s'. split; [done|].
  by apply Hsame.
Defined.

Lemma idempotent_retry_witness :
  let '(r, _, s1) := WriteKeyValue (x_request x_redis) "acme" "k" (bytes "v") "one" "id" x_coordinator in
  let '(r', _, s2) := WriteKeyValue (x_request x_redis) "acme" "k" (bytes "v") "one" EmptyString x_coordinator in
  r = r' ∧ s1 = s2 ∧ ∀ w, r = Ok w → wr_IsDuplicate w = false.
Proof.
  apply (idempotent_retry (x_request x_redis) "acme" "k" (bytes "v") "one" "id" x_coordinator ltac:(done))
    with (unmarshal_any := λ _, Ok (JObject "{}")) (reply := RedisValue (bytes "{}")). done.
Defined.
