(* ===== verification/MetadataStore.v ===== *)
(** * MetadataStore: [coordinator/internal/store/postgres_metadata_store.go] and
    [coordinator/migrations]

    The tables of the coordinator's database with the constraints the
    migrations declare (primary keys, CHECK, the foreign key of
    [pending_changes] with its cascade), and each method of the store as the
    effect of its SQL statement.  Whether the database can be reached is an
    argument of every call: [fault] is the error of the pool, if any.  The
    driver decides what a NULL becomes in a Go string: [Scanner].  The lengths
    of VARCHAR columns, the [migrations] table and the connection pool are left
    out. *)

From S2P Require Import Prelude Model.
#[local] Open Scope Z_scope.

(** ** Definitions *)

Inductive db_error :=
  | DbFailed (message : string)
  | UniqueViolation
  | CheckViolation
  | ForeignKeyViolation
  | NoRow
  | ScanFailed.

(** What scanning a NULL into a [*string] gives; [None] is an error. *)
Class Scanner := scan_null_string : option string.

(** *** Rows *)

Record StreamingProgress := mkStreamingProgress {
  SourceNodeID : string;
  sp_TargetNodeID : string;
  sp_KeysCopied : Z;
  sp_KeysStreamed : Z;
  sp_State : string;
}.

Record PendingChange := mkPendingChange {
  ChangeID : string;
  pc_Type : string;
  pc_NodeID : string;
  AffectedNodes : list string;
  pc_Ranges : list TokenRange;
  pc_StartTime : Z;
  pc_Status : PendingChangeStatus;
  pc_ErrorMessage : string;
  LastUpdated : Z;
  CompletedAt : option Z;
  Progress : gmap string StreamingProgress;
}.

(** A row of [pending_changes]: there is no column for [CompletedAt], and
    [error_message] may be NULL. *)
Record change_row := mkChangeRow {
  cr_type : string;
  cr_node_id : string;
  cr_affected_nodes : list string;
  cr_ranges : list TokenRange;
  cr_start_time : Z;
  cr_status : PendingChangeStatus;
  cr_error_message : option string;
  cr_last_updated : Z;
  cr_progress : gmap string StreamingProgress;
}.

Record MetadataStore := mkMetadataStore {
  tenants : gmap string Tenant;
  storage_nodes : gmap string StorageNode;
  pending_changes : gmap string change_row;
}.

Definition with_tenant_rows (t : gmap string Tenant) (db : MetadataStore) : MetadataStore :=
  mkMetadataStore t (storage_nodes db) (pending_changes db).
Definition with_nodes (n : gmap string StorageNode) (db : MetadataStore) : MetadataStore :=
  mkMetadataStore (tenants db) n (pending_changes db).
Definition with_changes (c : gmap string change_row) (db : MetadataStore) : MetadataStore :=
  mkMetadataStore (tenants db) (storage_nodes db) c.

(** *** Constraints *)

(** [CHECK (status IN ('active', 'draining', 'inactive'))]. *)
Definition parse_status (status : string) : option NodeStatus :=
  if decide (status = "active") then Some NodeStatusActive
  else if decide (status = "draining") then Some NodeStatusDraining
  else if decide (status = "inactive") then Some NodeStatusInactive
  else None.

Definition status_string (s : NodeStatus) : string :=
  match s with
  | NodeStatusActive => "active"
  | NodeStatusBootstrapping => "bootstrapping"
  | NodeStatusDraining => "draining"
  | NodeStatusInactive => "inactive"
  end.

Definition node_check (n : StorageNode) : bool :=
  bool_decide (is_Some (parse_status (status_string (Status n)))) &&
  (0 <? Port n) && (Port n <? 65536) && (0 <? VirtualNodes n).

(** [CHECK (replication_factor >= 1 AND replication_factor <= 5)]. *)
Definition tenant_check (t : Tenant) : bool := (1 <=? ReplicationFactor t) && (ReplicationFactor t <=? 5).

Definition change_check (type : string) : bool := bool_decide (type = "bootstrap" ∨ type = "decommission").

(** [ORDER BY start_time DESC]. *)
Definition newest_first (a b : string * change_row) : Prop := cr_start_time b.2 ≤ cr_start_time a.2.

#[global] Instance newest_first_dec a b : Decision (newest_first a b).
Proof. unfold newest_first. apply _. Defined.

(** *** Statements *)

(** A statement that runs unless the pool fails. *)
Definition exec {A} (fault : option string) (db : MetadataStore) (k : res db_error A * MetadataStore)
    : res db_error A * MetadataStore :=
  match fault with
  | Some e => (Err (DbFailed e), db)
  | None => k
  end.

Section store.
Context (fault : option string) (db : MetadataStore).

Definition pg_GetTenant (tenantID : string) : res db_error Tenant :=
  match fault, tenants db !! tenantID with
  | Some e, _ => Err (DbFailed e)
  | None, None => Err NoRow
  | None, Some t => Ok t
  end.

Definition pg_CreateTenant (t : Tenant) : res db_error unit * MetadataStore :=
  exec fault db
    (if negb (tenant_check t) then (Err CheckViolation, db)
     else match tenants db !! TenantID t with
     | Some _ => (Err UniqueViolation, db)
     | None => (Ok tt, with_tenant_rows (<[TenantID t := t]> (tenants db)) db)
     end).

(** The row is updated when its version is the one before [t]'s. *)
Definition pg_UpdateTenant (t : Tenant) : res db_error unit * MetadataStore :=
  exec fault db
    (match tenants db !! TenantID t with
     | None => (Err NoRow, db)
     | Some row =>
         if negb (Version row =? i64 (Version t - 1)) then (Err NoRow, db)
         else if negb (tenant_check t) then (Err CheckViolation, db)
         else (Ok tt, with_tenant_rows
                 (<[TenantID t := mkTenant (TenantID t) (ReplicationFactor t) (t_CreatedAt row) (t_UpdatedAt t) (Version t)]>
                    (tenants db)) db)
     end).

Definition pg_DeleteTenant (tenantID : string) : res db_error unit * MetadataStore :=
  exec fault db
    (match tenants db !! tenantID with
     | None => (Err NoRow, db)
     | Some _ => (Ok tt, with_tenant_rows (delete tenantID (tenants db)) db)
     end).

(** The columns [ListStorageNodes] selects; the other fields stay zero. *)
Definition listed_node (n : StorageNode) : StorageNode :=
  mkStorageNode (NodeID n) (Host n) (Port n) (Status n) (State n) (VirtualNodes n) [] [] [] 0 0.

(** [ORDER BY node_id] is the order of the database's collation. *)
Definition pg_ListStorageNodes `{MapRange} : res db_error (list StorageNode) :=
  match fault with
  | Some e => Err (DbFailed e)
  | None => Ok (listed_node <$> filter (λ n, Status n ≠ NodeStatusInactive) (map_range (storage_nodes db)).*2)
  end.

Definition pg_AddStorageNode (now : Z) (n : StorageNode) : res db_error unit * MetadataStore :=
  exec fault db
    (if negb (node_check n) then (Err CheckViolation, db)
     else match storage_nodes db !! NodeID n with
     | Some _ => (Err UniqueViolation, db)
     | None =>
         (Ok tt, with_nodes (<[NodeID n := mkStorageNode (NodeID n) (Host n) (Port n) (Status n) (State n)
                                 (VirtualNodes n) [] [] [] now now]> (storage_nodes db)) db)
     end).

(** The changes of the node go with it. *)
Definition pg_RemoveStorageNode (nodeID : string) : res db_error unit * MetadataStore :=
  exec fault db
    (match storage_nodes db !! nodeID with
     | None => (Err NoRow, db)
     | Some _ => (Ok tt, mkMetadataStore (tenants db) (delete nodeID (storage_nodes db))
                           (filter (λ kv, cr_node_id kv.2 ≠ nodeID) (pending_changes db)))
     end).

(** [UPDATE storage_nodes SET ... WHERE node_id = $1]. *)
Definition update_node (nodeID : string) (f : StorageNode → StorageNode) : res db_error unit * MetadataStore :=
  exec fault db
    (match storage_nodes db !! nodeID with
     | None => (Err NoRow, db)
     | Some n => (Ok tt, with_nodes (<[nodeID := f n]> (storage_nodes db)) db)
     end).

Definition set_status (now : Z) (s : NodeStatus) (n : StorageNode) : StorageNode :=
  mkStorageNode (NodeID n) (Host n) (Port n) s (State n) (VirtualNodes n) (Tokens n) (PendingRanges n)
    (LeavingRanges n) (node_CreatedAt n) now.
Definition set_state (now : Z) (s : NodeState) (n : StorageNode) : StorageNode :=
  mkStorageNode (NodeID n) (Host n) (Port n) (Status n) s (VirtualNodes n) (Tokens n) (PendingRanges n)
    (LeavingRanges n) (node_CreatedAt n) now.
Definition set_ranges (now : Z) (pending leaving : list RangeInfo) (n : StorageNode) : StorageNode :=
  mkStorageNode (NodeID n) (Host n) (Port n) (Status n) (State n) (VirtualNodes n) (Tokens n) pending
    leaving (node_CreatedAt n) now.

(** A status outside the CHECK is refused when there is a row to update. *)
Definition pg_UpdateStorageNodeStatus (now : Z) (nodeID status : string) : res db_error unit * MetadataStore :=
  match parse_status status with
  | Some s => update_node nodeID (set_status now s)
  | None => exec fault db (match storage_nodes db !! nodeID with
                           | None => (Err NoRow, db)
                           | Some _ => (Err CheckViolation, db)
                           end)
  end.

Definition pg_UpdateNodeState (now : Z) (nodeID : string) (s : NodeState) : res db_error unit * MetadataStore :=
  update_node nodeID (set_state now s).

Definition pg_UpdateNodeRanges (now : Z) (nodeID : string) (pending leaving : list RangeInfo)
    : res db_error unit * MetadataStore := update_node nodeID (set_ranges now pending leaving).

Definition pg_GetStorageNode (nodeID : string) : res db_error StorageNode :=
  match fault, storage_nodes db !! nodeID with
  | Some e, _ => Err (DbFailed e)
  | None, None => Err NoRow
  | None, Some n => Ok n
  end.

Definition pg_AddPendingChange (c : PendingChange) : res db_error unit * MetadataStore :=
  exec fault db
    (if negb (change_check (pc_Type c)) then (Err CheckViolation, db)
     else match pending_changes db !! ChangeID c, storage_nodes db !! pc_NodeID c with
     | Some _, _ => (Err UniqueViolation, db)
     | None, None => (Err ForeignKeyViolation, db)
     | None, Some _ =>
         (Ok tt, with_changes (<[ChangeID c := mkChangeRow (pc_Type c) (pc_NodeID c) (AffectedNodes c) (pc_Ranges c)
                                   (pc_StartTime c) (pc_Status c) None (LastUpdated c) (Progress c)]>
                                 (pending_changes db)) db)
     end).

Definition scan_change `{Scanner} (changeID : string) (row : change_row) : res db_error PendingChange :=
  match (match cr_error_message row with Some m => Some m | None => scan_null_string end) with
  | None => Err ScanFailed
  | Some message =>
      Ok (mkPendingChange changeID (cr_type row) (cr_node_id row) (cr_affected_nodes row) (cr_ranges row)
            (cr_start_time row) (cr_status row) message (cr_last_updated row) None (cr_progress row))
  end.

Definition pg_GetPendingChange `{Scanner} (changeID : string) : res db_error PendingChange :=
  match fault, pending_changes db !! changeID with
  | Some e, _ => Err (DbFailed e)
  | None, None => Err NoRow
  | None, Some row => scan_change changeID row
  end.

(** The newest first; one row that cannot be scanned fails the whole list. *)
Definition pg_ListPendingChanges `{MapRange} `{Scanner} (status : option PendingChangeStatus)
    : res db_error (list PendingChange) :=
  match fault with
  | Some e => Err (DbFailed e)
  | None =>
      let rows := filter (λ kv, status = None ∨ status = Some (cr_status kv.2)) (map_range (pending_changes db)) in
      let sorted := merge_sort newest_first rows in
      foldr (λ kv acc, c ← scan_change kv.1 kv.2; cs ← acc; Ok (c :: cs)) (Ok []) sorted
  end.

Definition pg_UpdatePendingChange (c : PendingChange) : res db_error unit * MetadataStore :=
  exec fault db
    (match pending_changes db !! ChangeID c with
     | None => (Err NoRow, db)
     | Some row =>
         (Ok tt, with_changes (<[ChangeID c := mkChangeRow (cr_type row) (cr_node_id row) (cr_affected_nodes row)
                                   (cr_ranges row) (cr_start_time row) (pc_Status c) (Some (pc_ErrorMessage c))
                                   (LastUpdated c) (Progress c)]> (pending_changes db)) db)
     end).

Definition pg_DeletePendingChange (changeID : string) : res db_error unit * MetadataStore :=
  exec fault db
    (match pending_changes db !! changeID with
     | None => (Err NoRow, db)
     | Some _ => (Ok tt, with_changes (delete changeID (pending_changes db)) db)
     end).
End store.

(** A statement that changes a table. *)
Inductive statement :=
  | SCreateTenant (t : Tenant)
  | SUpdateTenant (t : Tenant)
  | SDeleteTenant (tenantID : string)
  | SAddStorageNode (n : StorageNode)
  | SRemoveStorageNode (nodeID : string)
  | SUpdateStorageNodeStatus (nodeID status : string)
  | SUpdateNodeState (nodeID : string) (s : NodeState)
  | SUpdateNodeRanges (nodeID : string) (pending leaving : list RangeInfo)
  | SAddPendingChange (c : PendingChange)
  | SUpdatePendingChange (c : PendingChange)
  | SDeletePendingChange (changeID : string).

Definition run_statement (fault : option string) (now : Z) (s : statement) (db : MetadataStore)
    : res db_error unit * MetadataStore :=
  match s with
  | SCreateTenant t => pg_CreateTenant fault db t
  | SUpdateTenant t => pg_UpdateTenant fault db t
  | SDeleteTenant tenantID => pg_DeleteTenant fault db tenantID
  | SAddStorageNode n => pg_AddStorageNode fault db now n
  | SRemoveStorageNode nodeID => pg_RemoveStorageNode fault db nodeID
  | SUpdateStorageNodeStatus nodeID status => pg_UpdateStorageNodeStatus fault db now nodeID status
  | SUpdateNodeState nodeID s => pg_UpdateNodeState fault db now nodeID s
  | SUpdateNodeRanges nodeID pending leaving => pg_UpdateNodeRanges fault db now nodeID pending leaving
  | SAddPendingChange c => pg_AddPendingChange fault db c
  | SUpdatePendingChange c => pg_UpdatePendingChange fault db c
  | SDeletePendingChange changeID => pg_DeletePendingChange fault db changeID
  end.

(** ** Well-formed tables *)

(** Every row is stored under its key and passes its CHECK; every change is
    about a node that has a row. *)
Record db_wf (db : MetadataStore) : Prop := {
  wf_tenants : map_Forall (λ id t, TenantID t = id ∧ tenant_check t = true) (tenants db);
  wf_nodes : map_Forall (λ id n, NodeID n = id ∧ node_check n = true) (storage_nodes db);
  wf_changes : map_Forall (λ _ row, change_check (cr_type row) = true ∧
    is_Some (storage_nodes db !! cr_node_id row)) (pending_changes db);
}.

Lemma update_node_wf fault db id f :
  db_wf db → (∀ n, node_check n = true → NodeID (f n) = NodeID n ∧ node_check (f n) = true) →
  db_wf (update_node fault db id f).2.
Proof.
  intros [Ht Hn Hc] Hf. unfold update_node, exec. destruct fault; [done|].
  destruct (storage_nodes db !! id) as [n|] eqn:Hid; [|done].
  destruct (Hn _ _ Hid) as [Hkey Hcheck]. destruct (Hf n Hcheck) as [Hkey' Hcheck'].
  split; simpl; [done| |].
  - apply map_Forall_insert_2; [|done]. split; [congruence|done].
  - eapply map_Forall_impl; [exact Hc|]. intros i row [? Hs]. split; [done|].
    rewrite lookup_insert_is_Some'. by right.
Qed.

Lemma exec_wf {A} fault db (k : res db_error A * MetadataStore) : db_wf db → db_wf k.2 → db_wf (exec fault db k).2.
Proof. unfold exec. by destruct fault. Qed.

Lemma tenants_wf db t id :
  db_wf db → TenantID t = id → tenant_check t = true → db_wf (with_tenant_rows (<[id := t]> (tenants db)) db).
Proof. intros [Ht Hn Hc] Hid Hcheck. split; [|done..]. by apply map_Forall_insert_2. Qed.

Lemma changes_wf db id row :
  db_wf db → change_check (cr_type row) = true → is_Some (storage_nodes db !! cr_node_id row) →
  db_wf (with_changes (<[id := row]> (pending_changes db)) db).
Proof. intros [Ht Hn Hc] Hcheck Hrow. split; [done..|]. by apply map_Forall_insert_2. Qed.

Lemma parse_status_check status s : parse_status status = Some s → is_Some (parse_status (status_string s)).
Proof. unfold parse_status at 1. intros Hs. repeat case_decide; simplify_eq; eexists; reflexivity. Qed.

Lemma run_statement_wf (fault : option string) (now : Z) (s : statement) (db : MetadataStore) :
  db_wf db → db_wf (run_statement fault now s db).2.
Proof.
  intros Hwf. pose proof Hwf as [Ht Hn Hc]. destruct s; simpl.
  - apply exec_wf; [done|]. destruct (tenant_check t) eqn:Hcheck; simpl; [|done].
    destruct (tenants db !! TenantID t); [done|]. by apply tenants_wf.
  - apply exec_wf; [done|]. destruct (tenants db !! TenantID t) as [row|]; [|done].
    destruct (Version row =? _); [|done]. destruct (tenant_check t) eqn:Hcheck; [|done]. by apply tenants_wf.
  - apply exec_wf; [done|]. destruct (tenants db !! tenantID); [|done]. split; [|done..]. by apply map_Forall_delete.
  - apply exec_wf; [done|]. destruct (node_check n) eqn:Hcheck; [|done].
    destruct (storage_nodes db !! NodeID n) eqn:Hid; [done|]. split; [done| |]; simpl.
    + by apply map_Forall_insert_2.
    + eapply map_Forall_impl; [exact Hc|]. intros i row [? Hs]. split; [done|]. rewrite lookup_insert_is_Some'. by right.
  - apply exec_wf; [done|]. destruct (storage_nodes db !! nodeID); [|done]. split; simpl; [done|by apply map_Forall_delete|].
    intros i row Hrow. apply map_lookup_filter_Some in Hrow as [Hrow Hne]. simpl in Hne.
    destruct (Hc _ _ Hrow) as [? Hs]. split; [done|]. by rewrite lookup_delete_ne.
  - unfold pg_UpdateStorageNodeStatus. destruct (parse_status status) as [s|] eqn:Hs.
    + apply update_node_wf; [done|]. intros n [[[Hcheck H1]%andb_true_iff H2]%andb_true_iff H3]%andb_true_iff.
      split; [done|]. unfold node_check. simpl. rewrite H1, H2, H3, bool_decide_true; [done|]. by eapply parse_status_check.
    + apply exec_wf; [done|]. by destruct (storage_nodes db !! nodeID).
  - by apply update_node_wf.
  - by apply update_node_wf.
  - apply exec_wf; [done|]. destruct (change_check (pc_Type c)) eqn:Hcheck; [|done].
    destruct (pending_changes db !! ChangeID c); [by destruct (storage_nodes db !! pc_NodeID c)|].
    destruct (storage_nodes db !! pc_NodeID c) eqn:Hid; [|done]. apply changes_wf; [done..|]. simpl. by rewrite Hid.
  - apply exec_wf; [done|]. destruct (pending_changes db !! ChangeID c) as [row|] eqn:Hrow; [|done].
    destruct (Hc _ _ Hrow). by apply changes_wf.
  - apply exec_wf; [done|]. destruct (pending_changes db !! changeID); [|done]. split; [done..|]. by apply map_Forall_delete.
Qed.

(** The tables the migrations leave: one tenant, for testing. *)
Definition initial_db (now : Z) : MetadataStore := mkMetadataStore {[ "default" := mkTenant "default" 3 now now 1 ]} ∅ ∅.

(** The statements of a history, each with the fault of the pool and the time. *)
Definition run_history (history : list (option string * Z * statement)) (db : MetadataStore) : MetadataStore :=
  foldl (λ db '(fault, now, s), (run_statement fault now s db).2) db history.

Lemma initial_wf now : db_wf (initial_db now).
Proof. split; simpl; [|apply map_Forall_empty..]. by apply map_Forall_singleton. Qed.

(** *** Versions *)

Lemma i64_mod z : i64 z mod 2 ^ 64 = z mod 2 ^ 64.
Proof. unfold i64. rewrite Zminus_mod_idemp_l. f_equal. lia. Qed.

(** A statement leaves the row of a tenant it does not delete, or writes the
    next version of it. *)
Lemma statement_version fault now s db id row :
  tenants db !! id = Some row → s ≠ SDeleteTenant id →
  ∃ row', tenants (run_statement fault now s db).2 !! id = Some row' ∧
    (row' = row ∨ Version row' mod 2 ^ 64 = (Version row + 1) mod 2 ^ 64).
Proof.
  intros Hrow Hs. destruct s; cbn [run_statement];
    unfold pg_CreateTenant, pg_UpdateTenant, pg_DeleteTenant, pg_AddStorageNode, pg_RemoveStorageNode,
      pg_UpdateStorageNodeStatus, pg_UpdateNodeState, pg_UpdateNodeRanges, update_node, pg_AddPendingChange,
      pg_UpdatePendingChange, pg_DeletePendingChange, exec; destruct fault; try (by repeat case_match; exists row; auto).
  - destruct (negb _); [by exists row; auto|]. destruct (tenants db !! TenantID t) eqn:Ht; [by exists row; auto|].
    exists row. simpl. rewrite lookup_insert_ne; [by auto|]. intros <-. congruence.
  - destruct (tenants db !! TenantID t) as [old|] eqn:Ht; [|by exists row; auto].
    destruct (Z.eqb_spec (Version old) (i64 (Version t - 1))) as [Hv|]; [|by exists row; auto]. cbn [negb].
    destruct (negb _); [by exists row; auto|]. simpl. destruct (decide (id = TenantID t)) as [->|Hne].
    + rewrite lookup_insert_eq. eexists. split; [done|]. right. simpl. simplify_eq. rewrite Hv.
      rewrite <-Zplus_mod_idemp_l, i64_mod, Zplus_mod_idemp_l. f_equal. lia.
    + rewrite lookup_insert_ne by done. by exists row; auto.
  - destruct (tenants db !! tenantID) eqn:Ht; [|by exists row; auto]. exists row. simpl.
    rewrite lookup_delete_ne; [by auto|]. intros ->. by apply Hs.
Qed.

(** The row after a history: [j] of its statements have written it. *)
Lemma history_version history db id row :
  tenants db !! id = Some row → Forall (λ x, x.2 ≠ SDeleteTenant id) history →
  ∃ row' j, tenants (run_history history db) !! id = Some row' ∧ 0 ≤ j ≤ Z.of_nat (length history) ∧
    Version row' mod 2 ^ 64 = (Version row + j) mod 2 ^ 64 ∧ (j = 0 → row' = row).
Proof.
  intros Hrow Hs. revert db row Hrow. induction Hs as [|[[fault now] s] history Hs _ IH]; intros db row Hrow.
  { exists row, 0. simpl. rewrite Z.add_0_r. split_and!; [done|lia|lia|done|done]. }
  destruct (statement_version fault now s db id row Hrow Hs) as (row1 & Hrow1 & Hv).
  destruct (IH _ _ Hrow1) as (row' & j & Hrow' & Hj & Hver & Hsame). cbn [length].
  destruct Hv as [->|Hv]; [exists row', j; split_and!; [done|lia|lia|done|done]|].
  exists row', (j + 1). split_and!; [done|lia|lia| |lia].
  rewrite Hver, <-Zplus_mod_idemp_l, Hv, Zplus_mod_idemp_l. f_equal. lia.
Qed.

(** ** Properties *)

(** C28: no update of a tenant is lost.  Let a tenant be read, and let any
    statements of any coordinator follow that do not delete it, failed ones
    included, fewer than 2^64 of them.  If then an update based on what was read,
    with the next version number, succeeds, the row is still the one that was
    read, and the update writes its replication factor, version and time over
    it: of two updates based on the same read only one succeeds. *)
Theorem tenant_no_lost_update history db id t0 t fault :
  pg_GetTenant None db id = Ok t0 →
  Forall (λ x, x.2 ≠ SDeleteTenant id) history → Z.of_nat (length history) < 2 ^ 64 →
  TenantID t = id → Version t = i64 (Version t0 + 1) →
  let db1 := run_history history db in
  (pg_UpdateTenant fault db1 t).1 = Ok tt →
  tenants db1 !! id = Some t0 ∧
  tenants (pg_UpdateTenant fault db1 t).2 !! id =
    Some (mkTenant id (ReplicationFactor t) (t_CreatedAt t0) (t_UpdatedAt t) (Version t)).
Proof.
  intros Hget Hs Hlen Hid Hv db1. unfold pg_GetTenant in Hget. destruct (tenants db !! id) as [row|] eqn:Hrow; [|done].
  injection Hget as ->. destruct (history_version history db id t0 Hrow Hs) as (row' & j & Hrow' & Hj & Hver & Hsame).
  fold db1 in Hrow'. unfold pg_UpdateTenant, exec. destruct fault; [done|]. rewrite Hid, Hrow'.
  destruct (Z.eqb_spec (Version row') (i64 (Version t - 1))) as [Heq|]; [|done]. cbn [negb].
  destruct (negb (tenant_check t)); [done|]. intros _.
  assert (j mod 2 ^ 64 = 0) as Hj0.
  { assert ((Version t0 + j) mod 2 ^ 64 = Version t0 mod 2 ^ 64) as Hmod.
    { rewrite <-Hver, Heq, i64_mod, Hv, <-Zminus_mod_idemp_l, i64_mod, Zminus_mod_idemp_l. f_equal. lia. }
    replace j with (Version t0 + j - Version t0) by lia. by rewrite Zminus_mod, Hmod, Z.sub_diag. }
  rewrite Z.mod_small in Hj0 by lia. rewrite (Hsame Hj0). split; [done|]. simpl. by rewrite lookup_insert_eq.
Qed.

(** Two updates of the tenant the migrations create, both based on version 1;
    a node is registered in between. *)
Definition x_update (factor : Z) : Tenant := mkTenant "default" factor 0 9 2.
Definition x_history : list (option string * Z * statement) :=
  [(None, 5, SAddStorageNode (mkStorageNode "n1" "h" 9000 NodeStatusActive NodeStateNormal 3 [] [] [] 0 0));
   (None, 6, SUpdateTenant (mkTenant "default" 4 0 6 7))].

Lemma tenant_no_lost_update_witness :
  (pg_UpdateTenant None (run_history x_history (initial_db 1)) (x_update 5)).1 = Ok tt ∧
  tenants (pg_UpdateTenant None (run_history x_history (initial_db 1)) (x_update 5)).2 !! "default" =
    Some (mkTenant "default" 5 1 9 2).
Proof.
  split; [reflexivity|].
  apply (tenant_no_lost_update x_history (initial_db 1) "default" (mkTenant "default" 3 1 1 1) (x_update 5) None);
    [reflexivity|repeat constructor; discriminate|reflexivity|reflexivity|reflexivity|reflexivity].
Defined.
