(* ===== verification/StorageNodeClient.v ===== *)
(** * StorageNodeClient: [coordinator/internal/client/storagenode_client.go]

    The client the coordinator uses for streaming and for replaying stored
    hints.  Connections are kept by node id; the network is an argument, as in
    StorageClient.v. *)

From S2P Require Import Prelude Model StorageHandler StorageClient.
#[local] Open Scope Z_scope.

(** ** Definitions *)

Record StorageNodeClient := mkNodeClient { node_clients : gset string }.

Definition NewStorageNodeClient : StorageNodeClient := mkNodeClient ∅.

Definition getClient (dialled : bool) (node : StorageNode) (c : StorageNodeClient)
    : res client_error StorageNodeClient :=
  if decide (NodeID node ∈ node_clients c) then Ok c
  else if dialled then Ok (mkNodeClient ({[NodeID node]} ∪ node_clients c))
  else Err (ConnectFailed (node_addr node)).

(** A call of a remote procedure: connect, then send. *)
Definition call {Req Resp} (net : link Req Resp) (node : StorageNode) (req : Req) (c : StorageNodeClient)
    : res client_error Resp * StorageNodeClient :=
  match getClient (dials net) node c with
  | Err e => (Err e, c)
  | Ok c =>
      match answer net req with
      | Err e => (Err (RpcFailed e), c)
      | Ok resp => (Ok resp, c)
      end
  end.

Record StartStreamingRequest := mkStartStreaming {
  ss_SourceNodeID : string;
  ss_TargetNodeID : string;
  ss_TargetHost : string;
  ss_TargetPort : Z;
  ss_KeyRanges : list (Z * Z);
}.

(** The source and the target of a stream. *)
Definition StreamRequest : Type := string * string.

Definition node_StartStreaming (net : link StartStreamingRequest (bool * string)) (sourceNode : StorageNode)
    (req : StartStreamingRequest) (c : StorageNodeClient) : res client_error (bool * string) * StorageNodeClient :=
  call net sourceNode (mkStartStreaming (ss_SourceNodeID req) (ss_TargetNodeID req) (ss_TargetHost req)
                         (i32 (ss_TargetPort req)) (ss_KeyRanges req)) c.

Definition node_StopStreaming (net : link StreamRequest (bool * string)) (sourceNode : StorageNode)
    (req : StreamRequest) (c : StorageNodeClient) : res client_error (bool * string) * StorageNodeClient :=
  call net sourceNode req c.

(** The state of the stream; the counters are only logged. *)
Definition node_GetStreamStatus (net : link StreamRequest string) (sourceNode : StorageNode)
    (req : StreamRequest) (c : StorageNodeClient) : res client_error string * StorageNodeClient :=
  call net sourceNode req c.

(** The clock of the write is made up from the time of the hint. *)
Definition node_Write (net : link pb_WriteRequest pb_WriteResponse) (node : StorageNode)
    (tenantID key : string) (value : list byte) (nanos : Z) (c : StorageNodeClient)
    : res client_error (bool * string) * StorageNodeClient :=
  match call net node (mkPbWriteRequest tenantID key value (Some (mkPbVC [("coordinator-1", nanos)]))) c with
  | (Err e, c) => (Err e, c)
  | (Ok resp, c) => (Ok (wp_Success resp, wp_ErrorMessage resp), c)
  end.

Definition node_NotifyStreamingComplete (net : link StreamRequest (bool * string)) (node : StorageNode)
    (targetNodeID : string) (c : StorageNodeClient) : res client_error unit * StorageNodeClient :=
  match call net node (NodeID node, targetNodeID) c with
  | (Err e, c) => (Err e, c)
  | (Ok (success, message), c) => if success then (Ok tt, c) else (Err (RpcFailed message), c)
  end.

Definition node_Close (c : StorageNodeClient) : StorageNodeClient := mkNodeClient ∅.
