(* ===== verification/HintReplay.v ===== *)
(** * HintReplay: [coordinator/internal/store/postgres_hint_store.go] and
    [coordinator/internal/service/hint_replay_service.go]

    The table of stored hints and the replay a node waits for before it joins.
    The database and the network are arguments: a fault for every statement and
    a link for every write, by the number of the batch and the id of the hint.
    The replay loop has no bound in the code; it runs here on fuel, and [None]
    says that it has not returned within that many batches. *)

From S2P Require Import Prelude Model StorageHandler StorageClient MetadataStore StorageNodeClient.
#[local] Open Scope Z_scope.

(** ** Definitions *)

(** *** [PostgresHintStore] *)

Record StoredHint := mkStoredHint {
  HintID : string;
  sh_TargetNodeID : string;
  sh_TenantID : string;
  sh_Key : string;
  sh_Value : list byte;
  sh_VectorClock : string;
  sh_Timestamp : Z;
  sh_CreatedAt : Z;
  ReplayCount : Z;
}.

#[global] Instance StoredHint_eq_dec : EqDecision StoredHint.
Proof. solve_decision. Defined.

Definition oldest_first (a b : StoredHint) : Prop := sh_CreatedAt a ≤ sh_CreatedAt b.

#[global] Instance oldest_first_dec a b : Decision (oldest_first a b).
Proof. unfold oldest_first. apply _. Defined.
#[global] Instance oldest_first_total : Total oldest_first.
Proof. intros a b. unfold oldest_first. lia. Qed.
#[global] Instance oldest_first_trans : Transitive oldest_first.
Proof. intros a b c. unfold oldest_first. lia. Qed.

Definition hs_StoreHint (fault : option string) (h : StoredHint) (t : gmap string StoredHint) : res db_error unit * gmap string StoredHint :=
  match fault, t !! HintID h with
  | Some e, _ => (Err (DbFailed e), t)
  | None, Some _ => (Err UniqueViolation, t)
  | None, None => (Ok tt, <[HintID h := h]> t)
  end.

Definition hs_DeleteHint (fault : option string) (hintID : string) (t : gmap string StoredHint) : res db_error unit * gmap string StoredHint :=
  match fault, t !! hintID with
  | Some e, _ => (Err (DbFailed e), t)
  | None, None => (Err NoRow, t)
  | None, Some _ => (Ok tt, delete hintID t)
  end.

Definition hs_DeleteHintsForNode (fault : option string) (nodeID : string) (t : gmap string StoredHint)
    : res db_error unit * gmap string StoredHint :=
  match fault with
  | Some e => (Err (DbFailed e), t)
  | None => (Ok tt, filter (λ kv, sh_TargetNodeID kv.2 ≠ nodeID) t)
  end.

Definition hs_CleanupOldHints (fault : option string) (now ttl : Z) (t : gmap string StoredHint) : res db_error Z * gmap string StoredHint :=
  match fault with
  | Some e => (Err (DbFailed e), t)
  | None =>
      let t' := filter (λ kv, ¬ sh_CreatedAt kv.2 < now - ttl) t in
      (Ok (Z.of_nat (size t) - Z.of_nat (size t')), t')
  end.

Section definitions.
Context `{MapRange}.

(** The rows for a node, oldest first. *)
Definition rows_for (nodeID : string) (t : gmap string StoredHint) : list StoredHint :=
  merge_sort oldest_first (filter (λ h, sh_TargetNodeID h = nodeID) (map_range t).*2).

Definition hs_GetHintsForNode (fault : option string) (nodeID : string) (limit : nat) (t : gmap string StoredHint)
    : res db_error (list StoredHint) :=
  match fault with
  | Some e => Err (DbFailed e)
  | None => Ok (take limit (rows_for nodeID t))
  end.

Definition hs_GetHintCount (fault : option string) (nodeID : string) (t : gmap string StoredHint) : res db_error Z :=
  match fault with
  | Some e => Err (DbFailed e)
  | None => Ok (Z.of_nat (length (rows_for nodeID t)))
  end.

Record HintFilter := mkHintFilter {
  hf_TargetNodeID : string;
  hf_TenantID : string;
  hf_CreatedAfter : option Z;
  hf_Limit : Z;
  hf_Offset : Z;
}.

Definition filter_matches (f : HintFilter) (h : StoredHint) : Prop :=
  (hf_TargetNodeID f = EmptyString ∨ sh_TargetNodeID h = hf_TargetNodeID f) ∧
  (hf_TenantID f = EmptyString ∨ sh_TenantID h = hf_TenantID f) ∧
  (hf_CreatedAfter f = None ∨ default 0 (hf_CreatedAfter f) < sh_CreatedAt h).

#[global] Instance filter_matches_dec f h : Decision (filter_matches f h).
Proof. unfold filter_matches. apply _. Defined.

(** LIMIT applies after OFFSET, whatever their order in the statement. *)
Definition hs_ListHints (fault : option string) (f : HintFilter) (t : gmap string StoredHint) : res db_error (list StoredHint) :=
  match fault with
  | Some e => Err (DbFailed e)
  | None =>
      let rows := merge_sort oldest_first (filter (filter_matches f) (map_range t).*2) in
      let rows := if 0 <? hf_Offset f then drop (Z.to_nat (hf_Offset f)) rows else rows in
      Ok (if 0 <? hf_Limit f then take (Z.to_nat (hf_Limit f)) rows else rows)
  end.

(** *** [HintReplayService] *)

Definition batchSize : nat := 100.
Definition maxRetries : Z := 3.

(** The outcomes of the statements and calls of one replay. *)
Record replay_env := mkReplayEnv {
  e_count : option string;
  e_get : nat → option string;
  e_delete : nat → string → option string;
  e_net : nat → string → link pb_WriteRequest pb_WriteResponse;
  e_done : nat → bool;
}.

Definition stored_replayHint (net : link pb_WriteRequest pb_WriteResponse) (node : StorageNode) (hint : StoredHint)
    (c : StorageNodeClient) : res client_error unit * StorageNodeClient :=
  match node_Write net node (sh_TenantID hint) (sh_Key hint) (sh_Value hint) (sh_Timestamp hint) c with
  | (Err e, c) => (Err e, c)
  | (Ok (success, message), c) => if success then (Ok tt, c) else (Err (RpcFailed message), c)
  end.

(** The table, the client and the hints that were written, in order. *)
Record replay_state := mkReplayState {
  rs_table : gmap string StoredHint;
  rs_client : StorageNodeClient;
  rs_replayed : list StoredHint;
}.

(** The errors of [DeleteHint] are only logged. *)
Definition replay_step (ev : replay_env) (node : StorageNode) (batch : nat) (st : replay_state) (hint : StoredHint)
    : replay_state :=
  match stored_replayHint (e_net ev batch (HintID hint)) node hint (rs_client st) with
  | (Err _, c) =>
      let t := if maxRetries <=? ReplayCount hint
               then (hs_DeleteHint (e_delete ev batch (HintID hint)) (HintID hint) (rs_table st)).2
               else rs_table st in
      mkReplayState t c (rs_replayed st)
  | (Ok _, c) =>
      mkReplayState (hs_DeleteHint (e_delete ev batch (HintID hint)) (HintID hint) (rs_table st)).2 c
        (rs_replayed st ++ [hint])
  end.

Inductive replay_error := CountFailed (e : db_error) | GetHintsFailed (e : db_error) | ContextDone.

Fixpoint replay_loop (fuel : nat) (ev : replay_env) (node : StorageNode) (batch : nat) (st : replay_state)
    : option (res replay_error unit * replay_state) :=
  match fuel with
  | O => None
  | S fuel =>
      match hs_GetHintsForNode (e_get ev batch) (NodeID node) batchSize (rs_table st) with
      | Err e => Some (Err (GetHintsFailed e), st)
      | Ok [] => Some (Ok tt, st)
      | Ok hints =>
          let st := foldl (replay_step ev node batch) st hints in
          if (length hints =? batchSize)%nat && e_done ev batch then Some (Err ContextDone, st)
          else replay_loop fuel ev node (S batch) st
      end
  end.

Definition ReplayHintsForNode (fuel : nat) (ev : replay_env) (node : StorageNode) (t : gmap string StoredHint) (c : StorageNodeClient)
    : option (res replay_error unit * replay_state) :=
  match hs_GetHintCount (e_count ev) (NodeID node) t with
  | Err e => Some (Err (CountFailed e), mkReplayState t c [])
  | Ok totalHints =>
      if totalHints =? 0 then Some (Ok tt, mkReplayState t c [])
      else replay_loop fuel ev node 0 (mkReplayState t c [])
  end.

(** The goroutine of [ScheduleReplay]: the context ends first, or the delay. *)
Definition ScheduleReplay (fuel : nat) (cancelled : bool) (ev : replay_env) (node : StorageNode)
    (t : gmap string StoredHint) (c : StorageNodeClient) : option (res replay_error unit * replay_state) :=
  if cancelled then Some (Ok tt, mkReplayState t c []) else ReplayHintsForNode fuel ev node t c.

(** The ticks of [CleanupOldHints] until its context ends: the time of each and
    the fault of its statement. *)
Definition CleanupOldHints (ttl : Z) (ticks : list (Z * option string)) (t : gmap string StoredHint)
    : gmap string StoredHint :=
  foldl (λ t '(now, fault), (hs_CleanupOldHints fault now ttl t).2) t ticks.

(** ** Lemmas *)

(** The cleanup drops a row exactly when some statement that ran found it older
    than the time to live. *)
Lemma cleanup_lookup ttl ticks t id h :
  CleanupOldHints ttl ticks t !! id = Some h ↔
  t !! id = Some h ∧ Forall (λ tick, tick.2 = None → tick.1 - ttl ≤ sh_CreatedAt h) ticks.
Proof.
  unfold CleanupOldHints. revert t. induction ticks as [|[now fault] ticks IH]; intros t; cbn [foldl]; [by rewrite Forall_nil; naive_solver|].
  rewrite IH, Forall_cons. destruct fault as [e|]; cbn; [naive_solver|].
  rewrite map_lookup_filter_Some. cbn. rewrite Z.nlt_ge. naive_solver.
Qed.

(** The primary key of the table. *)
Definition table_wf (t : gmap string StoredHint) : Prop := map_Forall (λ id h, HintID h = id) t.

Lemma elem_of_rows n t h :
  table_wf t → h ∈ rows_for n t ↔ t !! HintID h = Some h ∧ sh_TargetNodeID h = n.
Proof.
  intros Hwf. unfold rows_for. rewrite merge_sort_Permutation, list_elem_of_filter, list_elem_of_fmap. split.
  - intros (Hn & [id h'] & -> & Hin%elem_of_map_range). simpl in *. by rewrite (Hwf _ _ Hin).
  - intros [Hl Hn]. split; [done|]. exists (HintID h, h). split; [done|]. by apply elem_of_map_range.
Qed.

Lemma rows_NoDup n t : table_wf t → NoDup (HintID <$> rows_for n t).
Proof.
  intros Hwf. unfold rows_for. rewrite merge_sort_Permutation.
  assert (HintID <$> (map_range t).*2 = (map_range t).*1) as Heq.
  { assert (Forall (λ kv, t !! kv.1 = Some kv.2) (map_range t)) as Hall.
    { apply Forall_forall. intros [id h] Hin. by apply elem_of_map_range in Hin. }
    induction Hall as [|[id h] l Hl _ IH]; [done|]. rewrite !fmap_cons. f_equal; [|done]. by apply Hwf. }
  eapply sublist_NoDup; [|apply fmap_sublist, sublist_filter]. rewrite Heq. apply NoDup_map_range.
Qed.

Lemma rows_sorted n t : StronglySorted oldest_first (rows_for n t).
Proof. apply StronglySorted_merge_sort; apply _. Qed.

Lemma delete_wf id t : table_wf t → table_wf (delete id t).
Proof. apply map_Forall_delete. Qed.

Lemma DeleteHint_table fault id t t' : (hs_DeleteHint fault id t).2 = t' → t' = t ∨ t' = delete id t.
Proof. unfold hs_DeleteHint. destruct fault; [by left; subst|]. destruct (t !! id); simpl; intros <-; auto. Qed.

(** *** A replay that cannot end *)

(** The write of this hint fails in every batch, whatever the connections. *)
Definition always_fails (ev : replay_env) (node : StorageNode) (h : StoredHint) : Prop :=
  ∀ b c, is_ok (stored_replayHint (e_net ev b (HintID h)) node h c).1 = false.

Lemma replay_step_keeps ev node b st h hint :
  always_fails ev node h → ReplayCount h < maxRetries → rs_table st !! HintID h = Some h →
  (HintID hint = HintID h → hint = h) → rs_table (replay_step ev node b st hint) !! HintID h = Some h.
Proof.
  intros Hf Hr Ht Heq. unfold replay_step. destruct (decide (HintID hint = HintID h)) as [He|Hne].
  - rewrite (Heq He). specialize (Hf b (rs_client st)). destruct (stored_replayHint _ _ _ _) as [[u|e] c]; [done|].
    cbn [rs_table]. destruct (Z.leb_spec maxRetries (ReplayCount h)); [lia|done].
  - assert (∀ fault, (hs_DeleteHint fault (HintID hint) (rs_table st)).2 !! HintID h = Some h) as Hd.
    { intros fault. destruct (DeleteHint_table fault (HintID hint) (rs_table st) _ eq_refl) as [->| ->]; [done|].
      by rewrite lookup_delete_ne. }
    destruct (stored_replayHint _ _ _ _) as [[u|e] c]; cbn [rs_table]; [done|]. by destruct (_ <=? _).
Qed.

Lemma replay_step_wf ev node b st hint :
  table_wf (rs_table st) → table_wf (rs_table (replay_step ev node b st hint)).
Proof.
  intros Hwf. unfold replay_step.
  assert (∀ fault, table_wf (hs_DeleteHint fault (HintID hint) (rs_table st)).2) as Hd.
  { intros fault. destruct (DeleteHint_table fault (HintID hint) (rs_table st) _ eq_refl) as [->| ->]; [done|].
    by apply delete_wf. }
  destruct (stored_replayHint _ _ _ _) as [[u|e] c]; cbn [rs_table]; [done|]. by destruct (_ <=? _).
Qed.

Lemma replay_batch_keeps ev node b st h hints :
  always_fails ev node h → ReplayCount h < maxRetries → table_wf (rs_table st) → rs_table st !! HintID h = Some h →
  (∀ hint, hint ∈ hints → HintID hint = HintID h → hint = h) →
  let st' := foldl (replay_step ev node b) st hints in table_wf (rs_table st') ∧ rs_table st' !! HintID h = Some h.
Proof.
  intros Hf Hr. revert st. induction hints as [|hint hints IH]; intros st Hwf Ht Heq; [done|]. cbn [foldl].
  apply IH; [by apply replay_step_wf|apply replay_step_keeps; auto; apply Heq; by left|].
  intros hint' Hin. apply Heq. by right.
Qed.

Lemma replay_loop_stuck fuel ev node b st h :
  always_fails ev node h → ReplayCount h < maxRetries → sh_TargetNodeID h = NodeID node →
  (∀ b, e_get ev b = None) → (∀ b, e_done ev b = false) →
  table_wf (rs_table st) → rs_table st !! HintID h = Some h →
  replay_loop fuel ev node b st = None.
Proof.
  intros Hf Hr Hn Hget Hdone. revert b st. induction fuel as [|fuel IH]; intros b st Hwf Ht; [done|].
  cbn [replay_loop]. unfold hs_GetHintsForNode. rewrite Hget.
  assert (h ∈ rows_for (NodeID node) (rs_table st)) as Hin by by apply elem_of_rows.
  destruct (take batchSize (rows_for (NodeID node) (rs_table st))) as [|h0 hs] eqn:Htake.
  { destruct (rows_for (NodeID node) (rs_table st)); [by apply elem_of_nil in Hin|discriminate Htake]. }
  rewrite Hdone, andb_false_r. cbn zeta.
  destruct (replay_batch_keeps ev node b st h (h0 :: hs) Hf Hr Hwf Ht) as [Hwf' Ht'].
  { rewrite <-Htake. intros hint Hhint Heq.
    assert (hint ∈ rows_for (NodeID node) (rs_table st)) as Hrow.
    { rewrite <-(take_drop batchSize (rows_for _ _)). apply elem_of_app. by left. }
    apply elem_of_rows in Hrow as [Hl _]; [|done]. rewrite Heq, Ht in Hl. by injection Hl. }
  by apply IH.
Qed.

(** *** A replay whose calls succeed *)

Record all_succeeds (ev : replay_env) (node : StorageNode) : Prop := {
  as_count : e_count ev = None;
  as_get b : e_get ev b = None;
  as_delete b id : e_delete ev b id = None;
  as_done b : e_done ev b = false;
  as_write b h c : is_ok (stored_replayHint (e_net ev b (HintID h)) node h c).1 = true;
}.

Definition delete_all (hints : list StoredHint) (t : gmap string StoredHint) : gmap string StoredHint :=
  foldl (λ t h, delete (HintID h) t) t hints.

Lemma delete_all_lookup hints t id :
  delete_all hints t !! id = if decide (id ∈ HintID <$> hints) then None else t !! id.
Proof.
  revert t. induction hints as [|h hints IH]; intros t; [by rewrite decide_False by (intros []%elem_of_nil)|].
  change (delete_all (h :: hints) t) with (delete_all hints (delete (HintID h) t)). rewrite IH, fmap_cons.
  destruct (decide (id = HintID h)) as [->|Hne].
  - rewrite lookup_delete_eq. rewrite (decide_True (P := HintID h ∈ HintID h :: _)) by by left. by destruct (decide _).
  - rewrite lookup_delete_ne by done. destruct (decide (id ∈ HintID <$> hints)).
    + rewrite decide_True by by right. done.
    + rewrite decide_False by by rewrite elem_of_cons; intros [?|?]. done.
Qed.

Lemma delete_absent id (t : gmap string StoredHint) : (hs_DeleteHint None id t).2 = delete id t.
Proof. unfold hs_DeleteHint. destruct (t !! id) eqn:Hid; [done|]. simpl. by rewrite delete_id. Qed.

Lemma replay_batch_all ev node b st hints :
  all_succeeds ev node →
  let st' := foldl (replay_step ev node b) st hints in
  rs_table st' = delete_all hints (rs_table st) ∧ rs_replayed st' = rs_replayed st ++ hints.
Proof.
  intros Hall. revert st. induction hints as [|h hints IH]; intros st; [by rewrite app_nil_r|]. cbn [foldl].
  assert (∃ c, replay_step ev node b st h = mkReplayState (delete (HintID h) (rs_table st)) c (rs_replayed st ++ [h]))
    as [c ->].
  { unfold replay_step. pose proof (as_write _ _ Hall b h (rs_client st)) as Hw.
    destruct (stored_replayHint _ _ _ _) as [[u|e] c]; [|done]. exists c. by rewrite (as_delete _ _ Hall), delete_absent. }
  destruct (IH (mkReplayState (delete (HintID h) (rs_table st)) c (rs_replayed st ++ [h]))) as [-> ->].
  cbn [rs_table rs_replayed]. by rewrite <-app_assoc.
Qed.

Lemma delete_all_wf hints t : table_wf t → table_wf (delete_all hints t).
Proof. intros Hwf id h. rewrite delete_all_lookup. destruct (decide _); [done|]. apply Hwf. Qed.

(** Deleting the first rows of a node leaves the others. *)
Lemma rows_delete_all n t k :
  table_wf t → rows_for n (delete_all (take k (rows_for n t)) t) ≡ₚ drop k (rows_for n t).
Proof.
  intros Hwf. set (rows := rows_for n t).
  assert (NoDup (HintID <$> rows)) as Hnd by by apply rows_NoDup.
  apply NoDup_Permutation.
  - eapply NoDup_fmap_1, rows_NoDup. by apply delete_all_wf.
  - eapply sublist_NoDup; [eapply NoDup_fmap_1, Hnd|]. apply sublist_drop.
  - intros h. rewrite elem_of_rows by by apply delete_all_wf. rewrite delete_all_lookup.
    rewrite <-(take_drop k rows), fmap_app in Hnd. apply NoDup_app in Hnd as (_ & Hdis & _). split.
    + destruct (decide _) as [|Hni]; [by intros [? _]|]. intros Hh. apply elem_of_rows in Hh; [|done]. fold rows in Hh.
      rewrite <-(take_drop k rows) in Hh. apply elem_of_app in Hh as [Hh|Hh]; [|done].
      destruct Hni. by apply list_elem_of_fmap_2.
    + intros Hh. rewrite decide_False.
      * apply elem_of_rows; [done|]. fold rows. rewrite <-(take_drop k rows). apply elem_of_app. by right.
      * intros Hin. apply (Hdis (HintID h) Hin). by apply list_elem_of_fmap_2.
Qed.

Definition without_node (n : string) (t : gmap string StoredHint) : gmap string StoredHint :=
  filter (λ kv, sh_TargetNodeID kv.2 ≠ n) t.

Lemma without_node_delete_all n t k :
  table_wf t → without_node n (delete_all (take k (rows_for n t)) t) = without_node n t.
Proof.
  intros Hwf. apply map_eq. intros id. apply option_eq. intros h. unfold without_node.
  rewrite !map_lookup_filter_Some, delete_all_lookup. destruct (decide _) as [Hin|]; [|done].
  split; [by intros [? _]|]. intros [Hl Hn]. exfalso.
  apply list_elem_of_fmap in Hin as (h' & -> & Hin).
  assert (h' ∈ rows_for n t) as Hr. { rewrite <-(take_drop k (rows_for n t)). apply elem_of_app. by left. }
  apply elem_of_rows in Hr as [Hl' Hn']; [|done]. rewrite Hl in Hl'. by injection Hl' as ->.
Qed.

Lemma without_node_empty n t : table_wf t → rows_for n t = [] → without_node n t = t.
Proof.
  intros Hwf Hr. apply map_eq. intros id. apply option_eq. intros h. unfold without_node.
  rewrite map_lookup_filter_Some. split; [by intros [? _]|]. intros Hl. split; [done|]. simpl. intros Hn.
  assert (h ∈ rows_for n t) as Hin by (apply elem_of_rows; [done|]; by rewrite (Hwf _ _ Hl)).
  rewrite Hr in Hin. by apply elem_of_nil in Hin.
Qed.

Lemma replayed_sorted n t k l :
  l ≡ₚ drop k (rows_for n t) → StronglySorted oldest_first l → StronglySorted oldest_first (take k (rows_for n t) ++ l).
Proof.
  intros Hl Hs. pose proof (rows_sorted n t) as Hrows. rewrite <-(take_drop k (rows_for n t)) in Hrows.
  apply StronglySorted_app in Hrows as (Hcross & Ht & _).
  apply StronglySorted_app_2; [|done..]. intros a b Ha Hb. rewrite Hl in Hb. by apply Hcross.
Qed.

Lemma replay_loop_completes fuel ev node b st :
  all_succeeds ev node → table_wf (rs_table st) →
  (length (rows_for (NodeID node) (rs_table st)) < fuel)%nat →
  ∃ c l, replay_loop fuel ev node b st =
      Some (Ok tt, mkReplayState (without_node (NodeID node) (rs_table st)) c (rs_replayed st ++ l)) ∧
    l ≡ₚ rows_for (NodeID node) (rs_table st) ∧ StronglySorted oldest_first l.
Proof.
  intros Hall. revert b st. induction fuel as [|fuel IH]; intros b st Hwf Hlen; [lia|].
  cbn [replay_loop]. unfold hs_GetHintsForNode. rewrite (as_get _ _ Hall).
  set (rows := rows_for (NodeID node) (rs_table st)) in *.
  destruct (take batchSize rows) as [|h0 hs] eqn:Htake.
  { assert (rows = []) as Hnil by (destruct rows; [done|discriminate Htake]).
    exists (rs_client st), []. rewrite app_nil_r, Hnil. split; [|by split; [|constructor]].
    rewrite without_node_empty by done. by destruct st. }
  rewrite (as_done _ _ Hall), andb_false_r. cbn zeta.
  assert (0 < length rows)%nat as Hpos by (destruct rows; [discriminate Htake|simpl; lia]).
  rewrite <-Htake. clear h0 hs Htake.
  destruct (replay_batch_all ev node b st (take batchSize rows) Hall) as [Ht Hrep].
  set (st' := foldl (replay_step ev node b) st (take batchSize rows)) in *.
  pose proof (rows_delete_all (NodeID node) (rs_table st) batchSize Hwf) as Hrows. fold rows in Hrows. rewrite <-Ht in Hrows.
  destruct (IH (S b) st') as (c & l & -> & Hl & Hs).
  { rewrite Ht. by apply delete_all_wf. }
  { rewrite (Permutation_length Hrows), length_drop. unfold batchSize. lia. }
  subst rows. rewrite Ht, Hrep, without_node_delete_all by done. exists c, (take batchSize (rows_for (NodeID node) (rs_table st)) ++ l).
  rewrite <-app_assoc. split; [done|]. rewrite Hrows in Hl. split; [by rewrite Hl, take_drop|].
  by apply replayed_sorted.
Qed.

Lemma ReplayHintsForNode_all fuel ev node t c :
  all_succeeds ev node → table_wf t → (length (rows_for (NodeID node) t) < fuel)%nat →
  ∃ c' l, ReplayHintsForNode fuel ev node t c = Some (Ok tt, mkReplayState (without_node (NodeID node) t) c' l) ∧
    l ≡ₚ rows_for (NodeID node) t ∧ StronglySorted oldest_first l.
Proof.
  intros Hall Hwf Hfuel. unfold ReplayHintsForNode, hs_GetHintCount. rewrite (as_count _ _ Hall).
  destruct (Z.eqb_spec (Z.of_nat (length (rows_for (NodeID node) t))) 0) as [Hz|].
  - assert (rows_for (NodeID node) t = []) as Hnil by (destruct (rows_for _ _); [done|simpl in Hz; lia]).
    exists c, []. rewrite without_node_empty, Hnil by done. split_and!; [done..|constructor].
  - destruct (replay_loop_completes fuel ev node 0 (mkReplayState t c [])) as (c' & l & -> & Hl & Hs); [done..|].
    by exists c', l.
Qed.

(** ** Properties *)

(** A hint that was never retried enough to be dropped and whose write fails
    every time keeps [ReplayHintsForNode] from returning: nothing counts the
    attempts, so whatever the number of batches the loop is still running. *)
Theorem hint_replay_diverges fuel ev node t c h :
  always_fails ev node h → ReplayCount h < maxRetries → sh_TargetNodeID h = NodeID node →
  e_count ev = None → (∀ b, e_get ev b = None) → (∀ b, e_done ev b = false) →
  table_wf t → t !! HintID h = Some h →
  ReplayHintsForNode fuel ev node t c = None.
Proof.
  intros Hf Hr Hn Hcount Hget Hdone Hwf Ht. unfold ReplayHintsForNode, hs_GetHintCount. rewrite Hcount.
  assert (h ∈ rows_for (NodeID node) t) as Hin by by apply elem_of_rows.
  destruct (Z.eqb_spec (Z.of_nat (length (rows_for (NodeID node) t))) 0) as [Hz|].
  { destruct (rows_for (NodeID node) t); [by apply elem_of_nil in Hin|simpl in Hz; lia]. }
  by apply (replay_loop_stuck _ _ _ _ _ h).
Qed.

(** C27: When the database answers and the node takes every write,
    [ReplayHintsForNode] returns without error after at most one batch per
    hint: every hint of the node has been written exactly once, oldest first,
    and the table has lost exactly the hints of that node. *)
Theorem hint_replay_completes ev node t c :
  all_succeeds ev node → table_wf t →
  ∃ c' l, ReplayHintsForNode (S (length (rows_for (NodeID node) t))) ev node t c =
      Some (Ok tt, mkReplayState (without_node (NodeID node) t) c' l) ∧
    l ≡ₚ rows_for (NodeID node) t ∧ StronglySorted oldest_first l ∧ NoDup (HintID <$> l).
Proof.
  intros Hall Hwf. destruct (ReplayHintsForNode_all (S (length (rows_for (NodeID node) t))) ev node t c)
    as (c' & l & -> & Hl & Hs); [done..|lia|].
  exists c', l. split_and!; [done..|]. rewrite Hl. by apply rows_NoDup.
Qed.
End definitions.

(** *** Witnesses *)

Definition x_node : StorageNode :=
  mkStorageNode "n2" "10.0.0.2" 9090 NodeStatusActive NodeStateBootstrapping 150 [] [] [] 0 0.
Definition x_hint (id : string) (created : Z) : StoredHint := mkStoredHint id "n2" "t" "k" [] EmptyString 1 created 0.
Definition x_other : StoredHint := mkStoredHint "h9" "n3" "t" "k" [] EmptyString 1 2 0.
Definition x_table : gmap string StoredHint :=
  <["h1" := x_hint "h1" 5]> (<["h2" := x_hint "h2" 3]> (<["h9" := x_other]> ∅)).
(** The node takes every write, or refuses every one. *)
Definition x_env (takes : bool) : replay_env :=
  mkReplayEnv None (λ _, None) (λ _ _, None)
    (λ _ _, mkLink true (λ _, Ok (mkPbWriteResponse takes None "disk full" pb_DISK_FULL))) (λ _, false).

Lemma x_table_wf : table_wf x_table.
Proof. intros id h. unfold x_table. rewrite !lookup_insert_Some, lookup_empty. naive_solver. Qed.

Lemma x_write takes b id h c :
  is_ok (stored_replayHint (e_net (x_env takes) b id) x_node h c).1 = takes.
Proof. unfold stored_replayHint, node_Write, call, getClient. cbn. by destruct (decide _), takes. Qed.

(** A node that refuses one hint for ever never finishes its replay. *)
Lemma hint_replay_diverges_witness :
  ∀ fuel, ReplayHintsForNode fuel (x_env false) x_node x_table (mkNodeClient ∅) = None.
Proof.
  intros fuel. apply (hint_replay_diverges fuel (x_env false) x_node x_table (mkNodeClient ∅) (x_hint "h1" 5)).
  - intros b c. apply x_write.
  - done.
  - done.
  - done.
  - done.
  - done.
  - apply x_table_wf.
  - by vm_compute.
Defined.

(** Two hints for the node and one for another node. *)
Lemma hint_replay_completes_witness :
  ∃ c' l, ReplayHintsForNode (S (length (rows_for (NodeID x_node) x_table))) (x_env true) x_node x_table (mkNodeClient ∅) =
      Some (Ok tt, mkReplayState (without_node (NodeID x_node) x_table) c' l) ∧
    l ≡ₚ rows_for (NodeID x_node) x_table ∧ StronglySorted oldest_first l ∧ NoDup (HintID <$> l).
Proof.
  apply (hint_replay_completes (x_env true) x_node x_table (mkNodeClient ∅)).
  - constructor; try done. intros b h c. apply x_write.
  - apply x_table_wf.
Defined.
