(* ===== verification/NodeHandler.v ===== *)
(** * NodeHandler: [coordinator/internal/handler/node_handler_v2.go]

    Adding a storage node and removing one: the handlers, the monitors they
    start in the background, and the rollbacks.  The effects are a state monad
    over the coordinator's database, its ring, its connections, the stored
    hints and a trace of what the nodes answered to the monitors.  A computation
    has no result when the replay of hints has not returned within the fuel of
    the environment.  What the database and the network do is the environment:
    a fault and a time for every call by its number, a link for every request,
    and for the status of a stream a link for every poll and peer.  Nobody else
    writes the tables between two polls. *)

From S2P Require Import Prelude GoHash Model Ring Consistency Routing KeyRange StorageHandler StorageClient MetadataStore StorageNodeClient HintReplay.
#[local] Open Scope Z_scope.

(** ** Definitions *)

(** *** Effects *)

(** The answer to a poll, or the end of a replay. *)
Inductive event :=
  | StreamStatus (source target : string) (answer : res client_error string)
  | HintsReplayed (node : string) (answer : res replay_error unit).

Record cluster := mkCluster {
  cl_db : MetadataStore;
  cl_routing : RoutingService;
  cl_client : StorageNodeClient;
  cl_hints : gmap string StoredHint;
  cl_trace : list event;
  cl_calls : nat;
}.

Record node_env := mkNodeEnv {
  ne_db : nat → option string;
  ne_now : nat → Z;
  ne_start : nat → link StartStreamingRequest (bool * string);
  ne_stop : nat → link StreamRequest (bool * string);
  ne_status : nat → string → link StreamRequest string;
  ne_replay : replay_env;
  ne_fuel : nat;
}.

Definition M (A : Type) : Type := cluster → option (A * cluster).

#[global] Instance M_ret : MRet M := λ A a c, Some (a, c).
#[global] Instance M_bind : MBind M := λ A B f m c,
  match m c with
  | None => None
  | Some (a, c') => f a c'
  end.

Section handler.
Context `{MapRange} `{Scanner} (ev : node_env).

(** [time.Now()]. *)
Definition now : M Z := λ c,
  Some (ne_now ev (cl_calls c),
        mkCluster (cl_db c) (cl_routing c) (cl_client c) (cl_hints c) (cl_trace c) (S (cl_calls c))).

(** A statement of the database, at the time of the call. *)
Definition db_exec {A} (f : option string → MetadataStore → Z → res db_error A * MetadataStore) : M (res db_error A) := λ c,
  let '(r, db) := f (ne_db ev (cl_calls c)) (cl_db c) (ne_now ev (cl_calls c)) in
  Some (r, mkCluster db (cl_routing c) (cl_client c) (cl_hints c) (cl_trace c) (S (cl_calls c))).

Definition db_query {A} (f : option string → MetadataStore → res db_error A) : M (res db_error A) :=
  db_exec (λ fault db _, (f fault db, db)).

(** A call of a storage node. *)
Definition rpc {A} (f : nat → StorageNodeClient → A * StorageNodeClient) : M A := λ c,
  let '(r, client) := f (cl_calls c) (cl_client c) in
  Some (r, mkCluster (cl_db c) (cl_routing c) client (cl_hints c) (cl_trace c) (S (cl_calls c))).

Definition emit (e : event) : M unit := λ c,
  Some (tt, mkCluster (cl_db c) (cl_routing c) (cl_client c) (cl_hints c) (cl_trace c ++ [e]) (cl_calls c)).

Definition get_ring : M ConsistentHasher := λ c, Some (hashRing (cl_routing c), c).

Definition modify_routing (f : RoutingService → RoutingService) : M unit := λ c,
  Some (tt, mkCluster (cl_db c) (f (cl_routing c)) (cl_client c) (cl_hints c) (cl_trace c) (cl_calls c)).

Definition replay_hints (node : StorageNode) : M (res replay_error unit) := λ c,
  match ReplayHintsForNode (ne_fuel ev) (ne_replay ev) node (cl_hints c) (cl_client c) with
  | None => None
  | Some (r, st) =>
      Some (r, mkCluster (cl_db c) (cl_routing c) (rs_client st) (rs_table st)
                 (cl_trace c ++ [HintsReplayed (NodeID node) r]) (cl_calls c))
  end.

Fixpoint fold_each {A B} (f : B → A → M B) (b : B) (l : list A) : M B :=
  match l with
  | [] => mret b
  | a :: l => b ← f b a; fold_each f b l
  end.

Definition for_each {A} (f : A → M unit) (l : list A) : M unit := fold_each (λ _, f) tt l.

(** *** Requests *)

Record AddStorageNodeRequest := mkAddStorageNode {
  ar_NodeId : string;
  ar_Host : string;
  ar_Port : Z;
  ar_VirtualNodes : Z;
}.

Record RemoveStorageNodeRequest := mkRemoveStorageNode {
  rr_NodeId : string;
  rr_Force : bool;
}.

(** The status errors of the handlers, by their cause. *)
Inductive handler_error :=
  | InvalidArgument (field : string)
  | NodeNotFound
  | FailedPrecondition (remaining : Z)
  | Internal (e : db_error).

(** The arguments of the goroutine a handler starts. *)
Record monitor := mkMonitor {
  m_node : StorageNode;
  m_ranges : gmap string (list HashRange);
  m_changeID : string;
}.

(** The number of streams in the message and the monitor that is started. *)
Record NodeResponse := mkNodeResponse {
  nr_NodeId : string;
  nr_streamingStarted : Z;
  nr_monitor : monitor;
}.

(** *** Shared steps *)

Definition getStorageNode (nodeID : string) : M (res db_error StorageNode) :=
  nodes ← db_query (λ fault db, pg_ListStorageNodes fault db);
  mret (match nodes with
        | Err e => Err e
        | Ok nodes =>
            match list_find (λ n, NodeID n = nodeID) nodes with
            | Some (_, n) => Ok n
            | None => Err NoRow
            end
        end).

Definition token_range (r : HashRange) : TokenRange := mkTokenRange (StartHash r) (EndHash r).

Definition range_info (oldOwner newOwner : string) (r : HashRange) : RangeInfo :=
  mkRangeInfo (token_range r) oldOwner newOwner "pending".

Definition client_ranges (ranges : list HashRange) : list (Z * Z) :=
  (λ r, (StartHash r, EndHash r)) <$> ranges.

(** [fmt.Sprintf("bootstrap-%s-%d", nodeID, time.Now().Unix())] and the like. *)
Definition change_id (type nodeID : string) (t : Z) : string :=
  type +:+ "-" +:+ nodeID +:+ "-" +:+ pretty (t / 1000000000).

(** The status of the change is set when the change can be read back. *)
Definition finish_change (changeID : string) (s : PendingChangeStatus) (message : option string) : M unit :=
  pendingChange ← db_query (λ fault db, pg_GetPendingChange fault db changeID);
  match pendingChange with
  | Err _ => mret tt
  | Ok pc =>
      completedAt ← (if decide (s = PendingChangeCompleted) then t ← now; mret (Some t) else mret (CompletedAt pc));
      t ← now;
      _ ← db_exec (λ fault db _, pg_UpdatePendingChange fault db
             (mkPendingChange (ChangeID pc) (pc_Type pc) (pc_NodeID pc) (AffectedNodes pc) (pc_Ranges pc)
                (pc_StartTime pc) s (default (pc_ErrorMessage pc) message) t
                completedAt (Progress pc)));
      mret tt
  end.

(** Ask a source for the state of the stream to a target, in poll [attempt]
    about [peer]. *)
Definition poll_status (attempt : nat) (peer : string) (sourceNode : StorageNode) (source target : string)
    : M (res client_error string) :=
  r ← rpc (λ _ client, node_GetStreamStatus (ne_status ev attempt peer) sourceNode (source, target) client);
  _ ← emit (StreamStatus source target r);
  mret r.

Definition stop_streaming (sourceNode : StorageNode) (source target : string) : M unit :=
  _ ← rpc (λ i client, node_StopStreaming (ne_stop ev i) sourceNode (source, target) client);
  mret tt.

(** [StopStreaming] at every source that can be found. *)
Definition stop_from_sources (target : string) (sources : list string) : M unit :=
  for_each (λ source,
    r ← getStorageNode source;
    match r with
    | Err _ => mret tt
    | Ok sourceNode => stop_streaming sourceNode source target
    end) sources.

Definition update_ranges (nodeID : string) (pending leaving : list RangeInfo) : M (res db_error unit) :=
  db_exec (λ fault db t, pg_UpdateNodeRanges fault db t nodeID pending leaving).
Definition update_state (nodeID : string) (s : NodeState) : M (res db_error unit) :=
  db_exec (λ fault db t, pg_UpdateNodeState fault db t nodeID s).
Definition update_status (nodeID status : string) : M (res db_error unit) :=
  db_exec (λ fault db t, pg_UpdateStorageNodeStatus fault db t nodeID status).

(** *** Adding a node *)

(** The pending ranges of a joining node, source after source. *)
Definition pending_of (assignments : list (string * list HashRange)) (newOwner : string) : list RangeInfo :=
  assignments ≫= λ '(old, ranges), range_info old newOwner <$> ranges.

Definition tokens_of (assignments : list (string * list HashRange)) : list TokenRange :=
  assignments ≫= λ '(_, ranges), token_range <$> ranges.

(** The loop that starts the streams; the number that were started. *)
Definition start_from_sources (node : StorageNode) (assignments : list (string * list HashRange)) : M Z :=
  fold_each (λ started '(oldNodeID, ranges),
    r ← getStorageNode oldNodeID;
    match r with
    | Err _ => mret started
    | Ok oldNode =>
        resp ← rpc (λ i client, node_StartStreaming (ne_start ev i) oldNode
                 (mkStartStreaming oldNodeID (NodeID node) (Host node) (Port node) (client_ranges ranges)) client);
        mret (match resp with
              | Err _ => started
              | Ok (success, _) => if success : bool then started + 1 else started
              end)
    end) 0 assignments.

Definition new_node (req : AddStorageNodeRequest) (createdAt updatedAt : Z) : StorageNode :=
  mkStorageNode (ar_NodeId req) (ar_Host req) (ar_Port req) NodeStatusActive NodeStateBootstrapping
    (if ar_VirtualNodes req =? 0 then 150 else ar_VirtualNodes req) [] [] [] createdAt updatedAt.

(** The part of the handler after the node has been inserted. *)
Definition start_bootstrap (node : StorageNode) : M (res handler_error NodeResponse) :=
  ring ← get_ring;
  let rangeAssignments := CalculateKeyRangesForNewNode ring node in
  let assignments := map_range rangeAssignments in
  r ← update_ranges (NodeID node) (pending_of assignments (NodeID node)) [];
  match r with
  | Err e => mret (Err (Internal e))
  | Ok _ =>
      t ← now;
      let changeID := change_id "bootstrap" (NodeID node) t in
      startTime ← now;
      lastUpdated ← now;
      r ← db_exec (λ fault db _, pg_AddPendingChange fault db
            (mkPendingChange changeID "bootstrap" (NodeID node) assignments.*1 (tokens_of assignments) startTime
               PendingChangeInProgress EmptyString lastUpdated None ∅));
      match r with
      | Err e => mret (Err (Internal e))
      | Ok _ =>
          started ← start_from_sources node assignments;
          mret (Ok (mkNodeResponse (NodeID node) started (mkMonitor node rangeAssignments changeID)))
      end
  end.

Definition AddStorageNodeV2 (req : AddStorageNodeRequest) : M (res handler_error NodeResponse) :=
  if decide (ar_NodeId req = EmptyString) then mret (Err (InvalidArgument "node_id"))
  else if decide (ar_Host req = EmptyString) then mret (Err (InvalidArgument "host"))
  else if ar_Port req =? 0 then mret (Err (InvalidArgument "port"))
  else
    createdAt ← now;
    updatedAt ← now;
    let node := new_node req createdAt updatedAt in
    r ← db_exec (λ fault db t, pg_AddStorageNode fault db t node);
    match r with
    | Err e => mret (Err (Internal e))
    | Ok _ => start_bootstrap node
    end.

Definition rollbackNodeAddition (node : StorageNode) (sourceNodes : list string) (changeID : string) : M unit :=
  _ ← stop_from_sources (NodeID node) sourceNodes;
  _ ← update_status (NodeID node) "failed";
  _ ← update_state (NodeID node) NodeStateDown;
  _ ← update_ranges (NodeID node) [] [];
  finish_change changeID PendingChangeFailed
    (Some "Bootstrap timeout: streaming did not complete within 1 hour").

(** One source in one poll: whether all have completed so far, and which. *)
Definition poll_source (attempt : nat) (newNode : StorageNode) (acc : bool * gset string) (source : string)
    : M (bool * gset string) :=
  let '(allCompleted, completedNodes) := acc in
  if decide (source ∈ completedNodes) then mret acc
  else
    r ← getStorageNode source;
    match r with
    | Err _ => mret (false, completedNodes)
    | Ok sourceNode =>
        st ← poll_status attempt source sourceNode source (NodeID newNode);
        mret (match st with
              | Err _ => (false, completedNodes)
              | Ok state =>
                  if decide (state = "completed") then (allCompleted, {[source]} ∪ completedNodes)
                  else (false, completedNodes)
              end)
    end.

(** The steps after the last stream has completed. *)
Definition complete_bootstrap (newNode : StorageNode) (sourceNodes : list string) (changeID : string) : M unit :=
  r ← replay_hints newNode;
  match r with
  | Err _ => rollbackNodeAddition newNode sourceNodes changeID
  | Ok _ =>
      _ ← modify_routing (routing_AddNode newNode);
      r ← update_state (NodeID newNode) NodeStateNormal;
      match r with
      | Err _ => mret tt
      | Ok _ =>
          _ ← update_status (NodeID newNode) "active";
          _ ← update_ranges (NodeID newNode) [] [];
          _ ← finish_change changeID PendingChangeCompleted None;
          stop_from_sources (NodeID newNode) sourceNodes
      end
  end.

(** The loop of a monitor: the polls that remain, [attempt] being the next. *)
Fixpoint polls (poll : nat → bool * gset string → string → M (bool * gset string)) (peers : list string)
    (complete rollback : M unit) (remaining attempt : nat) (completedNodes : gset string) : M unit :=
  match remaining with
  | O => rollback
  | S remaining =>
      '(allCompleted, completedNodes) ← fold_each (poll attempt) (true, completedNodes) peers;
      if allCompleted : bool then complete
      else polls poll peers complete rollback remaining (S attempt) completedNodes
  end.

Definition maxAttempts : nat := 360.

Definition monitorStreamingProgress (m : monitor) : M unit :=
  let sourceNodes := (map_range (m_ranges m)).*1 in
  polls (λ attempt, poll_source attempt (m_node m)) sourceNodes
    (complete_bootstrap (m_node m) sourceNodes (m_changeID m))
    (rollbackNodeAddition (m_node m) sourceNodes (m_changeID m)) maxAttempts 0 ∅.

(** *** Removing a node *)

Definition minNodesRequired : Z := 3.

Definition activeNodeCount (allNodes : list StorageNode) : Z :=
  foldl (λ n node, if routable node then n + 1 else n) 0 allNodes.

Definition leaving_of (assignments : list (string * list HashRange)) (oldOwner : string) : list RangeInfo :=
  assignments ≫= λ '(inheritor, ranges), range_info oldOwner inheritor <$> ranges.

(** The inheritors' pending ranges; a failure is only logged. *)
Definition mark_inheritors (oldOwner : string) (assignments : list (string * list HashRange)) : M unit :=
  for_each (λ '(inheritor, ranges),
    _ ← update_ranges inheritor (range_info oldOwner inheritor <$> ranges) [];
    mret tt) assignments.

Definition start_to_inheritors (removedNode : StorageNode) (assignments : list (string * list HashRange)) : M Z :=
  fold_each (λ started '(inheritor, ranges),
    r ← getStorageNode inheritor;
    match r with
    | Err _ => mret started
    | Ok inheritingNode =>
        resp ← rpc (λ i client, node_StartStreaming (ne_start ev i) removedNode
                 (mkStartStreaming (NodeID removedNode) inheritor (Host inheritingNode) (Port inheritingNode)
                    (client_ranges ranges)) client);
        mret (match resp with
              | Err _ => started
              | Ok (success, _) => if success : bool then started + 1 else started
              end)
    end) 0 assignments.

(** The part of the handler after the node has been marked as leaving. *)
Definition start_removal (removedNode : StorageNode) : M (res handler_error NodeResponse) :=
  let nodeID := NodeID removedNode in
  ring ← get_ring;
  let rangeAssignments := CalculateKeyRangesForRemovedNode ring removedNode in
  let assignments := map_range rangeAssignments in
  r ← update_ranges nodeID [] (leaving_of assignments nodeID);
  match r with
  | Err e => mret (Err (Internal e))
  | Ok _ =>
      _ ← mark_inheritors nodeID assignments;
      t ← now;
      let changeID := change_id "decommission" nodeID t in
      startTime ← now;
      lastUpdated ← now;
      r ← db_exec (λ fault db _, pg_AddPendingChange fault db
            (mkPendingChange changeID "decommission" nodeID (assignments.*1 ++ [nodeID]) (tokens_of assignments)
               startTime PendingChangeInProgress EmptyString lastUpdated None ∅));
      match r with
      | Err e => mret (Err (Internal e))
      | Ok _ =>
          started ← start_to_inheritors removedNode assignments;
          mret (Ok (mkNodeResponse nodeID started (mkMonitor removedNode rangeAssignments changeID)))
      end
  end.

Definition RemoveStorageNodeV2 (req : RemoveStorageNodeRequest) : M (res handler_error NodeResponse) :=
  if decide (rr_NodeId req = EmptyString) then mret (Err (InvalidArgument "node_id"))
  else
    r ← getStorageNode (rr_NodeId req);
    match r with
    | Err _ => mret (Err NodeNotFound)
    | Ok removedNode =>
        r ← db_query (λ fault db, pg_ListStorageNodes fault db);
        match r with
        | Err e => mret (Err (Internal e))
        | Ok allNodes =>
            let remaining := activeNodeCount allNodes - 1 in
            if negb (rr_Force req) && (remaining <? minNodesRequired) then mret (Err (FailedPrecondition remaining))
            else
              r ← update_status (rr_NodeId req) "draining";
              match r with
              | Err e => mret (Err (Internal e))
              | Ok _ =>
                  r ← update_state (rr_NodeId req) NodeStateLeaving;
                  match r with
                  | Err e => mret (Err (Internal e))
                  | Ok _ => start_removal removedNode
                  end
              end
        end
    end.

(** A stream from the removed node to every inheritor, stopped. *)
Definition stop_to_inheritors (node : StorageNode) (inheritingNodes : list string) : M unit :=
  for_each (λ inheritor, stop_streaming node (NodeID node) inheritor) inheritingNodes.

(** [UpdateNodeRanges(ctx, id, nil, nil)] for every inheritor. *)
Definition clear_ranges (nodes : list string) : M unit :=
  for_each (λ inheritor, _ ← update_ranges inheritor [] []; mret tt) nodes.

Definition rollbackNodeRemoval (node : StorageNode) (inheritingNodes : list string) (changeID : string) : M unit :=
  _ ← stop_to_inheritors node inheritingNodes;
  _ ← update_ranges (NodeID node) [] [];
  _ ← clear_ranges inheritingNodes;
  _ ← update_state (NodeID node) NodeStateNormal;
  _ ← update_status (NodeID node) "active";
  finish_change changeID PendingChangeFailed
    (Some "Decommission timeout: streaming did not complete within 1 hour").

Definition poll_inheritor (attempt : nat) (removedNode : StorageNode) (acc : bool * gset string) (inheritor : string)
    : M (bool * gset string) :=
  let '(allCompleted, completedNodes) := acc in
  if decide (inheritor ∈ completedNodes) then mret acc
  else
    st ← poll_status attempt inheritor removedNode (NodeID removedNode) inheritor;
    mret (match st with
          | Err _ => (false, completedNodes)
          | Ok state =>
              if decide (state = "completed") then (allCompleted, {[inheritor]} ∪ completedNodes)
              else (false, completedNodes)
          end).

Definition complete_removal (removedNode : StorageNode) (inheritingNodes : list string) (changeID : string) : M unit :=
  _ ← modify_routing (routing_RemoveNode (NodeID removedNode));
  _ ← clear_ranges inheritingNodes;
  r ← db_exec (λ fault db _, pg_RemoveStorageNode fault db (NodeID removedNode));
  match r with
  | Err _ => mret tt
  | Ok _ =>
      _ ← finish_change changeID PendingChangeCompleted None;
      stop_to_inheritors removedNode inheritingNodes
  end.

Definition monitorRemovalProgress (m : monitor) : M unit :=
  let inheritingNodes := (map_range (m_ranges m)).*1 in
  polls (λ attempt, poll_inheritor attempt (m_node m)) inheritingNodes
    (complete_removal (m_node m) inheritingNodes (m_changeID m))
    (rollbackNodeRemoval (m_node m) inheritingNodes (m_changeID m)) maxAttempts 0 ∅.

(** *** Listing *)

Record StorageNodeInfo := mkStorageNodeInfo {
  si_NodeId : string;
  si_Host : string;
  si_Port : Z;
  si_Status : string;
  si_VirtualNodes : Z;
}.

Definition node_info (n : StorageNode) : StorageNodeInfo :=
  mkStorageNodeInfo (NodeID n) (Host n) (i32 (Port n)) (status_string (Status n)) (i32 (VirtualNodes n)).

Definition handler_ListStorageNodes : M (res handler_error (list StorageNodeInfo)) :=
  r ← db_query (λ fault db, pg_ListStorageNodes fault db);
  mret (match r with
        | Err e => Err (Internal e)
        | Ok nodes => Ok (node_info <$> nodes)
        end).
End handler.

(** ** Lemmas *)

(** *** Weakest preconditions

    [D] is what is claimed of a computation without a result: [True] for
    partial correctness, [False] for total correctness. *)

Definition wp {A} (D : Prop) (m : M A) (Q : A → cluster → Prop) (c : cluster) : Prop :=
  match m c with
  | None => D
  | Some (a, c') => Q a c'
  end.

Section wp.
Context (D : Prop).

Lemma wp_ret {A} (a : A) (Q : A → cluster → Prop) c : Q a c → wp D (mret a) Q c.
Proof. done. Qed.

Lemma wp_bind {A B} (m : M A) (f : A → M B) Q c : wp D m (λ a, wp D (f a) Q) c → wp D (m ≫= f) Q c.
Proof. unfold wp, mbind, M_bind. by destruct (m c) as [[a c']|]. Qed.

Lemma wp_mono {A} (m : M A) (P Q : A → cluster → Prop) c : wp D m P c → (∀ a c', P a c' → Q a c') → wp D m Q c.
Proof. unfold wp. destruct (m c) as [[a c']|]; [|done]. auto. Qed.

(** The invariant of a loop speaks of the elements that are left. *)
Lemma wp_fold_each {A B} (f : B → A → M B) (I : list A → B → cluster → Prop) b l c :
  (∀ b a l c, I (a :: l) b c → wp D (f b a) (I l) c) → I l b c → wp D (fold_each f b l) (I []) c.
Proof.
  intros Hstep. revert b c. induction l as [|a l IH]; intros b c HI; [done|]. cbn [fold_each].
  apply wp_bind. eapply wp_mono; [by apply Hstep|]. intros b' c' HI'. by apply IH.
Qed.

Lemma wp_for_each {A} (f : A → M unit) (I : cluster → Prop) l c :
  (∀ a c, I c → wp D (f a) (λ _, I) c) → I c → wp D (for_each f l) (λ _, I) c.
Proof. intros Hstep HI. apply (wp_fold_each _ (λ _ _, I)); [|done]. intros _ a _ c' Hc. by apply Hstep. Qed.
End wp.

(** *** What a computation leaves alone *)

(** Only the connections, the trace and the clock have moved. *)
Record quiet (c c' : cluster) : Prop := {
  q_db : cl_db c' = cl_db c;
  q_routing : cl_routing c' = cl_routing c;
  q_hints : cl_hints c' = cl_hints c;
  q_trace : cl_trace c `prefix_of` cl_trace c';
}.

#[global] Instance quiet_refl : Reflexive quiet.
Proof. by intros c. Qed.
#[global] Instance quiet_trans : Transitive quiet.
Proof. intros a b c [? ? ? ?] [? ? ? ?]. split; [congruence..|]. by etrans. Qed.

(** [e] has happened between [c] and [c']. *)
Definition since (c c' : cluster) (e : event) : Prop := ∃ t, cl_trace c' = cl_trace c ++ t ∧ e ∈ t.

Lemma since_before c0 c c' e : cl_trace c0 `prefix_of` cl_trace c → since c c' e → since c0 c' e.
Proof. intros [t0 Ht] (t & Ht' & He). exists (t0 ++ t). rewrite Ht', Ht, <-app_assoc. set_solver. Qed.

Lemma since_after c0 c c' e : since c0 c e → cl_trace c `prefix_of` cl_trace c' → since c0 c' e.
Proof. intros (t & Ht & He) [t' Ht']. exists (t ++ t'). rewrite Ht', Ht, <-app_assoc. set_solver. Qed.

(** The nodes and the ring are as before, and the trace has only grown. *)
Record same_nodes (c c' : cluster) : Prop := {
  s_nodes : storage_nodes (cl_db c') = storage_nodes (cl_db c);
  s_routing : cl_routing c' = cl_routing c;
  s_hints : cl_hints c' = cl_hints c;
  s_trace : cl_trace c `prefix_of` cl_trace c';
}.

#[global] Instance same_nodes_refl : Reflexive same_nodes.
Proof. by intros c. Qed.
#[global] Instance same_nodes_trans : Transitive same_nodes.
Proof. intros a b c [? ? ? ?] [? ? ? ?]. split; [congruence..|]. by etrans. Qed.

Lemma quiet_same c c' : quiet c c' → same_nodes c c'.
Proof. intros [Hdb ? ? ?]. split; [by rewrite Hdb|done..]. Qed.

Section frames.
Context `{MapRange} `{Scanner} (ev : node_env) (D : Prop).

Lemma wp_now Q c : (∀ t c', quiet c c' → Q t c') → wp D (now ev) Q c.
Proof. intros HQ. apply HQ. by split. Qed.

Lemma wp_query {A} (f : option string → MetadataStore → res db_error A) Q c :
  (∀ c', quiet c c' → Q (f (ne_db ev (cl_calls c)) (cl_db c)) c') → wp D (db_query ev f) Q c.
Proof. intros HQ. unfold wp, db_query, db_exec. apply HQ. by split. Qed.

Lemma wp_rpc {A} (f : nat → StorageNodeClient → A * StorageNodeClient) Q c :
  (∀ c', quiet c c' → Q (f (cl_calls c) (cl_client c)).1 c') → wp D (rpc f) Q c.
Proof.
  intros HQ. unfold wp, rpc. specialize (λ db r cl h t n, HQ (mkCluster db r cl h t n)).
  destruct (f _ _) as [r client]. apply HQ. by split.
Qed.

Lemma wp_getStorageNode nodeID Q c :
  (∀ r c', quiet c c' → Q r c') → wp D (getStorageNode ev nodeID) Q c.
Proof. intros HQ. apply wp_bind, wp_query. intros c' Hc. by apply wp_ret, HQ. Qed.

Lemma wp_poll_status attempt peer sourceNode source target Q c :
  let r := (node_GetStreamStatus (ne_status ev attempt peer) sourceNode (source, target) (cl_client c)).1 in
  (∀ c', quiet c c' → since c c' (StreamStatus source target r) → Q r c') →
  wp D (poll_status ev attempt peer sourceNode source target) Q c.
Proof.
  intros r HQ. apply wp_bind, wp_rpc. intros c' [? ? ? [t Ht]]. apply HQ.
  - split; [done..|]. simpl. rewrite Ht. apply prefix_app_r, prefix_app_r. done.
  - exists (t ++ [StreamStatus source target r]). simpl. rewrite Ht, <-app_assoc. split; [done|].
    apply elem_of_app. right. by left.
Qed.

Lemma wp_stop_streaming sourceNode source target Q c :
  (∀ c', quiet c c' → Q tt c') → wp D (stop_streaming ev sourceNode source target) Q c.
Proof. intros HQ. apply wp_bind, wp_rpc. intros c' Hc. by apply wp_ret, HQ. Qed.

Lemma wp_stop_from_sources target sources Q c :
  (∀ c', quiet c c' → Q tt c') → wp D (stop_from_sources ev target sources) Q c.
Proof.
  intros HQ. eapply wp_mono; [apply (wp_for_each _ _ (quiet c)); [|done]|by intros [] c'; apply HQ].
  intros s c1 Hc1. apply wp_bind, wp_getStorageNode. intros [n|e] c2 Hc2; [|apply wp_ret; by etrans].
  apply wp_stop_streaming. intros c3 Hc3. by repeat (etrans; [eassumption|]).
Qed.

Lemma wp_stop_to_inheritors node inheritors Q c :
  (∀ c', quiet c c' → Q tt c') → wp D (stop_to_inheritors ev node inheritors) Q c.
Proof.
  intros HQ. eapply wp_mono; [apply (wp_for_each _ _ (quiet c)); [|done]|by intros [] c'; apply HQ].
  intros s c1 Hc1. apply wp_stop_streaming. intros c3 Hc3. by etrans.
Qed.

(** An UPDATE of one row, or an error and no change. *)
Definition update_effect (id : string) (f : Z → StorageNode → StorageNode) (c c' : cluster) (r : res db_error unit) : Prop :=
  match r with
  | Ok _ => ∃ t n, storage_nodes (cl_db c) !! id = Some n ∧
              storage_nodes (cl_db c') = <[id := f t n]> (storage_nodes (cl_db c))
  | Err _ => storage_nodes (cl_db c') = storage_nodes (cl_db c) ∧
      (ne_db ev (cl_calls c) = None → storage_nodes (cl_db c) !! id = None)
  end.

Record beside (c c' : cluster) : Prop := {
  b_routing : cl_routing c' = cl_routing c;
  b_hints : cl_hints c' = cl_hints c;
  b_trace : cl_trace c' = cl_trace c;
  b_changes : pending_changes (cl_db c') = pending_changes (cl_db c);
}.

Lemma wp_update (f : Z → StorageNode → StorageNode) id Q c :
  (∀ r c', beside c c' → update_effect id f c c' r → Q r c') →
  wp D (db_exec ev (λ fault db t, update_node fault db id (f t))) Q c.
Proof.
  intros HQ. unfold wp, db_exec, update_node, exec.
  destruct (ne_db ev (cl_calls c)) eqn:Hfault.
  { apply HQ; [done|]. split; [done|]. by rewrite Hfault. }
  destruct (storage_nodes (cl_db c) !! id) eqn:Hn; (apply HQ; [done|]).
  - by eexists _, _.
  - by split.
Qed.

Lemma wp_update_ranges id pending leaving Q c :
  (∀ r c', beside c c' → update_effect id (λ t, set_ranges t pending leaving) c c' r → Q r c') →
  wp D (update_ranges ev id pending leaving) Q c.
Proof. apply (wp_update (λ t, set_ranges t pending leaving)). Qed.

Lemma wp_update_state id s Q c :
  (∀ r c', beside c c' → update_effect id (λ t, set_state t s) c c' r → Q r c') →
  wp D (update_state ev id s) Q c.
Proof. apply (wp_update (λ t, set_state t s)). Qed.

Lemma wp_update_status id status s Q c :
  parse_status status = Some s →
  (∀ r c', beside c c' → update_effect id (λ t, set_status t s) c c' r → Q r c') →
  wp D (update_status ev id status) Q c.
Proof. intros Hs. unfold update_status, pg_UpdateStorageNodeStatus. rewrite Hs. apply (wp_update (λ t, set_status t s)). Qed.

(** A status the table does not allow is never stored. *)
Lemma wp_update_status_refused id status Q c :
  parse_status status = None → (∀ r c', quiet c c' → Q r c') → wp D (update_status ev id status) Q c.
Proof.
  intros Hs HQ. unfold wp, update_status, pg_UpdateStorageNodeStatus, db_exec, exec. rewrite Hs.
  destruct (ne_db ev (cl_calls c)); [by apply HQ|]. destruct (storage_nodes (cl_db c) !! id); by apply HQ.
Qed.

Lemma wp_finish_change changeID s message Q c :
  (∀ c', same_nodes c c' → Q tt c') → wp D (finish_change ev changeID s message) Q c.
Proof.
  intros HQ. apply wp_bind, wp_query. intros c1 H1. destruct (pg_GetPendingChange _ _ _) as [pc|e];
    [|by apply wp_ret, HQ, quiet_same].
  apply wp_bind. eapply wp_mono with (P := λ _, quiet c).
  { destruct (decide _); [|done]. apply wp_bind, wp_now. intros t c2 H2. apply wp_ret. by etrans. }
  intros completedAt c2 H2. apply wp_bind, wp_now. intros t c3 H3. apply wp_bind.
  apply (transitivity H2) in H3. apply quiet_same in H3. clear -HQ H3.
  unfold wp at 1, db_exec, pg_UpdatePendingChange, exec.
  destruct (ne_db ev (cl_calls c3)); [|destruct (pending_changes (cl_db c3) !! _)];
    (apply wp_ret, HQ; etrans; [exact H3|by split]).
Qed.
End frames.

(** *** The loop of a monitor *)

Section polls.
Context (D : Prop) (poll : nat → bool * gset string → string → M (bool * gset string)).
Context (peers : list string) (complete rollback : M unit) (c0 : cluster).

(** When a peer counts as completed, its event has happened. *)
Lemma polls_safe (done_event : string → event) Q :
  (∀ attempt b S p c, wp D (poll attempt (b, S) p) (λ bS c', quiet c c' ∧ S ⊆ bS.2 ∧
     (∀ q, q ∈ bS.2 → q ∈ S ∨ since c c' (done_event q)) ∧ (bS.1 = true → b = true ∧ p ∈ bS.2)) c) →
  (∀ c, quiet c0 c → (∀ p, p ∈ peers → since c0 c (done_event p)) → wp D complete Q c) →
  (∀ c, quiet c0 c → wp D rollback Q c) →
  ∀ remaining attempt S c, quiet c0 c → (∀ p, p ∈ S → since c0 c (done_event p)) →
  wp D (polls poll peers complete rollback remaining attempt S) Q c.
Proof.
  intros Hpoll Hcomplete Hrollback. induction remaining as [|remaining IH]; intros attempt S c Hq HS; [by apply Hrollback|].
  cbn [polls]. apply wp_bind.
  eapply wp_mono; [apply (wp_fold_each _ _ (λ l bS c, quiet c0 c ∧ (∀ p, p ∈ bS.2 → since c0 c (done_event p)) ∧
    (bS.1 = true → ∀ p, p ∈ peers → p ∈ l ∨ p ∈ bS.2)))|].
  - intros [b S'] p l c1 (Hq1 & HS1 & Hall). eapply wp_mono; [apply Hpoll|].
    intros [b' S''] c2 (Hq2 & Hsub & Hnew & Hb). cbn [fst snd] in *. split_and!; [by etrans| |].
    + intros q [Hq'|He]%Hnew; [|eapply since_before; [apply Hq1|done]].
      eapply since_after; [by apply HS1|apply Hq2].
    + intros [Hbt Hp]%Hb q Hin. destruct (Hall Hbt q Hin) as [[->|?]%elem_of_cons|?]; [by right|by left|right; by apply Hsub].
  - split_and!; [done..|]. intros _ p Hp. by left.
  - intros [b S'] c' (Hq' & HS' & Hall). cbn [fst snd] in *. destruct b; [|by apply IH].
    apply Hcomplete; [done|]. intros p Hp. destruct (Hall eq_refl p Hp) as [[]%elem_of_nil|?]. by apply HS'.
Qed.

Context (reports : nat → string → Prop) `{!∀ a p, Decision (reports a p)}.

(** What a poll does when it can be made. *)
Definition polled (attempt : nat) (p : string) (bS : bool * gset string) : bool * gset string :=
  if decide (p ∈ bS.2) then bS
  else if decide (reports attempt p) then (bS.1, {[p]} ∪ bS.2) else (false, bS.2).

Definition polls_answer : Prop := ∀ attempt bS p c, p ∈ peers → quiet c0 c →
  wp D (poll attempt bS p) (λ bS' c', quiet c c' ∧ bS' = polled attempt p bS) c.

(** The set after the peers of [visited] have been asked. *)
Definition asked (attempt : nat) (S : gset string) (visited : list string) (bS : bool * gset string) : Prop :=
  (∀ p, p ∈ bS.2 ↔ p ∈ S ∨ p ∈ visited ∧ reports attempt p) ∧ (bS.1 = true ↔ ∀ p, p ∈ visited → p ∈ bS.2).

Lemma asked_snoc attempt S visited p bS :
  asked attempt S visited bS → asked attempt S (visited ++ [p]) (polled attempt p bS).
Proof.
  destruct bS as [b S']. intros [HS Hb]. unfold polled. cbn [fst snd] in *.
  assert (∀ q, q ∈ visited ++ [p] ↔ q ∈ visited ∨ q = p) as Hsnoc.
  { intros q. by rewrite elem_of_app, list_elem_of_singleton. }
  destruct (decide (p ∈ S')) as [Hp|Hp]; [|destruct (decide (reports attempt p)) as [Hr|Hr]]; split; cbn [fst snd].
  - intros q. rewrite HS, Hsnoc. split; [intros [?|[? ?]]; auto|]. intros [?|[[?| ->] ?]]; [by left|by right|by apply HS].
  - rewrite Hb. split; intros Hall q Hq; [apply Hsnoc in Hq as [Hq| ->]; auto|]. apply Hall, Hsnoc. by left.
  - intros q. rewrite elem_of_union, elem_of_singleton, HS, Hsnoc. split; [|intros [?|[[?| ->] ?]]; auto].
    intros [->|[?|[? ?]]]; auto.
  - assert (p ∉ visited) as Hni by (intros ?; apply Hp, HS; by right). rewrite Hb. split; intros Hall q Hq.
    + apply elem_of_union. rewrite elem_of_singleton. apply Hsnoc in Hq as [Hq| ->]; auto.
    + assert (q ∈ {[p]} ∪ S') as [->%elem_of_singleton|?]%elem_of_union; [|done|done]. apply Hall, Hsnoc. by left.
  - intros q. rewrite HS, Hsnoc. split; [intros [?|[? ?]]; auto|]. intros [?|[[?| ->] ?]]; [by left|by right|done].
  - split; [done|]. intros Hall. destruct Hp. apply Hall, Hsnoc. by right.
Qed.

Lemma poll_round attempt S c :
  polls_answer → quiet c0 c →
  wp D (fold_each (poll attempt) (true, S) peers) (λ bS c', quiet c0 c' ∧ asked attempt S peers bS) c.
Proof.
  intros Hpoll Hq.
  eapply wp_mono; [apply (wp_fold_each _ _ (λ l bS c, ∃ visited, peers = visited ++ l ∧ quiet c0 c ∧ asked attempt S visited bS))|].
  - intros bS p l c1 (visited & Hp & Hq1 & Hasked).
    eapply wp_mono; [apply Hpoll; [rewrite Hp; apply elem_of_app; right; by left|done]|]. intros bS' c2 [Hq2 ->].
    exists (visited ++ [p]). rewrite <-app_assoc. split_and!; [done|by etrans|by apply asked_snoc].
  - exists []. split_and!; [done..|]. split; cbn [fst snd].
    + intros p. rewrite elem_of_nil. naive_solver.
    + split; [|done]. by intros _ p []%elem_of_nil.
  - intros bS c' (visited & -> & ? & ?). by rewrite app_nil_r.
Qed.

(** When every poll answers, the monitor completes exactly when every peer
    reports within the attempts. *)
Lemma polls_exact Q :
  let all_report := ∀ p, p ∈ peers → ∃ a, (a < maxAttempts)%nat ∧ reports a p in
  polls_answer →
  (∀ c, quiet c0 c → all_report → wp D complete Q c) → (∀ c, quiet c0 c → ¬ all_report → wp D rollback Q c) →
  wp D (polls poll peers complete rollback maxAttempts 0 ∅) Q c0.
Proof.
  intros all_report Hpoll Hcomplete Hrollback.
  cut (∀ remaining attempt S c, (attempt + remaining = maxAttempts)%nat → quiet c0 c →
    (∀ p, p ∈ S ↔ p ∈ peers ∧ ∃ a, (a < attempt)%nat ∧ reports a p) →
    (attempt = O ∨ ¬ ∀ p, p ∈ peers → p ∈ S) →
    wp D (polls poll peers complete rollback remaining attempt S) Q c).
  { intros Hgen. apply Hgen; [done..| |by left]. intros p. split; [by intros []%elem_of_empty|]. intros (_ & a & ? & _). lia. }
  induction remaining as [|remaining IH]; intros attempt S c Hsum Hq HS Hnot.
  { apply Hrollback; [done|]. intros Hall. destruct Hnot as [->|Hnot]; [discriminate Hsum|].
    apply Hnot. intros p Hp. apply HS. split; [done|]. destruct (Hall p Hp) as (a & ? & ?). exists a. split; [lia|done]. }
  cbn [polls]. apply wp_bind. eapply wp_mono; [by apply poll_round|].
  intros [b S'] c' [Hq' [HS' Hb]]. cbn [fst snd] in *.
  assert (∀ p, p ∈ S' ↔ p ∈ peers ∧ ∃ a, (a < Datatypes.S attempt)%nat ∧ reports a p) as HS''.
  { intros p. rewrite HS', HS. split.
    - intros [(Hp & a & Ha & Hr)|[Hp Hr]]; (split; [done|]); [exists a|exists attempt]; (split; [lia|done]).
    - intros (Hp & a & Ha & Hr). destruct (decide (a = attempt)) as [->|]; [by right|].
      left. split; [done|]. exists a. split; [lia|done]. }
  destruct b.
  - apply Hcomplete; [done|]. intros p Hp. destruct (proj1 (HS'' p) (proj1 Hb eq_refl p Hp)) as (_ & a & ? & ?).
    exists a. split; [lia|done].
  - apply IH; [lia|done|done|]. right. intros Hall. apply Hb in Hall. done.
Qed.
End polls.

(** *** Bootstrap *)

Definition state_of (c : cluster) (id : string) : option NodeState := State <$> storage_nodes (cl_db c) !! id.

(** The ring has not changed and the node has not become NORMAL. *)
Record not_joined (id : string) (c c' : cluster) : Prop := {
  nj_routing : cl_routing c' = cl_routing c;
  nj_state : state_of c' id = Some NodeStateNormal → state_of c id = Some NodeStateNormal;
}.

#[global] Instance not_joined_refl id : Reflexive (not_joined id).
Proof. by intros c. Qed.
#[global] Instance not_joined_trans id : Transitive (not_joined id).
Proof. intros a b c [? ?] [? ?]. split; [congruence|auto]. Qed.

Lemma quiet_not_joined id c c' : quiet c c' → not_joined id c c'.
Proof. intros [Hdb ? _ _]. split; [done|]. unfold state_of. by rewrite Hdb. Qed.

Lemma same_not_joined id c c' : same_nodes c c' → not_joined id c c'.
Proof. intros [Hdb ? _ _]. split; [done|]. unfold state_of. by rewrite Hdb. Qed.

Section bootstrap.
Context `{MapRange} `{Scanner} (ev : node_env).

(** An update that does not make a node NORMAL. *)
Lemma update_not_joined id id' f c c' r :
  (∀ t n, State (f t n) = NodeStateNormal → State n = NodeStateNormal) →
  beside c c' → update_effect ev id f c c' r → not_joined id' c c'.
Proof.
  intros Hf [Hr _ _ _] Heff. split; [done|]. unfold state_of. destruct r as [[]|e].
  - destruct Heff as (t & n & Hn & ->). destruct (decide (id = id')) as [<-|Hne].
    + rewrite lookup_insert_eq, Hn. simpl. intros Heq. injection Heq as Heq. by rewrite (Hf t n Heq).
    + by rewrite lookup_insert_ne.
  - by destruct Heff as [-> _].
Qed.

Lemma wp_rollbackNodeAddition_safe D node sources changeID c :
  wp D (rollbackNodeAddition ev node sources changeID) (λ _, not_joined (NodeID node) c) c.
Proof.
  apply wp_bind, wp_stop_from_sources. intros c1 H1%(quiet_not_joined (NodeID node)).
  apply wp_bind, wp_update_status_refused; [done|]. intros _ c2 H2%(quiet_not_joined (NodeID node)).
  apply wp_bind, wp_update_state. intros r3 c3 H3 He3.
  apply (update_not_joined _ (NodeID node)) in He3; [|done|done].
  apply wp_bind, wp_update_ranges. intros r4 c4 H4 He4.
  apply (update_not_joined _ (NodeID node)) in He4; [|done|done].
  apply wp_finish_change. intros c5 H5%(same_not_joined (NodeID node)).
  by repeat (etrans; [eassumption|]).
Qed.

Lemma wp_poll_source_safe D attempt newNode b S p c :
  wp D (poll_source ev attempt newNode (b, S) p) (λ bS c', quiet c c' ∧ S ⊆ bS.2 ∧
    (∀ q, q ∈ bS.2 → q ∈ S ∨ since c c' (StreamStatus q (NodeID newNode) (Ok "completed"))) ∧
    (bS.1 = true → b = true ∧ p ∈ bS.2)) c.
Proof.
  unfold poll_source. destruct (decide (p ∈ S)); [apply wp_ret; split_and!; auto; done|].
  apply wp_bind, wp_getStorageNode. intros [n'|e] c1 H1; [|apply wp_ret; split_and!; auto; done].
  apply wp_bind, wp_poll_status. intros c2 H2 Hs. apply wp_ret.
  destruct (node_GetStreamStatus _ _ _ _).1 as [state|e].
  2: { split_and!; [by etrans|done|auto|done]. }
  destruct (decide (state = "completed")) as [->|]; cbn [fst snd]; [|split_and!; [by etrans|done|auto|done]].
  split_and!; [by etrans|by apply union_subseteq_r| |].
  - intros q [->%elem_of_singleton|?]%elem_of_union; [right|by left]. eapply since_before; [apply H1|done].
  - intros ->. split; [done|]. apply elem_of_union_l. by apply elem_of_singleton.
Qed.

Lemma wp_replay_hints_safe node Q c :
  (∀ r c', cl_db c' = cl_db c → cl_routing c' = cl_routing c → since c c' (HintsReplayed (NodeID node) r) → Q r c') →
  wp True (replay_hints ev node) Q c.
Proof.
  intros HQ. unfold wp, replay_hints. destruct (ReplayHintsForNode _ _ _ _ _) as [[r st]|]; [|done].
  apply HQ; [done..|]. exists [HintsReplayed (NodeID node) r]. split; [done|by left].
Qed.

(** Once the hints have been replayed, the rest only adds to the trace. *)
Lemma wp_complete_bootstrap_safe node sources changeID c :
  wp True (complete_bootstrap ev node sources changeID) (λ _ c',
    not_joined (NodeID node) c c' ∨ cl_trace c `prefix_of` cl_trace c' ∧ since c c' (HintsReplayed (NodeID node) (Ok tt))) c.
Proof.
  apply wp_bind, wp_replay_hints_safe. intros [[]|e] c1 Hdb Hr Hs.
  - assert (cl_trace c `prefix_of` cl_trace c1) as Hp by (destruct Hs as (t & -> & _); by exists t).
    apply wp_bind. unfold wp at 1, modify_routing. set (c2 := mkCluster _ _ _ _ _ _).
    assert (cl_trace c2 = cl_trace c1) as Ht2 by done. clearbody c2.
    apply wp_bind, wp_update_state. intros [[]|e] c3 [_ _ Ht3 _] _.
    2: { apply wp_ret. right. unfold since. rewrite Ht3, Ht2. by split. }
    apply wp_bind, (wp_update_status _ _ _ _ NodeStatusActive); [done|]. intros r4 c4 [_ _ Ht4 _] _.
    apply wp_bind, wp_update_ranges. intros r5 c5 [_ _ Ht5 _] _.
    apply wp_bind, wp_finish_change. intros c6 [_ _ _ Ht6].
    apply wp_stop_from_sources. intros c7 [_ _ _ Ht7]. rewrite Ht5, Ht4, Ht3, Ht2 in Ht6.
    right. split; [by repeat (etrans; [eassumption|])|]. eapply since_after; [exact Hs|]. by etrans.
  - eapply wp_mono; [apply wp_rollbackNodeAddition_safe|]. intros [] c' Hnj. left. etrans; [|exact Hnj].
    split; [done|]. unfold state_of. by rewrite Hdb.
Qed.

(** *** When the database and the nodes can be reached *)

Record reachable : Prop := {
  r_db i : ne_db ev i = None;
  r_dials attempt peer : dials (ne_status ev attempt peer) = true;
}.

(** The answer of [peer] in poll [attempt] is that the stream has completed. *)
Definition reports_completed (req : string → StreamRequest) (attempt : nat) (peer : string) : Prop :=
  match answer (ne_status ev attempt peer) (req peer) with
  | Ok state => state = "completed"
  | Err _ => False
  end.

#[global] Instance reports_completed_dec req attempt peer : Decision (reports_completed req attempt peer).
Proof. unfold reports_completed. destruct (answer _ _); apply _. Defined.

Context (Hreach : reachable).

Lemma status_answer req attempt peer node c :
  (node_GetStreamStatus (ne_status ev attempt peer) node (req peer) c).1 =
  match answer (ne_status ev attempt peer) (req peer) with Ok s => Ok s | Err e => Err (RpcFailed e) end.
Proof.
  unfold node_GetStreamStatus, call, getClient. rewrite (r_dials Hreach).
  by destruct (decide _), (answer _ _).
Qed.

Lemma completed_answer {A} (x y : A) req attempt peer :
  match match answer (ne_status ev attempt peer) (req peer) with Ok s => Ok s | Err e => Err (RpcFailed e) end with
  | Ok state => if decide (state = "completed") then x else y
  | Err _ => y
  end = if decide (reports_completed req attempt peer) then x else y.
Proof.
  destruct (decide (reports_completed req attempt peer)) as [Hr|Hr]; unfold reports_completed in Hr;
    destruct (answer _ _) as [state|e]; try done; [by rewrite decide_True|by rewrite decide_False].
Qed.

(** A node that can be listed. *)
Definition listed (c : cluster) (id : string) : Prop :=
  ∃ n, storage_nodes (cl_db c) !! id = Some n ∧ NodeID n = id ∧ Status n ≠ NodeStatusInactive.

Lemma wp_getStorageNode_listed D id Q c :
  listed c id → (∀ n c', quiet c c' → NodeID n = id → Q (Ok n) c') → wp D (getStorageNode ev id) Q c.
Proof.
  intros (n & Hn & Hid & Hs) HQ. apply wp_bind, wp_query. intros c' Hc. apply wp_ret.
  unfold pg_ListStorageNodes. rewrite (r_db Hreach).
  destruct (list_find _ _) as [[i n']|] eqn:Hf.
  - apply list_find_Some in Hf as (_ & Hid' & _). by apply HQ.
  - exfalso. apply list_find_None in Hf. rewrite Forall_forall in Hf.
    apply (Hf (listed_node n)); [|done]. apply list_elem_of_fmap. exists n. split; [done|].
    apply list_elem_of_filter. split; [done|]. apply list_elem_of_fmap. exists (id, n). split; [done|].
    by apply elem_of_map_range.
Qed.

Lemma poll_source_answers D newNode sources c0 :
  (∀ s, s ∈ sources → listed c0 s) →
  polls_answer D (λ attempt, poll_source ev attempt newNode) sources c0 (reports_completed (λ s, (s, NodeID newNode))).
Proof.
  intros Hl attempt [b S] p c Hp Hq. unfold poll_source, polled. cbn [fst snd].
  destruct (decide (p ∈ S)); [by apply wp_ret|].
  apply wp_bind, wp_getStorageNode_listed.
  { destruct (Hl p Hp) as (n' & Hn & ?). exists n'. by rewrite (q_db _ _ Hq). }
  intros node c1 H1 _. apply wp_bind, wp_poll_status. intros c2 H2 _. apply wp_ret. split; [by etrans|].
  rewrite (status_answer (λ s, (s, NodeID newNode))). apply (completed_answer _ _ (λ s, (s, NodeID newNode))).
Qed.

Lemma update_total id f c c' r n :
  update_effect ev id f c c' r → storage_nodes (cl_db c) !! id = Some n →
  r = Ok tt ∧ ∃ t, storage_nodes (cl_db c') = <[id := f t n]> (storage_nodes (cl_db c)).
Proof.
  intros Heff Hn. destruct r as [[]|e].
  - destruct Heff as (t & n' & Hn' & ->). rewrite Hn in Hn'. injection Hn' as <-. eauto.
  - destruct Heff as [_ Hnone]. specialize (Hnone (r_db Hreach _)). congruence.
Qed.

(** The row of [n] in a new state, without ranges. *)
Definition settled (n : StorageNode) (status : NodeStatus) (state : NodeState) (t : Z) : StorageNode :=
  mkStorageNode (NodeID n) (Host n) (Port n) status state (VirtualNodes n) (Tokens n) [] [] (node_CreatedAt n) t.

Record settles (id : string) (status : NodeStatus) (state : NodeState) (n : StorageNode) (c c' : cluster) : Prop := {
  se_nodes : ∃ t, storage_nodes (cl_db c') = <[id := settled n status state t]> (storage_nodes (cl_db c));
  se_trace : cl_trace c `prefix_of` cl_trace c';
}.

Lemma wp_rollbackNodeAddition_total D node sources changeID n c :
  storage_nodes (cl_db c) !! NodeID node = Some n →
  wp D (rollbackNodeAddition ev node sources changeID) (λ _ c',
    settles (NodeID node) (Status n) NodeStateDown n c c' ∧ cl_routing c' = cl_routing c ∧ cl_hints c' = cl_hints c) c.
Proof.
  intros Hn. apply wp_bind, wp_stop_from_sources. intros c1 H1.
  apply wp_bind, wp_update_status_refused; [done|]. intros _ c2 H2. apply (transitivity H1) in H2 as [Hdb2 Hr2 Hh2 Ht2].
  apply wp_bind, wp_update_state. intros r3 c3 [Hr3 Hh3 Ht3 _] He3.
  apply (update_total _ _ _ _ _ n) in He3 as [-> (t3 & Hn3)]; [|by rewrite Hdb2].
  apply wp_bind, wp_update_ranges. intros r4 c4 [Hr4 Hh4 Ht4 _] He4.
  eapply update_total in He4 as [-> (t4 & Hn4)]; [|by rewrite Hn3, lookup_insert_eq].
  apply wp_finish_change. intros c5 [Hn5 Hr5 Hh5 Ht5]. split_and!; [|congruence..]. split.
  - exists t4. rewrite Hn5, Hn4, Hn3, insert_insert_eq, Hdb2. done.
  - etrans; [exact Ht2|]. by rewrite <-Ht3, <-Ht4.
Qed.

(** The replay returns: the node takes the hints and there is fuel for them. *)
Record replayable (node : StorageNode) (c : cluster) : Prop := {
  ra_all : all_succeeds (ne_replay ev) node;
  ra_wf : table_wf (cl_hints c);
  ra_fuel : (length (rows_for (NodeID node) (cl_hints c)) < ne_fuel ev)%nat;
}.

Lemma wp_replay_hints_total D node Q c :
  replayable node c →
  (∀ c', cl_db c' = cl_db c → cl_routing c' = cl_routing c → cl_hints c' = without_node (NodeID node) (cl_hints c) →
     cl_trace c `prefix_of` cl_trace c' → Q (Ok tt) c') →
  wp D (replay_hints ev node) Q c.
Proof.
  intros [Hall Hwf Hfuel] HQ. unfold wp, replay_hints.
  destruct (ReplayHintsForNode_all (ne_fuel ev) (ne_replay ev) node (cl_hints c) (cl_client c))
    as (c' & l & -> & _); [done..|]. apply HQ; [done..|]. by apply prefix_app_r.
Qed.

Lemma wp_complete_bootstrap_total D node sources changeID n c :
  replayable node c → storage_nodes (cl_db c) !! NodeID node = Some n →
  wp D (complete_bootstrap ev node sources changeID) (λ _ c',
    settles (NodeID node) NodeStatusActive NodeStateNormal n c c' ∧
    cl_routing c' = routing_AddNode node (cl_routing c) ∧
    cl_hints c' = without_node (NodeID node) (cl_hints c)) c.
Proof.
  intros Hra Hn. apply wp_bind, wp_replay_hints_total; [done|]. intros c1 Hdb1 Hr1 Hh1 Ht1.
  apply wp_bind. unfold wp at 1, modify_routing. set (c2 := mkCluster _ _ _ _ _ _).
  assert (cl_db c2 = cl_db c1) as Hdb2 by done. assert (cl_routing c2 = routing_AddNode node (cl_routing c1)) as Hr2 by done.
  assert (cl_hints c2 = cl_hints c1) as Hh2 by done. assert (cl_trace c2 = cl_trace c1) as Ht2 by done. clearbody c2.
  apply wp_bind, wp_update_state. intros r3 c3 [Hr3 Hh3 Ht3 _] He3.
  apply (update_total _ _ _ _ _ n) in He3 as [-> (t3 & Hn3)]; [|by rewrite Hdb2, Hdb1].
  apply wp_bind, (wp_update_status _ _ _ _ NodeStatusActive); [done|]. intros r4 c4 [Hr4 Hh4 Ht4 _] He4.
  eapply update_total in He4 as [-> (t4 & Hn4)]; [|by rewrite Hn3, lookup_insert_eq].
  apply wp_bind, wp_update_ranges. intros r5 c5 [Hr5 Hh5 Ht5 _] He5.
  eapply update_total in He5 as [-> (t5 & Hn5)]; [|by rewrite Hn4, lookup_insert_eq].
  apply wp_bind, wp_finish_change. intros c6 [Hn6 Hr6 Hh6 Ht6].
  apply wp_stop_from_sources. intros c7 [Hdb7 Hr7 Hh7 Ht7]. split_and!; [|congruence..]. split.
  - exists t5. rewrite Hdb7, Hn6, Hn5, Hn4, Hn3, !insert_insert_eq, Hdb2, Hdb1. done.
  - rewrite Ht5, Ht4, Ht3, Ht2 in Ht6. by repeat (etrans; [eassumption|]).
Qed.
End bootstrap.

(** *** Removal *)

(** The ring has not changed and the row of the node is still there. *)
Record kept (id : string) (c c' : cluster) : Prop := {
  k_routing : cl_routing c' = cl_routing c;
  k_row : is_Some (storage_nodes (cl_db c) !! id) → is_Some (storage_nodes (cl_db c') !! id);
}.

#[global] Instance kept_refl id : Reflexive (kept id).
Proof. by intros c. Qed.
#[global] Instance kept_trans id : Transitive (kept id).
Proof. intros a b c [? ?] [? ?]. split; [congruence|auto]. Qed.

Lemma same_kept id c c' : same_nodes c c' → kept id c c'.
Proof. intros [Hdb ? _ _]. split; [done|]. by rewrite Hdb. Qed.

(** Between two tables the ranges of [ids] have been cleared. *)
Definition cleared (ids : list string) (ns ns' : gmap string StorageNode) : Prop := ∀ id,
  ((id ∉ ids) ∧ ns' !! id = ns !! id) ∨ (id ∈ ids ∧ ∃ t, ns' !! id = set_ranges t [] [] <$> (ns !! id)).

Section removal.
Context `{MapRange} `{Scanner} (ev : node_env).

Lemma update_kept id id' f c c' r : beside c c' → update_effect ev id f c c' r → kept id' c c'.
Proof.
  intros [Hr _ _ _] Heff. split; [done|]. destruct r as [[]|e]; [|by destruct Heff as [-> _]].
  destruct Heff as (t & n & Hn & ->). intros Hs. destruct (decide (id = id')) as [<-|Hne].
  - rewrite lookup_insert_eq. eauto.
  - by rewrite lookup_insert_ne.
Qed.

Lemma wp_clear_ranges_kept D id ids c : wp D (clear_ranges ev ids) (λ _ c', kept id c c' ∧ cl_trace c' = cl_trace c) c.
Proof.
  eapply wp_mono; [apply (wp_for_each _ _ (λ c', kept id c c' ∧ cl_trace c' = cl_trace c)); [|done]|done].
  intros a c1 [H1 Ht1]. apply wp_bind, wp_update_ranges. intros r c2 H2 He.
  apply wp_ret. split; [etrans; [exact H1|]; by eapply update_kept|]. by rewrite (b_trace _ _ H2).
Qed.

Lemma wp_rollbackNodeRemoval_safe D node inheritors changeID c :
  wp D (rollbackNodeRemoval ev node inheritors changeID) (λ _, kept (NodeID node) c) c.
Proof.
  apply wp_bind, wp_stop_to_inheritors. intros c1 H1%quiet_same%(same_kept (NodeID node)).
  apply wp_bind, wp_update_ranges. intros r2 c2 H2 He2. apply (update_kept _ (NodeID node)) in He2; [|done].
  apply wp_bind. eapply wp_mono; [apply (wp_clear_ranges_kept _ (NodeID node))|]. intros [] c3 [H3 _].
  apply wp_bind, wp_update_state. intros r4 c4 H4 He4. apply (update_kept _ (NodeID node)) in He4; [|done].
  apply wp_bind, (wp_update_status _ _ _ _ NodeStatusActive); [done|]. intros r5 c5 H5 He5.
  apply (update_kept _ (NodeID node)) in He5; [|done].
  apply wp_finish_change. intros c6 H6%(same_kept (NodeID node)). by repeat (etrans; [eassumption|]).
Qed.

Lemma wp_poll_inheritor_safe D attempt node b S p c :
  wp D (poll_inheritor ev attempt node (b, S) p) (λ bS c', quiet c c' ∧ S ⊆ bS.2 ∧
    (∀ q, q ∈ bS.2 → q ∈ S ∨ since c c' (StreamStatus (NodeID node) q (Ok "completed"))) ∧
    (bS.1 = true → b = true ∧ p ∈ bS.2)) c.
Proof.
  unfold poll_inheritor. destruct (decide (p ∈ S)); [apply wp_ret; split_and!; auto; done|].
  apply wp_bind, wp_poll_status. intros c2 H2 Hs. apply wp_ret.
  destruct (node_GetStreamStatus _ _ _ _).1 as [state|e]; [|split_and!; auto; done].
  destruct (decide (state = "completed")) as [->|]; cbn [fst snd]; [|split_and!; auto; done].
  split_and!; [done|by apply union_subseteq_r| |].
  - intros q [->%elem_of_singleton|?]%elem_of_union; [by right|by left].
  - intros ->. split; [done|]. apply elem_of_union_l. by apply elem_of_singleton.
Qed.

Lemma wp_complete_removal_trace D node inheritors changeID c :
  wp D (complete_removal ev node inheritors changeID) (λ _ c', cl_trace c `prefix_of` cl_trace c') c.
Proof.
  apply wp_bind. unfold wp at 1, modify_routing. set (c1 := mkCluster _ _ _ _ _ _).
  assert (cl_trace c1 = cl_trace c) as H1 by done. clearbody c1.
  apply wp_bind. eapply wp_mono; [apply (wp_clear_ranges_kept _ EmptyString)|]. intros [] c2 [_ H2].
  apply wp_bind. unfold wp at 1, db_exec. destruct (pg_RemoveStorageNode _ _ _) as [r db]. set (c3 := mkCluster _ _ _ _ _ _).
  assert (cl_trace c3 = cl_trace c2) as H3 by done. clearbody c3. destruct r as [[]|e].
  - apply wp_bind, wp_finish_change. intros c4 [_ _ _ H4]. apply wp_stop_to_inheritors. intros c5 [_ _ _ H5].
    rewrite H3, H2, H1 in H4. by etrans.
  - apply wp_ret. by rewrite H3, H2, H1.
Qed.

Context (Hreach : reachable ev).

Lemma poll_inheritor_answers D node inheritors c0 :
  polls_answer D (λ attempt, poll_inheritor ev attempt node) inheritors c0 (reports_completed ev (λ s, (NodeID node, s))).
Proof.
  intros attempt [b S] p c Hp Hq. unfold poll_inheritor, polled. cbn [fst snd].
  destruct (decide (p ∈ S)); [by apply wp_ret|].
  apply wp_bind, wp_poll_status. intros c2 H2 _. apply wp_ret. split; [done|].
  rewrite (status_answer ev Hreach (λ s, (NodeID node, s))). apply (completed_answer ev _ _ (λ s, (NodeID node, s))).
Qed.

Lemma wp_clear_ranges D ids c :
  wp D (clear_ranges ev ids) (λ _ c', beside c c' ∧ cleared ids (storage_nodes (cl_db c)) (storage_nodes (cl_db c'))) c.
Proof.
  revert c. induction ids as [|a ids IH]; intros c.
  { apply wp_ret. split; [done|]. intros id. left. split; [by intros []%elem_of_nil|done]. }
  unfold clear_ranges, for_each. cbn [fold_each]. apply wp_bind, wp_bind, wp_update_ranges. intros r c1 H1 He. apply wp_ret.
  eapply wp_mono; [apply IH|]. intros [] c2 [H2 Hc]. split.
  { destruct H1, H2. split; congruence. }
  assert (cleared [a] (storage_nodes (cl_db c)) (storage_nodes (cl_db c1))) as H1'.
  { intros id. rewrite list_elem_of_singleton. destruct r as [[]|e].
    - destruct He as (t & n & Hn & ->). destruct (decide (id = a)) as [->|].
      + right. split; [done|]. exists t. by rewrite lookup_insert_eq, Hn.
      + left. by rewrite lookup_insert_ne.
    - destruct He as [-> Hnone]. destruct (decide (id = a)) as [->|]; [|by left].
      right. split; [done|]. exists 0. by rewrite (Hnone (r_db _ Hreach _)). }
  intros id. rewrite elem_of_cons. specialize (Hc id). specialize (H1' id). rewrite list_elem_of_singleton in H1'.
  destruct Hc as [[? ->]|[? [t ->]]], H1' as [[? ->]|[? [t' ->]]].
  - left. naive_solver.
  - right. split; [by left|]. by exists t'.
  - right. split; [by right|]. by exists t.
  - right. split; [by left|]. exists t. by destruct (storage_nodes (cl_db c) !! id).
Qed.

Lemma wp_rollbackNodeRemoval_total D node inheritors changeID n c :
  storage_nodes (cl_db c) !! NodeID node = Some n →
  wp D (rollbackNodeRemoval ev node inheritors changeID) (λ _ c',
    (∃ t, storage_nodes (cl_db c') !! NodeID node = Some (settled n NodeStatusActive NodeStateNormal t)) ∧
    cl_routing c' = cl_routing c) c.
Proof.
  intros Hn. apply wp_bind, wp_stop_to_inheritors. intros c1 [Hdb1 Hr1 _ _].
  apply wp_bind, wp_update_ranges. intros r2 c2 [Hr2 _ _ _] He2.
  apply (update_total ev Hreach _ _ _ _ _ n) in He2 as [-> (t2 & Hn2)]; [|by rewrite Hdb1].
  apply wp_bind. eapply wp_mono; [apply wp_clear_ranges|]. intros [] c3 [[Hr3 _ _ _] Hc].
  assert (∃ t3, storage_nodes (cl_db c3) !! NodeID node = Some (set_ranges t3 [] [] n)) as [t3 Hn3].
  { destruct (Hc (NodeID node)) as [[_ ->]|[_ [t ->]]]; rewrite Hn2, lookup_insert_eq; eauto. }
  apply wp_bind, wp_update_state. intros r4 c4 [Hr4 _ _ _] He4.
  eapply (update_total ev Hreach) in He4 as [-> (t4 & Hn4)]; [|done].
  apply wp_bind, (wp_update_status _ _ _ _ NodeStatusActive); [done|]. intros r5 c5 [Hr5 _ _ _] He5.
  eapply (update_total ev Hreach) in He5 as [-> (t5 & Hn5)]; [|by rewrite Hn4, lookup_insert_eq].
  apply wp_finish_change. intros c6 [Hn6 Hr6 _ _]. split; [|congruence].
  exists t5. by rewrite Hn6, Hn5, lookup_insert_eq.
Qed.

(** A change that is gone cannot be marked. *)
Lemma wp_finish_change_gone D changeID s message Q c :
  pending_changes (cl_db c) !! changeID = None → (∀ c', quiet c c' → Q tt c') →
  wp D (finish_change ev changeID s message) Q c.
Proof.
  intros Hnone HQ. apply wp_bind, wp_query. intros c1 H1. unfold pg_GetPendingChange.
  rewrite (r_db _ Hreach), Hnone. by apply wp_ret, HQ.
Qed.

Lemma wp_complete_removal_total D node inheritors changeID n row c :
  storage_nodes (cl_db c) !! NodeID node = Some n →
  pending_changes (cl_db c) !! changeID = Some row → cr_node_id row = NodeID node →
  wp D (complete_removal ev node inheritors changeID) (λ _ c',
    storage_nodes (cl_db c') !! NodeID node = None ∧
    cl_routing c' = routing_RemoveNode (NodeID node) (cl_routing c) ∧
    pending_changes (cl_db c') !! changeID = None) c.
Proof.
  intros Hn Hrow Hid. apply wp_bind. unfold wp at 1, modify_routing. set (c1 := mkCluster _ _ _ _ _ _).
  assert (cl_db c1 = cl_db c) as Hdb1 by done.
  assert (cl_routing c1 = routing_RemoveNode (NodeID node) (cl_routing c)) as Hr1 by done. clearbody c1.
  apply wp_bind. eapply wp_mono; [apply wp_clear_ranges|]. intros [] c2 [[Hr2 _ _ Hch2] Hc].
  assert (is_Some (storage_nodes (cl_db c2) !! NodeID node)) as [n2 Hn2].
  { destruct (Hc (NodeID node)) as [[_ ->]|[_ [t ->]]]; rewrite Hdb1, Hn; eauto. }
  apply wp_bind. unfold wp at 1, db_exec, pg_RemoveStorageNode, exec. rewrite (r_db _ Hreach), Hn2.
  set (c3 := mkCluster _ _ _ _ _ _). assert (cl_routing c3 = cl_routing c2) as Hr3 by done.
  assert (storage_nodes (cl_db c3) !! NodeID node = None) as Hn3 by apply lookup_delete_eq.
  assert (pending_changes (cl_db c3) !! changeID = None) as Hc3.
  { simpl. rewrite Hch2, Hdb1. apply map_lookup_filter_None_2. right. intros row' Hrow'. naive_solver. }
  clearbody c3. apply wp_bind, wp_finish_change_gone; [done|]. intros c4 [Hdb4 Hr4 _ _].
  apply wp_stop_to_inheritors. intros c5 [Hdb5 Hr5 _ _]. rewrite Hdb5, Hdb4. split_and!; [done|congruence|done].
Qed.
End removal.

Lemma wp_total (m : M unit) Q c : wp False m (λ _, Q) c → ∃ c', m c = Some (tt, c') ∧ Q c'.
Proof. unfold wp. destruct (m c) as [[[] c']|]; [eauto|done]. Qed.

Lemma elem_of_range_dom `{MapRange} {V} (m : gmap string V) s : s ∈ (map_range m).*1 ↔ s ∈ dom m.
Proof.
  rewrite list_elem_of_fmap, elem_of_dom. split.
  - intros ([s' v] & -> & Hin%elem_of_map_range). by exists v.
  - intros [v Hv]. exists (s, v). split; [done|]. by apply elem_of_map_range.
Qed.

Lemma replayable_quiet `{MapRange} ev node c c' : quiet c c' → replayable ev node c → replayable ev node c'.
Proof. intros [_ _ Hh _] [? ? ?]. split; [done|by rewrite Hh..]. Qed.

Lemma settles_quiet id status state n c c1 c2 :
  quiet c c1 → settles id status state n c1 c2 → settles id status state n c c2.
Proof. intros [Hdb _ _ Ht] [[t Hn] Ht']. split; [exists t; by rewrite Hn, Hdb|by etrans]. Qed.

(** ** Properties *)

Section properties.
Context `{MapRange} `{Scanner} (ev : node_env).

(** C7: A joining node becomes NORMAL, or the ring changes, only after every source
    node has reported that its stream has completed and the replay of the hints
    for the node has returned without error, whatever the database, the network
    and the sources do.  This is said of monitors that end. *)
Theorem bootstrap_only_after_streams (m : monitor) (c c' : cluster) :
  let id := NodeID (m_node m) in
  monitorStreamingProgress ev m c = Some (tt, c') →
  cl_routing c' ≠ cl_routing c ∨
    (state_of c' id = Some NodeStateNormal ∧ state_of c id ≠ Some NodeStateNormal) →
  (∀ source, source ∈ dom (m_ranges m) → since c c' (StreamStatus source id (Ok "completed"))) ∧
  since c c' (HintsReplayed id (Ok tt)).
Proof.
  intros id Hrun Hjoined.
  assert (wp True (monitorStreamingProgress ev m) (λ _ c', not_joined id c c' ∨
    (∀ source, source ∈ dom (m_ranges m) → since c c' (StreamStatus source id (Ok "completed"))) ∧
    since c c' (HintsReplayed id (Ok tt))) c) as Hwp.
  { apply (polls_safe _ _ _ _ _ c (λ s, StreamStatus s id (Ok "completed"))); try done.
    - intros. apply wp_poll_source_safe.
    - intros c1 H1 Hall. eapply wp_mono; [apply wp_complete_bootstrap_safe|].
      intros [] c2 [Hnj|[Hp Hs]]; [left; etrans; [by apply quiet_not_joined|done]|right]. split.
      + intros s Hs'. eapply since_after; [apply Hall|exact Hp].
        by apply elem_of_range_dom.
      + eapply since_before; [apply H1|exact Hs].
    - intros c1 H1. eapply wp_mono; [apply wp_rollbackNodeAddition_safe|]. intros [] c2 Hnj.
      left. etrans; [by apply quiet_not_joined|done]. }
  unfold wp in Hwp. rewrite Hrun in Hwp. destruct Hwp as [[Hr Hs]|?]; [|done].
  destruct Hjoined as [Hj|[Hj1 Hj2]]; [done|]. by apply Hs in Hj1.
Qed.

(** With the database and the sources within reach and a node that takes its
    hints, the monitor of a joining node ends: if every source reports within
    360 polls that its stream has completed, the node is NORMAL, active and
    without pending ranges, its hints are gone and it has been added to the
    ring; otherwise it is DOWN and without pending ranges, and the ring and the
    hints are as before. *)
Theorem bootstrap_outcome (m : monitor) (c : cluster) (n : StorageNode) :
  let id := NodeID (m_node m) in
  reachable ev → replayable ev (m_node m) c → storage_nodes (cl_db c) !! id = Some n →
  (∀ source, source ∈ dom (m_ranges m) → listed c source) →
  let all_report := ∀ source, source ∈ dom (m_ranges m) →
    ∃ attempt, (attempt < 360)%nat ∧ reports_completed ev (λ s, (s, id)) attempt source in
  ∃ c', monitorStreamingProgress ev m c = Some (tt, c') ∧
    ((all_report ∧ settles id NodeStatusActive NodeStateNormal n c c' ∧
      cl_routing c' = routing_AddNode (m_node m) (cl_routing c) ∧ cl_hints c' = without_node id (cl_hints c)) ∨
     (¬ all_report ∧ settles id (Status n) NodeStateDown n c c' ∧
      cl_routing c' = cl_routing c ∧ cl_hints c' = cl_hints c)).
Proof.
  intros id Hreach Hra Hn Hl all_report.
  assert (∀ s, s ∈ (map_range (m_ranges m)).*1 ↔ s ∈ dom (m_ranges m)) as Hdom by apply elem_of_range_dom.
  apply wp_total, (polls_exact False _ _ _ _ _ (reports_completed ev (λ s, (s, id)))).
  - apply poll_source_answers; [done|]. intros s Hs. by apply Hl, Hdom.
  - intros c1 Hq Hall. eapply wp_mono; [apply (wp_complete_bootstrap_total ev Hreach _ _ _ _ n)|].
    + by eapply replayable_quiet.
    + by rewrite (q_db _ _ Hq).
    + intros [] c2 (Hs & Hr & Hh). left. rewrite Hr, Hh, (q_routing _ _ Hq), (q_hints _ _ Hq).
      split_and!; [|by eapply settles_quiet|done..]. intros s Hs'. by apply Hall, Hdom.
  - intros c1 Hq Hnot. eapply wp_mono; [apply (wp_rollbackNodeAddition_total ev Hreach _ _ _ _ n)|].
    + by rewrite (q_db _ _ Hq).
    + intros [] c2 (Hs & Hr & Hh). right. rewrite Hr, Hh, (q_routing _ _ Hq), (q_hints _ _ Hq).
      split_and!; [|by eapply settles_quiet|done..]. intros Hall. apply Hnot. intros s Hs'. by apply Hall, Hdom.
Qed.

(** The row of a node that is being removed is deleted, or the ring changes,
    only after the node has reported for every inheritor that the stream to it
    has completed. *)
Theorem removal_only_after_streams (m : monitor) (c c' : cluster) :
  let id := NodeID (m_node m) in
  monitorRemovalProgress ev m c = Some (tt, c') →
  cl_routing c' ≠ cl_routing c ∨
    (is_Some (storage_nodes (cl_db c) !! id) ∧ storage_nodes (cl_db c') !! id = None) →
  ∀ inheritor, inheritor ∈ dom (m_ranges m) → since c c' (StreamStatus id inheritor (Ok "completed")).
Proof.
  intros id Hrun Hremoved.
  assert (wp True (monitorRemovalProgress ev m) (λ _ c', kept id c c' ∨
    (∀ inheritor, inheritor ∈ dom (m_ranges m) → since c c' (StreamStatus id inheritor (Ok "completed")))) c) as Hwp.
  { apply (polls_safe _ _ _ _ _ c (λ s, StreamStatus id s (Ok "completed"))); try done.
    - intros. apply wp_poll_inheritor_safe.
    - intros c1 H1 Hall. eapply wp_mono; [apply wp_complete_removal_trace|].
      intros [] c2 Hp. right. intros s Hs. eapply since_after; [|exact Hp]. apply Hall. by apply elem_of_range_dom.
    - intros c1 H1. eapply wp_mono; [apply wp_rollbackNodeRemoval_safe|]. intros [] c2 Hk.
      left. etrans; [by apply same_kept, quiet_same|done]. }
  unfold wp in Hwp. rewrite Hrun in Hwp. destruct Hwp as [[Hr Hs]|?]; [|done].
  destruct Hremoved as [Hj|[Hj1 Hj2]]; [done|]. apply Hs in Hj1. rewrite Hj2 in Hj1. by destruct Hj1.
Qed.

(** C8: With the database and the node within reach, the monitor of a removal ends:
    if the node reports every stream as completed within 360 polls, its row is
    gone, it is out of the ring, and the record of the change is gone with the
    row; otherwise the node is NORMAL and active again and the ring is as
    before. *)
Theorem removal_outcome (m : monitor) (c : cluster) (n : StorageNode) (row : change_row) :
  let id := NodeID (m_node m) in
  reachable ev → storage_nodes (cl_db c) !! id = Some n →
  pending_changes (cl_db c) !! m_changeID m = Some row → cr_node_id row = id →
  let all_report := ∀ inheritor, inheritor ∈ dom (m_ranges m) →
    ∃ attempt, (attempt < 360)%nat ∧ reports_completed ev (λ s, (id, s)) attempt inheritor in
  ∃ c', monitorRemovalProgress ev m c = Some (tt, c') ∧
    ((all_report ∧ storage_nodes (cl_db c') !! id = None ∧
      cl_routing c' = routing_RemoveNode id (cl_routing c) ∧ pending_changes (cl_db c') !! m_changeID m = None) ∨
     (¬ all_report ∧ cl_routing c' = cl_routing c ∧
      ∃ t, storage_nodes (cl_db c') !! id = Some (settled n NodeStatusActive NodeStateNormal t))).
Proof.
  intros id Hreach Hn Hrow Hid all_report.
  assert (∀ s, s ∈ (map_range (m_ranges m)).*1 ↔ s ∈ dom (m_ranges m)) as Hdom by apply elem_of_range_dom.
  apply wp_total, (polls_exact False _ _ _ _ _ (reports_completed ev (λ s, (id, s)))).
  - by apply poll_inheritor_answers.
  - intros c1 Hq Hall. eapply wp_mono; [apply (wp_complete_removal_total ev Hreach _ _ _ _ n row)|];
      rewrite ?(q_db _ _ Hq); try done.
    intros [] c2 (Hs & Hr & Hc). left. rewrite Hr, (q_routing _ _ Hq). split_and!; [|done..].
    intros s Hs'. by apply Hall, Hdom.
  - intros c1 Hq Hnot. eapply wp_mono; [apply (wp_rollbackNodeRemoval_total ev Hreach _ _ _ _ n)|].
    + by rewrite (q_db _ _ Hq).
    + intros [] c2 (Hs & Hr). right. rewrite Hr, (q_routing _ _ Hq). split_and!; [|done..].
      intros Hall. apply Hnot. intros s Hs'. by apply Hall, Hdom.
Qed.
End properties.

(** *** Witnesses *)

Section witnesses.
#[local] Instance strict_scanner : Scanner := None.

Definition x_row (id : string) (state : NodeState) : StorageNode :=
  mkStorageNode id "10.0.0.1" 9090 NodeStatusActive state 1 [] [] [] 0 0.

(** Node [a] is NORMAL and [b] is in the given state, with a change of type
    [type]. *)
Definition x_cluster (type : string) (state : NodeState) : cluster :=
  mkCluster
    (mkMetadataStore ∅ (<["a" := x_row "a" NodeStateNormal]> (<["b" := x_row "b" state]> ∅))
       {[ "ch" := mkChangeRow type "b" ["a"] [] 0 PendingChangeInProgress None 0 ∅ ]})
    NewRoutingService NewStorageNodeClient ∅ [] 0.

Definition x_monitor (state : NodeState) : monitor := mkMonitor (x_row "b" state) {[ "a" := [mkHashRange 0 5] ]} "ch".

(** The stream has completed from poll [k] on. *)
Definition x_world (k : nat) : node_env :=
  mkNodeEnv (λ _, None) (λ i, Z.of_nat i) (λ _, mkLink true (λ _, Ok (true, EmptyString)))
    (λ _, mkLink true (λ _, Ok (true, EmptyString)))
    (λ attempt _, mkLink true (λ _, Ok (if (k <=? attempt)%nat then "completed" else "streaming")))
    (x_env true) 1.

Definition x_after (m : M unit) (c : cluster) : cluster := match m c with Some (_, c') => c' | None => c end.

Lemma x_reachable k : reachable (x_world k).
Proof. by split. Qed.

Lemma x_replayable k : replayable (x_world k) (x_row "b" NodeStateBootstrapping) (x_cluster "bootstrap" NodeStateBootstrapping).
Proof.
  split.
  - constructor; try done. intros b h c. unfold stored_replayHint, node_Write, call, getClient. cbn. by destruct (decide _).
  - apply map_Forall_empty.
  - by vm_compute.
Qed.

(** The third poll of one source ends the bootstrap. *)
Lemma bootstrap_only_after_streams_witness :
  let c := x_cluster "bootstrap" NodeStateBootstrapping in
  let run := monitorStreamingProgress (x_world 2) (x_monitor NodeStateBootstrapping) in
  since c (x_after run c) (HintsReplayed "b" (Ok tt)).
Proof.
  intros c run.
  apply (bootstrap_only_after_streams (x_world 2) (x_monitor NodeStateBootstrapping) c (x_after run c)).
  - by vm_compute.
  - right. split; [by vm_compute|]. by vm_compute.
Defined.

Lemma bootstrap_outcome_witness :
  ∃ c', monitorStreamingProgress (x_world 2) (x_monitor NodeStateBootstrapping)
          (x_cluster "bootstrap" NodeStateBootstrapping) = Some (tt, c').
Proof.
  edestruct (bootstrap_outcome (x_world 2) (x_monitor NodeStateBootstrapping) (x_cluster "bootstrap" NodeStateBootstrapping))
    as (c' & Hrun & _).
  - apply x_reachable.
  - apply x_replayable.
  - by vm_compute.
  - intros source Hs. change (dom _) with (dom ({["a" := [mkHashRange 0 5]]} : gmap string (list HashRange))) in Hs.
    apply dom_singleton, elem_of_singleton in Hs as ->. eexists. split_and!; [by vm_compute|done..].
  - by exists c'.
Defined.

Lemma removal_only_after_streams_witness :
  let c := x_cluster "decommission" NodeStateLeaving in
  let run := monitorRemovalProgress (x_world 2) (x_monitor NodeStateLeaving) in
  since c (x_after run c) (StreamStatus "b" "a" (Ok "completed")).
Proof.
  intros c run.
  apply (removal_only_after_streams (x_world 2) (x_monitor NodeStateLeaving) c (x_after run c)).
  - by vm_compute.
  - right. split; [by exists (x_row "b" NodeStateLeaving)|by vm_compute].
  - apply elem_of_dom. by exists [mkHashRange 0 5].
Defined.

Lemma removal_outcome_witness :
  ∃ c', monitorRemovalProgress (x_world 2) (x_monitor NodeStateLeaving)
          (x_cluster "decommission" NodeStateLeaving) = Some (tt, c').
Proof.
  edestruct (removal_outcome (x_world 2) (x_monitor NodeStateLeaving) (x_cluster "decommission" NodeStateLeaving))
    as (c' & Hrun & _).
  - apply x_reachable.
  - by vm_compute.
  - by vm_compute.
  - done.
  - by exists c'.
Defined.
End witnesses.
