(* ===== verification/NodeLifecycle.v ===== *)
(** * NodeLifecycle: a node's addition and removal against the routing refresh

    The handlers and monitors of NodeHandler.v keep the tables well formed, and
    what [RoutingService.updateHashRing] makes of the tables they leave: a node
    that joins, a node that failed to join and a node that leaves. *)

From S2P Require Import Prelude GoHash Model Ring Consistency Routing KeyRange StorageHandler StorageClient MetadataStore StorageNodeClient HintReplay NodeHandler.
#[local] Open Scope Z_scope.

(** ** Definitions *)

(** The background refresh of the ring, from the tables of the coordinator. *)
Definition refresh `{MapRange} (c : cluster) : res routing_error RoutingService :=
  updateHashRing (pg_ListStorageNodes None (cl_db c)) (cl_routing c).

(** ** Lemmas *)

(** *** Invariants of the tables and of the ring *)

(** What holds of the two after any statement and any change of the ring. *)
Class Stable (I : MetadataStore → RoutingService → Prop) := {
  stable_statement fault t s db r : I db r → I (run_statement fault t s db).2 r;
  stable_add node db r : I db r → I db (routing_AddNode node r);
  stable_remove id db r : I db r → I db (routing_RemoveNode id r);
}.

Definition preserves (I : MetadataStore → RoutingService → Prop) {A} (m : M A) : Prop :=
  ∀ c, I (cl_db c) (cl_routing c) → wp True m (λ _ c', I (cl_db c') (cl_routing c')) c.

Create HintDb preserves discriminated.

Section preserves.
Context `{MapRange} `{Scanner} (ev : node_env) {I : MetadataStore → RoutingService → Prop} `{!Stable I}.

Lemma pres_ret {A} (a : A) : preserves I (mret a).
Proof. by intros c. Qed.

Lemma pres_bind {A B} (m : M A) (f : A → M B) : preserves I m → (∀ a, preserves I (f a)) → preserves I (m ≫= f).
Proof. intros Hm Hf c Hc. apply wp_bind. eapply wp_mono; [by apply Hm|]. intros a c'. apply Hf. Qed.

Lemma pres_statement s : preserves I (db_exec ev (λ fault db t, run_statement fault t s db)).
Proof.
  intros c Hc. unfold wp, db_exec.
  pose proof (stable_statement (ne_db ev (cl_calls c)) (ne_now ev (cl_calls c)) s _ _ Hc) as Hs.
  by destruct (run_statement _ _ _ _).
Qed.

Lemma pres_quiet {A} (m : M A) : (∀ c, wp True m (λ _, quiet c) c) → preserves I m.
Proof. intros Hm c Hc. eapply wp_mono; [apply Hm|]. intros a c' Hq. by rewrite (q_db _ _ Hq), (q_routing _ _ Hq). Qed.

Lemma pres_fold {A B} (f : B → A → M B) b l : (∀ b a, preserves I (f b a)) → preserves I (fold_each f b l).
Proof. intros Hf c Hc. apply (wp_fold_each _ _ (λ _ _ c, I (cl_db c) (cl_routing c))); [|done]. intros b' a _ c'. apply Hf. Qed.

Lemma pres_now : preserves I (now ev).
Proof. by intros c. Qed.
Lemma pres_query {A} (f : option string → MetadataStore → res db_error A) : preserves I (db_query ev f).
Proof. by intros c. Qed.
Lemma pres_rpc {A} (f : nat → StorageNodeClient → A * StorageNodeClient) : preserves I (rpc f).
Proof. intros c. unfold wp, rpc. by destruct (f _ _). Qed.
Lemma pres_emit e : preserves I (emit e).
Proof. by intros c. Qed.
Lemma pres_ring : preserves I get_ring.
Proof. by intros c. Qed.
Lemma pres_routing_add node : preserves I (modify_routing (routing_AddNode node)).
Proof. intros c. apply stable_add. Qed.
Lemma pres_routing_remove id : preserves I (modify_routing (routing_RemoveNode id)).
Proof. intros c. apply stable_remove. Qed.
Lemma pres_replay node : preserves I (replay_hints ev node).
Proof. intros c Hc. unfold wp, replay_hints. by destruct (ReplayHintsForNode _ _ _ _ _) as [[r st]|]. Qed.

Lemma pres_polls poll peers complete rollback remaining attempt S :
  (∀ attempt bS p, preserves I (poll attempt bS p)) → preserves I complete → preserves I rollback →
  preserves I (polls poll peers complete rollback remaining attempt S).
Proof.
  intros Hpoll Hc Hr. revert attempt S. induction remaining as [|remaining IH]; intros attempt S; [done|].
  cbn [polls]. apply pres_bind; [by apply pres_fold|]. intros [[] S']; [done|apply IH].
Qed.
End preserves.

#[export] Hint Resolve pres_ret pres_now pres_query pres_rpc pres_emit pres_ring pres_routing_add pres_routing_remove
  pres_replay : preserves.

(** Follow the structure of a computation down to its calls. *)
Ltac preserve :=
  repeat match goal with
  | |- preserves _ (mbind _ _) => apply pres_bind; [|intros ?]
  | |- preserves _ (for_each _ _) => apply pres_fold; intros ? ?
  | |- preserves _ (fold_each _ _ _) => apply pres_fold; intros ? ?
  | |- preserves _ (match ?x with _ => _ end) => destruct x
  | |- preserves _ (let '_ := ?x in _) => destruct x
  | |- preserves _ _ => solve [auto with preserves]
  end.

Section operations.
Context `{MapRange} `{Scanner} (ev : node_env) {I : MetadataStore → RoutingService → Prop} `{!Stable I}.

Lemma pres_update_ranges id pending leaving : preserves I (update_ranges ev id pending leaving).
Proof. apply (pres_statement ev (SUpdateNodeRanges id pending leaving)). Qed.
Lemma pres_update_state id s : preserves I (update_state ev id s).
Proof. apply (pres_statement ev (SUpdateNodeState id s)). Qed.
Lemma pres_update_status id status : preserves I (update_status ev id status).
Proof. apply (pres_statement ev (SUpdateStorageNodeStatus id status)). Qed.
Lemma pres_add_node node : preserves I (db_exec ev (λ fault db t, pg_AddStorageNode fault db t node)).
Proof. apply (pres_statement ev (SAddStorageNode node)). Qed.
Lemma pres_remove_node id : preserves I (db_exec ev (λ fault db _, pg_RemoveStorageNode fault db id)).
Proof. apply (pres_statement ev (SRemoveStorageNode id)). Qed.
Lemma pres_add_change pc : preserves I (db_exec ev (λ fault db _, pg_AddPendingChange fault db pc)).
Proof. apply (pres_statement ev (SAddPendingChange pc)). Qed.
Lemma pres_update_change pc : preserves I (db_exec ev (λ fault db _, pg_UpdatePendingChange fault db pc)).
Proof. apply (pres_statement ev (SUpdatePendingChange pc)). Qed.

#[local] Hint Resolve pres_update_ranges pres_update_state pres_update_status pres_add_node pres_remove_node
  pres_add_change pres_update_change : preserves.

Lemma pres_getStorageNode id : preserves I (getStorageNode ev id).
Proof. unfold getStorageNode. preserve. Qed.
Lemma pres_poll_status attempt peer node source target : preserves I (poll_status ev attempt peer node source target).
Proof. unfold poll_status. preserve. Qed.
Lemma pres_stop_streaming node source target : preserves I (stop_streaming ev node source target).
Proof. unfold stop_streaming. preserve. Qed.
Lemma pres_finish_change id s message : preserves I (finish_change ev id s message).
Proof. unfold finish_change. preserve. Qed.

#[local] Hint Resolve pres_getStorageNode pres_poll_status pres_stop_streaming pres_finish_change : preserves.

Lemma pres_stop_from_sources target sources : preserves I (stop_from_sources ev target sources).
Proof. unfold stop_from_sources. preserve. Qed.
Lemma pres_stop_to_inheritors node inheritors : preserves I (stop_to_inheritors ev node inheritors).
Proof. unfold stop_to_inheritors. preserve. Qed.
Lemma pres_clear_ranges ids : preserves I (clear_ranges ev ids).
Proof. unfold clear_ranges. preserve. Qed.
Lemma pres_mark_inheritors id assignments : preserves I (mark_inheritors ev id assignments).
Proof. unfold mark_inheritors. preserve. Qed.
Lemma pres_start_from_sources node assignments : preserves I (start_from_sources ev node assignments).
Proof. unfold start_from_sources. preserve. Qed.
Lemma pres_start_to_inheritors node assignments : preserves I (start_to_inheritors ev node assignments).
Proof. unfold start_to_inheritors. preserve. Qed.

#[local] Hint Resolve pres_stop_from_sources pres_stop_to_inheritors pres_clear_ranges pres_mark_inheritors
  pres_start_from_sources pres_start_to_inheritors : preserves.

Lemma pres_add req : preserves I (AddStorageNodeV2 ev req).
Proof. unfold AddStorageNodeV2, start_bootstrap. cbv zeta. preserve. Qed.

Lemma pres_remove req : preserves I (RemoveStorageNodeV2 ev req).
Proof. unfold RemoveStorageNodeV2, start_removal. cbv zeta. preserve. Qed.

Lemma pres_rollbackNodeAddition node sources id : preserves I (rollbackNodeAddition ev node sources id).
Proof. unfold rollbackNodeAddition. preserve. Qed.

#[local] Hint Resolve pres_rollbackNodeAddition : preserves.

Lemma pres_monitor_join m : preserves I (monitorStreamingProgress ev m).
Proof.
  apply pres_polls.
  - intros attempt [b S] p. unfold poll_source. preserve.
  - unfold complete_bootstrap. preserve.
  - preserve.
Qed.

Lemma pres_monitor_removal m : preserves I (monitorRemovalProgress ev m).
Proof.
  apply pres_polls.
  - intros attempt [b S] p. unfold poll_inheritor. preserve.
  - unfold complete_removal. preserve.
  - unfold rollbackNodeRemoval. preserve.
Qed.
End operations.

#[global] Instance db_wf_Stable : Stable (λ db _, db_wf db).
Proof. split; [intros; by apply run_statement_wf|done..]. Qed.

(** The ring came about by additions and removals. *)
Definition ring_reached (r : RoutingService) : Prop := ∃ os, r = mkRouting (run_ring os).

Lemma ring_reached_step r o : ring_reached r → ring_reached (mkRouting (ring_step (hashRing r) o)).
Proof. intros [os ->]. exists (os ++ [o]). unfold run_ring. by rewrite foldl_app. Qed.

#[global] Instance ring_reached_Stable : Stable (λ db r, db_wf db ∧ ring_reached r).
Proof.
  split.
  - intros fault t s db r [Hdb Hr]. split; [by apply run_statement_wf|done].
  - intros node db r [Hdb Hr]. split; [done|]. by apply (ring_reached_step r (RAdd (NodeID node) (VirtualNodes node))).
  - intros id db r [Hdb Hr]. split; [done|]. by apply (ring_reached_step r (RRemove id)).
Qed.

(** *** What the refresh makes of the tables *)

Lemma node_map_None l id : node_map l !! id = None → ∀ n, n ∈ l → NodeID n ≠ id.
Proof.
  unfold node_map. intros Hn n Hin <-. revert Hn.
  assert (∀ m : gmap string StorageNode, is_Some (m !! NodeID n) ∨ n ∈ l →
    is_Some (foldl (λ m node, <[NodeID node := node]> m) m l !! NodeID n)) as Hgen.
  { clear Hin. induction l as [|n' l IH]; intros m [Hm|Hin]; simpl; [done|by apply elem_of_nil in Hin|..]; apply IH.
    - left. rewrite lookup_insert_is_Some'. by right.
    - apply elem_of_cons in Hin as [->|?]; [left|by right]. rewrite lookup_insert_eq. by eexists. }
  destruct (Hgen ∅) as [x ->]; [by right|done].
Qed.

Section refresh.
Context `{MapRange}.

(** The nodes a refresh adds to the ring. *)
Definition refreshed (c : cluster) : list StorageNode :=
  filter (λ node, routable node = true)
    (listed_node <$> filter (λ n, Status n ≠ NodeStatusInactive) (map_range (storage_nodes (cl_db c))).*2).

Definition refresh_ops (c : cluster) : list ring_op := (λ n, RAdd (NodeID n) (VirtualNodes n)) <$> refreshed c.

Lemma refresh_ok c : refresh c = Ok (mkRouting (run_ring (refresh_ops c))).
Proof.
  unfold refresh, updateHashRing, pg_ListStorageNodes, refresh_ops, run_ring. do 2 f_equal.
  rewrite foldl_fmap. done.
Qed.

Lemma elem_of_refreshed c n :
  n ∈ refreshed c ↔ ∃ id row, storage_nodes (cl_db c) !! id = Some row ∧ n = listed_node row ∧ routable row = true.
Proof.
  unfold refreshed. rewrite list_elem_of_filter, list_elem_of_fmap. split.
  - intros (Hr & row & -> & Hin). apply list_elem_of_filter in Hin as (_ & Hin).
    apply list_elem_of_fmap in Hin as ([id row'] & -> & Hin%elem_of_map_range). by exists id, row'.
  - intros (id & row & Hrow & -> & Hr). split; [done|]. exists row. split; [done|]. apply list_elem_of_filter. split.
    + intros Hs. unfold routable in Hr. rewrite Hs in Hr. done.
    + apply list_elem_of_fmap. exists (id, row). split; [done|]. by apply elem_of_map_range.
Qed.

Lemma run_ring_nodes l id :
  is_Some (nodeVNodes (run_ring ((λ n, RAdd (NodeID n) (VirtualNodes n)) <$> l)) !! id) ↔ id ∈ NodeID <$> l.
Proof.
  induction l as [|n l IH] using rev_ind; [simpl; rewrite elem_of_nil, is_Some_alt; by vm_compute|].
  rewrite !fmap_app. unfold run_ring in *. rewrite foldl_app. cbn [fmap list_fmap foldl ring_step].
  rewrite AddNode_eq. cbn [nodeVNodes]. rewrite lookup_insert_is_Some', IH, elem_of_app, list_elem_of_singleton. naive_solver.
Qed.

(** A node is in the ring after a refresh when its row is routable. *)
Lemma refresh_membership c s id row :
  db_wf (cl_db c) → storage_nodes (cl_db c) !! id = Some row → refresh c = Ok s →
  is_Some (nodeVNodes (hashRing s) !! id) ↔ routable row = true.
Proof.
  intros Hwf Hrow Hs. rewrite refresh_ok in Hs. injection Hs as <-. cbn [hashRing]. unfold refresh_ops.
  rewrite run_ring_nodes, list_elem_of_fmap. split.
  - intros (n & -> & (id' & row' & Hrow' & -> & Hr)%elem_of_refreshed). cbn [NodeID listed_node] in Hrow.
    destruct (wf_nodes _ Hwf _ _ Hrow') as [<- _]. congruence.
  - intros Hr. exists (listed_node row). split; [by destruct (wf_nodes _ Hwf _ _ Hrow)|].
    apply elem_of_refreshed. by exists id, row.
Qed.

(** The listed nodes as a map. *)
Lemma node_map_listed c id row :
  db_wf (cl_db c) → storage_nodes (cl_db c) !! id = Some row → Status row ≠ NodeStatusInactive →
  node_map (listed_node <$> filter (λ n, Status n ≠ NodeStatusInactive) (map_range (storage_nodes (cl_db c))).*2) !! id
  = Some (listed_node row).
Proof.
  intros Hwf Hrow Hs. set (l := listed_node <$> _).
  assert (listed_node row ∈ l) as Hin.
  { apply list_elem_of_fmap. exists row. split; [done|]. apply list_elem_of_filter. split; [done|].
    apply list_elem_of_fmap. exists (id, row). split; [done|]. by apply elem_of_map_range. }
  assert (∀ n, n ∈ l → NodeID n = id → n = listed_node row) as Huniq.
  { intros n (row' & -> & Hin')%list_elem_of_fmap Hid. apply list_elem_of_filter in Hin' as [_ Hin'].
    apply list_elem_of_fmap in Hin' as ([id' row''] & -> & Hl%elem_of_map_range). simpl in *.
    destruct (wf_nodes _ Hwf _ _ Hl) as [<- _]. rewrite Hid in Hl. congruence. }
  assert (NodeID (listed_node row) = id) as Hid by (by destruct (wf_nodes _ Hwf _ _ Hrow)).
  destruct (node_map l !! id) as [n|] eqn:Hn.
  - apply node_map_lookup in Hn as [Hid' Hin']. by rewrite (Huniq n Hin' Hid').
  - exfalso. apply (node_map_None _ _ Hn (listed_node row)); done.
Qed.
End refresh.

(** *** The handlers *)

(** The row of a node has this status and this state. *)
Definition row_is (c : cluster) (id : string) (status : NodeStatus) (state : NodeState) : Prop :=
  ∃ row, storage_nodes (cl_db c) !! id = Some row ∧ Status row = status ∧ State row = state.

Section handlers.
Context `{MapRange} `{Scanner} (ev : node_env).

Lemma update_ranges_row D id id' pending leaving status state c Q :
  row_is c id status state → (∀ r c', beside c c' → row_is c' id status state → Q r c') →
  wp D (update_ranges ev id' pending leaving) Q c.
Proof.
  intros (row & Hrow & Hs & Ht) HQ. apply wp_update_ranges. intros r c' Hb He. apply HQ; [done|].
  destruct r as [[]|e]; [|destruct He as [He _]; exists row; by rewrite He].
  destruct He as (t & n & Hn & He). unfold row_is. rewrite He. destruct (decide (id = id')) as [<-|Hne].
  - rewrite lookup_insert_eq. eexists. split; [done|]. rewrite Hn in Hrow. by injection Hrow as ->.
  - rewrite lookup_insert_ne by done. by exists row.
Qed.

Lemma quiet_row c c' id status state : quiet c c' → row_is c id status state → row_is c' id status state.
Proof. intros Hq (row & Hrow & ?). exists row. by rewrite (q_db _ _ Hq). Qed.

(** Storing a change leaves the nodes and the ring alone. *)
Lemma wp_add_change D pc Q c :
  (∀ r c', same_nodes c c' → Q r c') → wp D (db_exec ev (λ fault db _, pg_AddPendingChange fault db pc)) Q c.
Proof.
  intros HQ. unfold wp, db_exec, pg_AddPendingChange, exec.
  destruct (ne_db ev (cl_calls c)); [by apply HQ|]. destruct (change_check _); simpl; [|by apply HQ].
  destruct (pending_changes (cl_db c) !! ChangeID pc), (storage_nodes (cl_db c) !! pc_NodeID pc); by apply HQ.
Qed.

Lemma same_row c c' id status state : same_nodes c c' → row_is c id status state → row_is c' id status state.
Proof. intros Hq (row & Hrow & ?). exists row. by rewrite (s_nodes _ _ Hq). Qed.

Lemma wp_start_streams D (f : Z → string * list HashRange → M Z) started assignments Q c :
  (∀ started a c Q, (∀ r c', quiet c c' → Q r c') → wp D (f started a) Q c) →
  (∀ r c', quiet c c' → Q r c') → wp D (fold_each f started assignments) Q c.
Proof.
  intros Hf HQ. eapply wp_mono; [apply (wp_fold_each _ _ (λ _ _, quiet c)); [|done]|by auto].
  intros b a l c1 H1. apply Hf. intros r c2 H2. by etrans.
Qed.

Lemma wp_start_from_sources D node assignments Q c :
  (∀ r c', quiet c c' → Q r c') → wp D (start_from_sources ev node assignments) Q c.
Proof.
  apply wp_start_streams. intros started [old ranges] c1 Q1 HQ. apply wp_bind, wp_getStorageNode.
  intros [n|e] c2 H2; [|by apply wp_ret, HQ]. apply wp_bind, wp_rpc. intros c3 H3. apply wp_ret, HQ. by etrans.
Qed.

Lemma wp_start_to_inheritors D node assignments Q c :
  (∀ r c', quiet c c' → Q r c') → wp D (start_to_inheritors ev node assignments) Q c.
Proof.
  apply wp_start_streams. intros started [old ranges] c1 Q1 HQ. apply wp_bind, wp_getStorageNode.
  intros [n|e] c2 H2; [|by apply wp_ret, HQ]. apply wp_bind, wp_rpc. intros c3 H3. apply wp_ret, HQ. by etrans.
Qed.

(** A change of the ring or of a node's row is left to the monitors: after the
    insertion the handler keeps the status and the state. *)
Lemma wp_start_bootstrap node status state c :
  row_is c (NodeID node) status state →
  wp True (start_bootstrap ev node) (λ r c', row_is c' (NodeID node) status state ∧ cl_routing c' = cl_routing c) c.
Proof.
  intros Hrow. apply wp_bind. unfold wp at 1, get_ring. cbv zeta.
  apply wp_bind. eapply update_ranges_row; [done|]. intros [[]|e] c1 [Hr1 _ _ _] Hrow1; [|by apply wp_ret].
  apply wp_bind, wp_now. intros t2 c2 H2. apply wp_bind, wp_now. intros t3 c3 H3. apply wp_bind, wp_now. intros t4 c4 H4.
  assert (quiet c1 c4) as H14 by (by repeat (etrans; [eassumption|])).
  apply wp_bind, wp_add_change. intros r c5 H5.
  assert (row_is c5 (NodeID node) status state) as Hrow5 by (by eapply same_row, quiet_row).
  assert (cl_routing c5 = cl_routing c) as Hr5 by (rewrite (s_routing _ _ H5), (q_routing _ _ H14); done).
  destruct r as [[]|e]; [|by apply wp_ret].
  apply wp_bind, wp_start_from_sources. intros started c6 H6. apply wp_ret.
  split; [by eapply quiet_row|]. by rewrite (q_routing _ _ H6).
Qed.

Lemma wp_AddStorageNodeV2 req c :
  wp True (AddStorageNodeV2 ev req) (λ r c', cl_routing c' = cl_routing c ∧
    (is_ok r = true → row_is c' (ar_NodeId req) NodeStatusActive NodeStateBootstrapping)) c.
Proof.
  unfold AddStorageNodeV2. destruct (decide _); [by apply wp_ret|]. destruct (decide _); [by apply wp_ret|].
  destruct (ar_Port req =? 0); [by apply wp_ret|].
  apply wp_bind, wp_now. intros t1 c1 H1. apply wp_bind, wp_now. intros t2 c2 H2. cbv zeta.
  assert (cl_routing c2 = cl_routing c) as Hr2 by (rewrite (q_routing _ _ H2); apply H1). clear H1 H2.
  apply wp_bind. unfold wp at 1, db_exec, pg_AddStorageNode, exec. set (node := new_node req t1 t2).
  destruct (ne_db ev (cl_calls c2)); [by apply wp_ret|]. destruct (node_check node); [|by apply wp_ret].
  cbn [negb]. destruct (storage_nodes (cl_db c2) !! NodeID node); [by apply wp_ret|].
  eapply wp_mono; [apply (wp_start_bootstrap node NodeStatusActive NodeStateBootstrapping)|].
  - eexists. cbn [cl_db storage_nodes with_nodes]. rewrite lookup_insert_eq. by split.
  - intros r c' [Hrow Hr]. split; [by rewrite Hr|]. done.
Qed.

Lemma wp_mark_inheritors D old assignments id status state c :
  row_is c id status state →
  wp D (mark_inheritors ev old assignments) (λ _ c', row_is c' id status state ∧ cl_routing c' = cl_routing c) c.
Proof.
  intros Hrow. apply (wp_for_each _ _ (λ c', row_is c' id status state ∧ cl_routing c' = cl_routing c)); [|done].
  intros [inheritor ranges] c1 [H1 Hr1]. apply wp_bind. eapply update_ranges_row; [exact H1|].
  intros r c2 [Hr2 _ _ _] H2. apply wp_ret. split; [done|congruence].
Qed.

Lemma wp_start_removal node status state c :
  row_is c (NodeID node) status state →
  wp True (start_removal ev node) (λ r c', row_is c' (NodeID node) status state ∧ cl_routing c' = cl_routing c) c.
Proof.
  intros Hrow. apply wp_bind. unfold wp at 1, get_ring. cbv zeta.
  apply wp_bind. eapply update_ranges_row; [done|]. intros [[]|e] c1 [Hr1 _ _ _] Hrow1; [|by apply wp_ret].
  apply wp_bind. eapply wp_mono; [by apply wp_mark_inheritors|]. intros [] c2 [Hrow2 Hr2].
  apply wp_bind, wp_now. intros t3 c3 H3. apply wp_bind, wp_now. intros t4 c4 H4. apply wp_bind, wp_now. intros t5 c5 H5.
  assert (quiet c2 c5) as H25 by (by repeat (etrans; [eassumption|])).
  apply wp_bind, wp_add_change. intros r c6 H6.
  assert (row_is c6 (NodeID node) status state) as Hrow6 by (by eapply same_row, quiet_row).
  assert (cl_routing c6 = cl_routing c) as Hr6.
  { rewrite (s_routing _ _ H6), (q_routing _ _ H25). congruence. }
  destruct r as [[]|e]; [|by apply wp_ret].
  apply wp_bind, wp_start_to_inheritors. intros started c7 H7. apply wp_ret.
  split; [by eapply quiet_row|]. by rewrite (q_routing _ _ H7).
Qed.

(** [getStorageNode] answers with a node of that id. *)
Lemma wp_getStorageNode_id D id Q c :
  (∀ r c', quiet c c' → (∀ n, r = Ok n → NodeID n = id) → Q r c') → wp D (getStorageNode ev id) Q c.
Proof.
  intros HQ. apply wp_bind, wp_query. intros c' Hc. apply wp_ret, HQ; [done|].
  intros n. destruct (pg_ListStorageNodes _ _) as [nodes|e]; [|done].
  destruct (list_find _ _) as [[i n']|] eqn:Hf; [|done]. intros [= ->]. by apply list_find_Some in Hf as (_ & ? & _).
Qed.

Lemma wp_RemoveStorageNodeV2 req c :
  wp True (RemoveStorageNodeV2 ev req) (λ r c', cl_routing c' = cl_routing c ∧
    (is_ok r = true → row_is c' (rr_NodeId req) NodeStatusDraining NodeStateLeaving)) c.
Proof.
  unfold RemoveStorageNodeV2. destruct (decide _); [by apply wp_ret|].
  apply wp_bind, wp_getStorageNode_id. intros [node|e] c1 H1 Hid; [|apply wp_ret; split; [apply H1|done]].
  specialize (Hid node eq_refl). apply wp_bind, wp_query. intros c2 H2. apply (transitivity H1) in H2 as [_ Hr2 _ _].
  destruct (pg_ListStorageNodes _ _) as [allNodes|e]; [|by apply wp_ret]. cbv zeta.
  destruct (negb _ && _); [by apply wp_ret|].
  apply wp_bind, (wp_update_status _ _ _ _ NodeStatusDraining); [done|]. intros [[]|e] c3 [Hr3 _ _ _] He3;
    [|apply wp_ret; split; [congruence|done]].
  destruct He3 as (t3 & n3 & _ & Hn3).
  apply wp_bind, wp_update_state. intros [[]|e] c4 [Hr4 _ _ _] He4; [|apply wp_ret; split; [congruence|done]].
  destruct He4 as (t4 & n4 & Hn4 & He4). rewrite Hn3, lookup_insert_eq in Hn4. injection Hn4 as <-.
  rewrite <-Hid in *. eapply wp_mono; [apply (wp_start_removal node NodeStatusDraining NodeStateLeaving)|].
  - eexists. rewrite He4, lookup_insert_eq. by split.
  - intros r c5 [Hrow Hr5]. split; [congruence|done].
Qed.
End handlers.

Lemma wp_error {E A} (m : M (res E A)) c :
  wp False m (λ r c', match r with Err _ => quiet c c' | Ok _ => False end) c →
  ∃ e c', m c = Some (Err e, c') ∧ quiet c c'.
Proof. unfold wp. destruct (m c) as [[[a|e] c']|]; [done|eauto|done]. Qed.

(** ** Properties *)

Section properties.
Context `{MapRange} `{Scanner} (ev : node_env).

(** The handlers for adding and removing a node and their monitors keep the
    tables well formed, on every path and whatever fails. *)
Theorem node_operations_wf (req : AddStorageNodeRequest) (req' : RemoveStorageNodeRequest) (m : monitor) (c : cluster) :
  db_wf (cl_db c) →
  (∀ r c', AddStorageNodeV2 ev req c = Some (r, c') → db_wf (cl_db c')) ∧
  (∀ r c', RemoveStorageNodeV2 ev req' c = Some (r, c') → db_wf (cl_db c')) ∧
  (∀ c', monitorStreamingProgress ev m c = Some (tt, c') → db_wf (cl_db c')) ∧
  (∀ c', monitorRemovalProgress ev m c = Some (tt, c') → db_wf (cl_db c')).
Proof.
  intros Hwf. split_and!.
  - intros r c' Hr. pose proof (pres_add (I := λ db _, db_wf db) ev req c Hwf) as Hp. unfold wp in Hp. by rewrite Hr in Hp.
  - intros r c' Hr. pose proof (pres_remove (I := λ db _, db_wf db) ev req' c Hwf) as Hp. unfold wp in Hp. by rewrite Hr in Hp.
  - intros c' Hr. pose proof (pres_monitor_join (I := λ db _, db_wf db) ev m c Hwf) as Hp. unfold wp in Hp. by rewrite Hr in Hp.
  - intros c' Hr. pose proof (pres_monitor_removal (I := λ db _, db_wf db) ev m c Hwf) as Hp. unfold wp in Hp. by rewrite Hr in Hp.
Qed.

(** C29: A node that has only been accepted is put on the ring by the next refresh,
    although its streams have not run; a node that is leaving is dropped from
    the ring by the next refresh, although its streams have not run.  The
    handlers themselves do not touch the ring. *)
Theorem refresh_ignores_streams (c : cluster) :
  db_wf (cl_db c) →
  (∀ req resp c' s, AddStorageNodeV2 ev req c = Some (Ok resp, c') → refresh c' = Ok s →
     cl_routing c' = cl_routing c ∧ is_Some (nodeVNodes (hashRing s) !! ar_NodeId req)) ∧
  (∀ req resp c' s, RemoveStorageNodeV2 ev req c = Some (Ok resp, c') → refresh c' = Ok s →
     cl_routing c' = cl_routing c ∧ nodeVNodes (hashRing s) !! rr_NodeId req = None).
Proof.
  intros Hwf. split; intros req resp c' s Hrun Hs.
  - pose proof (pres_add (I := λ db _, db_wf db) ev req c Hwf) as Hp. pose proof (wp_AddStorageNodeV2 ev req c) as Ha. unfold wp in Hp, Ha.
    rewrite Hrun in Hp, Ha. destruct Ha as [Hr Hrow]. split; [done|].
    destruct (Hrow eq_refl) as (row & Hl & Hst & _). apply (refresh_membership c' s _ row Hp Hl Hs).
    apply bool_decide_eq_true. by left.
  - pose proof (pres_remove (I := λ db _, db_wf db) ev req c Hwf) as Hp. pose proof (wp_RemoveStorageNodeV2 ev req c) as Ha. unfold wp in Hp, Ha.
    rewrite Hrun in Hp, Ha. destruct Ha as [Hr Hrow]. split; [done|].
    destruct (Hrow eq_refl) as (row & Hl & Hst & _).
    destruct (nodeVNodes (hashRing s) !! rr_NodeId req) eqn:Hv; [|done].
    assert (routable row = true) as Hrt by (apply (refresh_membership c' s _ row Hp Hl Hs); rewrite Hv; by eexists).
    apply bool_decide_eq_true in Hrt. rewrite Hst in Hrt. by destruct Hrt.
Qed.

(** After a failed bootstrap the status of the node is still [active], since
    the table refuses [failed]: the next refresh puts the node on the ring, and
    every key with the node among its replicas can be neither written nor
    read, since the node is DOWN. *)
Theorem failed_bootstrap_blocks_keys (node : StorageNode) (sources : list string) (changeID : string) (c : cluster) (n : StorageNode) :
  let id := NodeID node in
  reachable ev → db_wf (cl_db c) → storage_nodes (cl_db c) !! id = Some n → Status n = NodeStatusActive →
  ∃ c' s, rollbackNodeAddition ev node sources changeID c = Some (tt, c') ∧ refresh c' = Ok s ∧
    is_Some (nodeVNodes (hashRing s) !! id) ∧
    ∀ tenantID key rf, id ∈ vn_NodeID <$> GetNodes (hashRing s) (hash (compositeKey tenantID key)) rf →
      is_ok (GetWriteReplicas s (pg_ListStorageNodes None (cl_db c')) tenantID key rf) = false ∧
      is_ok (GetReadReplicas s (pg_ListStorageNodes None (cl_db c')) tenantID key rf) = false.
Proof.
  intros id Hreach Hwf Hn Hst.
  pose proof (wp_rollbackNodeAddition_total ev Hreach False node sources changeID n c Hn) as Hroll.
  apply wp_total in Hroll as (c' & Hrun & [[t Hnodes] _] & _).
  assert (db_wf (cl_db c')) as Hwf'.
  { pose proof (pres_rollbackNodeAddition (I := λ db _, db_wf db) ev node sources changeID c Hwf) as Hp. unfold wp in Hp. by rewrite Hrun in Hp. }
  assert (storage_nodes (cl_db c') !! id = Some (settled n NodeStatusActive NodeStateDown t)) as Hrow.
  { by rewrite Hnodes, Hst, lookup_insert_eq. }
  exists c', (mkRouting (run_ring (refresh_ops c'))). split; [done|]. split; [apply refresh_ok|]. split.
  { eapply refresh_membership; [done|exact Hrow|apply refresh_ok|done]. }
  intros tenantID key rf (vn & Hvn & Hin)%list_elem_of_fmap.
  assert (∀ nodes, GetWriteReplicas (mkRouting (run_ring (refresh_ops c'))) (pg_ListStorageNodes None (cl_db c'))
            tenantID key rf ≠ Ok nodes) as Hno.
  { intros nodes (_ & Hall)%GetWriteReplicas_ok. apply list_elem_of_lookup in Hin as [i Hin].
    eapply Forall2_lookup_l in Hall as (y & _ & Hy); [|exact Hin].
    unfold resolve in Hy. rewrite <-Hvn, (node_map_listed c' id _ Hwf' Hrow) in Hy by done. discriminate Hy. }
  split.
  - destruct (GetWriteReplicas _ _ _ _ _) eqn:Hw; [by destruct (Hno a)|done].
  - change (GetReadReplicas ?a ?b ?c ?d ?e) with (GetWriteReplicas a b c d e).
    destruct (GetWriteReplicas _ _ _ _ _) eqn:Hw; [by destruct (Hno a)|done].
Qed.

(** A request to add a node with a missing field or with the id of a node that
    has a row is refused, and so is a request without force to remove a node
    when fewer than three routable nodes would remain; a refused request leaves
    the tables, the ring and the hints alone. *)
Theorem node_requests_refused (req : AddStorageNodeRequest) (req' : RemoveStorageNodeRequest) (c : cluster)
    (allNodes : list StorageNode) :
  (∀ i, ne_db ev i = None) → pg_ListStorageNodes None (cl_db c) = Ok allNodes →
  (ar_NodeId req = EmptyString ∨ ar_Host req = EmptyString ∨ ar_Port req = 0 ∨
     is_Some (storage_nodes (cl_db c) !! ar_NodeId req)) →
  rr_Force req' = false → activeNodeCount allNodes - 1 < 3 →
  (∃ e c', AddStorageNodeV2 ev req c = Some (Err e, c') ∧ quiet c c') ∧
  (∃ e c', RemoveStorageNodeV2 ev req' c = Some (Err e, c') ∧ quiet c c').
Proof.
  intros Hdb Hlist Hadd Hforce Hcount. split.
  - apply wp_error. unfold AddStorageNodeV2. destruct (decide _); [by apply wp_ret|]. destruct (decide _); [by apply wp_ret|].
    destruct (Z.eqb_spec (ar_Port req) 0); [by apply wp_ret|].
    apply wp_bind, wp_now. intros t1 c1 H1. apply wp_bind, wp_now. intros t2 c2 H2. apply (transitivity H1) in H2. cbv zeta.
    apply wp_bind. unfold wp at 1, db_exec, pg_AddStorageNode, exec. rewrite Hdb, (q_db _ _ H2).
    destruct (node_check _); [|apply wp_ret; by destruct H2]. cbn [negb new_node NodeID].
    destruct Hadd as [?|[?|[?|[row ->]]]]; [done..|]. apply wp_ret. by destruct H2.
  - apply wp_error. unfold RemoveStorageNodeV2. destruct (decide _); [by apply wp_ret|].
    apply wp_bind, wp_getStorageNode. intros [node|e] c1 H1; [|by apply wp_ret].
    apply wp_bind, wp_query. intros c2 H2. rewrite Hdb, (q_db _ _ H1), Hlist, Hforce. cbn [negb andb]. cbv zeta.
    destruct (Z.ltb_spec (activeNodeCount allNodes - 1) minNodesRequired) as [|Hge]; [|by unfold minNodesRequired in Hge; lia].
    apply wp_ret. by etrans.
Qed.
End properties.

(** *** Witnesses *)

Section witnesses.
#[local] Instance lifecycle_scanner : Scanner := None.

Lemma x_cluster_wf type state : change_check type = true → db_wf (cl_db (x_cluster type state)).
Proof.
  intros Htype. split; simpl.
  - apply map_Forall_empty.
  - repeat apply map_Forall_insert_2; [done|done|apply map_Forall_empty].
  - apply map_Forall_singleton. split; [done|]. by eexists.
Qed.

Definition x_add : AddStorageNodeRequest := mkAddStorageNode "c" "10.0.0.3" 9090 1.
Definition x_remove : RemoveStorageNodeRequest := mkRemoveStorageNode "b" true.
Definition x_start : cluster := x_cluster "bootstrap" NodeStateNormal.

(** The response and the cluster after a request. *)
Definition x_result {A} (m : M (res handler_error A)) : option A * cluster :=
  match m x_start with
  | Some (Ok a, c') => (Some a, c')
  | Some (Err _, c') => (None, c')
  | None => (None, x_start)
  end.

Lemma x_result_ok {A} (m : M (res handler_error A)) :
  is_Some (x_result m).1 → ∃ a, m x_start = Some (Ok a, (x_result m).2).
Proof. unfold x_result. destruct (m x_start) as [[[a|e] c']|]; [eauto|by intros [? ?]..]. Qed.

Lemma x_added : is_Some (x_result (AddStorageNodeV2 (x_world 0) x_add)).1.
Proof. apply (bool_decide_unpack _). by vm_compute. Qed.

Lemma node_operations_wf_witness :
  db_wf (cl_db (x_result (AddStorageNodeV2 (x_world 0) x_add)).2).
Proof.
  destruct (x_result_ok _ x_added) as [resp Hresp].
  destruct (node_operations_wf (x_world 0) x_add x_remove (x_monitor NodeStateNormal) x_start) as [Hadd _];
    [by apply x_cluster_wf|]. by apply (Hadd (Ok resp)).
Defined.

Lemma refresh_ignores_streams_witness :
  ∃ s, refresh (x_result (AddStorageNodeV2 (x_world 0) x_add)).2 = Ok s ∧ is_Some (nodeVNodes (hashRing s) !! "c").
Proof.
  destruct (x_result_ok _ x_added) as [resp Hresp]. eexists. split; [apply refresh_ok|].
  destruct (refresh_ignores_streams (x_world 0) x_start) as [Hadd _]; [by apply x_cluster_wf|].
  by apply (Hadd x_add resp _ _ Hresp (refresh_ok _)).
Defined.

Lemma failed_bootstrap_blocks_keys_witness :
  ∃ c' s, rollbackNodeAddition (x_world 0) (x_row "b" NodeStateBootstrapping) ["a"] "ch"
            (x_cluster "bootstrap" NodeStateBootstrapping) = Some (tt, c') ∧ refresh c' = Ok s ∧
    is_Some (nodeVNodes (hashRing s) !! "b").
Proof.
  edestruct (failed_bootstrap_blocks_keys (x_world 0) (x_row "b" NodeStateBootstrapping) ["a"] "ch"
    (x_cluster "bootstrap" NodeStateBootstrapping)) as (c' & s & H1 & H2 & H3 & _).
  - apply x_reachable.
  - by apply x_cluster_wf.
  - by vm_compute.
  - done.
  - by exists c', s.
Defined.

Lemma node_requests_refused_witness :
  ∃ e c', RemoveStorageNodeV2 (x_world 0) (mkRemoveStorageNode "b" false) x_start = Some (Err e, c') ∧ quiet x_start c'.
Proof.
  eapply (node_requests_refused (x_world 0) (mkAddStorageNode "a" "10.0.0.3" 9090 1) (mkRemoveStorageNode "b" false) x_start).
  - done.
  - reflexivity.
  - do 3 right. by eexists.
  - done.
  - by vm_compute.
Defined.
End witnesses.
