(* ===== verification/Migrations.v ===== *)
(** * Migrations: the [migrations] table

    [GetMigration], [CreateMigration] and [UpdateMigrationStatus] of
    [coordinator/internal/store/postgres_metadata_store.go] over the table of
    [coordinator/migrations/001_initial_schema.sql], and
    [NodeHandlerV2.GetMigrationStatus], which reads it. *)

From S2P Require Import Prelude Model MetadataStore NodeHandler.
#[local] Open Scope Z_scope.

(** ** Definitions *)

Record Migration := mkMigration {
  MigrationID : string;
  mg_Type : string;
  mg_NodeID : string;
  mg_Status : string;
  mg_Phase : string;
  mg_StartedAt : Z;
  mg_CompletedAt : option Z;
  mg_ErrorMessage : string;
}.

(** A row; [phase], [completed_at] and [error_message] may be NULL. *)
Record migration_row := mkMigrationRow {
  mr_type : string;
  mr_node_id : string;
  mr_status : string;
  mr_phase : option string;
  mr_started_at : Z;
  mr_completed_at : option Z;
  mr_error_message : option string;
}.

Definition migration_type_check (s : string) : bool := bool_decide (s ∈ ["node_addition"; "node_deletion"]).
Definition migration_status_check (s : string) : bool :=
  bool_decide (s ∈ ["pending"; "in_progress"; "completed"; "failed"; "cancelled"]).

(** A CHECK holds of NULL. *)
Definition migration_phase_check (s : option string) : bool :=
  match s with
  | None => true
  | Some s => bool_decide (s ∈ ["dual_write"; "data_copy"; "cutover"; "cleanup"])
  end.

Definition scan_string `{Scanner} (s : option string) : res db_error string :=
  match s with
  | Some s => Ok s
  | None => match scan_null_string with Some s => Ok s | None => Err ScanFailed end
  end.

Definition pg_GetMigration `{Scanner} (fault : option string) (migrationID : string) (t : gmap string migration_row)
    : res db_error Migration :=
  match fault, t !! migrationID with
  | Some e, _ => Err (DbFailed e)
  | None, None => Err NoRow
  | None, Some row =>
      phase ← scan_string (mr_phase row);
      message ← scan_string (mr_error_message row);
      Ok (mkMigration migrationID (mr_type row) (mr_node_id row) (mr_status row) phase (mr_started_at row)
            (mr_completed_at row) message)
  end.

(** The statement stores the empty string as the phase. *)
Definition pg_CreateMigration (fault : option string) (m : Migration) (t : gmap string migration_row)
    : res db_error unit * gmap string migration_row :=
  let row := mkMigrationRow (mg_Type m) (mg_NodeID m) (mg_Status m) (Some EmptyString) (mg_StartedAt m) None None in
  match fault with
  | Some e => (Err (DbFailed e), t)
  | None =>
      if negb (migration_type_check (mr_type row) && migration_status_check (mr_status row) &&
               migration_phase_check (mr_phase row)) then (Err CheckViolation, t)
      else match t !! MigrationID m with
      | Some _ => (Err UniqueViolation, t)
      | None => (Ok tt, <[MigrationID m := row]> t)
      end
  end.

(** An UPDATE that finds no row is not an error here. *)
Definition pg_UpdateMigrationStatus (fault : option string) (migrationID status errorMessage : string)
    (t : gmap string migration_row) : res db_error unit * gmap string migration_row :=
  match fault, t !! migrationID with
  | Some e, _ => (Err (DbFailed e), t)
  | None, None => (Ok tt, t)
  | None, Some row =>
      if negb (migration_status_check status) then (Err CheckViolation, t)
      else (Ok tt, <[migrationID := mkMigrationRow (mr_type row) (mr_node_id row) status (mr_phase row)
                                      (mr_started_at row) (mr_completed_at row) (Some errorMessage)]> t)
  end.

(** [Type], [NodeId], [Status] and [StartedAt] of the response. *)
Definition GetMigrationStatus `{Scanner} (fault : option string) (migrationID : string) (t : gmap string migration_row)
    : res handler_error (string * string * string * Z) :=
  if decide (migrationID = EmptyString) then Err (InvalidArgument "migration_id")
  else match pg_GetMigration fault migrationID t with
  | Err _ => Err NodeNotFound
  | Ok m => Ok (mg_Type m, mg_NodeID m, mg_Status m, mg_StartedAt m / 1000000000)
  end.

(** A statement on the table. *)
Inductive migration_op :=
  | OCreate (m : Migration)
  | OUpdate (migrationID status errorMessage : string).

Definition run_migration (fault : option string) (o : migration_op) (t : gmap string migration_row)
    : res db_error unit * gmap string migration_row :=
  match o with
  | OCreate m => pg_CreateMigration fault m t
  | OUpdate id status message => pg_UpdateMigrationStatus fault id status message t
  end.

Definition run_migrations (ops : list (option string * migration_op)) (t : gmap string migration_row)
    : gmap string migration_row := foldl (λ t '(fault, o), (run_migration fault o t).2) t ops.

(** ** Properties *)

(** No migration is ever recorded: the phase [CreateMigration] stores is refused
    by the CHECK of the table, so after any sequence of statements the table is
    empty, every [CreateMigration] is an error, and [GetMigrationStatus] finds
    nothing whatever the id. *)
Theorem migrations_never_recorded `{Scanner} (ops : list (option string * migration_op)) (fault : option string)
    (m : Migration) (migrationID : string) :
  let t := run_migrations ops ∅ in
  t = ∅ ∧ is_ok (pg_CreateMigration fault m t).1 = false ∧ is_ok (GetMigrationStatus fault migrationID t) = false.
Proof.
  assert (∀ fault m t, (∃ e, pg_CreateMigration fault m t = (Err e, t))) as Hcreate.
  { intros f m' t. unfold pg_CreateMigration. destruct f; [eauto|]. cbn [mr_type mr_status mr_phase].
    change (migration_phase_check (Some EmptyString)) with false. rewrite andb_false_r. eauto. }
  assert (run_migrations ops ∅ = ∅) as ->.
  { induction ops as [|[f o] ops IH]; [done|]. unfold run_migrations in *. cbn [foldl].
    assert ((run_migration f o ∅).2 = ∅) as ->; [|done]. destruct o as [m'|id status message]; simpl.
    - by destruct (Hcreate f m' ∅) as [e ->].
    - unfold pg_UpdateMigrationStatus. rewrite lookup_empty. by destruct f. }
  intros t. split; [done|]. split; [by destruct (Hcreate fault m t) as [e ->]|].
  unfold GetMigrationStatus, pg_GetMigration. destruct (decide _); [done|]. subst t. rewrite lookup_empty. by destruct fault.
Qed.
