(* ===== verification/Cleanup.v ===== *)
(** * Cleanup: [coordinator/internal/service/cleanup_service.go]

    The checks before the record of a topology change is deleted.  The metadata
    store is the one of MetadataStore.v; [lists] are the answers of the calls
    of [ListStorageNodes], one for every range that is verified.  The wait of
    [ScheduleCleanup] is a later call of [ExecuteCleanup] with the change that
    was read when the cleanup was scheduled. *)

From S2P Require Import Prelude Model Consistency MetadataStore.
#[local] Open Scope Z_scope.

(** ** Definitions *)

Record CleanupService := mkCleanupService { gracePeriod : Z }.

Definition NewCleanupService (grace : Z) : CleanupService :=
  mkCleanupService (if grace =? 0 then 86400000000000 else grace).

(** [time.Since]: the difference, saturated at the range of a duration. *)
Definition time_since (now t : Z) : Z := Z.max (- 2 ^ 63) (Z.min (2 ^ 63 - 1) (now - t)).

Inductive cleanup_error :=
  | NotCompleted
  | StreamingActive (source : string)
  | GracePeriod (remaining : Z)
  | QuorumFailed
  | ChangeFailed (e : db_error).

Definition getReplicasForRange {E} (listed : res E (list StorageNode)) (rf : nat) : list StorageNode :=
  match listed with
  | Err _ => []
  | Ok nodes => take rf (filter (λ node, State node = NodeStateNormal) nodes)
  end.

(** The placeholder looks at the state only. *)
Definition verifyReplicaHasRange (replica : StorageNode) (tokenRange : TokenRange) : bool :=
  bool_decide (State replica = NodeStateNormal).

Definition replicationFactor : nat := 3.

Fixpoint verify_ranges {E} (lists : nat → res E (list StorageNode)) (i : nat) (ranges : list TokenRange) : bool :=
  match ranges with
  | [] => true
  | tokenRange :: ranges =>
      let replicas := getReplicasForRange (lists i) replicationFactor in
      if (length replicas <? replicationFactor)%nat then false
      else
        let consistentCount := length (filter (λ r, verifyReplicaHasRange r tokenRange = true) replicas) in
        if (consistentCount <? replicationFactor / 2 + 1)%nat then false
        else verify_ranges lists (S i) ranges
  end.

Definition verifyQuorum {E} (lists : nat → res E (list StorageNode)) (change : PendingChange) : bool :=
  verify_ranges lists 0 (pc_Ranges change).

Section cleanup.
Context `{MapRange} `{Scanner} (s : CleanupService).

Definition completedTime (change : PendingChange) : Z := default (LastUpdated change) (CompletedAt change).

Definition VerifyCleanupSafe {E} (lists : nat → res E (list StorageNode)) (now : Z) (change : PendingChange)
    : res cleanup_error unit :=
  if negb (bool_decide (pc_Status change = PendingChangeCompleted)) then Err NotCompleted
  else match list_find (λ kv, sp_State kv.2 ≠ "completed") (map_range (Progress change)) with
  | Some (_, (source, _)) => Err (StreamingActive source)
  | None =>
      let timeSinceCompletion := time_since now (completedTime change) in
      if timeSinceCompletion <? gracePeriod s then Err (GracePeriod (gracePeriod s - timeSinceCompletion))
      else if negb (verifyQuorum lists change) then Err QuorumFailed
      else Ok tt
  end.

(** The switch on the type of the change only logs. *)
Definition ExecuteCleanup {E} (lists : nat → res E (list StorageNode)) (fault : option string) (now : Z)
    (change : PendingChange) (db : MetadataStore) : res cleanup_error unit * MetadataStore :=
  match VerifyCleanupSafe lists now change with
  | Err e => (Err e, db)
  | Ok _ =>
      match pg_DeletePendingChange fault db (ChangeID change) with
      | (Err e, db) => (Err (ChangeFailed e), db)
      | (Ok _, db) => (Ok tt, db)
      end
  end.

(** The change the goroutine is started with. *)
Definition ScheduleCleanup (fault : option string) (changeID : string) (db : MetadataStore) : res cleanup_error PendingChange :=
  match pg_GetPendingChange fault db changeID with
  | Err e => Err (ChangeFailed e)
  | Ok change => Ok change
  end.

Definition ForceCleanup (fault fault' : option string) (changeID : string) (db : MetadataStore)
    : res cleanup_error unit * MetadataStore :=
  match pg_GetPendingChange fault db changeID with
  | Err e => (Err (ChangeFailed e), db)
  | Ok _ =>
      match pg_DeletePendingChange fault' db changeID with
      | (Err e, db) => (Err (ChangeFailed e), db)
      | (Ok _, db) => (Ok tt, db)
      end
  end.
End cleanup.

(** ** Lemmas *)

(** The nodes that answer for a range, when there are enough of them. *)
Definition enough_normal {E} (listed : res E (list StorageNode)) : Prop :=
  match listed with
  | Err _ => False
  | Ok nodes => (3 ≤ length (filter (λ node, State node = NodeStateNormal) nodes))%nat
  end.

Lemma verified_all (l : list StorageNode) r :
  Forall (λ n, State n = NodeStateNormal) l → filter (λ n, verifyReplicaHasRange n r = true) l = l.
Proof.
  induction 1 as [|n l Hn _ IH]; [done|]. rewrite filter_cons, IH, decide_True; [done|]. by apply bool_decide_eq_true.
Qed.

Lemma verify_ranges_spec {E} (lists : nat → res E (list StorageNode)) i ranges :
  verify_ranges lists i ranges = true ↔ ∀ j, (j < length ranges)%nat → enough_normal (lists (i + j)%nat).
Proof.
  revert i. induction ranges as [|r ranges IH]; intros i; cbn [verify_ranges length].
  { split; [intros _ j Hj; lia|done]. }
  set (replicas := getReplicasForRange (lists i) replicationFactor).
  assert (Forall (λ n, State n = NodeStateNormal) replicas) as Hnormal.
  { unfold replicas, getReplicasForRange. destruct (lists i); [|constructor]. apply Forall_take, Forall_forall.
    intros n Hn. by apply list_elem_of_filter in Hn as [? _]. }
  rewrite (verified_all replicas r Hnormal).
  assert ((length replicas <? replicationFactor)%nat = false ↔ enough_normal (lists i)) as Henough.
  { rewrite Nat.ltb_ge. unfold replicas, getReplicasForRange, enough_normal, replicationFactor.
    destruct (lists i); [rewrite length_take; lia|simpl; lia]. }
  destruct (length replicas <? replicationFactor)%nat eqn:Hlen.
  - split; [done|]. intros Hall. specialize (Hall O ltac:(lia)). rewrite Nat.add_0_r in Hall.
    by apply Henough in Hall.
  - apply Nat.ltb_ge in Hlen as Hlen'.
    destruct (Nat.ltb_spec (length replicas) (replicationFactor / 2 + 1)) as [Hlt|_].
    { change (replicationFactor / 2 + 1)%nat with 2%nat in Hlt. unfold replicationFactor in Hlen'. lia. }
    rewrite IH. split.
    + intros Hall [|j] Hj; [rewrite Nat.add_0_r; by apply Henough|]. rewrite Nat.add_succ_r. apply Hall. lia.
    + intros Hall j Hj. specialize (Hall (S j) ltac:(lia)). by rewrite Nat.add_succ_r in Hall.
Qed.

Section safe.
Context `{MapRange} `{Scanner} (s : CleanupService).

(** The conditions of a cleanup. *)
Record cleanup_safe {E} (lists : nat → res E (list StorageNode)) (now : Z) (change : PendingChange) : Prop := {
  cs_completed : pc_Status change = PendingChangeCompleted;
  cs_streams source p : Progress change !! source = Some p → sp_State p = "completed";
  cs_grace : gracePeriod s ≤ time_since now (completedTime change);
  cs_replicas j : (j < length (pc_Ranges change))%nat → enough_normal (lists j);
}.

Lemma VerifyCleanupSafe_spec {E} (lists : nat → res E (list StorageNode)) now change :
  VerifyCleanupSafe s lists now change = Ok tt ↔ cleanup_safe lists now change.
Proof.
  unfold VerifyCleanupSafe. destruct (bool_decide_reflect (pc_Status change = PendingChangeCompleted)) as [Hst|Hst];
    cbn [negb]; [|by split; [|intros []]].
  destruct (list_find _ _) as [[i [source p]]|] eqn:Hf.
  - apply list_find_Some in Hf as (Hl & Hne & _). apply list_elem_of_lookup_2, elem_of_map_range in Hl.
    split; [done|]. intros [_ Hs _ _]. by destruct Hne, (Hs _ _ Hl).
  - apply list_find_None in Hf. rewrite Forall_forall in Hf. cbv zeta.
    destruct (Z.ltb_spec (time_since now (completedTime change)) (gracePeriod s)); [split; [done|intros []; lia]|].
    unfold verifyQuorum. destruct (verify_ranges lists 0 (pc_Ranges change)) eqn:Hq; cbn [negb].
    + split; [intros _|done]. split; [done| |done|exact (proj1 (verify_ranges_spec lists 0 (pc_Ranges change)) Hq)].
      intros source p Hp. apply dec_stable. apply (Hf (source, p)). by apply elem_of_map_range.
    + split; [done|]. intros [_ _ _ Hr]. apply (verify_ranges_spec lists 0) in Hr. congruence.
Qed.

(** ** Properties *)

(** The record of a change is deleted exactly when the change has completed, no
    stream recorded in it is unfinished, the grace period has passed and three
    NORMAL nodes were listed for every range; otherwise nothing changes. *)
Theorem cleanup_exactly_when_safe {E} (lists : nat → res E (list StorageNode)) (fault : option string) (now : Z)
    (change : PendingChange) (db : MetadataStore) :
  let '(r, db') := ExecuteCleanup s lists fault now change db in
  (r = Ok tt ↔ cleanup_safe lists now change ∧ fault = None ∧ is_Some (pending_changes db !! ChangeID change)) ∧
  db' = match r with Ok _ => with_changes (delete (ChangeID change) (pending_changes db)) db | Err _ => db end.
Proof.
  unfold ExecuteCleanup, pg_DeletePendingChange, exec. pose proof (VerifyCleanupSafe_spec lists now change) as Hv.
  destruct (VerifyCleanupSafe s lists now change) as [[]|e].
  - destruct fault; [split; [|done]; split; [done|naive_solver]|].
    destruct (pending_changes db !! ChangeID change) eqn:Hc.
    + split; [|done]. split; [intros _; split_and!; [by apply Hv|done|by eexists]|done].
    + split; [|done]. split; [done|]. intros (_ & _ & []). done.
  - split; [|done]. split; [done|]. intros (Hs & _). by apply Hv in Hs.
Qed.

(** A cleanup that was scheduled while the change was in progress never runs:
    it is refused after the wait even when the change has completed in the
    meantime, since the change is not read again. *)
Theorem scheduled_cleanup_stale {E} (lists : nat → res E (list StorageNode)) fault fault' now changeID
    (db db' : MetadataStore) (row : change_row) (change : PendingChange) :
  pending_changes db !! changeID = Some row → cr_status row = PendingChangeInProgress →
  ScheduleCleanup fault changeID db = Ok change →
  ExecuteCleanup s lists fault' now change db' = (Err NotCompleted, db').
Proof.
  intros Hrow Hst Hs. unfold ScheduleCleanup, pg_GetPendingChange, scan_change in Hs. rewrite Hrow in Hs.
  assert (pc_Status change = PendingChangeInProgress) as Hc.
  { destruct fault; [done|]. destruct (match cr_error_message row with Some m => _ | None => _ end); [|done].
    injection Hs as <-. done. }
  unfold ExecuteCleanup, VerifyCleanupSafe. rewrite bool_decide_false by (rewrite Hc; done). done.
Qed.
End safe.

(** *** Witnesses *)

Section witnesses.
#[local] Instance cleanup_scanner : Scanner := Some EmptyString.

Definition x_change_row : change_row := mkChangeRow "bootstrap" "b" ["a"] [] 0 PendingChangeInProgress None 0 ∅.
Definition x_change_db : MetadataStore := mkMetadataStore ∅ ∅ {[ "ch" := x_change_row ]}.

Lemma scheduled_cleanup_stale_witness :
  ∃ change, ScheduleCleanup None "ch" x_change_db = Ok change ∧
    ExecuteCleanup (E := unit) (NewCleanupService 0) (λ _, Ok []) None (10 ^ 18) change x_change_db =
      (Err NotCompleted, x_change_db).
Proof.
  eexists. split; [by vm_compute|].
  apply (scheduled_cleanup_stale (E := unit) (NewCleanupService 0) (λ _, Ok []) None None (10 ^ 18) "ch" x_change_db
    x_change_db x_change_row); [done..|by vm_compute].
Defined.
End witnesses.
