(* ===== verification/WorkerPool.v ===== *)
(** * WorkerPool: [storage-node/internal/util/workerpool/pool.go]

    The pool as a transition system: every atomic step of a submitter, a worker
    and [Stop] is a transition, and any interleaving of them is a run.  The task
    queue is a buffered channel; a [select] with several ready cases takes any
    of them.  The counters are 64-bit and wrap.  The lists [accepted], [started]
    and [finished] are the history of the run.  The running time of a task and
    the timeout of [Stop] are not modelled: a task ends in any step after it
    started, with an error (a panic is turned into one by [safeExecute]) or
    without. *)

From S2P Require Import Prelude Model Float64.
#[local] Open Scope Z_scope.

(** ** Definitions *)

(** [Task] by its ID. *)
Definition Task : Type := string.

(** Where a worker is in [worker] and [executeTask]. *)
Inductive worker_state :=
  | Waiting                            (* at the select *)
  | Taken (t : Task)                   (* received, not yet active *)
  | Running (t : Task)                 (* in safeExecute *)
  | Returned (t : Task) (ok : bool)    (* the task returned, not yet counted *)
  | Counted                            (* counted, still active *)
  | Exited.

Record WorkerPool := mkWorkerPool {
  maxWorkers : nat;
  queueSize : nat;
  taskQueue : list Task;
  workers : list worker_state;
  stopped : bool;
  activeWorkers : Z;
  totalTasks : Z;
  completedTasks : Z;
  failedTasks : Z;
  rejectedTasks : Z;
  uncounted : nat;       (* submitters between the send and the increment *)
  accepted : list Task;
  started : list Task;
  finished : list (Task * bool);
}.

Definition positive_or (n d : Z) : nat := Z.to_nat (if n <=? 0 then d else n).

Definition NewWorkerPool (cfgMaxWorkers cfgQueueSize : Z) : WorkerPool :=
  let maxWorkers := positive_or cfgMaxWorkers 10 in
  mkWorkerPool maxWorkers (positive_or cfgQueueSize 100) [] (replicate maxWorkers Waiting) false
    0 0 0 0 0 0 [] [] [].

(** *** Updates of the state *)

Definition enqueue (t : Task) (p : WorkerPool) : WorkerPool :=
  mkWorkerPool (maxWorkers p) (queueSize p) (taskQueue p ++ [t]) (workers p) (stopped p) (activeWorkers p)
    (totalTasks p) (completedTasks p) (failedTasks p) (rejectedTasks p) (S (uncounted p)) (accepted p ++ [t])
    (started p) (finished p).

Definition count_total (p : WorkerPool) : WorkerPool :=
  mkWorkerPool (maxWorkers p) (queueSize p) (taskQueue p) (workers p) (stopped p) (activeWorkers p)
    (u64 (totalTasks p + 1)) (completedTasks p) (failedTasks p) (rejectedTasks p) (pred (uncounted p)) (accepted p)
    (started p) (finished p).

Definition count_rejected (p : WorkerPool) : WorkerPool :=
  mkWorkerPool (maxWorkers p) (queueSize p) (taskQueue p) (workers p) (stopped p) (activeWorkers p)
    (totalTasks p) (completedTasks p) (failedTasks p) (u64 (rejectedTasks p + 1)) (uncounted p) (accepted p)
    (started p) (finished p).

Definition set_worker (i : nat) (w : worker_state) (p : WorkerPool) : WorkerPool :=
  mkWorkerPool (maxWorkers p) (queueSize p) (taskQueue p) (<[i := w]> (workers p)) (stopped p) (activeWorkers p)
    (totalTasks p) (completedTasks p) (failedTasks p) (rejectedTasks p) (uncounted p) (accepted p)
    (started p) (finished p).

(** [atomic.AddInt32(&p.activeWorkers, d)]. *)
Definition add_active (d : Z) (p : WorkerPool) : WorkerPool :=
  mkWorkerPool (maxWorkers p) (queueSize p) (taskQueue p) (workers p) (stopped p) (i32 (activeWorkers p + d))
    (totalTasks p) (completedTasks p) (failedTasks p) (rejectedTasks p) (uncounted p) (accepted p)
    (started p) (finished p).

Definition dequeue (t : Task) (q : list Task) (p : WorkerPool) : WorkerPool :=
  mkWorkerPool (maxWorkers p) (queueSize p) q (workers p) (stopped p) (activeWorkers p)
    (totalTasks p) (completedTasks p) (failedTasks p) (rejectedTasks p) (uncounted p) (accepted p)
    (started p ++ [t]) (finished p).

Definition count_outcome (t : Task) (ok : bool) (p : WorkerPool) : WorkerPool :=
  mkWorkerPool (maxWorkers p) (queueSize p) (taskQueue p) (workers p) (stopped p) (activeWorkers p)
    (totalTasks p) (if ok then u64 (completedTasks p + 1) else completedTasks p)
    (if ok then failedTasks p else u64 (failedTasks p + 1)) (rejectedTasks p) (uncounted p) (accepted p)
    (started p) (finished p ++ [(t, ok)]).

Definition close_stop (p : WorkerPool) : WorkerPool :=
  mkWorkerPool (maxWorkers p) (queueSize p) (taskQueue p) (workers p) true (activeWorkers p)
    (totalTasks p) (completedTasks p) (failedTasks p) (rejectedTasks p) (uncounted p) (accepted p)
    (started p) (finished p).

(** A send on the channel does not block. *)
Definition can_send (p : WorkerPool) : bool := (length (taskQueue p) <? queueSize p)%nat.

(** *** Submitting: the answers of each method and the state they leave

    A relation, since a [select] may have several ready cases. *)

(** The first [select] of [Submit] looks at [stopChan] alone; [Stop] may close
    it between the two. *)
Inductive Submit_check : WorkerPool → bool → WorkerPool → Prop :=
  | Check_stopped p : stopped p = true → Submit_check p false (count_rejected p)
  | Check_open p : stopped p = false → Submit_check p true p.

Inductive Submit_send (t : Task) : WorkerPool → bool → WorkerPool → Prop :=
  | Send_ok p : can_send p = true → Submit_send t p true (enqueue t p)
  | Send_full p : can_send p = false → Submit_send t p false (count_rejected p).

(** [done] says that the context of the caller is done. *)
Inductive SubmitWithContext (t : Task) (done : bool) : WorkerPool → bool → WorkerPool → Prop :=
  | Ctx_stopped p : stopped p = true → SubmitWithContext t done p false (count_rejected p)
  | Ctx_done p : done = true → SubmitWithContext t done p false (count_rejected p)
  | Ctx_sent p : can_send p = true → SubmitWithContext t done p true (enqueue t p).

(** The default case is taken only when no other is ready. *)
Inductive TrySubmit (t : Task) : WorkerPool → bool → WorkerPool → Prop :=
  | Try_stopped p : stopped p = true → TrySubmit t p false (count_rejected p)
  | Try_sent p : can_send p = true → TrySubmit t p true (enqueue t p)
  | Try_default p : stopped p = false → can_send p = false → TrySubmit t p false (count_rejected p).

(** *** The steps of the pool *)

Inductive step : WorkerPool → WorkerPool → Prop :=
  | step_submit_check p b p' : Submit_check p b p' → step p p'
  | step_submit_send t p b p' : Submit_send t p b p' → step p p'
  | step_submit_ctx t done p b p' : SubmitWithContext t done p b p' → step p p'
  | step_try_submit t p b p' : TrySubmit t p b p' → step p p'
  | step_count p : (0 < uncounted p)%nat → step p (count_total p)
  | step_exit p i : stopped p = true → workers p !! i = Some Waiting → step p (set_worker i Exited p)
  | step_take p i t q : workers p !! i = Some Waiting → taskQueue p = t :: q →
      step p (set_worker i (Taken t) (dequeue t q p))
  | step_run p i t : workers p !! i = Some (Taken t) → step p (set_worker i (Running t) (add_active 1 p))
  | step_return p i t ok : workers p !! i = Some (Running t) → step p (set_worker i (Returned t ok) p)
  | step_outcome p i t ok : workers p !! i = Some (Returned t ok) →
      step p (set_worker i Counted (count_outcome t ok p))
  | step_loop p i : workers p !! i = Some Counted → step p (set_worker i Waiting (add_active (-1) p))
  | step_stop p : step p (close_stop p).

(** [Stop] has returned without a timeout: the stop channel is closed and every
    worker has exited. *)
Definition stop_returned (p : WorkerPool) : Prop := stopped p = true ∧ Forall (λ w, w = Exited) (workers p).

Record Stats := mkStats {
  st_MaxWorkers : nat;
  st_ActiveWorkers : Z;
  st_QueueSize : nat;
  st_QueuedTasks : nat;
  st_TotalTasks : Z;
  st_CompletedTasks : Z;
  st_FailedTasks : Z;
  st_RejectedTasks : Z;
}.

Definition pool_Stats (p : WorkerPool) : Stats :=
  mkStats (maxWorkers p) (activeWorkers p) (queueSize p) (length (taskQueue p)) (totalTasks p) (completedTasks p)
    (failedTasks p) (rejectedTasks p).

(** [float64(n) / float64(d) * 100.0]. *)
Definition percentage (n d : Z) : float64 := f64_mul (f64_div (f64_of n) (f64_of d)) (f64_of 100).

Definition QueueUtilization (s : Stats) : float64 :=
  if (st_QueueSize s =? 0)%nat then f64_of 0
  else percentage (Z.of_nat (st_QueuedTasks s)) (Z.of_nat (st_QueueSize s)).

Definition WorkerUtilization (s : Stats) : float64 :=
  if (st_MaxWorkers s =? 0)%nat then f64_of 0 else percentage (st_ActiveWorkers s) (Z.of_nat (st_MaxWorkers s)).

Definition SuccessRate (s : Stats) : float64 :=
  if st_TotalTasks s =? 0 then f64_of 100 else percentage (st_CompletedTasks s) (st_TotalTasks s).

(** ** Lemmas *)

(** The tasks in the hands of the workers. *)
Definition in_hand (w : worker_state) : list Task :=
  match w with
  | Taken t | Running t | Returned t _ => [t]
  | _ => []
  end.

(** The worker has added itself to [activeWorkers]. *)
Definition is_active (w : worker_state) : Z :=
  match w with
  | Running _ | Returned _ _ | Counted => 1
  | _ => 0
  end.

Definition sum_of (f : worker_state → Z) (ws : list worker_state) : Z := foldr (λ w n, f w + n) 0 ws.
Arguments sum_of : simpl never.

Definition outcomes (ok : bool) (l : list (Task * bool)) : Z := Z.of_nat (length (filter (λ o, o.2 = ok) l)).

Record pool_wf (p : WorkerPool) : Prop := {
  pw_workers : length (workers p) = maxWorkers p;
  pw_queue : (length (taskQueue p) ≤ queueSize p)%nat;
  pw_fifo : started p ++ taskQueue p = accepted p;
  pw_once : started p ≡ₚ (workers p ≫= in_hand) ++ (finished p).*1;
  pw_total : totalTasks p = u64 (Z.of_nat (length (accepted p)) - Z.of_nat (uncounted p));
  pw_uncounted : (uncounted p ≤ length (accepted p))%nat;
  pw_completed : completedTasks p = u64 (outcomes true (finished p));
  pw_failed : failedTasks p = u64 (outcomes false (finished p));
  pw_active : activeWorkers p = i32 (sum_of is_active (workers p));
  pw_exited : stopped p = false → Exited ∉ workers p;
}.

Lemma sum_of_insert f ws i w w' :
  ws !! i = Some w → sum_of f (<[i := w']> ws) = sum_of f ws - f w + f w'.
Proof.
  unfold sum_of. revert i. induction ws as [|x ws IH]; intros [|i] Hi; simplify_eq/=; [lia|].
  rewrite (IH i Hi). lia.
Qed.

(** Replacing a worker exchanges what it holds. *)
Lemma in_hand_insert ws i w w' :
  ws !! i = Some w → (<[i := w']> ws ≫= in_hand) ++ in_hand w ≡ₚ (ws ≫= in_hand) ++ in_hand w'.
Proof.
  intros Hi. rewrite insert_take_drop by by eapply lookup_lt_Some.
  rewrite <-(take_drop_middle ws i w Hi) at 3. rewrite !bind_app, !bind_cons. solve_Permutation.
Qed.

Lemma u64_add a b : u64 (u64 a + b) = u64 (a + b).
Proof. unfold u64. by rewrite Zplus_mod_idemp_l. Qed.

Lemma i32_add a b : i32 (i32 a + b) = i32 (a + b).
Proof.
  unfold i32. f_equal. replace ((a + 2 ^ 31) mod 2 ^ 32 - 2 ^ 31 + b + 2 ^ 31) with ((a + 2 ^ 31) mod 2 ^ 32 + b) by lia.
  rewrite Zplus_mod_idemp_l. f_equal. lia.
Qed.

Lemma enqueue_wf t p : pool_wf p → can_send p = true → pool_wf (enqueue t p).
Proof.
  intros [] Hs. apply Nat.ltb_lt in Hs. split; cbn; try done.
  - rewrite length_app. simpl. lia.
  - by rewrite app_assoc, pw_fifo0.
  - rewrite pw_total0, length_app. simpl. f_equal. lia.
  - rewrite length_app. simpl. lia.
Qed.

Lemma count_rejected_wf p : pool_wf p → pool_wf (count_rejected p).
Proof. by intros []. Qed.

Lemma count_total_wf p : pool_wf p → (0 < uncounted p)%nat → pool_wf (count_total p).
Proof.
  intros [] Hu. split; cbn; try done; [|lia]. rewrite pw_total0, u64_add. f_equal. lia.
Qed.

(** A worker that neither takes nor finishes a task. *)
Lemma set_worker_wf i w w' d p :
  pool_wf p → workers p !! i = Some w → in_hand w = in_hand w' → is_active w' = is_active w + d →
  (w' = Exited → stopped p = true) → pool_wf (set_worker i w' (add_active d p)).
Proof.
  intros [] Hi Hh Ha Hex. split; cbn; try done.
  - by rewrite length_insert.
  - rewrite pw_once0. f_equiv. pose proof (in_hand_insert (workers p) i w w' Hi) as Hp. rewrite <-Hh in Hp.
    by apply app_inv_tail in Hp || (symmetry; eapply (Permutation_app_inv_r (in_hand w)); exact Hp).
  - rewrite (sum_of_insert _ _ _ w) by done. rewrite pw_active0, i32_add. f_equal. lia.
  - intros Hs Hin. apply list_elem_of_lookup in Hin as [j Hj].
    destruct (decide (i = j)) as [<-|Hne].
    + rewrite list_lookup_insert_eq in Hj by by eapply lookup_lt_Some. injection Hj as ->. specialize (Hex eq_refl). congruence.
    + rewrite list_lookup_insert_ne in Hj by done. apply (pw_exited0 Hs). by eapply list_elem_of_lookup_2.
Qed.

Lemma add_active_0 p : pool_wf p → add_active 0 p = p.
Proof.
  intros [_ _ _ _ _ _ _ _ Ha _]. assert (i32 (activeWorkers p + 0) = activeWorkers p) as Hz.
  { rewrite Ha, i32_add. f_equal. lia. }
  unfold add_active. rewrite Hz. by destruct p.
Qed.

Lemma take_wf i t q p :
  pool_wf p → workers p !! i = Some Waiting → taskQueue p = t :: q → pool_wf (set_worker i (Taken t) (dequeue t q p)).
Proof.
  intros [] Hi Hq. rewrite Hq in *. split; cbn; try done.
  - by rewrite length_insert.
  - simpl in pw_queue0. lia.
  - by rewrite <-app_assoc.
  - pose proof (in_hand_insert (workers p) i Waiting (Taken t) Hi) as Hp. simpl in Hp. rewrite app_nil_r in Hp.
    rewrite Hp, pw_once0. solve_Permutation.
  - rewrite (sum_of_insert _ _ _ Waiting) by done. simpl. rewrite pw_active0. f_equal. lia.
  - intros Hs Hin. apply (pw_exited0 Hs). apply list_elem_of_lookup in Hin as [j Hj].
    destruct (decide (i = j)) as [<-|Hne].
    + rewrite list_lookup_insert_eq in Hj by by eapply lookup_lt_Some. done.
    + rewrite list_lookup_insert_ne in Hj by done. by eapply list_elem_of_lookup_2.
Qed.

Lemma outcomes_snoc ok l o : outcomes ok (l ++ [o]) = outcomes ok l + (if decide (o.2 = ok) then 1 else 0).
Proof. unfold outcomes. rewrite filter_app, length_app, filter_cons, filter_nil. destruct (decide _); simpl; lia. Qed.

Lemma outcome_wf i t ok p :
  pool_wf p → workers p !! i = Some (Returned t ok) → pool_wf (set_worker i Counted (count_outcome t ok p)).
Proof.
  intros [] Hi. split; cbn; try done.
  - by rewrite length_insert.
  - pose proof (in_hand_insert (workers p) i (Returned t ok) Counted Hi) as Hp. simpl in Hp. rewrite app_nil_r in Hp.
    rewrite fmap_app, pw_once0, <-Hp. simpl. solve_Permutation.
  - rewrite outcomes_snoc. simpl. destruct ok; simpl; [rewrite pw_completed0, u64_add; f_equal; lia|].
    rewrite pw_completed0. f_equal. lia.
  - rewrite outcomes_snoc. simpl. destruct ok; simpl; [|rewrite pw_failed0, u64_add; f_equal; lia].
    rewrite pw_failed0. f_equal. lia.
  - rewrite (sum_of_insert _ _ _ (Returned t ok)) by done. simpl. rewrite pw_active0. f_equal. lia.
  - intros Hs Hin. apply (pw_exited0 Hs). apply list_elem_of_lookup in Hin as [j Hj].
    destruct (decide (i = j)) as [<-|Hne].
    + rewrite list_lookup_insert_eq in Hj by by eapply lookup_lt_Some. done.
    + rewrite list_lookup_insert_ne in Hj by done. by eapply list_elem_of_lookup_2.
Qed.

Lemma step_wf p p' : step p p' → pool_wf p → pool_wf p'.
Proof.
  intros Hstep Hwf. destruct Hstep as [p b p' Hc|t p b p' Hc|t dn p b p' Hc|t p b p' Hc|p Hu|p i Hs Hi|p i t q Hi Hq|p i t Hi
    |p i t ok Hi|p i t ok Hi|p i Hi|p].
  - destruct Hc; [by apply count_rejected_wf|done].
  - destruct Hc; [by apply enqueue_wf|by apply count_rejected_wf].
  - destruct Hc; [by apply count_rejected_wf..|by apply enqueue_wf].
  - destruct Hc; [by apply count_rejected_wf|by apply enqueue_wf|by apply count_rejected_wf].
  - by apply count_total_wf.
  - rewrite <-(add_active_0 p Hwf). by eapply set_worker_wf.
  - by apply take_wf.
  - by eapply set_worker_wf.
  - rewrite <-(add_active_0 p Hwf). by eapply set_worker_wf.
  - by apply outcome_wf.
  - by eapply set_worker_wf.
  - destruct Hwf. by split.
Qed.

(** *** Draining *)

#[global] Instance worker_state_eq_dec : EqDecision worker_state.
Proof. solve_decision. Defined.

(** The steps until a worker waits again. *)
Definition steps_left (w : worker_state) : Z :=
  match w with
  | Waiting | Exited => 0
  | Counted => 1
  | Returned _ _ => 2
  | Running _ => 3
  | Taken _ => 4
  end.

Definition work_left (p : WorkerPool) : Z := sum_of steps_left (workers p) + 5 * Z.of_nat (length (taskQueue p)).

Lemma sum_steps_nonneg ws : 0 ≤ sum_of steps_left ws.
Proof. unfold sum_of. induction ws as [|w ws IH]; simpl; [done|]. destruct w; simpl; lia. Qed.

(** A step of a worker of an open pool that accepts nothing. *)
Definition advances (p p' : WorkerPool) : Prop :=
  step p p' ∧ accepted p' = accepted p ∧ stopped p' = stopped p ∧ work_left p' < work_left p.

Lemma busy_advances p i w :
  workers p !! i = Some w → w ≠ Waiting → w ≠ Exited → ∃ p', advances p p'.
Proof.
  intros Hi Hw He. destruct w as [|t|t|t ok| |]; try done; (eexists; split; [by econstructor|]); (split; [done|]; split; [done|]);
    unfold work_left; cbn; rewrite (sum_of_insert _ _ _ _ _ Hi); cbn; lia.
  Unshelve. exact true.
Qed.

Lemma waiting_advances p t q :
  (0 < maxWorkers p)%nat → length (workers p) = maxWorkers p → Forall (λ w, w = Waiting) (workers p) →
  taskQueue p = t :: q → ∃ p', advances p p'.
Proof.
  intros Hm Hl Hall Hq. destruct (lookup_lt_is_Some_2 (workers p) 0) as [w Hi]; [lia|].
  pose proof (Forall_lookup_1 _ _ _ _ Hall Hi) as ->.
  eexists. split; [by eapply step_take|]. split; [done|]. split; [done|].
  unfold work_left. cbn. rewrite (sum_of_insert _ _ _ _ _ Hi), Hq. cbn. lia.
Qed.

Lemma advances_wf p p' : advances p p' → pool_wf p → pool_wf p' ∧ maxWorkers p' = maxWorkers p.
Proof.
  intros (Hstep & _) Hwf. split; [by eapply step_wf|].
  destruct Hstep as [? ? ? Hc|? ? ? ? Hc|? ? ? ? ? Hc|? ? ? ? Hc| | | | | | | |]; try destruct Hc; done.
Qed.

Lemma drains n p :
  pool_wf p → stopped p = false → (0 < maxWorkers p)%nat → work_left p ≤ Z.of_nat n →
  ∃ p', rtc step p p' ∧ accepted p' = accepted p ∧ pool_wf p' ∧ taskQueue p' = [] ∧
    Forall (λ w, w = Waiting) (workers p').
Proof.
  revert p. induction n as [n IH] using lt_wf_ind. intros p Hwf Hs Hm Hn.
  assert (∀ p', advances p p' → ∃ p'', rtc step p p'' ∧ accepted p'' = accepted p ∧ pool_wf p'' ∧ taskQueue p'' = [] ∧
    Forall (λ w, w = Waiting) (workers p'')) as Hnext.
  { intros p' Hadv. destruct (advances_wf _ _ Hadv Hwf) as [Hwf' Hm']. destruct Hadv as (Hstep & Ha & Hst & Hlt).
    assert (0 ≤ work_left p') by (unfold work_left; pose proof (sum_steps_nonneg (workers p')); lia).
    destruct (IH (Z.to_nat (work_left p')) ltac:(lia) p') as (p'' & Hrtc & Ha' & ?); [done|congruence|lia|lia|].
    exists p''. split; [by eapply rtc_l|]. split; [congruence|done]. }
  destruct (decide (Forall (λ w, w = Waiting) (workers p))) as [Hall|Hnot].
  - destruct (taskQueue p) as [|t q] eqn:Hq; [by exists p|].
    destruct (waiting_advances p t q Hm (pw_workers _ Hwf) Hall Hq) as [p' Hadv]. by apply (Hnext p').
  - apply not_Forall_Exists in Hnot; [|apply _]. apply Exists_exists in Hnot as (w & Hin & Hw).
    apply list_elem_of_lookup in Hin as [i Hi]. destruct (busy_advances p i w Hi Hw) as [p' Hadv]; [|by apply (Hnext p')].
    intros ->. apply (pw_exited _ Hwf Hs). by eapply list_elem_of_lookup_2.
Qed.

(** *** A stopped pool *)

Lemma stop_returned_step p p' : stop_returned p → step p p' → stop_returned p' ∧ started p' = started p.
Proof.
  intros [Hs Hall] Hstep.
  assert (∀ i w, workers p !! i = Some w → w = Exited) as Hw by (intros i w Hi; exact (Forall_lookup_1 _ _ _ _ Hall Hi)).
  destruct Hstep as [? ? ? Hc|? ? ? ? Hc|? ? ? ? ? Hc|? ? ? ? Hc| |? ? ? Hi|? ? ? ? Hi|? ? ? Hi|? ? ? ? Hi|? ? ? ? Hi|? ? Hi|];
    try destruct Hc; try (by apply Hw in Hi); done.
Qed.

Lemma stop_returned_run p p' : stop_returned p → rtc step p p' → stop_returned p' ∧ started p' = started p.
Proof.
  intros Hs Hrun. induction Hrun as [p|p p1 p2 Hstep _ IH]; [done|].
  destruct (stop_returned_step _ _ Hs Hstep) as [Hs1 He1]. destruct (IH Hs1) as [Hs2 He2]. split; [done|congruence].
Qed.

Lemma new_pool_wf m q : pool_wf (NewWorkerPool m q).
Proof.
  split; try done.
  - apply length_replicate.
  - simpl. lia.
  - simpl. generalize (positive_or m 10). intros n. by induction n.
  - simpl. generalize (positive_or m 10). intros n. induction n as [|n IH]; [done|]. exact IH.
  - simpl. intros _ Hin. apply elem_of_replicate in Hin as [? _]. done.
Qed.

Lemma run_wf m q p : rtc step (NewWorkerPool m q) p → pool_wf p.
Proof.
  intros Hrun. assert (pool_wf (NewWorkerPool m q)) as Hwf by apply new_pool_wf.
  induction Hrun as [|p p1 p2 Hstep _ IH]; [done|]. apply IH. by eapply step_wf.
Qed.

Lemma run_sizes p p' : rtc step p p' → maxWorkers p' = maxWorkers p.
Proof.
  induction 1 as [|p p1 p2 Hstep _ IH]; [done|]. rewrite IH.
  destruct Hstep as [? ? ? Hc|? ? ? ? Hc|? ? ? ? ? Hc|? ? ? ? Hc| | | | | | | |]; try destruct Hc; done.
Qed.

Lemma new_pool_workers m q : (0 < maxWorkers (NewWorkerPool m q))%nat.
Proof. simpl. unfold positive_or. destruct (Z.leb_spec m 0); lia. Qed.

(** ** Properties *)

(** C33: In every reachable state the accepted tasks are, in the order of their
    acceptance, those that were started and those in the queue; every started
    task is in the hands of exactly one worker or has finished exactly once;
    the queue and the active workers are within their bounds; and the counters
    are those of the history, up to the submitters that have not counted yet
    and the width of the counters; the counter of rejected tasks is not among
    them. *)
Theorem pool_accounting (m q : Z) (p : WorkerPool) :
  rtc step (NewWorkerPool m q) p →
  started p ++ taskQueue p = accepted p ∧
  started p ≡ₚ (workers p ≫= in_hand) ++ (finished p).*1 ∧
  (length (taskQueue p) ≤ queueSize p)%nat ∧
  (Z.of_nat (maxWorkers p) < 2 ^ 31 → 0 ≤ st_ActiveWorkers (pool_Stats p) ≤ Z.of_nat (st_MaxWorkers (pool_Stats p))) ∧
  u64 (st_TotalTasks (pool_Stats p) + Z.of_nat (uncounted p)) = u64 (Z.of_nat (length (accepted p))) ∧
  st_CompletedTasks (pool_Stats p) = u64 (outcomes true (finished p)) ∧
  st_FailedTasks (pool_Stats p) = u64 (outcomes false (finished p)).
Proof.
  intros Hrun%run_wf. destruct Hrun. split_and!; try done.
  - intros Hm. cbn [pool_Stats st_ActiveWorkers st_MaxWorkers].
    assert (0 ≤ sum_of is_active (workers p) ≤ Z.of_nat (length (workers p))) as Hsum.
    { generalize (workers p). intros ws. unfold sum_of. induction ws as [|w ws IH]; [simpl; lia|].
      cbn [foldr length]. destruct w; cbn [is_active]; lia. }
    rewrite pw_workers0 in Hsum. rewrite pw_active0, i32_small; lia.
  - cbn [pool_Stats st_TotalTasks]. rewrite pw_total0, u64_add. f_equal. lia.
Qed.


(** Once [Stop] has returned, no task is ever started again: the tasks that are
    still in the queue are lost, and [TrySubmit] can still accept a task, which
    is then lost as well. *)
Theorem pool_stopped_loses_tasks (p : WorkerPool) (t : Task) :
  stop_returned p → can_send p = true →
  TrySubmit t p true (enqueue t p) ∧
  ∀ p', rtc step (enqueue t p) p' → started p' = started p.
Proof.
  intros Hs Hc. split; [by apply Try_sent|]. intros p' Hrun.
  by destruct (stop_returned_run (enqueue t p) p' Hs Hrun) as [_ ->].
Qed.

(** A submitter counts its task after the send, so a task can be completed before
    it is counted: the success rate can be 200 percent. *)
Theorem success_rate_overshoots : ∃ p, rtc step (NewWorkerPool 1 2) p ∧ SuccessRate (pool_Stats p) = f64_of 200.
Proof.
  eexists. split.
  - eapply rtc_l; [by eapply (step_submit_send "a"), Send_ok|]. eapply rtc_l; [by eapply (step_submit_send "b"), Send_ok|].
    eapply rtc_l; [apply step_count; simpl; lia|].
    eapply rtc_l; [by apply (step_take _ 0)|]. eapply rtc_l; [by apply (step_run _ 0 "a")|].
    eapply rtc_l; [by apply (step_return _ 0 "a" true)|]. eapply rtc_l; [by apply (step_outcome _ 0 "a" true)|].
    eapply rtc_l; [by apply (step_loop _ 0)|]. eapply rtc_l; [by apply (step_take _ 0)|].
    eapply rtc_l; [by apply (step_run _ 0 "b")|]. eapply rtc_l; [by apply (step_return _ 0 "b" true)|].
    eapply rtc_l; [by apply (step_outcome _ 0 "b" true)|]. reflexivity.
  - by vm_compute.
Qed.

(** *** Witnesses *)

(** One worker; a task is accepted, run and counted. *)
Definition x_pool : WorkerPool := NewWorkerPool 1 2.

Lemma x_pool_run : rtc step x_pool (enqueue "b" (set_worker 0 (Taken "a") (dequeue "a" [] (count_total (enqueue "a" x_pool))))).
Proof.
  eapply rtc_l; [by eapply (step_submit_send "a"), Send_ok|].
  eapply rtc_l; [apply step_count; simpl; lia|].
  eapply rtc_l; [by apply (step_take _ 0)|].
  eapply rtc_l; [by eapply (step_submit_send "b"), Send_ok|]. done.
Qed.

Lemma pool_accounting_witness :
  let p := enqueue "b" (set_worker 0 (Taken "a") (dequeue "a" [] (count_total (enqueue "a" x_pool)))) in
  started p ++ taskQueue p = ["a"; "b"].
Proof. intros p. by destruct (pool_accounting 1 2 p x_pool_run) as [-> _]. Defined.


Lemma pool_stopped_loses_tasks_witness :
  let p := set_worker 0 Exited (close_stop x_pool) in
  rtc step x_pool p ∧ ∀ p', rtc step (enqueue "a" p) p' → started p' = [].
Proof.
  intros p. split.
  - eapply rtc_l; [apply step_stop|]. eapply rtc_l; [by apply (step_exit _ 0)|]. done.
  - apply (pool_stopped_loses_tasks p "a"); [|done]. split; [done|]. by repeat constructor.
Defined.
