(* ===== verification/Health.v ===== *)
(** * Health: [storage-node/internal/health/health_check.go]

    The checks and the status they give, with what the operating system answers
    as an argument; the messages of the results are left out.  The probes and
    the checker share an [RWMutex]: the second half of the file is its
    transition system, in which a writer that has asked for the lock keeps new
    readers out, as [sync.RWMutex] documents. *)

From S2P Require Import Prelude Float64.
#[local] Open Scope Z_scope.

(** ** Definitions *)

Inductive HealthNodeStatus := NodeStatusHealthy | NodeStatusDegraded | NodeStatusUnhealthy.

(** The [Status] strings of a result. *)
Inductive check_status := healthy | warning | critical.

#[global] Instance check_status_eq_dec : EqDecision check_status.
Proof. solve_decision. Defined.

Record CheckResult := mkCheckResult { cr_Name : string; cr_Status : check_status; cr_Timestamp : Z }.

Record HealthChecker := mkHealthChecker {
  hc_nodeID : string;
  hc_lastCheck : Z;
  hc_status : HealthNodeStatus;
  hc_checks : gmap string CheckResult;
  livenessOK : bool;
  readinessOK : bool;
}.

Definition NewHealthChecker (nodeID : string) : HealthChecker :=
  mkHealthChecker nodeID 0 NodeStatusHealthy ∅ true true.

(** *** What the operating system answers *)

Record fs_stat := mkFsStat { fs_Blocks : Z; fs_Bfree : Z; fs_Bsize : Z }.

Inductive dir_stat := StatFailed | NotADirectory | Directory.

Record os_view := mkOsView {
  os_statfs : option fs_stat;
  os_stat : dir_stat;
  os_create : bool;
  os_rlimit : option Z;
  os_open_fds : option Z;
  os_time : string → Z;
}.

Section checks.
Context (os : os_view).

Definition result (name : string) (s : check_status) : CheckResult := mkCheckResult name s (os_time os name).

Definition checkDiskSpace : CheckResult :=
  match os_statfs os with
  | None => result "disk_space" critical
  | Some st =>
      let total := u64 (fs_Blocks st * fs_Bsize st) in
      let used := u64 (total - u64 (fs_Bfree st * fs_Bsize st)) in
      let usagePercent := f64_mul (f64_div (f64_of used) (f64_of total)) (f64_of 100) in
      if f64_lt (f64_of 95) usagePercent then result "disk_space" critical
      else if f64_lt (f64_of 90) usagePercent then result "disk_space" warning
      else result "disk_space" healthy
  end.

Definition checkDataDirAccessible : CheckResult :=
  match os_stat os with
  | StatFailed | NotADirectory => result "data_dir_accessible" critical
  | Directory => result "data_dir_accessible" (if os_create os then healthy else critical)
  end.

Definition checkFileDescriptors : CheckResult :=
  match os_rlimit os, os_open_fds os with
  | None, _ => result "file_descriptors" warning
  | Some _, None => result "file_descriptors" healthy
  | Some cur, Some openFDs =>
      let usagePercent := f64_mul (f64_div (f64_of openFDs) (f64_of cur)) (f64_of 100) in
      result "file_descriptors" (if f64_lt (f64_of 90) usagePercent then warning else healthy)
  end.

(** Both branches report the same status. *)
Definition checkMemoryPressure : CheckResult := result "memory_pressure" healthy.

Definition all_checks : list CheckResult :=
  [checkDiskSpace; checkDataDirAccessible; checkFileDescriptors; checkMemoryPressure].

(** The loop of [runHealthChecks]: the recorded results and the two flags. *)
Definition record_check (acc : gmap string CheckResult * bool * bool) (r : CheckResult)
    : gmap string CheckResult * bool * bool :=
  let '(checks, allHealthy, allReady) := acc in
  let checks := <[cr_Name r := r]> checks in
  if decide (cr_Status r = healthy) then (checks, allHealthy, allReady)
  else (checks, false, if decide (cr_Status r = critical) then false else allReady).

Definition runHealthChecks (now : Z) (h : HealthChecker) : HealthChecker :=
  let '(checks, allHealthy, allReady) := foldl record_check (hc_checks h, true, true) all_checks in
  mkHealthChecker (hc_nodeID h) now
    (if allHealthy : bool then NodeStatusHealthy
     else if allReady : bool then NodeStatusDegraded else NodeStatusUnhealthy)
    checks true allReady.
End checks.

Definition IsLive (h : HealthChecker) : bool := livenessOK h.
Definition IsReady (h : HealthChecker) : bool := readinessOK h.

Definition SetLiveness (live : bool) (h : HealthChecker) : HealthChecker :=
  mkHealthChecker (hc_nodeID h) (hc_lastCheck h) (hc_status h) (hc_checks h) live (readinessOK h).
Definition SetReadiness (ready : bool) (h : HealthChecker) : HealthChecker :=
  mkHealthChecker (hc_nodeID h) (hc_lastCheck h) (hc_status h) (hc_checks h) (livenessOK h) ready.

(** The node id, the status and the Unix time of the last check. *)
Definition GetStatus (h : HealthChecker) : string * HealthNodeStatus * Z :=
  (hc_nodeID h, hc_status h, hc_lastCheck h / 1000000000).

Definition GetChecks (h : HealthChecker) : gmap string CheckResult := hc_checks h.

(** The HTTP status and the two fields of the body. *)
Definition LivenessHandler (h : HealthChecker) : Z * bool * HealthNodeStatus :=
  (if livenessOK h then 200 else 503, livenessOK h, hc_status h).
Definition ReadinessHandler (h : HealthChecker) : Z * bool * HealthNodeStatus :=
  (if readinessOK h then 200 else 503, readinessOK h, hc_status h).

(** *** The lock *)

(** Where a thread is.  A probe ([LivenessHandler], [ReadinessHandler]) takes
    the read lock, and takes it again in [GetStatus]; [IsLive], [IsReady] and
    [GetChecks] take it once; [runHealthChecks] and the setters take the write
    lock. *)
Inductive thread :=
  | Probe (held : nat) (locked : bool)   (* read locks held; whether GetStatus has locked *)
  | Reader (held : nat)
  | Writer0 | WriterPending | WriterHolds.

Definition held (t : thread) : nat :=
  match t with
  | Probe n _ | Reader n => n
  | _ => O
  end.

(** A writer has asked for the lock or has it. *)
Definition excludes (t : thread) : Prop := t = WriterPending ∨ t = WriterHolds.

Definition may_read (ts : list thread) : Prop := ∀ t, t ∈ ts → ¬ excludes t.

Inductive lock_step : list thread → list thread → Prop :=
  | probe_rlock ts i : ts !! i = Some (Probe 0 false) → may_read ts → lock_step ts (<[i := Probe 1 false]> ts)
  | probe_status_rlock ts i : ts !! i = Some (Probe 1 false) → may_read ts → lock_step ts (<[i := Probe 2 true]> ts)
  | probe_status_runlock ts i : ts !! i = Some (Probe 2 true) → lock_step ts (<[i := Probe 1 true]> ts)
  | probe_runlock ts i : ts !! i = Some (Probe 1 true) → lock_step ts (<[i := Probe 0 true]> ts)
  | reader_rlock ts i : ts !! i = Some (Reader 0) → may_read ts → lock_step ts (<[i := Reader 1]> ts)
  | reader_runlock ts i : ts !! i = Some (Reader 1) → lock_step ts (<[i := Reader 0]> ts)
  | writer_ask ts i : ts !! i = Some Writer0 → may_read ts → lock_step ts (<[i := WriterPending]> ts)
  | writer_lock ts i : ts !! i = Some WriterPending → (∀ t, t ∈ ts → held t = O) → lock_step ts (<[i := WriterHolds]> ts)
  | writer_unlock ts i : ts !! i = Some WriterHolds → lock_step ts (<[i := Writer0]> ts)
  | new_thread ts t : t = Probe 0 false ∨ t = Reader 0 ∨ t = Writer0 → lock_step ts (ts ++ [t]).

(** ** Lemmas *)

Lemma record_checks l checks a b :
  let '(checks', a', b') := foldl record_check (checks, a, b) l in
  (a' = true ↔ a = true ∧ Forall (λ r, cr_Status r = healthy) l) ∧
  (b' = true ↔ b = true ∧ Forall (λ r, cr_Status r ≠ critical) l) ∧
  (∀ name, name ∉ cr_Name <$> l → checks' !! name = checks !! name).
Proof.
  revert checks a b. induction l as [|r l IH]; intros checks a b; cbn [foldl].
  { split_and!; [|by split; [|intros [? _]]|done]; split; [by intros ->|by intros [? _]]. }
  cbn [record_check]. destruct (decide (cr_Status r = healthy)) as [Hh|Hh].
  - specialize (IH (<[cr_Name r := r]> checks) a b). destruct (foldl _ _ _) as [[checks' a'] b'].
    destruct IH as (-> & -> & Hc). rewrite !Forall_cons, Hh. split_and!; [naive_solver..|].
    intros name Hn. rewrite fmap_cons, not_elem_of_cons in Hn. destruct Hn as [Hne Hn].
    rewrite Hc, lookup_insert_ne by done. done.
  - set (b0 := if decide _ then _ else _). specialize (IH (<[cr_Name r := r]> checks) false b0).
    destruct (foldl _ _ _) as [[checks' a'] b']. destruct IH as (-> & -> & Hc). rewrite !Forall_cons. split_and!.
    + naive_solver.
    + unfold b0. destruct (decide (cr_Status r = critical)); naive_solver.
    + intros name Hn. rewrite fmap_cons, not_elem_of_cons in Hn. destruct Hn as [Hne Hn].
      rewrite Hc, lookup_insert_ne by done. done.
Qed.

(** A probe between its two read locks and a writer that waits for it. *)
Definition deadlocked (i j : nat) (ts : list thread) : Prop :=
  ts !! i = Some (Probe 1 false) ∧ ts !! j = Some WriterPending.

Lemma lookup_insert_other {A} (l : list A) k i x y z :
  l !! k = Some y → l !! i = Some x → y ≠ x → <[k := z]> l !! i = Some x.
Proof.
  intros Hk Hi Hne. destruct (decide (k = i)) as [<-|]; [congruence|]. by rewrite list_lookup_insert_ne.
Qed.

Lemma deadlock_step i j ts ts' : deadlocked i j ts → lock_step ts ts' → deadlocked i j ts'.
Proof.
  intros [Hi Hj] Hstep.
  assert (¬ may_read ts) as Hno.
  { intros Hr. apply (Hr WriterPending); [by eapply list_elem_of_lookup_2|by left]. }
  destruct Hstep as [ts k Hk Hr|ts k Hk Hr|ts k Hk|ts k Hk|ts k Hk Hr|ts k Hk|ts k Hk Hr|ts k Hk Hheld|ts k Hk|ts t Ht];
    try done; try (by split; eapply lookup_insert_other).
  - specialize (Hheld (Probe 1 false)). simpl in Hheld. exfalso.
    assert (1%nat = O) by (apply Hheld; by eapply list_elem_of_lookup_2). done.
  - split; by apply lookup_app_l_Some.
Qed.

Lemma deadlock_run i j ts ts' : deadlocked i j ts → rtc lock_step ts ts' → deadlocked i j ts'.
Proof. intros Hd Hrun. induction Hrun as [|ts ts1 ts2 Hstep _ IH]; [done|]. apply IH. by eapply deadlock_step. Qed.

(** ** Properties *)

(** After [runHealthChecks] the node is ready exactly when no check is
    critical, healthy exactly when every check is, unhealthy exactly when some
    check is critical; what [SetReadiness] and [SetLiveness] had set before is
    lost. *)
Theorem health_status_spec (os : os_view) (now : Z) (live ready : bool) (h : HealthChecker) :
  let h' := runHealthChecks os now (SetReadiness ready (SetLiveness live h)) in
  (IsReady h' = true ↔ Forall (λ r, cr_Status r ≠ critical) (all_checks os)) ∧
  (hc_status h' = NodeStatusHealthy ↔ Forall (λ r, cr_Status r = healthy) (all_checks os)) ∧
  (hc_status h' = NodeStatusUnhealthy ↔ Exists (λ r, cr_Status r = critical) (all_checks os)) ∧
  IsLive h' = true ∧ h' = runHealthChecks os now h.
Proof.
  intros h'. unfold h', runHealthChecks. cbn [hc_checks SetReadiness SetLiveness hc_nodeID].
  pose proof (record_checks (all_checks os) (hc_checks h) true true) as Hrec.
  destruct (foldl record_check _ _) as [[checks a] b]. destruct Hrec as (Ha & Hb & _).
  cbn [IsReady readinessOK hc_status IsLive livenessOK].
  assert (Exists (λ r, cr_Status r = critical) (all_checks os) ↔ ¬ Forall (λ r, cr_Status r ≠ critical) (all_checks os)) as ->.
  { split.
    - intros He Hall. rewrite Exists_exists in He. rewrite Forall_forall in Hall. destruct He as (r & Hr & Hc). by apply (Hall r).
    - intros Hn. apply not_Forall_Exists in Hn; [|apply _]. eapply Exists_impl; [exact Hn|]. intros r. apply dec_stable. }
  assert (a = true → b = true) as Hab.
  { intros [_ Hall]%Ha. apply Hb. split; [done|]. eapply Forall_impl; [exact Hall|]. by intros r ->. }
  split_and!; [naive_solver| | |done|done].
  - destruct a, b; naive_solver.
  - destruct a, b; naive_solver.
Qed.

(** A probe that arrives while the checker starts can stop the health checks
    for good: the probe holds the read lock, the checker has asked for the
    write lock, and [GetStatus] asks for the read lock a second time.  From
    then on, whatever threads come and go, the probe never answers, the checker
    never gets the lock, and no read lock is ever granted again. *)
Theorem health_probe_deadlock :
  ∃ ts, rtc lock_step [Probe 0 false; Writer0] ts ∧
    ∀ ts', rtc lock_step ts ts' →
      ts' !! 0%nat = Some (Probe 1 false) ∧ ts' !! 1%nat = Some WriterPending ∧ ¬ may_read ts'.
Proof.
  exists [Probe 1 false; WriterPending]. split.
  - eapply rtc_l; [apply (probe_rlock _ 0); [done|]|eapply rtc_l; [apply (writer_ask _ 1); [done|]|done]];
      intros t Ht [->| ->]; cbn in Ht; rewrite !elem_of_cons, elem_of_nil in Ht; naive_solver.
  - intros ts' Hrun. destruct (deadlock_run 0 1 [Probe 1 false; WriterPending] ts') as [Hi Hj]; [by split|done|]. split_and!; [done..|].
    intros Hr. apply (Hr WriterPending); [by eapply list_elem_of_lookup_2|by left].
Qed.
