(* ===== verification/GoJson.v ===== *)
(** * Decoding JSON into a struct

    [encoding/json.Unmarshal] as the gateway uses it: the syntax of JSON with
    Go's limit on nesting, the decoding of string literals (invalid UTF-8 and
    unpaired surrogates become U+FFFD), fields matched without regard to case,
    [null] and unknown fields ignored, the last of several values of a field
    kept, and a value of the wrong type an error of the whole call.  Printing is
    [json_string] and [json_int] of Json.v. *)

From S2P Require Import Prelude Utf8 Json.
#[local] Open Scope Z_scope.

(** ** Values *)

#[local] Unset Elimination Schemes.

Inductive json :=
  | JNull
  | JBool (b : bool)
  | JNumber (lit : list byte)
  | JString (s : string)
  | JArray (l : list json)
  | JObject (l : list (string * json)).

#[local] Set Elimination Schemes.

(** ** String literals *)

(** A hexadecimal digit of either case. *)
Definition hex_any (b : byte) : option Z :=
  let v := byte_val b in
  if (48 <=? v) && (v <=? 57) then Some (v - 48)
  else if (97 <=? v) && (v <=? 102) then Some (v - 87)
  else if (65 <=? v) && (v <=? 70) then Some (v - 55) else None.

Definition hex4 (h1 h2 h3 h4 : byte) : option Z :=
  v1 ← hex_any h1; v2 ← hex_any h2; v3 ← hex_any h3; v4 ← hex_any h4;
  Some (4096 * v1 + 256 * v2 + 16 * v3 + v4).

Definition is_surrogate (r : Z) : bool := (0xd800 <=? r) && (r <? 0xe000).

(** [utf16.DecodeRune] of a pair. *)
Definition surrogate_pair (r1 r2 : Z) : option Z :=
  if (0xd800 <=? r1) && (r1 <? 0xdc00) && (0xdc00 <=? r2) && (r2 <? 0xe000)
  then Some ((r1 - 0xd800) * 1024 + (r2 - 0xdc00) + 0x10000) else None.

(** The second half of a surrogate pair at the head of [s], and what follows. *)
Definition low_half (r : Z) (s : list byte) : option (Z * list byte) :=
  match s with
  | b :: c :: h1 :: h2 :: h3 :: h4 :: s' =>
      if decide (b = backslash ∧ c = x75) then
        r2 ← hex4 h1 h2 h3 h4; r' ← surrogate_pair r r2; Some (r', s')
      else None
  | _ => None
  end.

(** The character after a backslash other than [u]. *)
Definition simple_escape (c : byte) : option byte :=
  if decide (c = quote ∨ c = backslash ∨ c = x2f) then Some c
  else if decide (c = x62) then Some x08
  else if decide (c = x66) then Some x0c
  else if decide (c = x6e) then Some x0a
  else if decide (c = x72) then Some x0d
  else if decide (c = x74) then Some x09
  else None.

(** The contents of a string up to its closing quote. *)
Fixpoint unquote (fuel : nat) (s : list byte) : option (list byte * list byte) :=
  match fuel, s with
  | S fuel, b :: t =>
      if decide (b = quote) then Some ([], t)
      else if decide (b = backslash) then
        match t with
        | c :: t' =>
            if decide (c = x75) then
              match t' with
              | h1 :: h2 :: h3 :: h4 :: t'' =>
                  r ← hex4 h1 h2 h3 h4;
                  if is_surrogate r then
                    match low_half r t'' with
                    | Some (r', t3) => prepend (encode_rune r') (unquote fuel t3)
                    | None => prepend (encode_rune RuneError) (unquote fuel t'')
                    end
                  else prepend (encode_rune r) (unquote fuel t'')
              | _ => None
              end
            else x ← simple_escape c; prepend [x] (unquote fuel t')
        | [] => None
        end
      else if byte_val b <? 0x20 then None
      else
        let '(r, w) := decode_rune b t in
        let chunk := if (w =? 1)%nat && (0x80 <=? byte_val b) then encode_rune RuneError else take w s in
        prepend chunk (unquote fuel (drop w s))
  | _, _ => None
  end.

(** ** Numbers *)

Definition digitb (b : byte) : bool := (48 <=? byte_val b) && (byte_val b <=? 57).

Definition span (f : byte → bool) (s : list byte) : list byte * list byte := (take_while f s, drop_while f s).

(** The integer part: a zero, or digits that do not start with a zero. *)
Definition int_part (s : list byte) : option (list byte * list byte) :=
  match s with
  | b :: t =>
      if decide (b = x30) then Some ([b], t)
      else if digitb b then let '(d, t') := span digitb t in Some (b :: d, t') else None
  | [] => None
  end.

(** At least one digit. *)
Definition some_digits (s : list byte) : option (list byte * list byte) :=
  match span digitb s with
  | ([], _) => None
  | (d, t) => Some (d, t)
  end.

Definition frac_part (s : list byte) : option (list byte * list byte) :=
  match s with
  | b :: t => if decide (b = x2e) then '(d, t') ← some_digits t; Some (b :: d, t') else Some ([], s)
  | [] => Some ([], [])
  end.

Definition exp_part (s : list byte) : option (list byte * list byte) :=
  match s with
  | b :: t =>
      if decide (b = x65 ∨ b = x45) then
        match t with
        | c :: t' =>
            if decide (c = x2b ∨ c = minus) then '(d, t'') ← some_digits t'; Some (b :: c :: d, t'')
            else '(d, t'') ← some_digits t; Some (b :: d, t'')
        | [] => None
        end
      else Some ([], s)
  | [] => Some ([], [])
  end.

Definition number (s : list byte) : option (list byte * list byte) :=
  let '(sign, s) := match s with b :: t => if decide (b = minus) then ([b], t) else ([], s) | [] => ([], []) end in
  '(i, s) ← int_part s; '(f, s) ← frac_part s; '(e, s) ← exp_part s;
  Some (sign ++ i ++ f ++ e, s).

(** ** Values *)

Definition is_space (b : byte) : bool :=
  bool_decide (b = x20 ∨ b = x09 ∨ b = x0a ∨ b = x0d).

Definition skip (s : list byte) : list byte := drop_while is_space s.

(** [depth] is the nesting that is still allowed. *)
Fixpoint value (fuel depth : nat) (s : list byte) : option (json * list byte) :=
  match fuel with
  | O => None
  | S fuel =>
      match skip s with
      | [] => None
      | b :: t =>
          if decide (b = quote) then '(l, t) ← unquote (length t) t; Some (JString (string_of l), t)
          else if decide (b = lbrace) then
            match depth with
            | O => None
            | S depth =>
                match skip t with
                | c :: t' => if decide (c = rbrace) then Some (JObject [], t')
                             else '(l, t) ← members fuel depth (c :: t'); Some (JObject l, t)
                | [] => None
                end
            end
          else if decide (b = lbracket) then
            match depth with
            | O => None
            | S depth =>
                match skip t with
                | c :: t' => if decide (c = rbracket) then Some (JArray [], t')
                             else '(l, t) ← elements fuel depth (c :: t'); Some (JArray l, t)
                | [] => None
                end
            end
          else match literal (bytes "null") (b :: t), literal (bytes "true") (b :: t), literal (bytes "false") (b :: t) with
          | Some (_, t), _, _ => Some (JNull, t)
          | _, Some (_, t), _ => Some (JBool true, t)
          | _, _, Some (_, t) => Some (JBool false, t)
          | _, _, _ => '(lit, t) ← number (b :: t); Some (JNumber lit, t)
          end
      end
  end
with members (fuel depth : nat) (s : list byte) : option (list (string * json) * list byte) :=
  match fuel with
  | O => None
  | S fuel =>
      match skip s with
      | b :: t =>
          if decide (b = quote) then
            '(k, t) ← unquote (length t) t;
            match skip t with
            | c :: t =>
                if decide (c = x3a) then
                  '(v, t) ← value fuel depth t;
                  match skip t with
                  | d :: t =>
                      if decide (d = rbrace) then Some ([(string_of k, v)], t)
                      else if decide (d = comma) then '(l, t) ← members fuel depth t; Some ((string_of k, v) :: l, t)
                      else None
                  | [] => None
                  end
                else None
            | [] => None
            end
          else None
      | [] => None
      end
  end
with elements (fuel depth : nat) (s : list byte) : option (list json * list byte) :=
  match fuel with
  | O => None
  | S fuel =>
      '(v, t) ← value fuel depth s;
      match skip t with
      | d :: t =>
          if decide (d = rbracket) then Some ([v], t)
          else if decide (d = comma) then '(l, t) ← elements fuel depth t; Some (v :: l, t)
          else None
      | [] => None
      end
  end.

Definition maxNestingDepth : nat := 100 * 100.

(** A whole document.  Every call of the parser but the first consumes a byte
    before it calls on, so the fuel is enough. *)
Definition parse_json (s : list byte) : option json :=
  '(v, t) ← value (2 * length s + 2) maxNestingDepth s;
  match skip t with
  | [] => Some v
  | _ => None
  end.

(** ** Structs *)

Definition upper (b : byte) : byte :=
  if (97 <=? byte_val b) && (byte_val b <=? 122) then byte_of (byte_val b - 32) else b.

(** Go's folding of a name, for comparison with a name in ASCII: letters in
    upper case, U+017F as S and U+212A as K. *)
Fixpoint fold_name (s : list byte) : list byte :=
  match s with
  | xc5 :: xbf :: t => x53 :: fold_name t
  | xe2 :: x84 :: xaa :: t => x4b :: fold_name t
  | b :: t => upper b :: fold_name t
  | [] => []
  end.

Definition same_name (k name : string) : bool := bool_decide (fold_name (bytes k) = fold_name (bytes name)).

Definition is_null (j : json) : bool := match j with JNull => true | _ => false end.

(** The values a field of that name is set to, in order; [null] sets nothing. *)
Definition settings (name : string) (l : list (string * json)) : list json :=
  snd <$> filter (λ kv, same_name kv.1 name && negb (is_null kv.2) = true) l.

(** [strconv.ParseInt] of the literal, and the check against the field's width. *)
Definition int32_of (j : json) : option Z :=
  match j with
  | JNumber lit => z ← dec_Z lit; if (- 2 ^ 31 <=? z) && (z <? 2 ^ 31) then Some z else None
  | _ => None
  end.

Definition string_of_json (j : json) : option string :=
  match j with JString s => Some s | _ => None end.

(** A field: its zero value if it is not set, no value if some setting has the
    wrong type. *)
Definition get_field {A} (conv : json → option A) (zero : A) (name : string) (l : list (string * json)) : option A :=
  default zero ∘ last <$> mapM conv (settings name l).

Definition get_string := get_field string_of_json EmptyString.
Definition get_int32 := get_field int32_of 0.

(** The members of the document, for a struct with [decode]. *)
Definition Unmarshal {A} (decode : list (string * json) → option A) (body : list byte) : option A :=
  match parse_json body with
  | Some (JObject l) => decode l
  | Some JNull => decode []
  | _ => None
  end.

(** ** Reading back what the encoder writes *)

(** The text with every byte that is not part of a rune replaced by U+FFFD. *)
Fixpoint valid_text (fuel : nat) (s : list byte) : list byte :=
  match fuel, s with
  | S fuel, b :: rest =>
      let '(r, w) := decode_rune b rest in
      (if (w =? 1)%nat && (0x80 <=? byte_val b) then encode_rune RuneError else take w s) ++
      valid_text fuel (drop w s)
  | _, _ => []
  end.

Definition sanitize (s : string) : string := string_of (valid_text (length (bytes s)) (bytes s)).

Lemma valid_text_id fuel s : (length s ≤ fuel)%nat → valid_fuel fuel s = true → valid_text fuel s = s.
Proof.
  revert s. induction fuel as [|fuel IH]; intros [|b rest] Hlen Hv; simpl in Hlen; try done; try lia.
  cbn [valid_text valid_fuel] in *. pose proof (decode_width b rest) as Hw.
  destruct (decode_rune b rest) as [r w]. cbn [fst snd] in *. apply andb_true_iff in Hv as [Hv1 Hv2].
  apply negb_true_iff in Hv1. rewrite Hv1, IH; [by rewrite take_drop| |done]. rewrite length_drop. simpl. lia.
Qed.

Lemma sanitize_id s : valid_utf8 s = true → sanitize s = s.
Proof. intros Hv. unfold sanitize. rewrite valid_text_id by done. apply string_of_bytes. Qed.

(** A rune of several bytes is read from those bytes alone. *)
Lemma decode_local b rest t :
  (1 < (decode_rune b rest).2)%nat →
  decode_rune b (take ((decode_rune b rest).2 - 1) rest ++ t) = decode_rune b rest.
Proof.
  unfold decode_rune. cbn zeta.
  destruct (Z.ltb_spec (byte_val b) 0x80); [simpl; lia|].
  destruct (Z.ltb_spec (byte_val b) 0xc2); [simpl; lia|].
  destruct (Z.ltb_spec (byte_val b) 0xe0).
  { destruct rest as [|b1 rest]; [simpl; lia|]. destruct (is_cont b1) eqn:E; [|simpl; lia]. intros _.
    cbn [snd Nat.sub firstn app]. by rewrite E. }
  destruct (Z.ltb_spec (byte_val b) 0xf0).
  { destruct rest as [|b1 [|b2 rest]]; [simpl; lia..|]. destruct (_ && _) eqn:E; [|simpl; lia]. intros _.
    cbn [snd Nat.sub firstn app]. by rewrite E. }
  destruct (Z.ltb_spec (byte_val b) 0xf5); [|simpl; lia].
  destruct rest as [|b1 [|b2 [|b3 rest]]]; [simpl; lia..|].
  destruct (second_ok _ b1 && is_cont b2 && is_cont b3) eqn:E; [|simpl; lia]. intros _.
  cbn [snd Nat.sub firstn app]. by rewrite E.
Qed.

Lemma unquote_ascii fuel b t :
  byte_val b < 0x80 → unquote (S fuel) (esc_ascii b ++ t) = prepend [b] (unquote fuel t).
Proof. intros Hb. destruct b; try (vm_compute in Hb; discriminate); reflexivity. Qed.

Lemma unquote_rune fuel b rest t :
  (1 < (decode_rune b rest).2)%nat →
  unquote (S fuel) (take (decode_rune b rest).2 (b :: rest) ++ t) =
  prepend (take (decode_rune b rest).2 (b :: rest)) (unquote fuel t).
Proof.
  intros Hw. pose proof (chunk_high b rest Hw) as Hhigh. pose proof (decode_local b rest t Hw) as Hloc.
  pose proof (decode_width b rest) as Hlen.
  destruct (decode_rune b rest) as [r [|w]] eqn:Hd; cbn [fst snd] in *; [lia|].
  cbn [firstn app] in *. apply Forall_cons in Hhigh as [Hb _].
  replace (S w - 1)%nat with w in Hloc by lia.
  assert (length (take w rest) = w) as Hl by (rewrite length_take; lia).
  cbn [unquote]. rewrite !decide_False by (intros ->; by vm_compute in Hb).
  destruct (Z.ltb_spec (byte_val b) 0x20); [lia|]. rewrite Hloc.
  destruct (Nat.eqb_spec (S w) 1); [lia|]. cbn [andb firstn skipn].
  by rewrite (take_app_length' _ _ w), (drop_app_length' _ _ w) by done.
Qed.

Lemma esc_chunk_length r chunk : (length chunk ≤ 4 → length chunk ≤ length (esc_chunk r chunk))%nat.
Proof.
  destruct chunk as [|b [|c chunk]]; cbn [esc_chunk length]; intros Hl; [lia| |].
  - unfold esc_ascii, u_escape. repeat case_match; simpl; lia.
  - destruct (_ || _); simpl in *; lia.
Qed.

Lemma decode_width_4 b rest : ((decode_rune b rest).2 ≤ 4)%nat.
Proof. unfold decode_rune. repeat case_match; simpl; lia. Qed.

Lemma esc_length fuel s : (length s ≤ fuel → length s ≤ length (esc_fuel fuel s))%nat.
Proof.
  revert s. induction fuel as [|fuel IH]; intros [|b rest] Hlen; simpl in Hlen; try (simpl; lia).
  cbn [esc_fuel]. pose proof (decode_width b rest) as Hw. pose proof (decode_width_4 b rest) as Hw4.
  destruct (decode_rune b rest) as [r w]. cbn [fst snd] in *.
  pose proof (esc_chunk_length r (take w (b :: rest))) as Hc. rewrite length_take in Hc.
  specialize (IH (drop w (b :: rest))). rewrite length_drop in IH. rewrite length_app. simpl length in *. lia.
Qed.

Lemma unquote_chunk fuel b rest t :
  unquote (S fuel) (esc_chunk (decode_rune b rest).1 (take (decode_rune b rest).2 (b :: rest)) ++ t) =
  prepend (if ((decode_rune b rest).2 =? 1)%nat && (0x80 <=? byte_val b) then encode_rune RuneError
           else take (decode_rune b rest).2 (b :: rest)) (unquote fuel t).
Proof.
  pose proof (decode_width b rest) as Hw. pose proof (unquote_rune fuel b rest t) as Hrune.
  pose proof (decode_separator b rest) as Hsep. destruct (decode_rune b rest) as [r w]. cbn [fst snd] in *.
  destruct (decide (w = 1%nat)) as [->|Hw1].
  - change (take 1 (b :: rest)) with [b]. cbn [esc_chunk Nat.eqb andb].
    destruct (Z.ltb_spec (byte_val b) 0x80), (Z.leb_spec 0x80 (byte_val b)); try lia; [by apply unquote_ascii|reflexivity].
  - specialize (Hrune ltac:(lia)). destruct w as [|[|w]]; [lia|lia|].
    destruct rest as [|b1 rest]; [simpl in Hw; lia|]. cbn [Nat.eqb andb]. cbn [firstn esc_chunk] in *.
    destruct ((r =? 0x2028) || (r =? 0x2029)) eqn:Hr; [|exact Hrune].
    assert (r = 0x2028 ∨ r = 0x2029) as Hr' by lia.
    assert (∃ l, rune_bytes r = Some l) as [l Hl] by (destruct Hr' as [-> | ->]; by eexists).
    rewrite (Hsep r l) by done. destruct Hr' as [-> | ->]; injection Hl as <-; reflexivity.
Qed.

Lemma unquote_esc n fuel s t :
  (length s ≤ n)%nat → (length s < fuel)%nat → unquote fuel (esc_fuel n s ++ quote :: t) = Some (valid_text n s, t).
Proof.
  revert fuel s. induction n as [|n IH]; intros fuel [|b rest] Hlen Hf; (destruct fuel as [|fuel]; [simpl in Hf; lia|]);
    simpl in Hlen; try reflexivity; try lia.
  cbn [esc_fuel valid_text]. pose proof (decode_width b rest) as Hw. pose proof (unquote_chunk fuel b rest) as Hc.
  destruct (decode_rune b rest) as [r w]. cbn [fst snd] in *. rewrite <-(assoc (++)), Hc, IH; [done|..];
    rewrite length_drop; simpl length in *; lia.
Qed.

(** *** Numbers *)

(** What may follow a number. *)
Definition ends_number (s : list byte) : bool :=
  match s with
  | b :: _ => negb (digitb b) && bool_decide (b ≠ x2e ∧ b ≠ x65 ∧ b ≠ x45)
  | [] => true
  end.

Lemma pretty_go_head x s :
  (0 < x)%N → ∃ b l, bytes (pretty_N_go x s) = b :: l ∧ b ≠ x30 ∧ is_digit b ∧ (Forall is_digit (bytes s) → Forall is_digit l).
Proof.
  revert s. induction (N.lt_wf_0 x) as [x _ IH]; intros s Hx. rewrite pretty_N_go_step by lia.
  destruct (decide (x / 10 = 0)%N) as [Hz|Hnz].
  - rewrite Hz, pretty_N_go_0. set (c := pretty_N_char (x `mod` 10)).
    change (bytes (String c s)) with (Ascii.byte_of_ascii c :: bytes s). do 2 eexists. split; [done|].
    assert (x < 10)%N as Hlt by (apply N.div_small_iff; [lia|exact Hz]). unfold c. rewrite N.mod_small by done.
    assert (x = 1 ∨ x = 2 ∨ x = 3 ∨ x = 4 ∨ x = 5 ∨ x = 6 ∨ x = 7 ∨ x = 8 ∨ x = 9)%N as Hc by lia.
    destruct_or! Hc; subst x; by vm_compute.
  - destruct (IH (x / 10)%N ltac:(apply N.div_lt; lia) (String (pretty_N_char (x `mod` 10)) s)
      ltac:(by apply N.neq_0_lt_0))
      as (b & l & Hb & H0 & Hd & Hl).
    exists b, l. split_and!; auto. intros Hs. apply Hl. unfold bytes. simpl. constructor; [|done].
    unfold pretty_N_char. by repeat case_match.
Qed.

Lemma pretty_N_head (x : N) : ∃ b l, bytes (pretty x) = b :: l ∧ is_digit b ∧ Forall is_digit l ∧ (b = x30 → l = []).
Proof.
  unfold pretty, pretty_N. case_decide as Hx; [by exists x30, []|].
  destruct (pretty_go_head x EmptyString ltac:(lia)) as (b & l & Hb & H0 & Hd & Hl).
  exists b, l. split_and!; auto. done.
Qed.

Lemma digitb_spec b : digitb b = true ↔ is_digit b.
Proof. unfold digitb, is_digit. rewrite andb_true_iff, !Z.leb_le. done. Qed.

Lemma span_digits l s :
  Forall is_digit l → ends_number s = true → span digitb (l ++ s) = (l, s).
Proof.
  intros Hl Hs. unfold span. induction Hl as [|b l Hb _ IH]; simpl.
  - destruct s as [|b s]; [done|]. cbn [ends_number] in Hs. apply andb_true_iff in Hs as [Hs _].
    apply negb_true_iff in Hs. cbn [take_while drop_while]. by rewrite Hs.
  - apply digitb_spec in Hb. rewrite Hb. by injection IH as -> ->.
Qed.

Lemma number_rest s : ends_number s = true → frac_part s = Some ([], s) ∧ exp_part s = Some ([], s).
Proof.
  intros Hs. destruct s as [|b s]; [done|]. cbn [ends_number] in Hs. apply andb_true_iff in Hs as [_ Hs].
  apply bool_decide_eq_true in Hs as (H1 & H2 & H3). cbn [frac_part exp_part].
  by rewrite !decide_False by naive_solver.
Qed.

Lemma int_part_pretty (x : N) s : ends_number s = true → int_part (bytes (pretty x) ++ s) = Some (bytes (pretty x), s).
Proof.
  intros Hs. destruct (pretty_N_head x) as (b & l & -> & Hb & Hl & H0). cbn [app int_part].
  case_decide as Hz; [by rewrite H0|]. rewrite (proj2 (digitb_spec b)) by done. by rewrite span_digits.
Qed.

Lemma number_int z s : ends_number s = true → number (json_int z ++ s) = Some (json_int z, s).
Proof.
  intros Hs. destruct (number_rest s Hs) as [Hf He].
  assert (∀ x : N, number (bytes (pretty x) ++ s) = Some (bytes (pretty x), s)) as Hpos.
  { intros x. pose proof (int_part_pretty x s Hs) as Hi.
    destruct (pretty_N_head x) as (b & l & Hb & Hd & _). rewrite Hb in Hi |- *. unfold number. cbn [app] in *.
    rewrite decide_False by (intros ->; by destruct Hd as [Hd _]; vm_compute in Hd).
    rewrite Hi. cbn [mbind option_bind]. rewrite Hf. cbn [mbind option_bind]. rewrite He. cbn [mbind option_bind app].
    by rewrite !app_nil_r. }
  unfold json_int. destruct z as [|x|x].
  - apply (Hpos 0%N).
  - apply (Hpos (N.pos x)).
  - change (bytes (pretty (Z.neg x))) with (minus :: bytes (pretty (N.pos x))). unfold number. cbn [app].
    rewrite decide_True by done. rewrite int_part_pretty by done. cbn [mbind option_bind]. rewrite Hf.
    cbn [mbind option_bind]. rewrite He. cbn [mbind option_bind app]. by rewrite !app_nil_r.
Qed.

(** *** Values *)

(** [l] is read as [j] at any depth of at least [d], whatever follows that
    cannot extend a number. *)
Definition prints (d : nat) (l : list byte) (j : json) : Prop :=
  ∀ fuel depth s, (length l ≤ fuel)%nat → (d ≤ depth)%nat → ends_number s = true →
    value fuel depth (l ++ s) = Some (j, s).

Lemma unquote_string n s t :
  (length (bytes s) < n)%nat →
  unquote n (esc_fuel (length (bytes s)) (bytes s) ++ quote :: t) = Some (bytes (sanitize s), t).
Proof. intros Hn. rewrite unquote_esc by done. unfold sanitize. by rewrite bytes_string_of. Qed.

Lemma unquote_literal s t :
  unquote (length (esc_fuel (length (bytes s)) (bytes s) ++ quote :: t))
          (esc_fuel (length (bytes s)) (bytes s) ++ quote :: t) = Some (bytes (sanitize s), t).
Proof.
  apply unquote_string. rewrite length_app. pose proof (esc_length (length (bytes s)) (bytes s)). simpl. lia.
Qed.

Lemma json_string_app s t :
  json_string s ++ t = quote :: esc_fuel (length (bytes s)) (bytes s) ++ quote :: t.
Proof. unfold json_string. by rewrite <-!(assoc (++)). Qed.

Lemma prints_string d s : prints d (json_string s) (JString (sanitize s)).
Proof.
  intros fuel depth t Hf _ _. destruct fuel as [|fuel]; [simpl in Hf; lia|]. rewrite json_string_app. cbn [value].
  change (skip (quote :: ?l)) with (quote :: l). cbv iota beta. rewrite decide_True by done.
  rewrite unquote_literal. cbn [mbind option_bind]. by rewrite string_of_bytes.
Qed.

Lemma int_head z : ∃ b l, json_int z = b :: l ∧ int_char b.
Proof.
  pose proof (json_int_chars z) as Hc. destruct (json_int z) as [|b l] eqn:Hz.
  - pose proof (dec_json_int z) as Hd. by rewrite Hz in Hd.
  - apply Forall_cons in Hc as [Hb _]. by exists b, l.
Qed.

Lemma prints_int d z : prints d (json_int z) (JNumber (json_int z)).
Proof.
  intros fuel depth t Hf _ Ht. pose proof (number_int z t Ht) as Hn.
  destruct (int_head z) as (b & l & Hz & Hb). rewrite Hz in *. destruct fuel as [|fuel]; [simpl in Hf; lia|].
  cbn [app] in *. cbn [value].
  assert (skip (b :: l ++ t) = b :: l ++ t ∧ b ≠ quote ∧ b ≠ lbrace ∧ b ≠ lbracket ∧ b ≠ x6e ∧ b ≠ x74 ∧ b ≠ x66)
    as (-> & H1 & H2 & H3 & H4 & H5 & H6).
  { destruct Hb as [-> | [Hb1 Hb2]]; [by vm_compute|].
    destruct b; try (vm_compute in Hb1; by destruct Hb1); try (vm_compute in Hb2; by destruct Hb2); by vm_compute. }
  rewrite !decide_False by done.
  change (bytes "null") with [x6e; x75; x6c; x6c]. change (bytes "true") with [x74; x72; x75; x65].
  change (bytes "false") with [x66; x61; x6c; x73; x65]. cbn [literal].
  rewrite !decide_False by congruence. by rewrite Hn.
Qed.

Lemma prints_bool d b : prints d (json_bool b) (JBool b).
Proof. intros [|fuel] depth t Hf _ _; [destruct b; simpl in Hf; lia|]. destruct b; reflexivity. Qed.

(** *** Objects *)

Definition json_member (kv : string * list byte) : list byte := json_string kv.1 ++ [x3a] ++ kv.2.

Fixpoint json_members (l : list (string * list byte)) : list byte :=
  match l with
  | [] => []
  | [kv] => json_member kv
  | kv :: l => json_member kv ++ [comma] ++ json_members l
  end.

Definition json_object (l : list (string * list byte)) : list byte := [lbrace] ++ json_members l ++ [rbrace].

Definition member_prints (d : nat) (kv : string * list byte) (kj : string * json) : Prop :=
  kj.1 = sanitize kv.1 ∧ prints d kv.2 kj.2.

(** One step of [members]: the key and the value are read, and what follows decides. *)
Lemma members_step d kv kj fuel depth s :
  member_prints d kv kj → (length (json_member kv) ≤ fuel)%nat → (d ≤ depth)%nat → ends_number s = true →
  members (S fuel) depth (json_member kv ++ s) =
    match skip s with
    | c :: t =>
        if decide (c = rbrace) then Some ([kj], t)
        else if decide (c = comma) then '(l, t) ← members fuel depth t; Some (kj :: l, t)
        else None
    | [] => None
    end.
Proof.
  intros [Hk Hp] Hf Hd Hs. destruct kv as [k v], kj as [k' j]. cbn [fst snd] in *. subst k'.
  unfold json_member in *. cbn [fst snd] in *. rewrite !length_app in Hf. rewrite <-!(assoc (++)), json_string_app.
  cbn [members]. change (skip (quote :: ?l)) with (quote :: l). cbv iota beta. rewrite decide_True by done.
  rewrite unquote_literal. cbn [mbind option_bind].
  change (skip ([x3a] ++ v ++ s)) with (x3a :: v ++ s). cbv iota beta. rewrite decide_True by done.
  rewrite Hp by (done || lia). cbn [mbind option_bind]. by rewrite string_of_bytes.
Qed.

Lemma members_prints d kv kj l js fuel depth s :
  Forall2 (member_prints d) (kv :: l) (kj :: js) → (length (json_members (kv :: l)) < fuel)%nat → (d ≤ depth)%nat →
  members fuel depth (json_members (kv :: l) ++ rbrace :: s) = Some (kj :: js, s).
Proof.
  revert kv kj js fuel. induction l as [|kv' l IH]; intros kv kj js fuel Hall Hf Hd;
    apply Forall2_cons in Hall as [Hp Hall]; (destruct fuel as [|fuel]; [lia|]).
  - apply Forall2_nil_inv_l in Hall as ->. cbn [json_members] in *. by rewrite (members_step d kv kj) by (done || lia).
  - apply Forall2_cons_inv_l in Hall as (kj' & js' & Hp' & Hall & ->).
    change (json_members (kv :: kv' :: l)) with (json_member kv ++ [comma] ++ json_members (kv' :: l)) in *.
    rewrite !length_app in Hf. cbn [length] in Hf.
    rewrite <-!(assoc (++)), (members_step d kv kj) by (done || lia).
    change (skip ([comma] ++ ?l)) with (comma :: l). cbv iota beta.
    rewrite decide_False by done. rewrite decide_True by done.
    by rewrite (IH kv' kj' js') by (by constructor || lia).
Qed.

Lemma prints_object d l js : Forall2 (member_prints d) l js → prints (S d) (json_object l) (JObject js).
Proof.
  intros Hall fuel depth s Hf Hd _. destruct depth as [|depth]; [lia|]. destruct fuel as [|fuel]; [cbn [length json_object app] in Hf; lia|].
  unfold json_object in *. rewrite !length_app in Hf. cbn [length] in Hf. rewrite <-!(assoc (++)).
  destruct Hall as [|kv kj l js Hp Hall]; [reflexivity|].
  assert (∃ t, json_members (kv :: l) ++ [rbrace] ++ s = quote :: t) as [t Ht].
  { destruct l; cbn [json_members]; unfold json_member; rewrite <-!app_assoc, json_string_app; by eexists. }
  cbn [value]. change (skip ([lbrace] ++ ?l)) with (lbrace :: l). cbv iota beta. rewrite decide_False by done.
  rewrite decide_True by done. rewrite Ht. change (skip (quote :: t)) with (quote :: t). cbv iota beta.
  rewrite decide_False by done. rewrite <-Ht. change ([rbrace] ++ s) with (rbrace :: s).
  by rewrite (members_prints d kv kj l js) by (by constructor || lia).
Qed.

Lemma prints_parse d l j :
  prints d l j → (d ≤ 100)%nat → parse_json l = Some j ∧ parse_json (l ++ [x0a]) = Some j.
Proof.
  intros Hp Hd. assert (d ≤ maxNestingDepth)%nat as Hm by (unfold maxNestingDepth; lia). unfold parse_json. split.
  - pose proof (Hp (2 * length l + 2)%nat maxNestingDepth [] ltac:(lia) Hm eq_refl) as H. rewrite app_nil_r in H.
    by rewrite H.
  - rewrite Hp; [reflexivity| |exact Hm|reflexivity]. rewrite length_app. simpl. lia.
Qed.

(** ** The fuel is enough *)

Lemma skip_length s : (length (skip s) ≤ length s)%nat.
Proof. unfold skip. induction s as [|b s IH]; simpl; [lia|]. destruct (is_space b); simpl; lia. Qed.

Lemma prepend_Some l r a t : prepend l r = Some (a, t) → ∃ a', r = Some (a', t).
Proof. destruct r as [[a' t']|]; simpl; [intros [= _ <-]; by eexists|done]. Qed.

Lemma low_half_length r s r' t : low_half r s = Some (r', t) → (length t ≤ length s)%nat.
Proof.
  unfold low_half. do 6 (destruct s as [|? s]; [done|]). case_decide; [|done].
  destruct (hex4 _ _ _ _); [|done]. cbn [mbind option_bind]. destruct (surrogate_pair _ _); [|done].
  cbn [mbind option_bind]. intros [= _ <-]. simpl. lia.
Qed.

Lemma unquote_length fuel s l t : unquote fuel s = Some (l, t) → (length t < length s)%nat.
Proof.
  revert s l t. induction fuel as [|fuel IH]; intros [|b s] l t; cbn [unquote]; try done.
  case_decide; [intros [= <- <-]; simpl; lia|]. case_decide.
  - destruct s as [|c s]; [done|]. case_decide.
    + destruct s as [|h1 [|h2 [|h3 [|h4 s]]]]; try done. destruct (hex4 h1 h2 h3 h4) as [r|]; [|done].
      cbn [mbind option_bind]. destruct (is_surrogate r); [destruct (low_half r s) as [[r' s']|] eqn:Hl|];
        intros (a & Ha)%prepend_Some; apply IH in Ha; try apply low_half_length in Hl; simpl in *; lia.
    + destruct (simple_escape c) as [x|]; [|done]. cbn [mbind option_bind]. intros (a & Ha)%prepend_Some.
      apply IH in Ha. simpl. lia.
  - destruct (byte_val b <? 0x20); [done|]. pose proof (decode_width b s) as Hw.
    destruct (decode_rune b s) as [r w]. cbn [fst snd] in *. intros (a & Ha)%prepend_Some. apply IH in Ha.
    rewrite length_drop in Ha. simpl in *. lia.
Qed.

Lemma drop_while_length (f : byte → bool) s : (length (drop_while f s) ≤ length s)%nat.
Proof. induction s as [|b s IH]; simpl; [lia|]. destruct (f b); simpl; lia. Qed.

Lemma some_digits_length s d t : some_digits s = Some (d, t) → (length t ≤ length s)%nat.
Proof.
  unfold some_digits, span. pose proof (drop_while_length digitb s). destruct (take_while digitb s); [done|].
  intros [= _ <-]. done.
Qed.

Lemma number_length s lit t : number s = Some (lit, t) → (length t < length s)%nat.
Proof.
  intros Hnum. unfold number in Hnum.
  destruct (match s with [] => _ | _ => _ end) as [sign s1] eqn:E1.
  assert (length s1 ≤ length s)%nat by (destruct s; [by injection E1 as _ <-|case_decide; injection E1 as _ <-; simpl; lia]).
  destruct (int_part s1) as [[i s2]|] eqn:E2; [|done]. cbn [mbind option_bind] in Hnum.
  assert (length s2 < length s1)%nat.
  { unfold int_part in E2. destruct s1 as [|b s1]; [done|]. case_decide; [injection E2 as _ <-; simpl; lia|].
    destruct (digitb b); [|done]. injection E2 as _ <-. pose proof (drop_while_length digitb s1). simpl. lia. }
  destruct (frac_part s2) as [[f s3]|] eqn:E3; [|done]. cbn [mbind option_bind] in Hnum.
  assert (length s3 ≤ length s2)%nat.
  { unfold frac_part in E3. destruct s2 as [|b s2]; [by injection E3 as _ <-|]. case_decide; [|by injection E3 as _ <-].
    destruct (some_digits s2) as [[d s']|] eqn:Ed; [|done]. injection E3 as _ <-.
    apply some_digits_length in Ed. simpl. lia. }
  destruct (exp_part s3) as [[e s4]|] eqn:E4; [|done]. cbn [mbind option_bind] in Hnum. injection Hnum as _ <-.
  assert (length s4 ≤ length s3)%nat; [|lia].
  unfold exp_part in E4. destruct s3 as [|b s3]; [by injection E4 as _ <-|]. case_decide; [|by injection E4 as _ <-].
  destruct s3 as [|c s3]; [done|]. case_decide.
  - destruct (some_digits s3) as [[d s']|] eqn:Ed; [|done]. injection E4 as _ <-. apply some_digits_length in Ed. simpl. lia.
  - destruct (some_digits (c :: s3)) as [[d s']|] eqn:Ed; [|done]. injection E4 as _ <-.
    apply some_digits_length in Ed. simpl in *. lia.
Qed.

Lemma literal_length l s t : literal l s = Some (tt, t) → (length t = length s - length l)%nat ∧ (length l ≤ length s)%nat.
Proof.
  revert s. induction l as [|b l IH]; intros s; [intros [= <-]; simpl; lia|].
  destruct s as [|c s]; [done|]. cbn [literal]. case_decide; [|done]. intros Hl%IH. simpl. lia.
Qed.

Definition shrinks {A} (p : list byte → option (A * list byte)) : Prop :=
  ∀ s a t, p s = Some (a, t) → (length t < length s)%nat.

(** A scalar or the opening of a list: what [value] does with the first byte. *)
Lemma keywords_shrink b t j t' :
  match literal (bytes "null") (b :: t), literal (bytes "true") (b :: t), literal (bytes "false") (b :: t) with
  | Some (_, t), _, _ => Some (JNull, t)
  | _, Some (_, t), _ => Some (JBool true, t)
  | _, _, Some (_, t) => Some (JBool false, t)
  | _, _, _ => '(lit, t) ← number (b :: t); Some (JNumber lit, t)
  end = Some (j, t') → (length t' < length (b :: t))%nat.
Proof.
  destruct (literal (bytes "null") _) as [[[] u]|] eqn:E1;
    [intros [= _ <-]; apply literal_length in E1; simpl in *; lia|].
  destruct (literal (bytes "true") _) as [[[] u]|] eqn:E2;
    [intros [= _ <-]; apply literal_length in E2; simpl in *; lia|].
  destruct (literal (bytes "false") _) as [[[] u]|] eqn:E3;
    [intros [= _ <-]; apply literal_length in E3; simpl in *; lia|].
  destruct (number (b :: t)) as [[lit u]|] eqn:E4; [|done]. intros [= _ <-]. by apply number_length in E4.
Qed.

Lemma value_shrinks fuel :
  ∀ depth, shrinks (value fuel depth) ∧ shrinks (members fuel depth) ∧ shrinks (elements fuel depth).
Proof.
  induction fuel as [|fuel IH]; intros depth; [done|]. split_and!; intros s j t' H.
  - cbn [value] in H. pose proof (skip_length s) as Hs. destruct (skip s) as [|b t]; [done|].
    case_decide; [|case_decide; [|case_decide]].
    + destruct (unquote _ t) as [[l u]|] eqn:E; [|done]. injection H as _ <-. apply unquote_length in E. simpl in *. lia.
    + destruct depth as [|depth]; [done|]. pose proof (skip_length t) as Ht. destruct (skip t) as [|c u]; [done|].
      case_decide; [injection H as _ <-; simpl in *; lia|].
      destruct (members fuel depth (c :: u)) as [[l v]|] eqn:E; [|done]. injection H as _ <-.
      apply IH in E. simpl in *. lia.
    + destruct depth as [|depth]; [done|]. pose proof (skip_length t) as Ht. destruct (skip t) as [|c u]; [done|].
      case_decide; [injection H as _ <-; simpl in *; lia|].
      destruct (elements fuel depth (c :: u)) as [[l v]|] eqn:E; [|done]. injection H as _ <-.
      apply IH in E. simpl in *. lia.
    + apply keywords_shrink in H. simpl in *. lia.
  - cbn [members] in H. pose proof (skip_length s) as Hs. destruct (skip s) as [|b t]; [done|]. case_decide; [|done].
    destruct (unquote _ t) as [[k u]|] eqn:E; [|done]. apply unquote_length in E. cbn [mbind option_bind] in H.
    pose proof (skip_length u) as Hu. destruct (skip u) as [|c v]; [done|]. case_decide; [|done].
    destruct (value fuel depth v) as [[x w]|] eqn:E2; [|done]. apply IH in E2. cbn [mbind option_bind] in H.
    pose proof (skip_length w) as Hw. destruct (skip w) as [|e w']; [done|].
    case_decide; [injection H as _ <-; simpl in *; lia|]. case_decide; [|done].
    destruct (members fuel depth w') as [[l z]|] eqn:E3; [|done]. apply IH in E3. injection H as _ <-. simpl in *. lia.
  - cbn [elements] in H. destruct (value fuel depth s) as [[x w]|] eqn:E2; [|done]. apply IH in E2.
    cbn [mbind option_bind] in H. pose proof (skip_length w) as Hw. destruct (skip w) as [|e w']; [done|].
    case_decide; [injection H as _ <-; simpl in *; lia|]. case_decide; [|done].
    destruct (elements fuel depth w') as [[l z]|] eqn:E3; [|done]. apply IH in E3. injection H as _ <-. simpl in *. lia.
Qed.

(** More fuel than a document needs does not change how it is read. *)
Lemma value_enough n m depth s :
  ((2 * length s < n → 2 * length s < m → value n depth s = value m depth s) ∧
   (2 * length s < n → 2 * length s < m → members n depth s = members m depth s) ∧
   (S (2 * length s) < n → S (2 * length s) < m → elements n depth s = elements m depth s))%nat.
Proof.
  revert m depth s. induction n as [|n IH]; intros [|m] depth s; split_and!; intros Hn Hm; try lia.
  - cbn [value]. pose proof (skip_length s) as Hs. destruct (skip s) as [|b t]; [done|].
    case_decide; [done|]. case_decide; [|case_decide; [|done]].
    all: destruct depth as [|depth]; [done|]; pose proof (skip_length t) as Ht; destruct (skip t) as [|c u]; [done|];
      case_decide; [done|].
    + rewrite (proj1 (proj2 (IH m depth (c :: u)))) by (simpl in *; lia). done.
    + rewrite (proj2 (proj2 (IH m depth (c :: u)))) by (simpl in *; lia). done.
  - cbn [members]. pose proof (skip_length s) as Hs. destruct (skip s) as [|b t]; [done|]. case_decide; [|done].
    destruct (unquote _ t) as [[k u]|] eqn:E; [|done]. apply unquote_length in E. cbn [mbind option_bind].
    pose proof (skip_length u) as Hu. destruct (skip u) as [|c v]; [done|]. case_decide; [|done].
    rewrite (proj1 (IH m depth v)) by (simpl in *; lia).
    destruct (value m depth v) as [[x w]|] eqn:E2; [|done]. apply value_shrinks in E2. cbn [mbind option_bind].
    pose proof (skip_length w) as Hw. destruct (skip w) as [|e w']; [done|]. case_decide; [done|].
    case_decide; [|done]. rewrite (proj1 (proj2 (IH m depth w'))) by (simpl in *; lia). done.
  - cbn [elements]. rewrite (proj1 (IH m depth s)) by lia. destruct (value m depth s) as [[x w]|] eqn:E2; [|done].
    apply value_shrinks in E2. cbn [mbind option_bind]. pose proof (skip_length w) as Hw.
    destruct (skip w) as [|e w']; [done|]. case_decide; [done|]. case_decide; [|done].
    rewrite (proj2 (proj2 (IH m depth w'))) by (simpl in *; lia). done.
Qed.
