(* ===== verification/CoordinatorHandlers.v ===== *)
(** * The coordinator's RPC handlers

    [coordinator/internal/handler/keyvalue_handler.go] and [tenant_handler.go]:
    validation of the requests, the calls of the coordinator and tenant services,
    and the mapping of their results to responses and gRPC status errors.  The
    messages are those of [coordinator.proto], which the gateway shares. *)

From S2P Require Import Prelude GoHash Model VectorClock Ring Consistency Routing StorageHandler StorageClient Conflict HintedHandoff Tenant Idempotency Coordinator.
#[local] Open Scope Z_scope.

(** ** gRPC status *)

Inductive code :=
  | code_OK | code_Canceled | code_Unknown | code_InvalidArgument | code_DeadlineExceeded | code_NotFound
  | code_AlreadyExists | code_PermissionDenied | code_ResourceExhausted | code_FailedPrecondition | code_Aborted
  | code_OutOfRange | code_Unimplemented | code_Internal | code_Unavailable | code_DataLoss | code_Unauthenticated.

#[global] Instance code_eq_dec : EqDecision code.
Proof. solve_decision. Defined.

Record Status := mkStatus { st_Code : code; st_Message : string }.

(** ** Messages *)

Record WriteKeyValueRequest := mkWriteKeyValueRequest {
  kwq_TenantId : string;
  kwq_Key : string;
  kwq_Value : list byte;
  kwq_Consistency : string;
  kwq_IdempotencyKey : string;
}.

Record WriteKeyValueResponse := mkWriteKeyValueResponse {
  kwp_Success : bool;
  kwp_Key : string;
  kwp_IdempotencyKey : string;
  kwp_VectorClock : option VectorClock;
  kwp_ReplicaCount : Z;
  kwp_Consistency : string;
  kwp_IsDuplicate : bool;
  kwp_ErrorMessage : string;
}.

Record ReadKeyValueRequest := mkReadKeyValueRequest {
  krq_TenantId : string;
  krq_Key : string;
  krq_Consistency : string;
}.

Record ReadKeyValueResponse := mkReadKeyValueResponse {
  krp_Success : bool;
  krp_Key : string;
  krp_Value : list byte;
  krp_VectorClock : option VectorClock;
  krp_ErrorMessage : string;
}.

Record CreateTenantRequest := mkCreateTenantRequest { cq_TenantId : string; cq_ReplicationFactor : Z }.

Record CreateTenantResponse := mkCreateTenantResponse {
  cp_Success : bool;
  cp_TenantId : string;
  cp_ReplicationFactor : Z;
  cp_CreatedAt : Z;
  cp_ErrorMessage : string;
}.

Record UpdateReplicationFactorRequest := mkUpdateReplicationFactorRequest {
  uq_TenantId : string;
  uq_NewReplicationFactor : Z;
}.

Record UpdateReplicationFactorResponse := mkUpdateReplicationFactorResponse {
  up_Success : bool;
  up_TenantId : string;
  up_OldReplicationFactor : Z;
  up_NewReplicationFactor : Z;
  up_MigrationId : string;
  up_UpdatedAt : Z;
  up_ErrorMessage : string;
}.

Record GetTenantResponse := mkGetTenantResponse {
  gp_Success : bool;
  gp_TenantId : string;
  gp_ReplicationFactor : Z;
  gp_CreatedAt : Z;
  gp_UpdatedAt : Z;
  gp_ErrorMessage : string;
}.

(** ** Validation *)

Definition consistency_allowed (c : string) : bool :=
  bool_decide (c = EmptyString ∨ c = "one" ∨ c = "quorum" ∨ c = "all").

Definition validateWriteRequest (req : WriteKeyValueRequest) : option string :=
  if decide (kwq_TenantId req = EmptyString) then Some "tenant_id is required"
  else if decide (kwq_Key req = EmptyString) then Some "key is required"
  else if decide (kwq_Value req = []) then Some "value is required"
  else if 1024 * 1024 <? Z.of_nat (length (kwq_Value req)) then Some "value size exceeds limit (1MB)"
  else if negb (consistency_allowed (kwq_Consistency req))
       then Some "invalid consistency level: must be one of: one, quorum, all"
  else None.

Definition validateReadRequest (req : ReadKeyValueRequest) : option string :=
  if decide (krq_TenantId req = EmptyString) then Some "tenant_id is required"
  else if decide (krq_Key req = EmptyString) then Some "key is required"
  else if negb (consistency_allowed (krq_Consistency req))
       then Some "invalid consistency level: must be one of: one, quorum, all"
  else None.

Definition validateCreateTenantRequest (req : CreateTenantRequest) : option string :=
  if decide (cq_TenantId req = EmptyString) then Some "tenant_id is required"
  else if (cq_ReplicationFactor req <? 0) || (10 <? cq_ReplicationFactor req)
       then Some "replication_factor must be between 1 and 10"
  else None.

Definition validateUpdateReplicationFactorRequest (req : UpdateReplicationFactorRequest) : option string :=
  if decide (uq_TenantId req = EmptyString) then Some "tenant_id is required"
  else if (uq_NewReplicationFactor req <? 1) || (10 <? uq_NewReplicationFactor req)
       then Some "new_replication_factor must be between 1 and 10"
  else None.

(** ** The texts of the services' errors *)

Definition tenant_error_text (e : tenant_error) (what : string) : string :=
  match e with
  | InvalidReplicationFactor f => "invalid replication factor: " +:+ pretty f +:+ " (must be between 1 and 10)"
  | MetadataStoreFailed m => what +:+ m
  end.

Definition fetch_failed : string := "failed to fetch tenant from metadata store: ".

(** [what] is "write" or "read"; [listing] is the error of the node listing. *)
Definition routing_error_text (what listing : string) (e : routing_error) : string :=
  match e with
  | InsufficientNodes need got => "insufficient storage nodes: need " +:+ pretty need +:+ ", got " +:+ pretty got
  | UnresolvedNodes need got =>
      "failed to resolve all " +:+ what +:+ " replicas: need " +:+ pretty need +:+ ", got " +:+ pretty got
  | ListFailed => "failed to list storage nodes: " +:+ listing
  end.

Definition listing_error (q : request_env) : string :=
  match q_nodes q with Err m => m | Ok _ => EmptyString end.

(** [err.Error()].  A tenant pointer always has a tenant ([tenant_never_nil]). *)
Definition coordinator_error_text (what : string) (q : request_env) (e : coordinator_error) : string :=
  match e with
  | ConsistencyInvalid => "invalid consistency level: must be one of: one, quorum, all"
  | TenantFailed e => "failed to get tenant configuration: " +:+ tenant_error_text e fetch_failed
  | RoutingFailed e => "failed to get " +:+ what +:+ " replicas: " +:+ routing_error_text what (listing_error q) e
  | QuorumNotReached n m => "quorum not reached: " +:+ pretty n +:+ "/" +:+ pretty m
  | KeyNotFoundError => "key not found"
  | NilTenant => EmptyString
  end.

(** What [errors.Is] finds in an error of the metadata store's pool. *)
Class StoreErrors := {
  is_deadline : string → bool;
  is_canceled : string → bool;
}.

(** The error of the pool that an error of the coordinator wraps. *)
Definition wrapped (q : request_env) (e : coordinator_error) : option string :=
  match e with
  | TenantFailed (MetadataStoreFailed m) => Some m
  | RoutingFailed ListFailed => Some (listing_error q)
  | _ => None
  end.

Definition errors_Is (p : string → bool) (q : request_env) (e : coordinator_error) : bool :=
  match wrapped q e with Some m => p m | None => false end.

(** ** Handlers *)

Section handlers.
Context `{MapRange} `{StoreErrors}.

Definition kv_status (what : string) (q : request_env) (e : coordinator_error) : Status :=
  if errors_Is is_deadline q e then mkStatus code_DeadlineExceeded (what +:+ " timeout")
  else if errors_Is is_canceled q e then mkStatus code_Canceled (what +:+ " canceled")
  else mkStatus code_Internal (coordinator_error_text what q e).

(** The reply, what is handed to the idempotency store, and the new state. *)
Definition handler_WriteKeyValue (q : request_env) (req : WriteKeyValueRequest) (s : CoordinatorService)
    : res Status WriteKeyValueResponse * option (string * any) * CoordinatorService :=
  match validateWriteRequest req with
  | Some m => (Err (mkStatus code_InvalidArgument m), None, s)
  | None =>
      match WriteKeyValue q (kwq_TenantId req) (kwq_Key req) (kwq_Value req) (kwq_Consistency req) (kwq_IdempotencyKey req) s with
      | (Err e, rec, s) => (Err (kv_status "write" q e), rec, s)
      | (Ok r, rec, s) =>
          (Ok (mkWriteKeyValueResponse (wr_Success r) (wr_Key r) (kwq_IdempotencyKey req) (Some (wr_VectorClock r))
                 (wr_ReplicaCount r) (wr_Consistency r) (wr_IsDuplicate r) EmptyString), rec, s)
      end
  end.

(** The reply, the read repair left running, and the new state. *)
Definition handler_ReadKeyValue (q : request_env) (req : ReadKeyValueRequest) (s : CoordinatorService)
    : res Status ReadKeyValueResponse * list repair_task * CoordinatorService :=
  match validateReadRequest req with
  | Some m => (Err (mkStatus code_InvalidArgument m), [], s)
  | None =>
      match ReadKeyValue q (krq_TenantId req) (krq_Key req) (krq_Consistency req) s with
      | (Err e, tasks, s) => (Err (kv_status "read" q e), tasks, s)
      | (Ok r, tasks, s) =>
          (Ok (mkReadKeyValueResponse (rd_Success r) (rd_Key r) (rd_Value r) (Some (rd_VectorClock r)) EmptyString), tasks, s)
      end
  end.

(** [time.Unix] of a time in nanoseconds. *)
Definition unix (t : Z) : Z := t / 10 ^ 9.

Definition handler_CreateTenant (created updated : Z) (clock : nat → Z) (later : Z) (saved : res string unit)
    (req : CreateTenantRequest) (s : TenantService) : option (res Status CreateTenantResponse * TenantService) :=
  match validateCreateTenantRequest req with
  | Some m => Some (Err (mkStatus code_InvalidArgument m), s)
  | None =>
      let replicationFactor := if cq_ReplicationFactor req =? 0 then 3 else cq_ReplicationFactor req in
      match CreateTenant created updated clock later saved (cq_TenantId req) replicationFactor s with
      | (Err e, s) =>
          Some (Err (mkStatus code_Internal (tenant_error_text e "failed to create tenant in metadata store: ")), s)
      | (Ok p, s) =>
          t ← tenant_heap s !! p;
          Some (Ok (mkCreateTenantResponse true (TenantID t) (i32 (ReplicationFactor t)) (unix (t_CreatedAt t))
                      EmptyString), s)
      end
  end.

(** The text of the service's error, which says whether the tenant could not be
    fetched or not be saved. *)
Definition update_error_text (got : res tenant_error nat) (e : tenant_error) : string :=
  match e, got with
  | InvalidReplicationFactor _, _ => tenant_error_text e EmptyString
  | _, Err _ => "failed to get tenant: " +:+ tenant_error_text e fetch_failed
  | _, Ok _ => tenant_error_text e "failed to update tenant in metadata store: "
  end.

Definition handler_UpdateReplicationFactor (now : Z) (clock : nat → Z) (later updated : Z) (fetched : res string Tenant)
    (saved : res string unit) (req : UpdateReplicationFactorRequest) (s : TenantService)
    : option (res Status UpdateReplicationFactorResponse * TenantService) :=
  match validateUpdateReplicationFactorRequest req with
  | Some m => Some (Err (mkStatus code_InvalidArgument m), s)
  | None =>
      r ← UpdateReplicationFactor now clock later updated fetched saved (uq_TenantId req) (uq_NewReplicationFactor req) s;
      match r with
      | (Err e, s') =>
          let got := (GetTenant now clock later fetched (uq_TenantId req) s).1 in
          Some (Err (mkStatus code_Internal (update_error_text got e)), s')
      | (Ok p, s) =>
          t ← tenant_heap s !! p;
          Some (Ok (mkUpdateReplicationFactorResponse true (TenantID t) (i32 (ReplicationFactor t))
                      (i32 (ReplicationFactor t)) EmptyString (unix (t_UpdatedAt t)) EmptyString), s)
      end
  end.

Definition handler_GetTenant (now : Z) (clock : nat → Z) (later : Z) (fetched : res string Tenant) (tenantId : string)
    (s : TenantService) : option (res Status GetTenantResponse * TenantService) :=
  if decide (tenantId = EmptyString) then Some (Err (mkStatus code_InvalidArgument "tenant_id is required"), s)
  else match GetTenant now clock later fetched tenantId s with
  | (Err _, s) => Some (Err (mkStatus code_NotFound "tenant not found"), s)
  | (Ok p, s) =>
      t ← tenant_heap s !! p;
      Some (Ok (mkGetTenantResponse true (TenantID t) (i32 (ReplicationFactor t)) (unix (t_CreatedAt t))
                  (unix (t_UpdatedAt t)) EmptyString), s)
  end.
End handlers.

(** ** Lemmas *)

Section lemmas.
Context `{MapRange} `{StoreErrors}.

Lemma tenant_never_nil q tenantID s r s' :
  tenants_ok (tenantService s) → (∀ t, q_tenant q = Ok t → row_ok tenantID t) →
  tenant_factor q tenantID s = (r, s') → r ≠ Err NilTenant.
Proof.
  intros Hok Hrow. unfold tenant_factor. destruct (GetTenant _ _ _ _ _ _) as [r1 ts] eqn:Hg.
  destruct (GetTenant_ok _ _ _ _ _ _ _ _ Hok Hrow Hg) as [_ Hp]. destruct r1 as [p|e]; [|by intros [= <- _]].
  destruct (Hp p eq_refl) as (t & Ht & _). rewrite Ht. by intros [= <- _].
Qed.

(** The replies of a failed operation. *)
Definition failure_code (c : code) : Prop := c = code_DeadlineExceeded ∨ c = code_Canceled ∨ c = code_Internal.

Lemma kv_status_code what q e : failure_code (st_Code (kv_status what q e)).
Proof. unfold kv_status, failure_code. repeat case_match; cbn; auto. Qed.

(** An operation that does not fail in the metadata store is answered [Internal]. *)
Lemma kv_status_internal what q e :
  wrapped q e = None → kv_status what q e = mkStatus code_Internal (coordinator_error_text what q e).
Proof. intros Hw. unfold kv_status, errors_Is. by rewrite Hw. Qed.

(** The writes a successful write stands for: as many replicas acknowledged as
    the level asks of the replicas of the key. *)
Definition replicated (q : request_env) (tenantID key : string) (value : list byte) (s : CoordinatorService) (n : Z)
    (level : string) : Prop :=
  ∃ factor replicas vc h c,
    GetWriteReplicas (routingService s) (q_nodes q) tenantID key factor = Ok replicas ∧
    let acks := count_success (write_responses (q_write q) (q_hint_time q) (q_order q replicas) tenantID key value vc h c) in
    GetRequiredReplicas level (Z.of_nat (length replicas)) ≤ acks ∧ n = i32 acks.

Lemma write_fresh_ok q tenantID key value level s w s' :
  write_fresh q tenantID key value level s = (Ok w, s') →
  wr_Success w = true ∧ wr_Key w = key ∧ wr_Consistency w = level ∧ wr_IsDuplicate w = false ∧
  replicated q tenantID key value s (wr_ReplicaCount w) level.
Proof.
  unfold write_fresh. destruct (tenant_factor q tenantID s) as [[factor|e] s1] eqn:Ht; [|done].
  destruct (tenant_factor_other _ _ _ _ _ Ht) as (Hr & _). rewrite Hr.
  destruct (GetWriteReplicas _ _ _ _ _) as [replicas|e] eqn:Hg; [|done].
  destruct (readExistingValue _ _ _ _ _ _) as [existing c]. destruct (next_clock _ _) as [vc vs].
  unfold writeToReplicasWithHints, IsQuorumReached. destruct (foldl _ _ _) as [[responses h] c'] eqn:Hf.
  destruct (Z.leb_spec (GetRequiredReplicas level (Z.of_nat (length replicas))) (count_success responses)); cbn [negb];
    [|done]. intros [= <- <-]. split_and!; [done..|].
  exists (Z.to_nat factor), replicas, vc, (hintedHandoffService s1), c. split; [done|]. unfold write_responses. by rewrite Hf.
Qed.

(** A write that is not a duplicate is carried out. *)
Lemma WriteKeyValue_fresh q tenantID key value consistency ik s w rec s' :
  WriteKeyValue q tenantID key value consistency ik s = (Ok w, rec, s') → wr_IsDuplicate w = false →
  ∃ level, NormalizeConsistencyLevel (consistencyService s) consistency = Ok level ∧
    write_fresh q tenantID key value level s = (Ok w, s').
Proof.
  unfold WriteKeyValue. destruct (NormalizeConsistencyLevel _ _) as [level|]; [|done]. cbn zeta. intros Hw Hd.
  exists level. split; [done|]. destruct (write_fresh q tenantID key value level s) as [[w1|e] s1].
  - destruct (decide _); [by injection Hw as <- _ <-|].
    destruct (idem_Get _) as [[r|]|]; injection Hw as <- _ <-; done.
  - destruct (decide _); [done|]. destruct (idem_Get _) as [[r|]|]; [|done..]. by injection Hw as <- _ _.
Qed.

Lemma WriteKeyValue_ok q tenantID key value consistency ik s w rec s' :
  WriteKeyValue q tenantID key value consistency ik s = (Ok w, rec, s') → wr_IsDuplicate w = false →
  wr_Success w = true ∧ wr_Key w = key ∧ ∃ level,
    NormalizeConsistencyLevel (consistencyService s) consistency = Ok level ∧ wr_Consistency w = level ∧
    replicated q tenantID key value s (wr_ReplicaCount w) level.
Proof.
  intros Hw Hd. destruct (WriteKeyValue_fresh _ _ _ _ _ _ _ _ _ _ Hw Hd) as (level & Hn & Hf).
  destruct (write_fresh_ok _ _ _ _ _ _ _ _ Hf) as (H1 & H2 & H3 & _ & H5). split_and!; [done..|]. by exists level.
Qed.

Lemma WriteKeyValue_err q tenantID key value consistency ik s e rec s' :
  WriteKeyValue q tenantID key value consistency ik s = (Err e, rec, s') → rec = None.
Proof.
  unfold WriteKeyValue. destruct (NormalizeConsistencyLevel _ _) as [level|]; [|by intros [= _ <- _]]. cbn zeta.
  destruct (write_fresh q tenantID key value level s) as [[w|e'] s1]; destruct (decide _); try (by intros [= _ <- _]); try done.
  all: destruct (idem_Get _) as [[r|]|]; by intros [= _ <- _].
Qed.

Lemma ReadKeyValue_ok q tenantID key consistency s r tasks s' :
  ReadKeyValue q tenantID key consistency s = (Ok r, tasks, s') → rd_Success r = true ∧ rd_Key r = key.
Proof.
  unfold ReadKeyValue, readFromReplicasWithRepair. destruct (NormalizeConsistencyLevel _ _) as [level|]; [|done].
  destruct (tenant_factor _ _ _) as [[f|] s1]; [|done]. destruct (GetReadReplicas _ _ _ _ _) as [replicas|]; [|done].
  destruct (foldl _ _ _) as [responses c]. destruct (negb _); [done|].
  destruct (DetectConflicts responses) as [[latest|] cf]; [|done]. by intros [= <- _ _].
Qed.

(** No replica has a value for the key. *)
Definition absent (net : read_net) (tenantID key : string) : Prop :=
  ∀ node a, answer (net node) (mkPbReadRequest tenantID key) = Ok a → rp_Success a = true → rp_Value a = [].

Lemma read_absent net order replicas tenantID key level c :
  absent net tenantID key →
  ∃ e, (readFromReplicasWithRepair net order replicas tenantID key level c).1.1 = Err e ∧ ∀ q, wrapped q e = None.
Proof.
  intros Habs. unfold readFromReplicasWithRepair.
  destruct (read_fold_spec net tenantID key order [] c) as (rs & Hrs & Hall).
  destruct (foldl _ _ order) as [responses c1]. cbn [fst app] in Hrs. subst responses.
  destruct (negb _); [by eexists|].
  assert (Forall (λ r, sr_Timestamp r = 0 ∧ ¬ answered r) rs) as Hn.
  { apply Forall_forall. intros r Hr.
    destruct (read_outcomes_elem net tenantID key order order rs r) as (node & _ & _ & Hts & Hs); [done..|].
    split; [done|]. intros [H1 H2]. destruct (Hs H1) as (a & Ha & Has & _ & _ & Hf).
    rewrite (Habs node a Ha Has) in Hf. rewrite Hf in H2. done. }
  assert (causal_timestamps rs) as Hc by (apply zero_causal; eapply Forall_impl; [exact Hn|]; by intros ? [? _]).
  apply DetectConflicts_state in Hc. destruct (DetectConflicts rs) as [[latest|] cf]; [|by eexists].
  destruct Hc as [Hin Ha _ _ _ _]. rewrite Forall_forall in Hn. by destruct (Hn latest Hin).
Qed.

Lemma ReadKeyValue_absent q tenantID key consistency s :
  absent (q_read q) tenantID key → ∃ e, (ReadKeyValue q tenantID key consistency s).1.1 = Err e.
Proof.
  intros Habs. unfold ReadKeyValue. destruct (NormalizeConsistencyLevel _ _) as [level|]; [|by eexists].
  destruct (tenant_factor _ _ _) as [[f|] s1]; [|by eexists]. destruct (GetReadReplicas _ _ _ _ _) as [replicas|]; [|by eexists].
  destruct (read_absent (q_read q) (q_order q replicas) replicas tenantID key level (storageClient s1) Habs) as (e & He & _).
  destruct (readFromReplicasWithRepair _ _ _ _ _ _ _) as [[r tasks] c]. cbn [fst] in *. by exists e.
Qed.

(** The replies to a read. *)
Lemma read_replies q req s :
  let r := (handler_ReadKeyValue q req s).1.1 in
  (∀ resp, r = Ok resp → krp_Success resp = true ∧ krp_Key resp = krq_Key req) ∧
  (∀ st, r = Err st → st_Code st = code_InvalidArgument ∨ failure_code (st_Code st)) ∧
  (absent (q_read q) (krq_TenantId req) (krq_Key req) → is_ok r = false).
Proof.
  unfold handler_ReadKeyValue. destruct (validateReadRequest req) as [m|]; cbn zeta.
  - split_and!; [done| |done]. intros st [= <-]. by left.
  - pose proof (ReadKeyValue_absent q (krq_TenantId req) (krq_Key req) (krq_Consistency req) s) as Habs.
    pose proof (ReadKeyValue_ok q (krq_TenantId req) (krq_Key req) (krq_Consistency req) s) as Hok.
    destruct (ReadKeyValue _ _ _ _ _) as [[[r|e] tasks] s']; cbn [fst] in *; split_and!; try done.
    + intros resp [= <-]. cbn. by apply (Hok r tasks s').
    + intros [e He]%Habs. done.
    + intros st [= <-]. right. apply kv_status_code.
Qed.

Lemma WriteKeyValue_key q tenantID key value consistency ik s w rec s' :
  WriteKeyValue q tenantID key value consistency ik s = (Ok w, rec, s') → wr_Key w = key.
Proof.
  intros Hw. destruct (wr_IsDuplicate w) eqn:Hd; [|by apply WriteKeyValue_ok in Hw as (_ & ? & _)]. revert Hw.
  unfold WriteKeyValue. destruct (NormalizeConsistencyLevel _ _) as [level|]; [|done]. cbn zeta.
  destruct (write_fresh q tenantID key value level s) as [[w1|e] s1] eqn:Hf;
    [apply write_fresh_ok in Hf as (_ & Hk & _)|]; (destruct (decide _); [by intros [= <- _ _]|]);
    destruct (idem_Get _) as [[r|]|]; by intros [= <- _ _].
Qed.

Lemma UpdateReplicationFactor_result now clock later updated fetched saved id f s p s' :
  tenants_ok s → (∀ t, fetched = Ok t → row_ok id t) →
  UpdateReplicationFactor now clock later updated fetched saved id f s = Some (Ok p, s') →
  ∃ t, tenant_heap s' !! p = Some t ∧ TenantID t = id ∧ ReplicationFactor t = f.
Proof.
  intros Hok Hrow. unfold UpdateReplicationFactor. destruct (negb _); [done|].
  destruct (GetTenant _ _ _ _ _ _) as [r s1] eqn:Hg.
  destruct (GetTenant_ok _ _ _ _ _ _ _ _ Hok Hrow Hg) as [_ Hp]. destruct r as [p1|e]; [|done].
  destruct (Hp p1 eq_refl) as (t & Ht & Hid). rewrite Ht. cbn [mbind option_bind].
  destruct (Z.eqb_spec (ReplicationFactor t) f); [intros [= <- <-]; by exists t|]. cbn zeta.
  destruct saved as [[]|e]; [|done]. intros [= <- <-]. cbn [with_cache with_tenants tenant_heap].
  eexists. rewrite list_lookup_insert_eq by by eapply lookup_lt_Some. by split_and!.
Qed.

(** The replies of a write.  A malformed request is refused with
    [InvalidArgument] and changes nothing.  An [Ok] reply that is not the replay
    of a recorded one stands for a write of exactly the requested value that as
    many replicas acknowledged as the level asks of the key's replicas, and
    reports their number.  Any other failure is [Internal], or a timeout or
    cancellation in the metadata store, and records nothing under the
    idempotency key: in particular no reply asks for a retry but a timeout. *)
Lemma write_replies q req s :
  let '(r, rec, s') := handler_WriteKeyValue q req s in
  match r with
  | Ok resp =>
      validateWriteRequest req = None ∧ kwp_Key resp = kwq_Key req ∧ kwp_IdempotencyKey resp = kwq_IdempotencyKey req ∧
      (kwp_IsDuplicate resp = false →
         kwp_Success resp = true ∧
         replicated q (kwq_TenantId req) (kwq_Key req) (kwq_Value req) s (kwp_ReplicaCount resp) (kwp_Consistency resp))
  | Err st =>
      rec = None ∧
      ((∃ m, validateWriteRequest req = Some m ∧ st = mkStatus code_InvalidArgument m ∧ s' = s) ∨
       validateWriteRequest req = None ∧ failure_code (st_Code st))
  end.
Proof.
  unfold handler_WriteKeyValue. destruct (validateWriteRequest req) as [m|]; [split; [done|left; by exists m]|].
  destruct (WriteKeyValue _ _ _ _ _ _ _) as [[[w|e] rec] s'] eqn:Hw.
  - split_and!; cbn; [done|by eapply WriteKeyValue_key|done|]. intros Hd.
    destruct (WriteKeyValue_ok _ _ _ _ _ _ _ _ _ _ Hw Hd) as (Hs & _ & level & _ & -> & Hr). done.
  - split; [by eapply WriteKeyValue_err|]. right. split; [done|]. apply kv_status_code.
Qed.
End lemmas.

(** ** Properties *)

Section properties.
Context `{MapRange} `{StoreErrors}.

(** What the tenant handler says of an update.  It always replies; its
    failures are [InvalidArgument] or [Internal]; and the reply to a successful
    update names the tenant, and gives the new replication factor as the old one
    too. *)
Theorem update_reply_loses_old_factor now clock later updated fetched saved req s :
  tenants_ok s → (∀ t, fetched = Ok t → row_ok (uq_TenantId req) t) →
  ∃ r s', handler_UpdateReplicationFactor now clock later updated fetched saved req s = Some (r, s') ∧ tenants_ok s' ∧
    match r with
    | Ok resp => up_TenantId resp = uq_TenantId req ∧ up_NewReplicationFactor resp = uq_NewReplicationFactor req ∧
                 up_OldReplicationFactor resp = uq_NewReplicationFactor req
    | Err st => st_Code st = code_InvalidArgument ∨ st_Code st = code_Internal
    end.
Proof.
  intros Hok Hrow. unfold handler_UpdateReplicationFactor, validateUpdateReplicationFactorRequest.
  destruct (decide _); [eexists _, _; split_and!; [done|done|by left]|].
  destruct (_ || _) eqn:Hf; [eexists _, _; split_and!; [done|done|by left]|].
  destruct (UpdateReplicationFactor_ok now clock later updated fetched saved (uq_TenantId req)
              (uq_NewReplicationFactor req) s Hok Hrow) as ([p|e] & s' & Hu & Hok'); rewrite Hu; cbn [mbind option_bind].
  - destruct (UpdateReplicationFactor_result _ _ _ _ _ _ _ _ _ _ _ Hok Hrow Hu) as (t & Ht & Hid & Hfac).
    rewrite Ht. cbn [mbind option_bind]. eexists _, _. split_and!; [done|done|]. cbn. rewrite Hid, Hfac.
    assert (i32 (uq_NewReplicationFactor req) = uq_NewReplicationFactor req) as -> by (apply i32_small; lia). done.
  - eexists _, _. split_and!; [done|done|]. cbn. by right.
Qed.
End properties.

(** ** Witnesses *)

Lemma update_reply_loses_old_factor_witness :
  ∃ r s', handler_UpdateReplicationFactor 2 (λ _, 2) 2 2 (Err "down") (Ok tt) (mkUpdateReplicationFactorRequest "acme" 5) x_tenants
            = Some (r, s') ∧ tenants_ok s' ∧
    match r with
    | Ok resp => up_TenantId resp = "acme" ∧ up_NewReplicationFactor resp = 5 ∧ up_OldReplicationFactor resp = 5
    | Err st => st_Code st = code_InvalidArgument ∨ st_Code st = code_Internal
    end.
Proof.
  apply (update_reply_loses_old_factor 2 (λ _, 2) 2 2 (Err "down") (Ok tt) (mkUpdateReplicationFactorRequest "acme" 5) x_tenants);
    [|done].
  apply (tenant_run_ok 100 60), tr_get; [apply tr_new|intros t [= <-]; by split].
Defined.
