(* ===== verification/CoordinatorProcess.v ===== *)
(** * CoordinatorProcess: the coordinator as [coordinator/cmd/coordinator/main.go] wires it

    [main] builds the services once and hands the same tenant, routing and
    client objects to the handlers; [unifiedHandler] sends every RPC to one of
    them.  A [process] is that shared state with the tables behind it.  Its runs
    interleave the RPCs, the monitors of node changes, the refresh of the ring,
    the cleanup of the tenant cache, the background work of the hinted handoff
    and the statements of the other coordinators on the same tables; each is one
    step.  What the database, Redis and the network do is the environment of a
    step. *)

From S2P Require Import Prelude GoHash Model VectorClock Ring Consistency Routing StorageHandler StorageClient Conflict HintedHandoff Tenant Idempotency Coordinator MetadataStore StorageNodeClient HintReplay NodeHandler NodeLifecycle Migrations CoordinatorHandlers.
#[local] Open Scope Z_scope.

(** ** Definitions *)

Record process := mkProcess {
  p_service : CoordinatorService;
  p_db : MetadataStore;
  p_migrations : gmap string migration_row;
  p_client : StorageNodeClient;
  p_hints : gmap string StoredHint;
  p_trace : list event;
  p_calls : nat;
}.

Definition with_service (s : CoordinatorService) (p : process) : process :=
  mkProcess s (p_db p) (p_migrations p) (p_client p) (p_hints p) (p_trace p) (p_calls p).
Definition with_db (db : MetadataStore) (p : process) : process :=
  mkProcess (p_service p) db (p_migrations p) (p_client p) (p_hints p) (p_trace p) (p_calls p).
Definition set_routing (r : RoutingService) (s : CoordinatorService) : CoordinatorService :=
  mkCoordinator (tenantService s) r (consistencyService s) (vcService s) (hintedHandoffService s) (storageClient s).

(** The services of [main], before the first load of the ring; [db],
    [migrations] and [hints] are the tables it connects to. *)
Definition start (nodeID defaultLevel : string) (cacheSize tenantTTL : Z) (db : MetadataStore)
    (migrations : gmap string migration_row) (hints : gmap string StoredHint) : process :=
  mkProcess
    (mkCoordinator (NewTenantService cacheSize tenantTTL) NewRoutingService (mkConsistency defaultLevel)
       (NewVectorClockService nodeID) (NewHintedHandoffService 10000 (3 * hour)) NewStorageClient)
    db migrations NewStorageNodeClient hints [] 0.

(** What the node handler sees of the process. *)
Definition p_cluster (p : process) : cluster :=
  mkCluster (p_db p) (routingService (p_service p)) (p_client p) (p_hints p) (p_trace p) (p_calls p).

Definition on_cluster {A} (m : M A) (p : process) : option (A * process) :=
  '(a, c) ← m (p_cluster p);
  Some (a, mkProcess (set_routing (cl_routing c) (p_service p)) (cl_db c) (p_migrations p) (cl_client c) (cl_hints c)
             (cl_trace c) (cl_calls c)).

(** *** RPCs *)

Inductive request :=
  | RWriteKeyValue (req : WriteKeyValueRequest)
  | RReadKeyValue (req : ReadKeyValueRequest)
  | RCreateTenant (req : CreateTenantRequest)
  | RUpdateReplicationFactor (req : UpdateReplicationFactorRequest)
  | RGetTenant (tenantId : string)
  | RAddStorageNode (req : AddStorageNodeRequest)
  | RRemoveStorageNode (req : RemoveStorageNodeRequest)
  | RGetMigrationStatus (migrationId : string)
  | RListStorageNodes.

Inductive reply :=
  | PWriteKeyValue (r : res Status WriteKeyValueResponse)
  | PReadKeyValue (r : res Status ReadKeyValueResponse) (repairs : list repair_task)
  | PCreateTenant (r : res Status CreateTenantResponse)
  | PUpdateReplicationFactor (r : res Status UpdateReplicationFactorResponse)
  | PGetTenant (r : res Status GetTenantResponse)
  | PAddStorageNode (r : res handler_error NodeResponse)
  | PRemoveStorageNode (r : res handler_error NodeResponse)
  | PGetMigrationStatus (r : res handler_error (string * string * string * Z))
  | PListStorageNodes (r : res handler_error (list StorageNodeInfo)).

(** What an RPC meets: the faults of its statements (reading the tenant, listing
    the nodes, saving the tenant, reading the migration), the times at which it
    makes or changes a tenant, and the surroundings of the two services.  The
    answers of the metadata store in [v_kv] are replaced by those of the tables. *)
Record rpc_env := mkRpcEnv {
  v_get : option string;
  v_list : option string;
  v_save : option string;
  v_migration : option string;
  v_created : Z;
  v_updated : Z;
  v_kv : request_env;
  v_node : node_env;
}.

Section process.
Context `{MapRange} `{StoreErrors} `{Scanner}.

(** The text of an error of the store. *)
Context (db_text : db_error → string).

Definition answer_of {A} (r : res db_error A) : res string A :=
  match r with Ok a => Ok a | Err e => Err (db_text e) end.

(** The environment of a read or a write of a key, over the tables. *)
Definition kv_env (e : rpc_env) (tenantID : string) (p : process) : request_env :=
  let q := v_kv e in
  mkRequestEnv (q_now q) (q_clock q) (q_later q) (answer_of (pg_GetTenant (v_get e) (p_db p) tenantID))
    (answer_of (pg_ListStorageNodes (v_list e) (p_db p))) (q_stored q) (q_nano q) (q_uuid q) (q_read q) (q_write q)
    (q_late q) (q_hint_time q) (q_order q) (q_order_perm q).

(** The row [CreateTenant] inserts, if the request gets that far. *)
Definition created_row (e : rpc_env) (req : CreateTenantRequest) : option Tenant :=
  match validateCreateTenantRequest req with
  | Some _ => None
  | None =>
      Some (mkTenant (cq_TenantId req) (if cq_ReplicationFactor req =? 0 then 3 else cq_ReplicationFactor req)
              (v_created e) (v_updated e) 1)
  end.

(** The row [UpdateReplicationFactor] saves, if it gets that far. *)
Definition updated_row (e : rpc_env) (req : UpdateReplicationFactorRequest) (p : process) : option Tenant :=
  let q := kv_env e (uq_TenantId req) p in
  match validateUpdateReplicationFactorRequest req with
  | Some _ => None
  | None =>
      match GetTenant (q_now q) (q_clock q) (q_later q) (q_tenant q) (uq_TenantId req) (tenantService (p_service p)) with
      | (Err _, _) => None
      | (Ok i, s) =>
          t ← tenant_heap s !! i;
          if ReplicationFactor t =? uq_NewReplicationFactor req then None
          else Some (mkTenant (TenantID t) (uq_NewReplicationFactor req) (t_CreatedAt t) (v_updated e)
                       (i64 (Version t + 1)))
      end
  end.

(** A statement that is run when there is a row for it. *)
Definition save (f : Tenant → res db_error unit * MetadataStore) (row : option Tenant) (db : MetadataStore)
    : res db_error unit * MetadataStore :=
  match row with
  | None => (Ok tt, db)
  | Some t => f t
  end.

Definition with_tenant_service (ts : TenantService) (p : process) : process :=
  with_service (set_tenants ts (p_service p)) p.

(** [unifiedHandler]: no result when a handler does not return or panics. *)
Definition unifiedHandler (e : rpc_env) (r : request) (p : process) : option (reply * process) :=
  let q := v_kv e in
  let ts := tenantService (p_service p) in
  match r with
  | RWriteKeyValue req =>
      let '(r, _, s) := handler_WriteKeyValue (kv_env e (kwq_TenantId req) p) req (p_service p) in
      Some (PWriteKeyValue r, with_service s p)
  | RReadKeyValue req =>
      let '(r, repairs, s) := handler_ReadKeyValue (kv_env e (krq_TenantId req) p) req (p_service p) in
      Some (PReadKeyValue r repairs, with_service s p)
  | RCreateTenant req =>
      let '(saved, db) := save (pg_CreateTenant (v_save e) (p_db p)) (created_row e req) (p_db p) in
      '(r, ts) ← handler_CreateTenant (v_created e) (v_updated e) (q_clock q) (q_later q) (answer_of saved) req ts;
      Some (PCreateTenant r, with_db db (with_tenant_service ts p))
  | RUpdateReplicationFactor req =>
      let q := kv_env e (uq_TenantId req) p in
      let '(saved, db) := save (pg_UpdateTenant (v_save e) (p_db p)) (updated_row e req p) (p_db p) in
      '(r, ts) ← handler_UpdateReplicationFactor (q_now q) (q_clock q) (q_later q) (v_updated e) (q_tenant q)
                   (answer_of saved) req ts;
      Some (PUpdateReplicationFactor r, with_db db (with_tenant_service ts p))
  | RGetTenant tenantId =>
      let q := kv_env e tenantId p in
      '(r, ts) ← handler_GetTenant (q_now q) (q_clock q) (q_later q) (q_tenant q) tenantId ts;
      Some (PGetTenant r, with_tenant_service ts p)
  | RAddStorageNode req =>
      '(r, p) ← on_cluster (AddStorageNodeV2 (v_node e) req) p; Some (PAddStorageNode r, p)
  | RRemoveStorageNode req =>
      '(r, p) ← on_cluster (RemoveStorageNodeV2 (v_node e) req) p; Some (PRemoveStorageNode r, p)
  | RGetMigrationStatus migrationId =>
      Some (PGetMigrationStatus (GetMigrationStatus (v_migration e) migrationId (p_migrations p)), p)
  | RListStorageNodes =>
      '(r, p) ← on_cluster (handler_ListStorageNodes (v_node e)) p; Some (PListStorageNodes r, p)
  end.

(** *** Background work *)

(** A tick of [refreshHashRing], whose error is only logged. *)
Definition refresh_tick (fault : option string) (p : process) : process :=
  match updateHashRing (pg_ListStorageNodes fault (p_db p)) (routingService (p_service p)) with
  | Ok r => with_service (set_routing r (p_service p)) p
  | Err _ => p
  end.

(** A tick of the cache's cleanup. *)
Definition cleanup_tick (now : Z) (p : process) : process :=
  let ts := tenantService (p_service p) in
  with_tenant_service (with_cache (cleanup now (tenant_cache ts)) ts) p.

Inductive process_run (nodeID defaultLevel : string) (cacheSize tenantTTL : Z) : process → Prop :=
  | pr_start db migrations hints :
      db_wf db → process_run nodeID defaultLevel cacheSize tenantTTL
                   (start nodeID defaultLevel cacheSize tenantTTL db migrations hints)
  | pr_rpc e r p a p' :
      process_run nodeID defaultLevel cacheSize tenantTTL p → unifiedHandler e r p = Some (a, p') →
      process_run nodeID defaultLevel cacheSize tenantTTL p'
  | pr_join ev m p p' :
      process_run nodeID defaultLevel cacheSize tenantTTL p →
      on_cluster (monitorStreamingProgress ev m) p = Some (tt, p') →
      process_run nodeID defaultLevel cacheSize tenantTTL p'
  | pr_removal ev m p p' :
      process_run nodeID defaultLevel cacheSize tenantTTL p →
      on_cluster (monitorRemovalProgress ev m) p = Some (tt, p') →
      process_run nodeID defaultLevel cacheSize tenantTTL p'
  | pr_refresh fault p :
      process_run nodeID defaultLevel cacheSize tenantTTL p →
      process_run nodeID defaultLevel cacheSize tenantTTL (refresh_tick fault p)
  | pr_cleanup now p :
      process_run nodeID defaultLevel cacheSize tenantTTL p →
      process_run nodeID defaultLevel cacheSize tenantTTL (cleanup_tick now p)
  | pr_handoff h c p :
      process_run nodeID defaultLevel cacheSize tenantTTL p →
      process_run nodeID defaultLevel cacheSize tenantTTL (with_service (set_net h c (p_service p)) p)
  | pr_other fault t s p :
      process_run nodeID defaultLevel cacheSize tenantTTL p →
      process_run nodeID defaultLevel cacheSize tenantTTL (with_db (run_statement fault t s (p_db p)).2 p).
End process.

(** ** Lemmas *)

(** The shared state is as every component needs it. *)
Record process_inv (p : process) : Prop := {
  pi_tenants : tenants_ok (tenantService (p_service p));
  pi_db : db_wf (p_db p);
  pi_ring : ring_reached (routingService (p_service p));
}.

Lemma with_service_inv s p :
  process_inv p → tenants_ok (tenantService s) → routingService s = routingService (p_service p) →
  process_inv (with_service s p).
Proof. intros [_ Hdb Hr] Ht Hs. split; [done..|]. cbn [with_service p_service]. by rewrite Hs. Qed.

Lemma with_db_inv db p : process_inv p → db_wf db → process_inv (with_db db p).
Proof. by intros [? _ ?]. Qed.

(** The node handlers and their monitors change the tables and the ring only
    by statements, additions and removals. *)
Lemma on_cluster_inv {A} (m : M A) p a p' :
  preserves (λ db r, db_wf db ∧ ring_reached r) m → process_inv p → on_cluster m p = Some (a, p') → process_inv p'.
Proof.
  intros Hm [Ht Hdb Hr]. specialize (Hm (p_cluster p) (conj Hdb Hr)). unfold wp in Hm. unfold on_cluster.
  destruct (m (p_cluster p)) as [[b c]|]; [|done]. destruct Hm as [Hdb' Hr']. by intros [= _ <-].
Qed.

Lemma updateHashRing_reached {E} (listed : res E (list StorageNode)) r r' :
  updateHashRing listed r = Ok r' → ring_reached r'.
Proof.
  unfold updateHashRing. destruct listed as [nodes|]; [|done]. intros [= <-].
  exists ((λ n, RAdd (NodeID n) (VirtualNodes n)) <$> filter (λ node, routable node = true) nodes).
  unfold run_ring. by rewrite foldl_fmap.
Qed.

(** The cache has an object for the tenant, and its factor is [f]. *)
Definition served_factor (ts : TenantService) (tenantID : string) (f : Z) : Prop :=
  ∃ item t, mc_data (tenant_cache ts) !! tenantCacheKey tenantID = Some item ∧
    tenant_heap ts !! ci_value item = Some t ∧ TenantID t = tenantID ∧ ReplicationFactor t = f.

(** A tenant that was got is in the cache. *)
Lemma GetTenant_cached `{MapRange} now clock later fetched tenantID s p s' :
  GetTenant now clock later fetched tenantID s = (Ok p, s') →
  ∃ item, mc_data (tenant_cache s') !! tenantCacheKey tenantID = Some item ∧ ci_value item = p.
Proof.
  unfold GetTenant. destruct (mc_Get _ _ _) as [q|] eqn:Hg.
  - intros [= <- <-]. unfold mc_Get in Hg. destruct (mc_data _ !! _) as [item|] eqn:Hi; [|done].
    destruct (expiresAt item <? now); [done|]. injection Hg as <-. by exists item.
  - destruct fetched as [t|e]; [|done]. simpl. intros [= <- <-]. eexists. split; [apply lookup_insert_eq|done].
Qed.

Section tenant_factor.
Context `{MapRange} (q : request_env) (tenantID : string).
Hypothesis rows : ∀ t, q_tenant q = Ok t → row_ok tenantID t.

(** The factor a request works with is that of the tenant the cache holds. *)
Lemma tenant_factor_ok s r s' :
  tenants_ok (tenantService s) → tenant_factor q tenantID s = (r, s') →
  tenants_ok (tenantService s') ∧
  ∀ f, r = Ok f → 1 ≤ f ≤ 10 ∧ served_factor (tenantService s') tenantID f.
Proof.
  intros Hok. unfold tenant_factor. destruct (GetTenant _ _ _ _ _ _) as [g ts] eqn:Hg.
  destruct (GetTenant_ok _ _ _ _ _ _ _ _ Hok rows Hg) as [Hts Hp]. destruct g as [i|e]; [|by intros [= <- <-]].
  destruct (Hp i eq_refl) as (t & Hi & Hid). destruct (GetTenant_cached _ _ _ _ _ _ _ _ Hg) as (item & Hitem & Hval).
  rewrite Hi. intros [= <- <-]. split; [done|]. intros f [= <-].
  split; [by eapply to_heap|]. exists item, t. by rewrite Hval.
Qed.

Lemma write_fresh_state key value level s r s' :
  tenants_ok (tenantService s) → write_fresh q tenantID key value level s = (r, s') →
  tenants_ok (tenantService s') ∧ routingService s' = routingService s.
Proof.
  intros Hok. unfold write_fresh. destruct (tenant_factor q tenantID s) as [g s1] eqn:Hf.
  destruct (tenant_factor_ok _ _ _ Hok Hf) as [Hok1 _]. destruct (tenant_factor_other _ _ _ _ _ Hf) as (Hr & _).
  destruct g as [f|e]; [|by intros [= <- <-]]. destruct (GetWriteReplicas _ _ _ _ _); [|by intros [= <- <-]].
  destruct (readExistingValue _ _ _ _ _ _). destruct (next_clock _ _).
  destruct (writeToReplicasWithHints _ _ _ _ _ _ _ _ _ _ _) as [[? ?] ?]. by intros [= <- <-].
Qed.

Lemma WriteKeyValue_state key value level ik s r rec s' :
  tenants_ok (tenantService s) → WriteKeyValue q tenantID key value level ik s = (r, rec, s') →
  tenants_ok (tenantService s') ∧ routingService s' = routingService s.
Proof.
  intros Hok. unfold WriteKeyValue. destruct (NormalizeConsistencyLevel _ _) as [l|]; [|by intros [= _ _ <-]]. cbn zeta.
  destruct (write_fresh q tenantID key value l s) as [w s1] eqn:Hf. apply write_fresh_state in Hf; [|done].
  destruct w; (destruct (decide _); [by intros [= _ _ <-]|]); destruct (idem_Get _) as [[?|]|]; by intros [= _ _ <-].
Qed.

Lemma ReadKeyValue_state key level s r tasks s' :
  tenants_ok (tenantService s) → ReadKeyValue q tenantID key level s = (r, tasks, s') →
  tenants_ok (tenantService s') ∧ routingService s' = routingService s.
Proof.
  intros Hok. unfold ReadKeyValue. destruct (NormalizeConsistencyLevel _ _) as [l|]; [|by intros [= _ _ <-]].
  destruct (tenant_factor q tenantID s) as [g s1] eqn:Hf.
  destruct (tenant_factor_ok _ _ _ Hok Hf) as [Hok1 _]. destruct (tenant_factor_other _ _ _ _ _ Hf) as (Hr & _).
  destruct g as [f|e]; [|by intros [= _ _ <-]]. destruct (GetReadReplicas _ _ _ _ _); [|by intros [= _ _ <-]].
  destruct (readFromReplicasWithRepair _ _ _ _ _ _ _) as [[? ?] ?]. by intros [= _ _ <-].
Qed.
End tenant_factor.

Section invariant.
Context `{MapRange} `{StoreErrors} `{Scanner} (db_text : db_error → string).

Lemma row_served fault db tenantID t :
  db_wf db → answer_of db_text (pg_GetTenant fault db tenantID) = Ok t → row_ok tenantID t.
Proof.
  intros Hwf. unfold pg_GetTenant. destruct fault; [done|]. destruct (tenants db !! tenantID) as [row|] eqn:Hrow; [|done].
  intros [= <-]. destruct (wf_tenants _ Hwf _ _ Hrow) as [Hid Hc]. unfold tenant_check in Hc. split; [done|]. lia.
Qed.

Lemma kv_rows e tenantID p t : process_inv p → q_tenant (kv_env db_text e tenantID p) = Ok t → row_ok tenantID t.
Proof. intros Hp. apply row_served, pi_db, Hp. Qed.

Lemma save_wf (s : Tenant → statement) fault now row db :
  db_wf db → db_wf (save (λ t, run_statement fault now (s t) db) row db).2.
Proof. intros Hwf. destruct row; [by apply run_statement_wf|done]. Qed.

(** The tenant RPCs return, and keep the invariant. *)
Lemma handler_CreateTenant_ok created updated clock later saved req s :
  tenants_ok s → ∃ r s', handler_CreateTenant created updated clock later saved req s = Some (r, s') ∧ tenants_ok s'.
Proof.
  intros Hok. unfold handler_CreateTenant. destruct (validateCreateTenantRequest req); [by eexists _, _|]. cbn zeta.
  destruct (CreateTenant _ _ _ _ _ _ _ _) as [r s'] eqn:Hc. destruct (CreateTenant_ok _ _ _ _ _ _ _ _ _ _ Hok Hc) as [Hok' Hp].
  destruct r as [p|e]; [|by eexists _, _]. destruct (Hp p eq_refl) as [t ->]. by eexists _, _.
Qed.

Lemma handler_UpdateReplicationFactor_ok now clock later updated fetched saved req s :
  tenants_ok s → (∀ t, fetched = Ok t → row_ok (uq_TenantId req) t) →
  ∃ r s', handler_UpdateReplicationFactor now clock later updated fetched saved req s = Some (r, s') ∧ tenants_ok s'.
Proof.
  intros Hok Hrow. unfold handler_UpdateReplicationFactor.
  destruct (validateUpdateReplicationFactorRequest req); [by eexists _, _|].
  destruct (UpdateReplicationFactor_ok now clock later updated fetched saved (uq_TenantId req) (uq_NewReplicationFactor req) s
    Hok Hrow) as (r & s' & Hu & Hok'). rewrite Hu. cbn [mbind option_bind].
  destruct r as [p|e]; [|by eexists _, _].
  destruct (UpdateReplicationFactor_result _ _ _ _ _ _ _ _ _ _ _ Hok Hrow Hu) as (t & -> & _). by eexists _, _.
Qed.

Lemma handler_GetTenant_ok now clock later fetched tenantId s :
  tenants_ok s → (∀ t, fetched = Ok t → row_ok tenantId t) →
  ∃ r s', handler_GetTenant now clock later fetched tenantId s = Some (r, s') ∧ tenants_ok s'.
Proof.
  intros Hok Hrow. unfold handler_GetTenant. destruct (decide _); [by eexists _, _|].
  destruct (GetTenant _ _ _ _ _ _) as [r s'] eqn:Hg. destruct (GetTenant_ok _ _ _ _ _ _ _ _ Hok Hrow Hg) as [Hok' Hp].
  destruct r as [p|e]; [|by eexists _, _]. destruct (Hp p eq_refl) as (t & -> & _). by eexists _, _.
Qed.

(** The RPCs about keys, tenants and migrations. *)
Definition local_request (r : request) : bool :=
  match r with
  | RAddStorageNode _ | RRemoveStorageNode _ | RListStorageNodes => false
  | _ => true
  end.

Lemma local_rpc_inv e r p :
  process_inv p → local_request r = true → ∃ a p', unifiedHandler db_text e r p = Some (a, p') ∧ process_inv p'.
Proof.
  intros Hp Hl. pose proof (pi_tenants _ Hp) as Ht. pose proof (pi_db _ Hp) as Hdb.
  destruct r as [req|req|req|req|id|?|?|id|]; try done; cbn [unifiedHandler]; cbv zeta.
  - destruct (handler_WriteKeyValue _ _ _) as [[r rec] s] eqn:Hw. eexists _, _. split; [done|]. revert Hw.
    unfold handler_WriteKeyValue. destruct (validateWriteRequest req); [intros [= _ _ <-]; by apply with_service_inv|].
    destruct (WriteKeyValue _ _ _ _ _ _ _) as [[w rec'] s'] eqn:Hk.
    apply WriteKeyValue_state in Hk as [? ?]; [|by intros t; apply kv_rows|done].
    destruct w; intros [= _ _ <-]; by apply with_service_inv.
  - destruct (handler_ReadKeyValue _ _ _) as [[r tasks] s] eqn:Hw. eexists _, _. split; [done|]. revert Hw.
    unfold handler_ReadKeyValue. destruct (validateReadRequest req); [intros [= _ _ <-]; by apply with_service_inv|].
    destruct (ReadKeyValue _ _ _ _ _) as [[w tasks'] s'] eqn:Hk.
    apply ReadKeyValue_state in Hk as [? ?]; [|by intros t; apply kv_rows|done].
    destruct w; intros [= _ _ <-]; by apply with_service_inv.
  - pose proof (save_wf SCreateTenant (v_save e) 0 (created_row e req) _ Hdb) as Hs. cbn [run_statement] in Hs.
    destruct (save _ _ _) as [saved db]. edestruct handler_CreateTenant_ok as (r & ts & -> & Hts); [exact Ht|].
    eexists _, _. split; [done|]. apply with_db_inv; [by apply with_service_inv|done].
  - pose proof (save_wf SUpdateTenant (v_save e) 0 (updated_row db_text e req p) _ Hdb) as Hs. cbn [run_statement] in Hs.
    destruct (save _ _ _) as [saved db].
    edestruct handler_UpdateReplicationFactor_ok as (r & ts & -> & Hts); [exact Ht|by intros t; apply kv_rows|].
    eexists _, _. split; [done|]. apply with_db_inv; [by apply with_service_inv|done].
  - edestruct handler_GetTenant_ok as (r & ts & -> & Hts); [exact Ht|by intros t; apply kv_rows|].
    eexists _, _. split; [done|]. by apply with_service_inv.
  - by eexists _, _.
Qed.

Lemma rpc_inv e r p a p' : process_inv p → unifiedHandler db_text e r p = Some (a, p') → process_inv p'.
Proof.
  intros Hp. destruct (local_request r) eqn:Hl.
  { destruct (local_rpc_inv e r p Hp Hl) as (a' & p1 & -> & Hp1). by intros [= _ <-]. }
  destruct r as [?|?|?|?|?|req|req|?|]; try done; cbn [unifiedHandler]; cbv zeta;
    (destruct (on_cluster _ p) as [[b p1]|] eqn:Hc; [|done]); cbn [mbind option_bind]; intros [= _ <-];
    (eapply on_cluster_inv; [|done|exact Hc]); [apply pres_add, _|apply pres_remove, _|].
  unfold handler_ListStorageNodes. preserve.
Qed.

Lemma run_inv nodeID level size ttl p : process_run db_text nodeID level size ttl p → process_inv p.
Proof.
  induction 1 as [db mg hs Hdb|e r p a p' _ IH Hr|ev m p p' _ IH Hr|ev m p p' _ IH Hr|fault p _ IH|now p _ IH|h c p _ IH
    |fault t s p _ IH].
  - split; [|done|by exists []]. apply (tenant_run_ok size ttl), tr_new.
  - by eapply rpc_inv.
  - eapply on_cluster_inv; [apply pres_monitor_join, _|done..].
  - eapply on_cluster_inv; [apply pres_monitor_removal, _|done..].
  - unfold refresh_tick. destruct (updateHashRing _ _) as [r|] eqn:Hu; [|done].
    destruct IH as [? ? _]. split; [done..|]. by eapply updateHashRing_reached.
  - apply with_service_inv; [done| |done]. by apply cleanup_ok, pi_tenants.
  - apply with_service_inv; [done| |done]. by apply pi_tenants.
  - apply with_db_inv; [done|]. by apply run_statement_wf, pi_db.
Qed.
End invariant.

(** *** Where a write goes *)

(** The node accepted the write. *)
Definition accepted (net : write_net) (tenantID key : string) (value : list byte) (vc : VectorClock) (node : StorageNode)
    : Prop :=
  ∃ a, answer (net node) (mkPbWriteRequest tenantID key value (Some (toProtoVectorClock vc))) = Ok a ∧ wp_Success a = true.

Lemma count_success_app l1 l2 : count_success (l1 ++ l2) = count_success l1 + count_success l2.
Proof. rewrite !count_success_eq, filter_app, length_app. lia. Qed.

Lemma count_success_one resp : count_success [resp] = if sr_Success resp then 1 else 0.
Proof. done. Qed.

Lemma acks_of net now order tenantID key value vc rs h c :
  ∃ acked, acked `sublist_of` order ∧ Forall (accepted net tenantID key value vc) acked ∧
    count_success (foldl (write_replica net now tenantID key value vc) (rs, h, c) order).1.1 =
      count_success rs + Z.of_nat (length acked).
Proof.
  revert rs h c. induction order as [|node order IH]; intros rs h c.
  { exists []. split_and!; [done|done|]. cbn [foldl fst length]. lia. }
  cbn [foldl]. unfold write_replica at 2. destruct (client_Write _ _ _ _ _ _ _) as [[resp|e] c1] eqn:Hw.
  - apply client_Write_ok in Hw as (_ & a & Ha & Hs & _). destruct (IH (rs ++ [resp]) h c1) as (acked & Hsub & Hacc & ->).
    rewrite count_success_app, count_success_one. destruct (sr_Success resp).
    + exists (node :: acked). split_and!; [by constructor|constructor; [by exists a|done]|]. cbn [length]. lia.
    + exists acked. split_and!; [by constructor|done|lia].
  - destruct (IH (rs ++ [failed_response node e]) (StoreHint (now node) (NodeID node) tenantID key value vc h) c1)
      as (acked & Hsub & Hacc & ->).
    rewrite count_success_app, count_success_one. exists acked. split_and!; [by constructor|done|]. cbn [failed_response sr_Success].
    lia.
Qed.

Lemma required_pos level n : 1 ≤ n → 1 ≤ GetRequiredReplicas level n.
Proof.
  intros Hn. unfold GetRequiredReplicas, GetRequiredReplicasSimple, calc_GetRequiredReplicas, CalculateQuorum.
  repeat case_decide; [lia..|]. destruct (0 <? n); pose proof (Z.quot_pos n 2); lia.
Qed.

(** The table refuses a factor above 5. *)
Lemma oversized_update fault db t :
  5 < ReplicationFactor t → ∃ e, pg_UpdateTenant fault db t = (Err e, db).
Proof.
  intros Hf. unfold pg_UpdateTenant, exec. destruct fault; [eauto|]. destruct (tenants db !! TenantID t); [|eauto].
  destruct (negb _); [eauto|]. assert (tenant_check t = false) as -> by (unfold tenant_check; lia). eauto.
Qed.

Section placement.
Context `{MapRange} `{StoreErrors} `{Scanner} (db_text : db_error → string).

(** A node of the answer to the listing is a row of the table. *)
Definition registered (db : MetadataStore) (node : StorageNode) : Prop :=
  ∃ row, storage_nodes db !! NodeID node = Some row ∧ node = listed_node row ∧ Model.Status row ≠ NodeStatusInactive ∧
    serving row = true.

Lemma listed_registered fault db nodes node :
  db_wf db → pg_ListStorageNodes fault db = Ok nodes → node ∈ nodes → serving node = true → registered db node.
Proof.
  intros Hwf. unfold pg_ListStorageNodes. destruct fault; [done|]. intros [= <-] (row & -> & Hin)%list_elem_of_fmap Hs.
  apply list_elem_of_filter in Hin as [Hst ([id row'] & -> & Hrow%elem_of_map_range)%list_elem_of_fmap]. exists row'.
  destruct (wf_nodes _ Hwf _ _ Hrow) as [<- _]. done.
Qed.

(** What a write that succeeded stands for: [replicas] are distinct rows of the
    table, and enough of them accepted it. *)
Record placed (net : write_net) (db : MetadataStore) (tenantID key : string) (value : list byte) (vc : VectorClock)
    (level : string) (replicas acked : list StorageNode) : Prop := {
  pl_count : (1 ≤ length replicas ≤ 10)%nat;
  pl_distinct : NoDup (NodeID <$> replicas);
  pl_registered : Forall (registered db) replicas;
  pl_subset : acked ⊆ replicas;
  pl_acked_distinct : NoDup (NodeID <$> acked);
  pl_accepted : Forall (accepted net tenantID key value vc) acked;
  pl_enough : GetRequiredReplicas level (Z.of_nat (length replicas)) ≤ Z.of_nat (length acked);
}.

Lemma acks_placed net now order replicas db tenantID key value vc level h c :
  (1 ≤ length replicas ≤ 10)%nat → NoDup (NodeID <$> replicas) → Forall (registered db) replicas → order ≡ₚ replicas →
  let n := count_success (write_responses net now order tenantID key value vc h c) in
  GetRequiredReplicas level (Z.of_nat (length replicas)) ≤ n →
  ∃ acked, placed net db tenantID key value vc level replicas acked ∧ n = Z.of_nat (length acked) ∧
    (length acked ≤ length replicas)%nat.
Proof.
  intros Hlen Hnd Hreg Hperm n Hn. unfold write_responses in n.
  destruct (acks_of net now order tenantID key value vc [] h c) as (acked & Hsub & Hacc & Hcount).
  change (count_success []) with 0 in Hcount. fold n in Hcount. exists acked. split_and!; [split; try done|lia|].
  - intros node Hin. rewrite <-Hperm. by eapply elem_of_sublist.
  - eapply sublist_NoDup; [|apply fmap_sublist, Hsub]. by rewrite Hperm.
  - lia.
  - rewrite <-Hperm. by apply sublist_length.
Qed.

Lemma write_fresh_placed q db tenantID key value level s w s' :
  (∀ t, q_tenant q = Ok t → row_ok tenantID t) → tenants_ok (tenantService s) → ring_reached (routingService s) →
  (∀ nodes node, q_nodes q = Ok nodes → node ∈ nodes → serving node = true → registered db node) →
  write_fresh q tenantID key value level s = (Ok w, s') →
  ∃ replicas acked, placed (q_write q) db tenantID key value (wr_VectorClock w) level replicas acked ∧
    wr_ReplicaCount w = Z.of_nat (length acked) ∧ served_factor (tenantService s') tenantID (Z.of_nat (length replicas)).
Proof.
  intros Hrow Hok [os Hos] Hreg. unfold write_fresh. destruct (tenant_factor q tenantID s) as [r s1] eqn:Hf.
  destruct (tenant_factor_ok q tenantID Hrow _ _ _ Hok Hf) as [_ Hfac]. destruct (tenant_factor_other _ _ _ _ _ Hf) as (Hr & _).
  destruct r as [factor|e]; [|done]. destruct (Hfac factor eq_refl) as [Hrange Hserved]. rewrite Hr, Hos.
  destruct (q_nodes q) as [nodes|e] eqn:Hq; [|unfold GetWriteReplicas; by destruct (_ <? _)%nat].
  destruct (GetWriteReplicas _ _ _ _ _) as [replicas|e] eqn:Hg; [|done].
  destruct (GetWriteReplicas_ids _ _ _ _ _ _ Hg) as (Hids & Hlen & Hall).
  destruct (readExistingValue _ _ _ _ _ _) as [existing c]. destruct (next_clock _ _) as [vc vs].
  unfold writeToReplicasWithHints, IsQuorumReached. destruct (foldl _ _ _) as [[responses h] c'] eqn:Hfold.
  destruct (Z.leb_spec (GetRequiredReplicas level (Z.of_nat (length replicas))) (count_success responses)) as [Hle|]; cbn [negb];
    [|done].
  destruct (acks_placed (q_write q) (q_hint_time q) (q_order q replicas) replicas db tenantID key value vc level
    (hintedHandoffService s1) c) as (acked & Hpl & Hcount & Hacked).
  { lia. } { rewrite Hids. apply GetNodes_NoDup. }
  { eapply Forall_impl; [exact Hall|]. intros node [? ?]. by eapply Hreg. }
  { apply q_order_perm. } { unfold write_responses. by rewrite Hfold. }
  unfold write_responses in Hcount. rewrite Hfold in Hcount. cbn [fst] in Hcount. intros [= <- <-].
  exists replicas, acked. split_and!; [done| |by rewrite Hlen, Z2Nat.id by lia].
  cbn [wr_ReplicaCount]. rewrite Hcount. apply i32_small. lia.
Qed.
End placement.

(** ** Properties *)

Section properties.
Context `{MapRange} `{StoreErrors} `{Scanner} (db_text : db_error → string).

(** C14: Where an acknowledged write is.  After any run of the coordinator, a reply
    of success to a write that is not a duplicate means: the replicas are as
    many as the replication factor of the tenant's object in the cache, between 1
    and 10 (the factor in the table can be another), they are distinct,
    each has a row in [storage_nodes] that is not inactive and is in a serving
    state; at least one and at least as many of them as the consistency level
    requires accepted this value with the clock of the reply; and the replica
    count of the reply is the number of those. *)
Theorem acknowledged_write_placed nodeID level size ttl p e req resp p' :
  process_run db_text nodeID level size ttl p →
  unifiedHandler db_text e (RWriteKeyValue req) p = Some (PWriteKeyValue (Ok resp), p') → kwp_IsDuplicate resp = false →
  ∃ vc replicas acked, kwp_VectorClock resp = Some vc ∧
    placed (q_write (v_kv e)) (p_db p) (kwq_TenantId req) (kwq_Key req) (kwq_Value req) vc (kwp_Consistency resp) replicas acked ∧
    (1 ≤ length acked)%nat ∧ kwp_ReplicaCount resp = Z.of_nat (length acked) ∧
    served_factor (tenantService (p_service p')) (kwq_TenantId req) (Z.of_nat (length replicas)).
Proof.
  intros Hp%run_inv. cbn [unifiedHandler]. cbv zeta.
  destruct (handler_WriteKeyValue _ _ _) as [[r rec] s] eqn:Hh. intros [= -> <-] Hd. revert Hh.
  unfold handler_WriteKeyValue. destruct (validateWriteRequest req); [done|].
  destruct (WriteKeyValue _ _ _ _ _ _ _) as [[[w|x] rec'] s'] eqn:Hw; [|done]. intros [= <- _ ->].
  destruct (WriteKeyValue_fresh _ _ _ _ _ _ _ _ _ _ Hw Hd) as (l & _ & Hf).
  destruct (write_fresh_ok _ _ _ _ _ _ _ _ Hf) as (_ & _ & Hl & _).
  assert (∀ nodes node, q_nodes (kv_env db_text e (kwq_TenantId req) p) = Ok nodes → node ∈ nodes → serving node = true →
    registered (p_db p) node) as Hreg.
  { intros nodes node Hq. cbn [kv_env q_nodes] in Hq. destruct (pg_ListStorageNodes _ _) as [nodes'|] eqn:Hls; [|done].
    injection Hq as <-. by eapply listed_registered, Hls; apply pi_db. }
  destruct (write_fresh_placed _ _ _ _ _ _ _ _ _ (λ t, kv_rows db_text e (kwq_TenantId req) p t Hp) (pi_tenants _ Hp)
    (pi_ring _ Hp) Hreg Hf) as (replicas & acked & Hpl & Hn & Hserved).
  exists (wr_VectorClock w), replicas, acked. cbn [kwp_VectorClock kwp_Consistency kwp_ReplicaCount]. rewrite Hl.
  split_and!; [done|done| |done|done]. pose proof (pl_enough _ _ _ _ _ _ _ _ _ Hpl). pose proof (pl_count _ _ _ _ _ _ _ _ _ Hpl).
  pose proof (required_pos l (Z.of_nat (length replicas))). lia.
Qed.

(** C31: The RPCs about keys and tenants always reply, and no RPC breaks the shared
    state: the cached tenants keep legal factors under their own ids, the tables
    stay well formed and the ring is one that additions and removals make. *)
Theorem coordinator_state_sound nodeID level size ttl p :
  process_run db_text nodeID level size ttl p →
  process_inv p ∧
  (∀ e r, local_request r = true → ∃ a p', unifiedHandler db_text e r p = Some (a, p') ∧ process_inv p') ∧
  (∀ e r a p', unifiedHandler db_text e r p = Some (a, p') → process_inv p').
Proof.
  intros Hp%run_inv. split_and!; [done| |].
  - intros e r. by apply local_rpc_inv.
  - intros e r a p'. by apply rpc_inv.
Qed.

(** An update to a factor between 6 and 10 is refused and served.  The service
    allows such a factor and the CHECK of the table does not; when the tenant is
    cached, the RPC replies [Internal] and leaves the tables as they are, but as
    long as the entry lives [GetTenant] replies with the new factor, which is the
    one reads and writes are routed with. *)
Theorem oversized_factor_served e tenantID f i t p :
  mc_Get (q_now (v_kv e)) (tenantCacheKey tenantID) (tenant_cache (tenantService (p_service p))) = Some i →
  tenant_heap (tenantService (p_service p)) !! i = Some t → tenantID ≠ EmptyString → 6 ≤ f ≤ 10 → ReplicationFactor t ≠ f →
  ∃ st p', unifiedHandler db_text e (RUpdateReplicationFactor (mkUpdateReplicationFactorRequest tenantID f)) p =
             Some (PUpdateReplicationFactor (Err st), p') ∧ st_Code st = code_Internal ∧ p_db p' = p_db p ∧
    ∀ e', mc_Get (q_now (v_kv e')) (tenantCacheKey tenantID) (tenant_cache (tenantService (p_service p))) = Some i →
      (∃ resp, unifiedHandler db_text e' (RGetTenant tenantID) p' = Some (PGetTenant (Ok resp), p') ∧
         gp_ReplicationFactor resp = f) ∧
      tenant_factor (kv_env db_text e' tenantID p') tenantID (p_service p') = (Ok f, p_service p').
Proof.
  intros Hg Hi Hid Hf Hne. cbn [unifiedHandler]. cbv zeta.
  assert (validateUpdateReplicationFactorRequest (mkUpdateReplicationFactorRequest tenantID f) = None) as Hv.
  { unfold validateUpdateReplicationFactorRequest. cbn [uq_TenantId uq_NewReplicationFactor]. rewrite decide_False by done.
    assert ((f <? 1) || (10 <? f) = false) as -> by lia. done. }
  unfold updated_row, handler_UpdateReplicationFactor, UpdateReplicationFactor, GetTenant. cbv zeta. rewrite Hv.
  cbn [uq_TenantId uq_NewReplicationFactor kv_env q_now q_clock q_later q_tenant]. rewrite Hg, Hi. cbn [mbind option_bind].
  rewrite (proj2 (Z.eqb_neq _ _) Hne). cbn [save].
  edestruct (oversized_update (v_save e) (p_db p)) as [x ->]; [|cbn [answer_of]].
  { cbn [ReplicationFactor]. lia. }
  assert (negb (factor_ok f) = false) as -> by (unfold factor_ok; lia). cbn [mbind option_bind].
  eexists _, _. split_and!; [done|done|done|]. intros e' Hg'. unfold tenant_factor, handler_GetTenant, GetTenant. cbv zeta.
  rewrite decide_False by done. cbn [with_db with_tenant_service with_service set_tenants with_tenants p_service tenantService
    tenant_cache tenant_heap kv_env q_now]. rewrite Hg'. cbn [with_tenants tenant_heap].
  rewrite list_lookup_insert_eq by by eapply lookup_lt_Some. cbn [mbind option_bind]. split; [|done]. eexists. split; [done|].
  cbn [gp_ReplicationFactor ReplicationFactor]. apply i32_small. lia.
Qed.
End properties.

(** ** Witnesses *)

#[local] Instance process_scanner : Scanner := None.
#[local] Instance process_errors : StoreErrors := {| is_deadline _ := false; is_canceled _ := false |}.

Definition x_text (_ : db_error) : string := "store failed".

(** Three nodes and a tenant, put in the tables by another coordinator; the ring is loaded. *)
Definition x_other (s : statement) (p : process) : process := with_db (run_statement None 1 s (p_db p)).2 p.

Definition x_process : process :=
  refresh_tick None (x_other (SCreateTenant x_tenant) (x_other (SAddStorageNode (Coordinator.x_node "n3"))
    (x_other (SAddStorageNode (Coordinator.x_node "n2")) (x_other (SAddStorageNode (Coordinator.x_node "n1"))
      (start "c1" "quorum" 100 60 (initial_db 0) ∅ ∅))))).

Lemma x_process_run : process_run x_text "c1" "quorum" 100 60 x_process.
Proof. apply pr_refresh. do 4 apply pr_other. apply pr_start, initial_wf. Qed.

(** No node has the key yet, and the third cannot be reached for the write. *)
Definition x_kv : request_env :=
  {| q_now := 1; q_clock := λ _, 1; q_later := 1; q_tenant := Err EmptyString; q_nodes := Err EmptyString;
     q_stored := Err ErrNotFound; q_nano := 5; q_uuid := "u"; q_read := λ _, mkLink false (λ _, Err "unavailable");
     q_write := x_wnet; q_late := λ _, false; q_hint_time := λ _, 1; q_order := λ l, l;
     q_order_perm := λ l, Permutation_refl l |}.

Definition x_rpc : rpc_env := mkRpcEnv None None None None 2 2 x_kv (x_world 0).

Definition x_write : request := RWriteKeyValue (mkWriteKeyValueRequest "acme" "k" (bytes "v") "quorum" EmptyString).

Lemma x_write_reply :
  ∃ resp p', unifiedHandler x_text x_rpc x_write x_process = Some (PWriteKeyValue (Ok resp), p') ∧
    kwp_IsDuplicate resp = false ∧ kwp_ReplicaCount resp = 2 ∧
    ReplicationFactor <$> tenant_heap (tenantService (p_service p')) = [3].
Proof.
  assert (match unifiedHandler x_text x_rpc x_write x_process with
    | Some (PWriteKeyValue (Ok resp), p') => Some (kwp_IsDuplicate resp, kwp_ReplicaCount resp,
        ReplicationFactor <$> tenant_heap (tenantService (p_service p')))
    | _ => None end = Some (false, 2, [3])) as Hr by (vm_compute; reflexivity).
  destruct (unifiedHandler x_text x_rpc x_write x_process) as [[[[resp|]| | | | | | | |] p']|]; try discriminate Hr.
  injection Hr as H1 H2 H3. by exists resp, p'.
Qed.

Lemma acknowledged_write_placed_witness :
  ∃ resp p' (replicas acked : list StorageNode),
    unifiedHandler x_text x_rpc x_write x_process = Some (PWriteKeyValue (Ok resp), p') ∧
    length replicas = 3%nat ∧ length acked = 2%nat ∧ Forall (registered (p_db x_process)) replicas.
Proof.
  destruct x_write_reply as (resp & p' & Hh & Hd & Hn & Hheap).
  destruct (acknowledged_write_placed x_text "c1" "quorum" 100 60 x_process x_rpc
    (mkWriteKeyValueRequest "acme" "k" (bytes "v") "quorum" EmptyString) resp p' x_process_run Hh Hd)
    as (vc & replicas & acked & _ & Hpl & _ & Hcount & item & t & _ & Hi & _ & Ht).
  exists resp, p', replicas, acked. split; [exact Hh|]. split_and!; [|lia|by destruct Hpl].
  apply (f_equal (fmap ReplicationFactor)) in Hi. rewrite <-list_lookup_fmap, Hheap in Hi. cbn in Hi. rewrite Ht in Hi.
  destruct (ci_value item); [|done]. injection Hi as Hi. lia.
Defined.

Lemma coordinator_state_sound_witness : process_inv x_process.
Proof. apply (coordinator_state_sound x_text "c1" "quorum" 100 60 x_process x_process_run). Defined.

(** The process after a first request of the tenant. *)
Definition x_cached : process :=
  match unifiedHandler x_text x_rpc (RGetTenant "acme") x_process with
  | Some (_, p) => p
  | None => x_process
  end.

Lemma oversized_factor_served_witness :
  ∃ st p', unifiedHandler x_text x_rpc (RUpdateReplicationFactor (mkUpdateReplicationFactorRequest "acme" 7)) x_cached =
             Some (PUpdateReplicationFactor (Err st), p') ∧
    tenant_factor (kv_env x_text x_rpc "acme" p') "acme" (p_service p') = (Ok 7, p_service p').
Proof.
  destruct (oversized_factor_served x_text x_rpc "acme" 7 0 x_tenant x_cached) as (st & p' & Hu & _ & _ & Hserved);
    [by vm_compute|by vm_compute|done|lia|done|].
  exists st, p'. split; [done|]. apply Hserved. by vm_compute.
Defined.
