(* ===== verification/GatewayClient.v ===== *)
(** * The gateway's client of the coordinator, and its errors

    [api-gateway/internal/grpc/client.go]: calls with retries and exponential
    backoff.  [api-gateway/internal/errors/error_handler.go]: the HTTP status and
    error code for an error of a call.  A call reaches the coordinator or does
    not, and its reply comes back or does not; the choices of a [select] between
    the context and the timer are an argument. *)

From S2P Require Import Prelude CoordinatorHandlers.
#[local] Open Scope Z_scope.

(** ** Errors of a call *)

(** A gRPC status error, or an error that is none ([ctx.Err()]). *)
Inductive call_error := StatusError (st : Status) | PlainError (message : string).

(** [status.FromError] of an error that is not nil. *)
Definition FromError (err : call_error) : option Status :=
  match err with StatusError st => Some st | PlainError _ => None end.

Definition error_message (err : call_error) : string :=
  match err with StatusError st => st_Message st | PlainError m => m end.

Definition GRPCToHTTPStatus (err : option call_error) : Z :=
  match err with
  | None => 200
  | Some err =>
      match FromError err with
      | None => 500
      | Some st =>
          match st_Code st with
          | code_OK => 200
          | code_InvalidArgument => 400
          | code_NotFound => 404
          | code_AlreadyExists => 409
          | code_PermissionDenied => 403
          | code_Unauthenticated => 401
          | code_ResourceExhausted => 429
          | code_FailedPrecondition => 412
          | code_Aborted => 409
          | code_OutOfRange => 400
          | code_Unimplemented => 501
          | code_Internal => 500
          | code_Unavailable => 503
          | code_DeadlineExceeded => 504
          | _ => 500
          end
      end
  end.

(** *** Strings *)

Definition lower (c : byte) : byte :=
  if (65 <=? byte_val c) && (byte_val c <=? 90) then byte_of (byte_val c + 32) else c.

Definition toLower (s : string) : string := string_of (lower <$> bytes s).

(** The loop over the positions of [substr] in [s]. *)
Definition contains (s substr : string) : bool :=
  let l := bytes s in
  let sub := bytes substr in
  if (length l <? length sub)%nat then false
  else existsb (λ i, bool_decide (take (length sub) (drop i l) = sub)) (seq 0 (S (length l - length sub))).

Definition containsAny (s : string) (substrs : list string) : bool :=
  let sLower := toLower s in existsb (λ substr, contains sLower (toLower substr)) substrs.

Definition GRPCToErrorCode (err : option call_error) : string :=
  match err with
  | None => "UNKNOWN"
  | Some err =>
      match FromError err with
      | None => "INTERNAL_ERROR"
      | Some st =>
          let msg := st_Message st in
          match st_Code st with
          | code_InvalidArgument => "INVALID_REQUEST"
          | code_NotFound =>
              if containsAny msg ["tenant"] then "TENANT_NOT_FOUND"
              else if containsAny msg ["key"] then "KEY_NOT_FOUND"
              else if containsAny msg ["migration"] then "MIGRATION_NOT_FOUND"
              else "INVALID_REQUEST"
          | code_AlreadyExists =>
              if containsAny msg ["tenant"] then "TENANT_EXISTS"
              else if containsAny msg ["idempotency"] then "IDEMPOTENCY_KEY_CONFLICT"
              else "INVALID_REQUEST"
          | code_PermissionDenied => "FORBIDDEN"
          | code_Unauthenticated => "UNAUTHORIZED"
          | code_ResourceExhausted => "RATE_LIMITED"
          | code_Unavailable => "SERVICE_UNAVAILABLE"
          | code_DeadlineExceeded => "TIMEOUT"
          | _ => "INTERNAL_ERROR"
          end
      end
  end.

(** ** Calls with retries *)

Definition isRetryable (err : call_error) : bool :=
  match FromError err with
  | None => false
  | Some st =>
      match st_Code st with
      | code_Unavailable | code_DeadlineExceeded | code_Aborted | code_ResourceExhausted => true
      | _ => false
      end
  end.

(** [cfg.RetryBackoff * time.Duration(1<<uint(attempt-1))]. *)
Definition backoff (retryBackoff : Z) (attempt : nat) : Z := i64 (retryBackoff * i64 (2 ^ (Z.of_nat attempt - 1))).

Record ClientConfig := mkClientConfig { MaxRetries : Z; RetryBackoff : Z }.

(** What ends a wait: the timer, or the context with its error. *)
Inductive wake := TimerFired | ContextDone (message : string).

Section retry.
Context {St R : Type}.

(** The iterations from [attempt] on, at most [n] of them.  The result is the
    response, or nil together with a nil error if there was no iteration; the
    list holds the waits. *)
Fixpoint retry_from (n : nat) (cfg : ClientConfig) (wakes : nat → wake) (operation : nat → St → res call_error R * St)
    (attempt : nat) (lastErr : option call_error) (s : St) : res call_error (option R) * list Z * St :=
  match n with
  | O => (match lastErr with None => Ok None | Some e => Err e end, [], s)
  | S n =>
      let body s :=
        match operation attempt s with
        | (Ok r, s) => (Ok (Some r), [], s)
        | (Err err, s) =>
            if negb (isRetryable err) then (Err err, [], s)
            else retry_from n cfg wakes operation (attempt + 1) (Some err) s
        end in
      if (0 <? attempt)%nat then
        match wakes attempt with
        | ContextDone m => (Err (PlainError m), [backoff (RetryBackoff cfg) attempt], s)
        | TimerFired => let '(r, waits, s) := body s in (r, backoff (RetryBackoff cfg) attempt :: waits, s)
        end
      else body s
  end.

Definition withRetry (cfg : ClientConfig) (wakes : nat → wake) (operation : nat → St → res call_error R * St) (s : St)
    : res call_error (option R) * list Z * St :=
  retry_from (Z.to_nat (MaxRetries cfg + 1)) cfg wakes operation 0 None s.

(** What becomes of one call: the request is lost, or it is handled and its
    reply comes back, or it is handled and the reply is lost. *)
Inductive delivery := Lost (e : call_error) | Replied | ReplyLost (e : call_error).

Definition call (d : delivery) (handler : St → res Status R * St) (s : St) : res call_error R * St :=
  match d with
  | Lost e => (Err e, s)
  | Replied => match handler s with (Ok r, s) => (Ok r, s) | (Err st, s) => (Err (StatusError st), s) end
  | ReplyLost e => (Err e, (handler s).2)
  end.
End retry.

(** ** Lemmas *)

Lemma contains_spec s substr : contains s substr = true ↔ ∃ a b, bytes s = a ++ bytes substr ++ b.
Proof.
  unfold contains. destruct (Nat.ltb_spec (length (bytes s)) (length (bytes substr))) as [Hlt|Hle].
  - split; [done|]. intros (a & b & Heq). rewrite Heq, !length_app in Hlt. lia.
  - rewrite existsb_exists. split.
    + intros (i & _ & Hi%bool_decide_eq_true). exists (take i (bytes s)), (drop (length (bytes substr)) (drop i (bytes s))).
      rewrite <-Hi at 1. by rewrite !take_drop.
    + intros (a & b & Heq). exists (length a). split.
      * apply in_seq. rewrite Heq, !length_app. lia.
      * apply bool_decide_eq_true. by rewrite Heq, drop_app_length, take_app_length.
Qed.

Section retry_lemmas.
Context {St R : Type} (cfg : ClientConfig) (wakes : nat → wake) (operation : nat → St → res call_error R * St).

(** The calls [i] to [j - 1] fail with errors that are retried after their
    wait, and lead from [s] to [s']. *)
Inductive retried : nat → nat → St → St → Prop :=
  | retried_none i s : retried i i s s
  | retried_once i j s s' e :
      (operation i s).1 = Err e → isRetryable e = true → wakes (i + 1)%nat = TimerFired →
      retried (i + 1) j (operation i s).2 s' → retried i j s s'.

(** What the last call, number [j], made in [s], makes of the whole. *)
Definition concludes (j limit : nat) (s : St) (r : res call_error (option R)) : Prop :=
  match (operation j s).1 with
  | Ok x => r = Ok (Some x)
  | Err e =>
      (isRetryable e = false ∨ j = limit) ∧ r = Err e ∨
      isRetryable e = true ∧ (j < limit)%nat ∧ ∃ m, wakes (j + 1)%nat = ContextDone m ∧ r = Err (PlainError m)
  end.

(** The waits before the calls [i] to [j - 1]. *)
Definition waited (i j : nat) : list Z := backoff (RetryBackoff cfg) <$> seq i (j - i).

Lemma waited_nil i : waited i i = [].
Proof. unfold waited. by rewrite Nat.sub_diag. Qed.

Lemma waited_cons i j : (i < j)%nat → waited i j = backoff (RetryBackoff cfg) i :: waited (i + 1) j.
Proof.
  intros Hij. unfold waited. replace (j - i)%nat with (S (j - (i + 1))) by lia. cbn [seq].
  by replace (S i) with (i + 1)%nat by lia.
Qed.

(** The loop body at attempt [i], after its wait. *)
Definition attempt_from (n i : nat) (s : St) : res call_error (option R) * list Z * St :=
  match operation i s with
  | (Ok r, s) => (Ok (Some r), [], s)
  | (Err err, s) =>
      if negb (isRetryable err) then (Err err, [], s)
      else retry_from n cfg wakes operation (i + 1) (Some err) s
  end.

Lemma attempt_spec n i s r waits s' :
  attempt_from n i s = (r, waits, s') →
  ∃ j s1, (i ≤ j ≤ i + n)%nat ∧ retried i j s s1 ∧ s' = (operation j s1).2 ∧ concludes j (i + n) s1 r ∧
    (waits = waited (i + 1) (j + 1) ∨ waits = waited (i + 1) (j + 2)).
Proof.
  revert i s waits. induction n as [|n IH]; intros i s waits; unfold attempt_from, concludes.
  - intros Hr. exists i, s. rewrite waited_nil. destruct (operation i s) as [[x|e] s1] eqn:Hop; cbn [fst snd].
    + injection Hr as <- <- <-. split_and!; [lia|lia|constructor|done|done|by left].
    + destruct (negb (isRetryable e)); cbn [retry_from] in Hr; injection Hr as <- <- <-;
        (split_and!; [lia|lia|constructor|done|left; split; [right; lia|done]|by left]).
  - intros Hr. destruct (operation i s) as [[x|e] s1] eqn:Hop.
    { exists i, s. rewrite Hop, waited_nil. injection Hr as <- <- <-.
      split_and!; [lia|lia|constructor|done|done|by left]. }
    destruct (isRetryable e) eqn:Hre; cbn [negb] in Hr.
    2: { exists i, s. rewrite Hop, waited_nil. injection Hr as <- <- <-.
         split_and!; [lia|lia|constructor|done|by left; split; [left|]|by left]. }
    cbn [retry_from] in Hr. destruct (Nat.ltb_spec 0 (i + 1)) as [_|]; [|lia].
    destruct (wakes (i + 1)%nat) as [|m] eqn:Hw.
    + fold (attempt_from n (i + 1) s1) in Hr. destruct (attempt_from n (i + 1) s1) as [[r1 waits1] s2] eqn:Ha.
      injection Hr as <- <- <-. destruct (IH _ _ _ Ha) as (j & s3 & Hj & Hret & -> & Hcon & Hwait).
      exists j, s3. rewrite !(waited_cons (i + 1)) by lia. split_and!; [lia|lia| |done| |].
      * apply (retried_once i j s s3 e); rewrite ?Hop; done.
      * unfold concludes in Hcon. by replace (i + S n)%nat with (i + 1 + n)%nat by lia.
      * destruct Hwait as [-> | ->]; [by left|by right].
    + injection Hr as <- <- <-. exists i, s. rewrite Hop. split_and!; [lia|lia|constructor|done| |].
      * right. split_and!; [done|lia|]. by exists m.
      * right. rewrite waited_cons by lia. by replace (i + 1 + 1)%nat with (i + 2)%nat by lia; rewrite waited_nil.
Qed.

Lemma withRetry_spec s r waits s' :
  0 ≤ MaxRetries cfg → withRetry cfg wakes operation s = (r, waits, s') →
  ∃ j s1, (j ≤ Z.to_nat (MaxRetries cfg))%nat ∧ retried 0 j s s1 ∧ s' = (operation j s1).2 ∧
    concludes j (Z.to_nat (MaxRetries cfg)) s1 r ∧ (waits = waited 1 (j + 1) ∨ waits = waited 1 (j + 2)).
Proof.
  intros Hm. unfold withRetry. replace (Z.to_nat (MaxRetries cfg + 1)) with (S (Z.to_nat (MaxRetries cfg))) by lia.
  change (retry_from (S ?n) cfg wakes operation 0 None s) with (attempt_from n 0 s). intros Hr.
  destruct (attempt_spec _ _ _ _ _ _ Hr) as (j & s1 & Hj & H1 & H2 & H3 & H4). exists j, s1. by split_and!; [lia|..].
Qed.
End retry_lemmas.

(** ** What the coordinator sees of a call *)

Definition handled (d : delivery) : bool := match d with Lost _ => false | _ => true end.

Lemma call_state {St R} d (handler : St → res Status R * St) s :
  (call d handler s).2 = if handled d then (handler s).2 else s.
Proof. destruct d; [done| |done]. cbn [call handled]. by destruct (handler s) as [[]]. Qed.

Definition run_handler {St R} (handler : nat → St → res Status R * St) (s : St) (i : nat) : St := (handler i s).2.

Lemma retried_state {St R} wakes deliver (handler : nat → St → res Status R * St) i j s s' :
  retried wakes (λ i, call (deliver i) (handler i)) i j s s' →
  (i ≤ j)%nat ∧ s' = foldl (run_handler handler) s (filter (λ i, handled (deliver i) = true) (seq i (j - i))).
Proof.
  induction 1 as [i s|i j s s' e He Hr Hw Hret [Hij IH]]; [by rewrite Nat.sub_diag|]. split; [lia|].
  replace (j - i)%nat with (S (j - (i + 1))) by lia. cbn [seq]. rewrite filter_cons, IH, call_state.
  replace (S i) with (i + 1)%nat by lia. by destruct (handled (deliver i)); case_decide.
Qed.

(** ** Properties *)

(** C34: the retry loop.  A call is tried at most [MaxRetries + 1] times.  Every
    try but the last failed with an error that is retried, after a wait that
    doubles each time; the result is the reply of the last try, its error if
    that is final or no try is left, or the context's error if the context ended
    during the wait for the next.  The coordinator has handled the request once
    for every try that reached it, whether or not its reply came back. *)
Theorem retry_spec {St R} cfg wakes deliver (handler : nat → St → res Status R * St) s :
  0 ≤ MaxRetries cfg →
  let operation i := call (deliver i) (handler i) in
  let '(r, waits, s') := withRetry cfg wakes operation s in
  ∃ j s1, (j ≤ Z.to_nat (MaxRetries cfg))%nat ∧ retried wakes operation 0 j s s1 ∧
    concludes wakes operation j (Z.to_nat (MaxRetries cfg)) s1 r ∧
    (waits = waited cfg 1 (j + 1) ∨ waits = waited cfg 1 (j + 2)) ∧
    s' = foldl (run_handler handler) s (filter (λ i, handled (deliver i) = true) (seq 0 (j + 1))).
Proof.
  intros Hm operation. destruct (withRetry cfg wakes operation s) as [[r waits] s'] eqn:Hr.
  destruct (withRetry_spec _ _ _ _ _ _ _ Hm Hr) as (j & s1 & Hj & H1 & -> & H3 & H4). exists j, s1.
  split_and!; [done..|]. destruct (retried_state _ _ _ _ _ _ _ H1) as [_ Hs1]. unfold operation.
  rewrite call_state, Hs1, seq_app, filter_app, foldl_app, Nat.sub_0_r. cbn [seq Nat.add].
  rewrite filter_cons. by destruct (handled (deliver j)); case_decide.
Qed.

(** ** Witnesses *)

(** A counter of the writes, whose first reply is lost. *)
Definition x_config : ClientConfig := mkClientConfig 3 100000000.
Definition x_unavailable : call_error := StatusError (mkStatus code_Unavailable "transport is closing").
Definition x_deliver (i : nat) : delivery := if decide (i = 0%nat) then ReplyLost x_unavailable else Replied.
Definition x_handler (i n : nat) : res Status nat * nat := (Ok (S n), S n).

Lemma retry_spec_witness :
  0 ≤ MaxRetries x_config ∧
  withRetry x_config (λ _, TimerFired) (λ i, call (x_deliver i) (x_handler i)) 0%nat = (Ok (Some 2%nat), [100000000], 2%nat) ∧
  ∃ j s1, (j ≤ 3)%nat ∧ retried (λ _, TimerFired) (λ i, call (x_deliver i) (x_handler i)) 0 j 0%nat s1.
Proof.
  split; [by vm_compute|]. split; [reflexivity|].
  pose proof (retry_spec x_config (λ _, TimerFired) x_deliver x_handler 0%nat ltac:(by vm_compute)) as H. cbn zeta in H.
  destruct (withRetry _ _ _ _) as [[r waits] s']. destruct H as (j & s1 & Hj & Hr & _). exists j, s1. split; [|done].
  change 3%nat with (Z.to_nat (MaxRetries x_config)). done.
Defined.
