(* ===== verification/GatewayConvert.v ===== *)
(** * The gateway's conversions

    [api-gateway/internal/converter/http_to_grpc.go]: from HTTP requests to the
    messages of the coordinator, with the validation on the way, and
    [grpc_to_http.go]: from replies to JSON documents.  What the code uses of
    [net/url] and [encoding/json] is modelled; the texts of the errors of the
    standard library and the digits of a [float32] are parameters. *)

From stdpp Require Import sorting.
From S2P Require Import Prelude Model Utf8 Json GoJson CoordinatorHandlers.
#[local] Open Scope Z_scope.

(** ** HTTP requests *)

(** Header names are in canonical form; the body is what [io.ReadAll] returns. *)
Record http_request := mkHttpRequest {
  hq_Method : string;
  hq_Path : string;
  hq_RawQuery : list byte;
  hq_Header : gmap string string;
  hq_Vars : gmap string string;
  hq_Body : res string (list byte);
}.

Definition header_Get (name : string) (r : http_request) : string := default EmptyString (hq_Header r !! name).
Definition path_var (name : string) (r : http_request) : string := default EmptyString (hq_Vars r !! name).

Definition IdempotencyHeader : string := "Idempotency-Key".
Definition RequestIDHeader : string := "X-Request-ID".

(** *** [net/url] *)

Definition percent : byte := x25.
Definition ampersand : byte := x26.
Definition semicolon : byte := x3b.
Definition equals_sign : byte := x3d.

(** [url.QueryUnescape]. *)
Fixpoint QueryUnescape (s : list byte) : option (list byte) :=
  match s with
  | [] => Some []
  | b :: t =>
      if decide (b = percent) then
        match t with
        | h :: l :: t' => x ← hex_any h; y ← hex_any l; u ← QueryUnescape t'; Some (byte_of (16 * x + y) :: u)
        | _ => None
        end
      else u ← QueryUnescape t; Some ((if decide (b = x2b) then x20 else b) :: u)
  end.

(** [strings.Cut]. *)
Fixpoint cut (d : byte) (s : list byte) : list byte * list byte :=
  match s with
  | [] => ([], [])
  | b :: t => if decide (b = d) then ([], t) else let '(x, y) := cut d t in (b :: x, y)
  end.

(** One parameter; [None] for one that is skipped. *)
Definition query_pair (s : list byte) : option (string * string) :=
  if decide (semicolon ∈ s ∨ s = []) then None
  else let '(k, v) := cut equals_sign s in
       k ← QueryUnescape k; v ← QueryUnescape v; Some (string_of k, string_of v).

(** [url.ParseQuery], whose errors [URL.Query] ignores. *)
Fixpoint ParseQuery (fuel : nat) (s : list byte) : list (string * string) :=
  match fuel, s with
  | S fuel, _ :: _ =>
      let '(p, rest) := cut ampersand s in
      (match query_pair p with Some kv => [kv] | None => [] end) ++ ParseQuery fuel rest
  | _, _ => []
  end.

Definition Query (r : http_request) : list (string * string) := ParseQuery (length (hq_RawQuery r)) (hq_RawQuery r).

(** [Values.Get]: the first value, or the empty string. *)
Definition query_Get (name : string) (q : list (string * string)) : string :=
  default EmptyString (snd <$> head (filter (λ kv, kv.1 = name) q)).

(** [strconv.ParseBool]. *)
Definition ParseBool (s : string) : option bool :=
  if decide (s ∈ ["1"; "t"; "T"; "TRUE"; "true"; "True"]) then Some true
  else if decide (s ∈ ["0"; "f"; "F"; "FALSE"; "false"; "False"]) then Some false
  else None.

(** The texts of errors of the standard library. *)
Class GoErrors := {
  json_error_text : list byte → string;
  parse_bool_text : string → string;
}.

(** ** Messages of the node operations *)

Record AddStorageNodeRequest := mkAddStorageNodeRequest {
  aq_NodeId : string;
  aq_Host : string;
  aq_Port : Z;
  aq_VirtualNodes : Z;
}.

(** The replies to an addition and to a removal have the same fields. *)
Record ChangeStorageNodeResponse := mkChangeStorageNodeResponse {
  np_Success : bool;
  np_NodeId : string;
  np_MigrationId : string;
  np_Message : string;
  np_EstimatedCompletion : Z;
  np_ErrorMessage : string;
}.

Record RemoveStorageNodeRequest := mkRemoveStorageNodeRequest { dq_NodeId : string; dq_Force : bool }.

(** A [float32] is its bits. *)
Record MigrationProgress := mkMigrationProgress { pg_KeysMigrated : Z; pg_TotalKeys : Z; pg_Percentage : Z }.

Record GetMigrationStatusResponse := mkGetMigrationStatusResponse {
  mp_Success : bool;
  mp_MigrationId : string;
  mp_Type : string;
  mp_NodeId : string;
  mp_Status : string;
  mp_Progress : option MigrationProgress;
  mp_StartedAt : Z;
  mp_EstimatedCompletion : Z;
  mp_ErrorMessage : string;
}.

Record StorageNodeInfo := mkStorageNodeInfo {
  ni_NodeId : string;
  ni_Host : string;
  ni_Port : Z;
  ni_Status : string;
  ni_VirtualNodes : Z;
  ni_KeysCount : Z;
  ni_DiskUsagePercent : Z;
}.

Record ListStorageNodesResponse := mkListStorageNodesResponse {
  lp_Success : bool;
  lp_Nodes : list StorageNodeInfo;
  lp_ErrorMessage : string;
}.

(** ** Bodies *)

Record WriteKeyValueHTTPRequest := mkWriteKeyValueHTTPRequest {
  wh_TenantID : string;
  wh_Key : string;
  wh_Value : string;
  wh_Consistency : string;
}.

Definition decode_WriteKeyValue (l : list (string * json)) : option WriteKeyValueHTTPRequest :=
  t ← get_string "tenant_id" l; k ← get_string "key" l; v ← get_string "value" l; c ← get_string "consistency" l;
  Some (mkWriteKeyValueHTTPRequest t k v c).

Record CreateTenantHTTPRequest := mkCreateTenantHTTPRequest { ch_TenantID : string; ch_ReplicationFactor : Z }.

Definition decode_CreateTenant (l : list (string * json)) : option CreateTenantHTTPRequest :=
  t ← get_string "tenant_id" l; f ← get_int32 "replication_factor" l; Some (mkCreateTenantHTTPRequest t f).

(** [UpdateReplicationFactorHTTPRequest] has this one field. *)
Definition decode_UpdateReplicationFactor (l : list (string * json)) : option Z := get_int32 "replication_factor" l.

Record AddStorageNodeHTTPRequest := mkAddStorageNodeHTTPRequest {
  ah_NodeID : string;
  ah_Host : string;
  ah_Port : Z;
  ah_VirtualNodes : Z;
}.

Definition decode_AddStorageNode (l : list (string * json)) : option AddStorageNodeHTTPRequest :=
  n ← get_string "node_id" l; h ← get_string "host" l; p ← get_int32 "port" l; v ← get_int32 "virtual_nodes" l;
  Some (mkAddStorageNodeHTTPRequest n h p v).

(** ** From HTTP requests to messages *)

Definition isValidConsistency (consistency : string) : bool := bool_decide (consistency ∈ ["one"; "quorum"; "all"]).

Definition invalid_consistency (consistency : string) : string :=
  "invalid consistency level: " +:+ consistency +:+ " (must be one, quorum, or all)".

Section requests.
Context `{GoErrors}.

(** Reading the body and decoding it. *)
Definition read_body {A} (decode : list (string * json) → option A) (r : http_request) : res string A :=
  match hq_Body r with
  | Err e => Err ("failed to read request body: " +:+ e)
  | Ok body =>
      match Unmarshal decode body with
      | None => Err ("failed to parse request body: " +:+ json_error_text body)
      | Some a => Ok a
      end
  end.

Definition to_WriteKeyValueRequest (r : http_request) : res string WriteKeyValueRequest :=
  httpReq ← read_body decode_WriteKeyValue r;
  if decide (wh_Key httpReq = EmptyString) then Err "key is required"
  else if decide (wh_TenantID httpReq = EmptyString) then Err "tenant_id is required"
  else
    let idempotencyKey := header_Get IdempotencyHeader r in
    let consistency := if decide (wh_Consistency httpReq = EmptyString) then "quorum" else wh_Consistency httpReq in
    if negb (isValidConsistency consistency) then Err (invalid_consistency consistency)
    else Ok (mkWriteKeyValueRequest (wh_TenantID httpReq) (wh_Key httpReq) (bytes (wh_Value httpReq)) consistency idempotencyKey).

Definition to_ReadKeyValueRequest (r : http_request) : res string ReadKeyValueRequest :=
  let query := Query r in
  let key := query_Get "key" query in
  if decide (key = EmptyString) then Err "key query parameter is required"
  else
    let tenantID := query_Get "tenant_id" query in
    if decide (tenantID = EmptyString) then Err "tenant_id query parameter is required"
    else
      let consistency := query_Get "consistency" query in
      let consistency := if decide (consistency = EmptyString) then "quorum" else consistency in
      if negb (isValidConsistency consistency) then Err (invalid_consistency consistency)
      else Ok (mkReadKeyValueRequest tenantID key consistency).

Definition to_CreateTenantRequest (r : http_request) : res string CreateTenantRequest :=
  httpReq ← read_body decode_CreateTenant r;
  if decide (ch_TenantID httpReq = EmptyString) then Err "tenant_id is required"
  else
    let replicationFactor := if ch_ReplicationFactor httpReq =? 0 then 3 else ch_ReplicationFactor httpReq in
    if replicationFactor <? 1 then Err "replication_factor must be at least 1"
    else Ok (mkCreateTenantRequest (ch_TenantID httpReq) replicationFactor).

Definition to_UpdateReplicationFactorRequest (r : http_request) : res string UpdateReplicationFactorRequest :=
  let tenantID := path_var "tenant_id" r in
  if decide (tenantID = EmptyString) then Err "tenant_id path parameter is required"
  else
    factor ← read_body decode_UpdateReplicationFactor r;
    if factor <? 1 then Err "replication_factor must be at least 1"
    else Ok (mkUpdateReplicationFactorRequest tenantID factor).

(** [GetTenantRequest] is the tenant's id, [GetMigrationStatusRequest] the migration's. *)
Definition to_GetTenantRequest (r : http_request) : res string string :=
  let tenantID := path_var "tenant_id" r in
  if decide (tenantID = EmptyString) then Err "tenant_id path parameter is required" else Ok tenantID.

Definition to_AddStorageNodeRequest (r : http_request) : res string AddStorageNodeRequest :=
  httpReq ← read_body decode_AddStorageNode r;
  if decide (ah_NodeID httpReq = EmptyString) then Err "node_id is required"
  else if decide (ah_Host httpReq = EmptyString) then Err "host is required"
  else if (ah_Port httpReq <=? 0) || (65535 <? ah_Port httpReq) then Err ("invalid port: " +:+ pretty (ah_Port httpReq))
  else
    let virtualNodes := if ah_VirtualNodes httpReq =? 0 then 150 else ah_VirtualNodes httpReq in
    Ok (mkAddStorageNodeRequest (ah_NodeID httpReq) (ah_Host httpReq) (ah_Port httpReq) virtualNodes).

Definition to_RemoveStorageNodeRequest (r : http_request) : res string RemoveStorageNodeRequest :=
  let nodeID := path_var "node_id" r in
  if decide (nodeID = EmptyString) then Err "node_id path parameter is required"
  else
    let forceStr := query_Get "force" (Query r) in
    if decide (forceStr = EmptyString) then Ok (mkRemoveStorageNodeRequest nodeID false)
    else match ParseBool forceStr with
    | Some force => Ok (mkRemoveStorageNodeRequest nodeID force)
    | None => Err ("invalid force parameter: " +:+ parse_bool_text forceStr)
    end.

Definition to_GetMigrationStatusRequest (r : http_request) : res string string :=
  let migrationID := path_var "migration_id" r in
  if decide (migrationID = EmptyString) then Err "migration_id path parameter is required" else Ok migrationID.

Definition to_ListStorageNodesRequest (r : http_request) : res string unit := Ok tt.
End requests.

(** ** From replies to JSON *)

Definition getStatus (success : bool) : string := if success then "success" else "error".

(** The map of a clock; nil for no entries. *)
Definition convertVectorClock (vc : option VectorClock) : option (gmap string Z) :=
  match vc with
  | None => None
  | Some vc =>
      if decide (Entries vc = []) then None
      else Some (foldl (λ m e, <[CoordinatorNodeID e := LogicalTimestamp e]> m) ∅ (Entries vc))
  end.

(** A map, in the order of its keys. *)
Definition json_map (m : gmap string Z) : list byte :=
  json_object ((λ kv, (kv.1, json_int kv.2)) <$> merge_sort (λ a b, String.le a.1 b.1) (map_to_list m)).

Definition str (name s : string) : list (string * list byte) := [(name, json_string s)].
Definition int (name : string) (z : Z) : list (string * list byte) := [(name, json_int z)].

(** Fields with [omitempty]. *)
Definition str_opt (name s : string) : list (string * list byte) := if decide (s = EmptyString) then [] else str name s.
Definition int_opt (name : string) (z : Z) : list (string * list byte) := if z =? 0 then [] else int name z.
Definition map_opt (name : string) (m : option (gmap string Z)) : list (string * list byte) :=
  match m with Some m => [(name, json_map m)] | None => [] end.

Definition of_WriteKeyValueResponse (resp : WriteKeyValueResponse) : list (string * list byte) :=
  str "status" (getStatus (kwp_Success resp)) ++ str "key" (kwp_Key resp) ++
  str "idempotency_key" (kwp_IdempotencyKey resp) ++
  map_opt "vector_clock" (convertVectorClock (kwp_VectorClock resp)) ++
  int "replica_count" (kwp_ReplicaCount resp) ++ str "consistency" (kwp_Consistency resp) ++
  [("is_duplicate", json_bool (kwp_IsDuplicate resp))].

Definition of_ReadKeyValueResponse (resp : ReadKeyValueResponse) : list (string * list byte) :=
  str "status" (getStatus (krp_Success resp)) ++ str "key" (krp_Key resp) ++
  str "value" (string_of (krp_Value resp)) ++
  map_opt "vector_clock" (convertVectorClock (krp_VectorClock resp)).

Definition of_CreateTenantResponse (resp : CreateTenantResponse) : list (string * list byte) :=
  str "status" (getStatus (cp_Success resp)) ++ str "tenant_id" (cp_TenantId resp) ++
  int "replication_factor" (cp_ReplicationFactor resp) ++ int "created_at" (cp_CreatedAt resp).

Definition of_UpdateReplicationFactorResponse (resp : UpdateReplicationFactorResponse) : list (string * list byte) :=
  str "status" (getStatus (up_Success resp)) ++ str "tenant_id" (up_TenantId resp) ++
  int "old_replication_factor" (up_OldReplicationFactor resp) ++
  int "new_replication_factor" (up_NewReplicationFactor resp) ++
  str_opt "migration_id" (up_MigrationId resp) ++ int "updated_at" (up_UpdatedAt resp).

Definition of_GetTenantResponse (resp : GetTenantResponse) : list (string * list byte) :=
  str "status" (getStatus (gp_Success resp)) ++ str "tenant_id" (gp_TenantId resp) ++
  int "replication_factor" (gp_ReplicationFactor resp) ++ int "created_at" (gp_CreatedAt resp) ++
  int "updated_at" (gp_UpdatedAt resp).

Definition of_ChangeStorageNodeResponse (resp : ChangeStorageNodeResponse) : list (string * list byte) :=
  str "status" (getStatus (np_Success resp)) ++ str "node_id" (np_NodeId resp) ++
  str_opt "migration_id" (np_MigrationId resp) ++ str "message" (np_Message resp) ++
  int_opt "estimated_completion" (np_EstimatedCompletion resp).

(** How [encoding/json] writes a [float32]; no value for a NaN or an infinity. *)
Class Float32Json := { float32_json : Z → option (list byte) }.

Section floats.
Context `{Float32Json}.

Definition float (name : string) (bits : Z) : option (list (string * list byte)) :=
  l ← float32_json bits; Some [(name, l)].

Definition of_MigrationProgress (p : MigrationProgress) : option (list byte) :=
  f ← float "percentage" (pg_Percentage p);
  Some (json_object (int "keys_migrated" (pg_KeysMigrated p) ++ int "total_keys" (pg_TotalKeys p) ++ f)).

Definition of_GetMigrationStatusResponse (resp : GetMigrationStatusResponse) : option (list (string * list byte)) :=
  progress ← (match mp_Progress resp with
              | Some p => l ← of_MigrationProgress p; Some [("progress", l)]
              | None => Some []
              end);
  Some (str "status" (getStatus (mp_Success resp)) ++ str "migration_id" (mp_MigrationId resp) ++
        str "type" (mp_Type resp) ++ str "node_id" (mp_NodeId resp) ++ str "migration_status" (mp_Status resp) ++
        progress ++ int "started_at" (mp_StartedAt resp) ++
        int_opt "estimated_completion" (mp_EstimatedCompletion resp)).

Definition of_StorageNodeInfo (n : StorageNodeInfo) : option (list byte) :=
  f ← float "disk_usage_percent" (ni_DiskUsagePercent n);
  Some (json_object (str "node_id" (ni_NodeId n) ++ str "host" (ni_Host n) ++ int "port" (ni_Port n) ++
                     str "status" (ni_Status n) ++ int "virtual_nodes" (ni_VirtualNodes n) ++
                     int "keys_count" (ni_KeysCount n) ++ f)).

(** A list that is not nil. *)
Definition json_array (l : list (list byte)) : list byte :=
  match l with [] => [lbracket; rbracket] | _ => json_list (λ x, x) l end.

Definition of_ListStorageNodesResponse (resp : ListStorageNodesResponse) : option (list (string * list byte)) :=
  nodes ← mapM of_StorageNodeInfo (lp_Nodes resp);
  Some (str "status" (getStatus (lp_Success resp)) ++ [("nodes", json_array nodes)]).
End floats.

(** ** Lemmas *)

(** A field that is set to one value. *)
Lemma get_string_one name l s :
  settings name l = [JString s] → get_string name l = Some s.
Proof. intros Hs. unfold get_string, get_field. by rewrite Hs. Qed.

Lemma get_string_none name l : settings name l = [] → get_string name l = Some EmptyString.
Proof. intros Hs. unfold get_string, get_field. by rewrite Hs. Qed.

Lemma str_prints d name s : sanitize name = name → Forall2 (member_prints d) (str name s) [(name, JString (sanitize s))].
Proof. intros Hn. constructor; [|constructor]. split; [by symmetry|apply prints_string]. Qed.

Lemma str_prints_app d name s l js :
  sanitize name = name → Forall2 (member_prints d) l js →
  Forall2 (member_prints d) (str name s ++ l) ((name, JString (sanitize s)) :: js).
Proof. intros Hn Hl. constructor; [|exact Hl]. split; [by symmetry|apply prints_string]. Qed.

(** A document of members that are read back. *)
Lemma Unmarshal_object {A} (decode : list (string * json) → option A) l js :
  Forall2 (member_prints 10) l js → Unmarshal decode (json_object l) = decode js ∧
                                    Unmarshal decode (json_object l ++ [x0a]) = decode js.
Proof.
  intros Hall. unfold Unmarshal.
  destruct (prints_parse 11 (json_object l) (JObject js)) as [-> ->]; [by apply prints_object|lia|done].
Qed.

Lemma json_map_prints d m : ∃ js, prints (S d) (json_map m) (JObject js).
Proof.
  unfold json_map. generalize (merge_sort (λ a b : string * Z, String.le a.1 b.1) (map_to_list m)). intros l.
  exists ((λ kv, (sanitize kv.1, JNumber (json_int kv.2))) <$> l). apply prints_object.
  induction l as [|kv l IH]; constructor; [|exact IH]. split; [done|apply prints_int].
Qed.

Lemma map_opt_prints d name m :
  sanitize name = name → ∃ js, Forall2 (member_prints (S d)) (map_opt name m) js ∧ Forall (λ kj, kj.1 = name) js.
Proof.
  intros Hn. destruct m as [m|]; [|by exists []]. destruct (json_map_prints d m) as [js Hjs].
  exists [(name, JObject js)]. split; [|by repeat constructor]. constructor; [|constructor]. by split.
Qed.

Lemma settings_app name l1 l2 : settings name (l1 ++ l2) = settings name l1 ++ settings name l2.
Proof. unfold settings. by rewrite filter_app, fmap_app. Qed.

Lemma settings_other name other l : same_name other name = false → Forall (λ kj, kj.1 = other) l → settings name l = [].
Proof.
  intros Hne. unfold settings. induction 1 as [|[k j] l Hk _ IH]; [done|]. cbn [fst] in Hk. subst k.
  rewrite filter_cons_False; [done|]. cbn [fst]. by rewrite Hne.
Qed.

(** The replacement of invalid bytes makes a text longer. *)
Lemma valid_text_longer fuel s :
  (length s ≤ fuel → length s ≤ length (valid_text fuel s) ∧
    (length (valid_text fuel s) ≤ length s → valid_fuel fuel s = true))%nat.
Proof.
  revert s. induction fuel as [|fuel IH]; intros [|b rest] Hlen; simpl in Hlen; try (simpl; lia); [done..|].
  cbn [valid_text valid_fuel]. pose proof (decode_width b rest) as Hw. destruct (decode_rune b rest) as [r w].
  cbn [fst snd] in *. destruct (IH (drop w (b :: rest))) as [H1 H2]; [rewrite length_drop; simpl; lia|].
  rewrite length_drop in H1, H2. rewrite length_app. simpl length in *.
  destruct ((w =? 1)%nat && (0x80 <=? byte_val b)) eqn:Hbad; cbn [negb andb].
  - apply andb_true_iff in Hbad as [->%Nat.eqb_eq _]. change (length (encode_rune RuneError)) with 3%nat. split; lia.
  - rewrite length_take. simpl length. split; [lia|]. intros Hle. apply H2. lia.
Qed.

Lemma sanitize_fixed s : sanitize s = s ↔ valid_utf8 s = true.
Proof.
  split; [|apply sanitize_id]. intros Heq. apply (valid_text_longer _ (bytes s) ltac:(done)).
  unfold sanitize in Heq. apply (f_equal bytes) in Heq. rewrite bytes_string_of in Heq. by rewrite Heq.
Qed.

(** ** Properties *)

(** A request body, as a client in Go prints it. *)
Definition write_body (tenantID key value consistency : string) : list byte :=
  json_object (str "tenant_id" tenantID ++ str "key" key ++ str "value" value ++ str "consistency" consistency).

(** The write request the gateway sends.  From a body in which the client has
    printed a tenant, a key, a value and a level, in this order and as
    [encoding/json] prints an object, the gateway makes the message with the value
    as its bytes and with the idempotency key of the header.  The client's printer
    replaces bytes that are not UTF-8; a text in UTF-8 arrives as it is. *)
Theorem write_request_roundtrip `{GoErrors} tenantID key value consistency r :
  hq_Body r = Ok (write_body tenantID key value consistency) →
  key ≠ EmptyString → tenantID ≠ EmptyString → isValidConsistency consistency = true →
  ∃ t k, to_WriteKeyValueRequest r =
    Ok (mkWriteKeyValueRequest t k (bytes (sanitize value)) consistency (header_Get IdempotencyHeader r)) ∧
    (valid_utf8 tenantID = true → t = tenantID) ∧ (valid_utf8 key = true → k = key) ∧
    (valid_utf8 value = true → sanitize value = value).
Proof.
  intros Hb Hk Ht Hc. exists (sanitize tenantID), (sanitize key).
  assert (∀ s, s ≠ EmptyString → sanitize s ≠ EmptyString) as Hne.
  { intros s Hs Heq. apply (f_equal (length ∘ bytes)) in Heq. unfold sanitize in Heq. cbn in Heq.
    rewrite bytes_string_of in Heq. destruct (valid_text_longer _ (bytes s) ltac:(done)) as [Hl _].
    destruct s as [|a s]; [done|]. change (bytes (String a s)) with (Ascii.byte_of_ascii a :: bytes s) in *. simpl in *. lia. }
  assert (sanitize consistency = consistency) as Hcs.
  { unfold isValidConsistency in Hc. apply bool_decide_eq_true in Hc.
    rewrite !elem_of_cons in Hc. destruct Hc as [-> |[-> |[-> |[]%not_elem_of_nil]]]; reflexivity. }
  split; [|by split_and!; apply sanitize_id].
  unfold to_WriteKeyValueRequest, read_body. rewrite Hb. unfold write_body.
  destruct (Unmarshal_object decode_WriteKeyValue
    (str "tenant_id" tenantID ++ str "key" key ++ str "value" value ++ str "consistency" consistency)
    [("tenant_id", JString (sanitize tenantID)); ("key", JString (sanitize key)); ("value", JString (sanitize value));
     ("consistency", JString (sanitize consistency))]) as [-> _].
  { do 3 (apply str_prints_app; [done|]). by apply str_prints. }
  unfold decode_WriteKeyValue.
  rewrite (get_string_one "tenant_id" _ (sanitize tenantID)), (get_string_one "key" _ (sanitize key)),
    (get_string_one "value" _ (sanitize value)), (get_string_one "consistency" _ consistency)
    by (rewrite ?Hcs; reflexivity).
  cbn [mbind option_bind wh_Key wh_TenantID wh_Consistency wh_Value res_bind].
  rewrite !decide_False by auto. rewrite decide_False by (intros ->; by vm_compute in Hc). by rewrite Hc.
Qed.

(** C35: The value a client reads.  The document the gateway answers a read with is
    valid JSON with a value, whatever the bytes stored, and a client that decodes it
    as [encoding/json] does gets the stored value if and only if the value is UTF-8
    text; any other value cannot be read through the gateway. *)
Theorem read_value_text_only resp :
  let body := json_object (of_ReadKeyValueResponse resp) ++ [x0a] in
  ∃ v, Unmarshal (get_string "value") body = Some v ∧
    (v = string_of (krp_Value resp) ↔ valid_utf8 (string_of (krp_Value resp)) = true).
Proof.
  exists (sanitize (string_of (krp_Value resp))). split; [|apply sanitize_fixed].
  destruct (map_opt_prints 9 "vector_clock" (convertVectorClock (krp_VectorClock resp)) eq_refl) as (js & Hjs & Hname).
  unfold of_ReadKeyValueResponse.
  match goal with |- Unmarshal _ (json_object ?l ++ _) = _ =>
    destruct (Unmarshal_object (get_string "value") l
      ([("status", JString (sanitize (getStatus (krp_Success resp)))); ("key", JString (sanitize (krp_Key resp)));
        ("value", JString (sanitize (string_of (krp_Value resp))))] ++ js)) as [_ ->] end.
  { do 3 (apply str_prints_app; [done|]). exact Hjs. }
  apply get_string_one. rewrite settings_app, (settings_other _ "vector_clock" js) by (done || reflexivity). reflexivity.
Qed.

(** ** Witnesses *)

#[export] Instance x_go_errors : GoErrors := {| json_error_text _ := "unexpected end of JSON input"; parse_bool_text s := s |}.

Definition x_write_request : http_request :=
  mkHttpRequest "POST" "/v1/key-value" [] {[ IdempotencyHeader := "k-1" ]} ∅ (Ok (write_body "acme" "user:1" "café" "quorum")).

Lemma write_request_roundtrip_witness :
  to_WriteKeyValueRequest x_write_request = Ok (mkWriteKeyValueRequest "acme" "user:1" (bytes "café") "quorum" "k-1") ∧
  ∃ t k, to_WriteKeyValueRequest x_write_request =
    Ok (mkWriteKeyValueRequest t k (bytes (sanitize "café")) "quorum" (header_Get IdempotencyHeader x_write_request)) ∧
    (valid_utf8 "acme" = true → t = "acme") ∧ (valid_utf8 "user:1" = true → k = "user:1") ∧
    (valid_utf8 "café" = true → sanitize "café" = "café").
Proof.
  split; [by vm_compute|].
  apply (write_request_roundtrip "acme" "user:1" "café" "quorum" x_write_request); [done..|by vm_compute].
Defined.
