(* ===== verification/Gateway.v ===== *)
(** * The API gateway

    [api-gateway/internal/handler/handlers.go], [internal/errors/error_handler.go]
    (the responses), [internal/middleware/middleware.go],
    [internal/server/server.go] (the routes) and [internal/health/health.go]:
    what an HTTP request does and how it is answered.  A handler maps a request, a
    response writer and the gateway's state to a writer and a state, and says
    whether it panicked; the coordinator behind the client is part of the state.
    The router of [gorilla/mux] is a parameter. *)

From S2P Require Import Prelude Model Utf8 Json GoJson Consistency Routing StorageHandler StorageClient Tenant Idempotency Coordinator CoordinatorHandlers GatewayClient GatewayConvert.
#[local] Open Scope Z_scope.

(** ** The response writer *)

(** The headers set so far, and what was sent: the status with the headers as
    they were then, and the body. *)
Record Writer := mkWriter {
  w_header : gmap string string;
  w_status : option (Z * gmap string string);
  w_body : list byte;
}.

Definition NewWriter : Writer := mkWriter ∅ None [].

Definition header_Set (k v : string) (w : Writer) : Writer := mkWriter (<[k := v]> (w_header w)) (w_status w) (w_body w).

(** A second call has no effect. *)
Definition WriteHeader (statusCode : Z) (w : Writer) : Writer :=
  match w_status w with
  | Some _ => w
  | None => mkWriter (w_header w) (Some (statusCode, w_header w)) (w_body w)
  end.

Definition Write (data : list byte) (w : Writer) : Writer :=
  let w := WriteHeader 200 w in mkWriter (w_header w) (w_status w) (w_body w ++ data).

(** [json.NewEncoder(w).Encode] of a struct; nothing is written on an error. *)
Definition Encode (fields : option (list (string * list byte))) (w : Writer) : Writer :=
  match fields with Some l => Write (json_object l ++ [x0a]) w | None => w end.

Definition writeJSONResponse (statusCode : Z) (data : option (list (string * list byte))) (w : Writer) : Writer :=
  Encode data (WriteHeader statusCode (header_Set "Content-Type" "application/json" w)).

(** *** Error responses *)

Definition error_fields (errorCode message requestID : string) : list (string * list byte) :=
  str "status" "error" ++ str "error_code" errorCode ++ str "message" message ++ str_opt "request_id" requestID.

Definition WriteErrorResponse (statusCode : Z) (errorCode message requestID : string) (w : Writer) : Writer :=
  writeJSONResponse statusCode (Some (error_fields errorCode message requestID)) w.

Definition WriteValidationError (message requestID : string) (w : Writer) : Writer :=
  WriteErrorResponse 400 "INVALID_REQUEST" message requestID w.

Definition WriteInternalError (message requestID : string) (w : Writer) : Writer :=
  WriteErrorResponse 500 "INTERNAL_ERROR" message requestID w.

Definition WriteServiceUnavailable (message requestID : string) (w : Writer) : Writer :=
  WriteErrorResponse 503 "SERVICE_UNAVAILABLE" message requestID w.

Definition WriteRateLimitedError (requestID : string) (w : Writer) : Writer :=
  WriteErrorResponse 429 "RATE_LIMITED" "rate limit exceeded" requestID w.

Definition HandleError (r : http_request) (err : call_error) (w : Writer) : Writer :=
  WriteErrorResponse (GRPCToHTTPStatus (Some err)) (GRPCToErrorCode (Some err)) (error_message err)
    (header_Get RequestIDHeader r) w.

(** ** Handlers *)

(** The gateway: its readiness flag, the health flag of its client, and the
    coordinator as the client reaches it. *)
Record gateway (St : Type) := mkGateway { ready : bool; isHealthy : bool; coordinator : St }.
Arguments mkGateway {_} _ _ _.
Arguments ready {_} _.
Arguments isHealthy {_} _.
Arguments coordinator {_} _.

Definition with_coordinator {St} (c : St) (g : gateway St) : gateway St := mkGateway (ready g) (isHealthy g) c.

Definition http_handler (St : Type) : Type := http_request → Writer → gateway St → bool * Writer * gateway St.

(** The generated client: what the given try of a call does. *)
Record stub (St : Type) := mkStub {
  rpc_WriteKeyValue : nat → WriteKeyValueRequest → St → res call_error WriteKeyValueResponse * St;
  rpc_ReadKeyValue : nat → ReadKeyValueRequest → St → res call_error ReadKeyValueResponse * St;
  rpc_CreateTenant : nat → CreateTenantRequest → St → res call_error CreateTenantResponse * St;
  rpc_UpdateReplicationFactor :
    nat → UpdateReplicationFactorRequest → St → res call_error UpdateReplicationFactorResponse * St;
  rpc_GetTenant : nat → string → St → res call_error GetTenantResponse * St;
  rpc_AddStorageNode : nat → AddStorageNodeRequest → St → res call_error ChangeStorageNodeResponse * St;
  rpc_RemoveStorageNode : nat → RemoveStorageNodeRequest → St → res call_error ChangeStorageNodeResponse * St;
  rpc_GetMigrationStatus : nat → string → St → res call_error GetMigrationStatusResponse * St;
  rpc_ListStorageNodes : nat → unit → St → res call_error ListStorageNodesResponse * St;
}.
Arguments rpc_WriteKeyValue {_} _.
Arguments rpc_ReadKeyValue {_} _.
Arguments rpc_CreateTenant {_} _.
Arguments rpc_UpdateReplicationFactor {_} _.
Arguments rpc_GetTenant {_} _.
Arguments rpc_AddStorageNode {_} _.
Arguments rpc_RemoveStorageNode {_} _.
Arguments rpc_GetMigrationStatus {_} _.
Arguments rpc_ListStorageNodes {_} _.

Section handlers.
Context `{GoErrors} `{Float32Json} {St : Type} (cfg : ClientConfig) (wakes : nat → wake) (client : stub St).

(** The reply of a call with its retries, which is nil if nothing was tried; the
    waits, and the coordinator after it. *)
Definition outcome (Resp : Type) : Type := res call_error (option Resp) * list Z * St.

Definition Client_WriteKeyValue (req : WriteKeyValueRequest) (s : St) : outcome WriteKeyValueResponse :=
  withRetry cfg wakes (λ attempt, rpc_WriteKeyValue client attempt req) s.

Definition Client_ReadKeyValue (req : ReadKeyValueRequest) (s : St) : outcome ReadKeyValueResponse :=
  withRetry cfg wakes (λ attempt, rpc_ReadKeyValue client attempt req) s.

Definition Client_CreateTenant (req : CreateTenantRequest) (s : St) : outcome CreateTenantResponse :=
  withRetry cfg wakes (λ attempt, rpc_CreateTenant client attempt req) s.

Definition Client_UpdateReplicationFactor (req : UpdateReplicationFactorRequest) (s : St) : outcome UpdateReplicationFactorResponse :=
  withRetry cfg wakes (λ attempt, rpc_UpdateReplicationFactor client attempt req) s.

Definition Client_GetTenant (req : string) (s : St) : outcome GetTenantResponse :=
  withRetry cfg wakes (λ attempt, rpc_GetTenant client attempt req) s.

Definition Client_AddStorageNode (req : AddStorageNodeRequest) (s : St) : outcome ChangeStorageNodeResponse :=
  withRetry cfg wakes (λ attempt, rpc_AddStorageNode client attempt req) s.

Definition Client_RemoveStorageNode (req : RemoveStorageNodeRequest) (s : St) : outcome ChangeStorageNodeResponse :=
  withRetry cfg wakes (λ attempt, rpc_RemoveStorageNode client attempt req) s.

Definition Client_GetMigrationStatus (req : string) (s : St) : outcome GetMigrationStatusResponse :=
  withRetry cfg wakes (λ attempt, rpc_GetMigrationStatus client attempt req) s.

Definition Client_ListStorageNodes (req : unit) (s : St) : outcome ListStorageNodesResponse :=
  withRetry cfg wakes (λ attempt, rpc_ListStorageNodes client attempt req) s.

(** The shape the handlers share: conversion of the request, the call with its
    retries, the check of the reply, and the response.  A nil reply panics. *)
Definition serve {Req Resp : Type} (convert : http_request → res string Req)
    (invoke : Req → St → outcome Resp) (success : Resp → bool) (errorMessage : Resp → string)
    (failStatus : Z) (failCode : string) (okStatus : Z) (render : Resp → option (list (string * list byte)))
    : http_handler St := λ r w g,
  let requestID := header_Get RequestIDHeader r in
  match convert r with
  | Err e => (false, WriteValidationError e requestID w, g)
  | Ok grpcReq =>
      let '(result, _, c) := invoke grpcReq (coordinator g) in
      let g := with_coordinator c g in
      match result with
      | Err err => (false, HandleError r err w, g)
      | Ok None => (true, w, g)
      | Ok (Some grpcResp) =>
          if negb (success grpcResp)
          then (false, WriteErrorResponse failStatus failCode (errorMessage grpcResp) requestID w, g)
          else (false, writeJSONResponse okStatus (render grpcResp) w, g)
      end
  end.

Definition http_WriteKeyValue : http_handler St :=
  serve to_WriteKeyValueRequest Client_WriteKeyValue kwp_Success kwp_ErrorMessage
    400 "INVALID_REQUEST" 200 (Some ∘ of_WriteKeyValueResponse).

Definition http_ReadKeyValue : http_handler St :=
  serve to_ReadKeyValueRequest Client_ReadKeyValue krp_Success krp_ErrorMessage
    404 "KEY_NOT_FOUND" 200 (Some ∘ of_ReadKeyValueResponse).

Definition http_CreateTenant : http_handler St :=
  serve to_CreateTenantRequest Client_CreateTenant cp_Success cp_ErrorMessage
    409 "TENANT_EXISTS" 201 (Some ∘ of_CreateTenantResponse).

Definition http_UpdateReplicationFactor : http_handler St :=
  serve to_UpdateReplicationFactorRequest Client_UpdateReplicationFactor up_Success up_ErrorMessage
    400 "INVALID_REPLICATION_FACTOR" 200 (Some ∘ of_UpdateReplicationFactorResponse).

Definition http_GetTenant : http_handler St :=
  serve to_GetTenantRequest Client_GetTenant gp_Success gp_ErrorMessage
    404 "TENANT_NOT_FOUND" 200 (Some ∘ of_GetTenantResponse).

Definition http_AddStorageNode : http_handler St :=
  serve to_AddStorageNodeRequest Client_AddStorageNode np_Success np_ErrorMessage
    400 "INVALID_REQUEST" 202 (Some ∘ of_ChangeStorageNodeResponse).

Definition http_RemoveStorageNode : http_handler St :=
  serve to_RemoveStorageNodeRequest Client_RemoveStorageNode np_Success np_ErrorMessage
    400 "NODE_IN_USE" 202 (Some ∘ of_ChangeStorageNodeResponse).

Definition http_GetMigrationStatus : http_handler St :=
  serve to_GetMigrationStatusRequest Client_GetMigrationStatus mp_Success mp_ErrorMessage
    404 "MIGRATION_NOT_FOUND" 200 of_GetMigrationStatusResponse.

Definition http_ListStorageNodes : http_handler St :=
  serve to_ListStorageNodesRequest Client_ListStorageNodes lp_Success lp_ErrorMessage
    500 "INTERNAL_ERROR" 200 of_ListStorageNodesResponse.

(** *** Health *)

(** [Client.HealthCheck]: one call, whose outcome is kept. *)
Definition HealthCheck (g : gateway St) : res call_error unit * gateway St :=
  match rpc_ListStorageNodes client 0%nat tt (coordinator g) with
  | (Err e, c) => (Err e, mkGateway (ready g) false c)
  | (Ok _, c) => (Ok tt, mkGateway (ready g) true c)
  end.

Definition set_ready (b : bool) (g : gateway St) : gateway St := mkGateway b (isHealthy g) (coordinator g).

Definition NewHealthCheck (g : gateway St) : gateway St :=
  match HealthCheck g with (Err _, g) => set_ready false g | (Ok _, g) => set_ready true g end.

(** One tick of [backgroundCheck]. *)
Definition background_tick (g : gateway St) : gateway St :=
  match HealthCheck g with (Err _, g) => set_ready false g | (Ok _, g) => set_ready true g end.

Definition LivenessHandler : http_handler St := λ _ w g,
  (false, writeJSONResponse 200 (Some (str "status" "healthy")) w, g).

Definition readiness_fields (status check error : string) : list (string * list byte) :=
  str "status" status ++ [("checks", json_object (str "coordinator" check))] ++ str_opt "error" error.

(** [err.Error()] of a status error is [rpc error: code = C desc = M]; the text is
    an argument. *)
Definition ReadinessHandler (text : call_error → string) : http_handler St := λ _ w g,
  if ready g then (false, writeJSONResponse 200 (Some (readiness_fields "ready" "healthy" EmptyString)) w, g)
  else match HealthCheck g with
  | (Err err, g) => (false, writeJSONResponse 503 (Some (readiness_fields "not_ready" "unhealthy" (text err))) w, g)
  | (Ok _, g) => (false, writeJSONResponse 200 (Some (readiness_fields "ready" "healthy" EmptyString)) w, set_ready true g)
  end.
End handlers.

(** ** Middleware *)

Definition middleware (St : Type) : Type := http_handler St → http_handler St.

Definition set_request_header (k v : string) (r : http_request) : http_request :=
  mkHttpRequest (hq_Method r) (hq_Path r) (hq_RawQuery r) (<[k := v]> (hq_Header r)) (hq_Vars r) (hq_Body r).

Section middleware.
Context {St : Type}.

(** [uuid] is what [uuid.New] returns for this request. *)
Definition RequestID (uuid : string) : middleware St := λ next r w g,
  let requestID := header_Get RequestIDHeader r in
  let requestID := if decide (requestID = EmptyString) then uuid else requestID in
  next (set_request_header RequestIDHeader requestID r) (header_Set RequestIDHeader requestID w) g.

(** The wrapper it puts around the writer only notes the status for the log. *)
Definition Logging : middleware St := λ next r w g, next r w g.

Definition recovered_body : list byte :=
  json_object (str "status" "error" ++ str "error_code" "INTERNAL_ERROR" ++ str "message" "internal server error").

Definition Recovery : middleware St := λ next r w g,
  match next r w g with
  | (true, w, g) => (false, Write recovered_body (WriteHeader 500 (header_Set "Content-Type" "application/json" w)), g)
  | (false, w, g) => (false, w, g)
  end.

Definition AllowOrigin : string := "Access-Control-Allow-Origin".

Definition CORS (allowedOrigins : list string) : middleware St := λ next r w g,
  let origin := header_Get "Origin" r in
  let allowed := existsb (λ o, bool_decide (o = "*" ∨ o = origin)) allowedOrigins in
  let w :=
    if allowed && negb (bool_decide (origin = EmptyString)) then
      header_Set "Access-Control-Max-Age" "86400"
        (header_Set "Access-Control-Allow-Headers" "Content-Type, Authorization, X-Request-ID, Idempotency-Key"
          (header_Set "Access-Control-Allow-Methods" "GET, POST, PUT, DELETE, OPTIONS" (header_Set AllowOrigin origin w)))
    else w in
  if decide (hq_Method r = "OPTIONS") then (false, WriteHeader 204 w, g) else next r w g.

Definition limited_body : list byte :=
  json_object (str "status" "error" ++ str "error_code" "RATE_LIMITED" ++ str "message" "rate limit exceeded").

(** [allow] is what [limiter.Allow] returns for this request. *)
Definition Limit (allow : bool) : middleware St := λ next r w g,
  if negb allow then
    (false, Write limited_body (WriteHeader 429 (header_Set "Retry-After" "1"
              (header_Set "Content-Type" "application/json" w))), g)
  else next r w g.

Definition ContentType : middleware St := λ next r w g, next r (header_Set "Content-Type" "application/json" w) g.

(** The first middleware is the outermost. *)
Definition Chain (middlewares : list (middleware St)) : middleware St := λ final, foldr (λ m f, m f) final middlewares.
End middleware.

(** ** Routes *)

(** [mux.Router]: the index of the route a request matches with its path
    variables, no route, or a route of another method.  A route with [Methods]
    matches only requests of that method. *)
Inductive mux_result := Matched (i : nat) (vars : gmap string string) | NoRoute | MethodMismatch.

Class Mux := {
  mux_match : list (string * string) → string → string → mux_result;
  mux_methods routes method path i vars :
    mux_match routes method path = Matched i vars → ∃ template, routes !! i = Some (method, template);
}.

Definition with_vars (vars : gmap string string) (r : http_request) : http_request :=
  mkHttpRequest (hq_Method r) (hq_Path r) (hq_RawQuery r) (hq_Header r) vars (hq_Body r).

(** The choices of the environment for one request. *)
Record visit := mkVisit { v_uuid : string; v_allow : bool; v_wakes : nat → wake; v_error_text : call_error → string }.

Section server.
Context `{GoErrors} `{Float32Json} `{Mux} {St : Type}.
Context (cfg : ClientConfig) (limiting : bool) (client : stub St).

Definition routes (v : visit) : list (string * string * http_handler St) :=
  [("GET", "/health", LivenessHandler);
   ("GET", "/ready", ReadinessHandler client (v_error_text v));
   ("POST", "/v1/key-value", http_WriteKeyValue cfg (v_wakes v) client);
   ("GET", "/v1/key-value", http_ReadKeyValue cfg (v_wakes v) client);
   ("POST", "/v1/tenants", http_CreateTenant cfg (v_wakes v) client);
   ("GET", "/v1/tenants/{tenant_id}", http_GetTenant cfg (v_wakes v) client);
   ("PUT", "/v1/tenants/{tenant_id}/replication-factor", http_UpdateReplicationFactor cfg (v_wakes v) client);
   ("POST", "/v1/admin/storage-nodes", http_AddStorageNode cfg (v_wakes v) client);
   ("GET", "/v1/admin/storage-nodes", http_ListStorageNodes cfg (v_wakes v) client);
   ("DELETE", "/v1/admin/storage-nodes/{node_id}", http_RemoveStorageNode cfg (v_wakes v) client);
   ("GET", "/v1/admin/migrations/{migration_id}", http_GetMigrationStatus cfg (v_wakes v) client)].

Definition middlewareChain (v : visit) : list (middleware St) :=
  [Recovery; RequestID (v_uuid v); Logging; CORS ["*"]] ++ (if limiting then [Limit (v_allow v)] else []).

Definition NotFoundHandler : http_handler St := λ r w g,
  (false, WriteErrorResponse 404 "INVALID_REQUEST" "endpoint not found" (header_Get RequestIDHeader r) w, g).

Definition MethodNotAllowedHandler : http_handler St := λ r w g,
  (false, WriteErrorResponse 405 "INVALID_REQUEST" "method not allowed" (header_Get RequestIDHeader r) w, g).

(** The server with its routes set up.  [Router.Use] wraps the handlers of the
    routes and not the two fallback handlers. *)
Definition ServeHTTP (v : visit) (r : http_request) (g : gateway St) : bool * Writer * gateway St :=
  match mux_match (fst <$> routes v) (hq_Method r) (hq_Path r) with
  | Matched i vars =>
      match routes v !! i with
      | Some (_, handler) => Chain (middlewareChain v) handler (with_vars vars r) NewWriter g
      | None => NotFoundHandler r NewWriter g
      end
  | NoRoute => NotFoundHandler r NewWriter g
  | MethodMismatch => MethodNotAllowedHandler r NewWriter g
  end.
End server.

(** The status of a response. *)
Definition status_of (w : Writer) : option Z := fst <$> w_status w.

(** ** Lemmas *)

(** *** Answers *)

(** A handler that is given an unused writer answers once, under the headers it
    was given and the content type, unless it panics before it answers. *)
Definition answers {St} (h : http_handler St) : Prop := ∀ r w g,
  w_status w = None →
  let '(panicked, w', _) := h r w g in
  if panicked then w' = w
  else ∃ code, w_status w' = Some (code, <["Content-Type" := "application/json"]> (w_header w)).

Lemma writeJSONResponse_status code data w :
  w_status w = None →
  w_status (writeJSONResponse code data w) = Some (code, <["Content-Type" := "application/json"]> (w_header w)).
Proof.
  intros Hw. unfold writeJSONResponse, Encode, Write, WriteHeader, header_Set. cbn [w_status w_header w_body].
  rewrite Hw. by destruct data.
Qed.

Lemma status_of_response code data w : w_status w = None → status_of (writeJSONResponse code data w) = Some code.
Proof. intros Hw. unfold status_of. by rewrite writeJSONResponse_status. Qed.

Lemma serve_answers {St Req Resp} convert (invoke : Req → St → outcome Resp) success message fs fc os render :
  answers (serve convert invoke success message fs fc os render).
Proof.
  intros r w g Hw. unfold serve, WriteValidationError, HandleError, WriteErrorResponse.
  destruct (convert r) as [req|m]; [|eexists; by apply writeJSONResponse_status].
  destruct (invoke _ _) as [[[[resp|]|err] waits] c]; [|done|eexists; by apply writeJSONResponse_status].
  destruct (negb _); eexists; by apply writeJSONResponse_status.
Qed.

Lemma health_answers `{Float32Json} {St} (client : stub St) text :
  answers (St := St) LivenessHandler ∧ answers (ReadinessHandler client text).
Proof.
  split; intros r w g Hw; unfold LivenessHandler, ReadinessHandler; [eexists; by apply writeJSONResponse_status|].
  destruct (ready g); [eexists; by apply writeJSONResponse_status|].
  destruct (HealthCheck client g) as [[]]; eexists; by apply writeJSONResponse_status.
Qed.

Lemma routes_answer `{GoErrors} `{Float32Json} {St} cfg (client : stub St) v i m h :
  routes cfg client v !! i = Some (m, h) → answers h.
Proof.
  unfold routes. destruct (health_answers client (v_error_text v)).
  do 11 (destruct i as [|i]; [intros [= _ <-]; (done || apply serve_answers)|]). done.
Qed.

(** *** Middleware *)

(** The response headers the chain has set when it calls the handler. *)
Lemma cors_next {St} origins (next : http_handler St) r w g :
  hq_Method r ≠ "OPTIONS" →
  ∃ w', CORS origins next r w g = next r w' g ∧ w_status w' = w_status w ∧
    w_header w' !! RequestIDHeader = w_header w !! RequestIDHeader.
Proof.
  intros Hm. unfold CORS. rewrite decide_False by done. destruct (_ && _); eexists; (split; [done|]); [|done].
  unfold header_Set. cbn [w_status w_header]. split; [done|]. by rewrite !lookup_insert_ne by done.
Qed.

Definition request_id (v : visit) (r : http_request) : string :=
  if decide (header_Get RequestIDHeader r = EmptyString) then v_uuid v else header_Get RequestIDHeader r.

Definition identified (v : visit) (r : http_request) (w : Writer) : Prop :=
  ∃ code h, w_status w = Some (code, h) ∧ h !! RequestIDHeader = Some (request_id v r).

(** The chain around a handler that answers. *)
Lemma chain_answers {St} limiting v (h : http_handler St) r g :
  answers h → hq_Method r ≠ "OPTIONS" →
  let '(panicked, w, g') := Chain (middlewareChain limiting v) h r NewWriter g in
  panicked = false ∧ identified v r w ∧
  (limiting = true → v_allow v = false → status_of w = Some 429 ∧ g' = g).
Proof.
  intros Hh Hm. set (r1 := set_request_header RequestIDHeader (request_id v r) r).
  set (w1 := header_Set RequestIDHeader (request_id v r) NewWriter).
  set (inner := foldr (λ m f, m f) h (if limiting then [Limit (v_allow v)] else [])).
  change (Chain (middlewareChain limiting v) h r NewWriter g) with (Recovery (λ _ _ _, CORS ["*"] inner r1 w1 g) r NewWriter g).
  unfold Recovery. destruct (cors_next ["*"] inner r1 w1 g Hm) as (w2 & -> & Hs & Hid).
  assert (w_header w2 !! RequestIDHeader = Some (request_id v r)) as Hid2 by (rewrite Hid; apply lookup_insert_eq).
  assert (∀ k c, k ≠ RequestIDHeader → <[k := c]> (w_header w2) !! RequestIDHeader = Some (request_id v r)) as Hid3
    by (intros; by rewrite lookup_insert_ne).
  destruct (limiting && negb (v_allow v)) eqn:Hl.
  - apply andb_true_iff in Hl as [-> Hv]. subst inner. cbn [foldr]. unfold Limit. rewrite Hv.
    unfold Write, WriteHeader, header_Set, status_of, identified. cbn [w_status w_header]. rewrite Hs. cbn.
    split; [done|]. split; [|done]. do 2 eexists. split; [done|]. rewrite lookup_insert_ne by done. by apply Hid3.
  - assert (inner r1 w2 g = h r1 w2 g) as ->.
    { subst inner. destruct limiting; [|done]. cbn [foldr]. unfold Limit. cbn [andb] in Hl. by rewrite Hl. }
    pose proof (Hh r1 w2 g Hs) as Ha. destruct (h r1 w2 g) as [[[] w3] g3].
    + subst w3. split; [done|]. split; [|by intros -> Hv; rewrite Hv in Hl]. unfold identified, Write, WriteHeader, header_Set.
      cbn [w_status w_header]. rewrite Hs. cbn. do 2 eexists. split; [done|]. by apply Hid3.
    + destruct Ha as [code Ha]. split; [done|]. split; [|by intros -> Hv; rewrite Hv in Hl].
      exists code, (<["Content-Type" := "application/json"]> (w_header w2)). split; [done|]. by apply Hid3.
Qed.

(** *** Calls *)

(** How the result of a call comes about. *)
Lemma withRetry_result {St R} cfg wakes deliver (handler : nat → St → res Status R * St) s r waits s' :
  0 ≤ MaxRetries cfg →
  withRetry cfg wakes (λ i, call (deliver i) (handler i)) s = (r, waits, s') →
  match r with
  | Ok None => False
  | Ok (Some x) => ∃ i s1, (i ≤ Z.to_nat (MaxRetries cfg))%nat ∧ deliver i = Replied ∧ (handler i s1).1 = Ok x
  | Err e => (∃ m, e = PlainError m) ∨ (∃ i, deliver i = Lost e ∨ deliver i = ReplyLost e) ∨
             ∃ i s1 st, e = StatusError st ∧ (handler i s1).1 = Err st
  end.
Proof.
  intros Hm Hr. destruct (withRetry_spec _ _ _ _ _ _ _ Hm Hr) as (j & s1 & Hj & _ & _ & Hc & _).
  unfold concludes, call in Hc.
  destruct (deliver j) as [e| |e] eqn:Hd; cbn [fst] in Hc; [|destruct (handler j s1) as [[x|st] s2] eqn:Hh; cbn [fst] in Hc|].
  - destruct Hc as [[_ ->]|(_ & _ & m & _ & ->)]; [right; left; exists j; by left|left; by eexists].
  - subst r. exists j, s1. by rewrite Hh.
  - destruct Hc as [[_ ->]|(_ & _ & m & _ & ->)]; [right; right; exists j, s1, st; by rewrite Hh|left; by eexists].
  - destruct Hc as [[_ ->]|(_ & _ & m & _ & ->)]; [right; left; exists j; by right|left; by eexists].
Qed.

(** The statuses a response can have, by what the last try came to. *)
Lemma serve_status {St Req Resp} cfg wakes convert deliver (handler : nat → Req → St → res Status Resp * St)
    success message fs fc os render r w g :
  0 ≤ MaxRetries cfg → w_status w = None →
  let invoke req s := withRetry cfg wakes (λ i, call (deliver i) (handler i req)) s in
  let '(panicked, w', g') := serve convert invoke success message fs fc os render r w g in
  panicked = false ∧
  ((∃ m, convert r = Err m ∧ status_of w' = Some 400 ∧ g' = g) ∨
   ∃ req, convert r = Ok req ∧
     ((∃ i s resp, deliver i = Replied ∧ (handler i req s).1 = Ok resp ∧
         status_of w' = Some (if success resp then os else fs)) ∨
      (∃ m, status_of w' = Some (GRPCToHTTPStatus (Some (PlainError m)))) ∨
      (∃ i e, (deliver i = Lost e ∨ deliver i = ReplyLost e) ∧ status_of w' = Some (GRPCToHTTPStatus (Some e))) ∨
      (∃ i s st, (handler i req s).1 = Err st ∧ status_of w' = Some (GRPCToHTTPStatus (Some (StatusError st)))))).
Proof.
  intros Hm Hw invoke. unfold serve, WriteValidationError, HandleError, WriteErrorResponse.
  destruct (convert r) as [req|m]; [|split; [done|left; exists m; by rewrite status_of_response]].
  destruct (invoke req (coordinator g)) as [[result waits] c] eqn:Hr.
  apply withRetry_result in Hr; [|done]. destruct result as [[resp|]|err]; [|done|].
  - destruct Hr as (i & s1 & _ & Hd & Hh).
    destruct (success resp) eqn:Hsucc; cbn [negb]; (split; [done|]); right; exists req; (split; [done|]); left;
      exists i, s1, resp; rewrite status_of_response, Hsucc by done; done.
  - split; [done|]. right. exists req. split; [done|]. right.
    rewrite status_of_response by done. destruct Hr as [[m ->]|[(i & Hd)|(i & s1 & st & -> & Hh)]].
    + left. by exists m.
    + right. left. by exists i, err.
    + right. right. by exists i, s1, st.
Qed.

(** The coordinator behind the gateway: its service and what it has handed to
    the idempotency store. *)
Definition coordinator_write `{MapRange} `{StoreErrors} (q : request_env) (req : WriteKeyValueRequest)
    (s : CoordinatorService * list (string * any)) : res Status WriteKeyValueResponse * (CoordinatorService * list (string * any)) :=
  let '(r, rec, c) := handler_WriteKeyValue q req s.1 in (r, (c, s.2 ++ option_list rec)).

Definition coordinator_read `{MapRange} `{StoreErrors} (q : request_env) (req : ReadKeyValueRequest)
    (s : CoordinatorService * list (string * any)) : res Status ReadKeyValueResponse * (CoordinatorService * list (string * any)) :=
  let '(r, _, c) := handler_ReadKeyValue q req s.1 in (r, (c, s.2)).

Lemma coordinator_write_reply `{MapRange} `{StoreErrors} q req s :
  (coordinator_write q req s).1 = (handler_WriteKeyValue q req s.1).1.1.
Proof. unfold coordinator_write. by destruct (handler_WriteKeyValue q req s.1) as [[]]. Qed.

Lemma coordinator_read_reply `{MapRange} `{StoreErrors} q req s :
  (coordinator_read q req s).1 = (handler_ReadKeyValue q req s.1).1.1.
Proof. unfold coordinator_read. by destruct (handler_ReadKeyValue q req s.1) as [[]]. Qed.

(** The statuses of the errors the coordinator replies with. *)
Lemma failure_status st :
  st_Code st = code_InvalidArgument ∨ failure_code (st_Code st) →
  GRPCToHTTPStatus (Some (StatusError st)) ∈ [400; 500; 504].
Proof.
  unfold failure_code. intros Hc. destruct st as [c m]. cbn in *. destruct_or! Hc; subst c; vm_compute; set_solver.
Qed.

(** ** Properties *)

(** C6: an HTTP write that is answered 200 is replicated.  The gateway answers
    every [POST /v1/key-value] without a panic.  It answers 200 only if some try
    of its call reached the coordinator, in some state, whose reply came back, and
    that reply either repeats a recorded one or stands for a write of the value in
    the body, with some clock, that as many replicas acknowledged as the level
    asks.  The transport gives no error that stands for 200. *)
Theorem http_write_acknowledged `{MapRange} `{StoreErrors} `{GoErrors} cfg wakes client deliver q r w g :
  0 ≤ MaxRetries cfg → w_status w = None →
  rpc_WriteKeyValue client = (λ i req, call (deliver i) (coordinator_write (q i) req)) →
  (∀ i e, deliver i = Lost e ∨ deliver i = ReplyLost e → GRPCToHTTPStatus (Some e) ≠ 200) →
  let '(panicked, w', g') := http_WriteKeyValue cfg wakes client r w g in
  panicked = false ∧
  (status_of w' = Some 200 → ∃ req i s resp,
     to_WriteKeyValueRequest r = Ok req ∧ deliver i = Replied ∧ (handler_WriteKeyValue (q i) req s).1.1 = Ok resp ∧
     kwp_Success resp = true ∧
     (kwp_IsDuplicate resp = false →
        replicated (q i) (kwq_TenantId req) (kwq_Key req) (kwq_Value req) s (kwp_ReplicaCount resp) (kwp_Consistency resp))).
Proof.
  intros Hm Hw Hrpc Htr. unfold http_WriteKeyValue, Client_WriteKeyValue. rewrite Hrpc.
  pose proof (serve_status cfg wakes to_WriteKeyValueRequest deliver (λ i, coordinator_write (q i)) kwp_Success
    kwp_ErrorMessage 400 "INVALID_REQUEST" 200 (Some ∘ of_WriteKeyValueResponse) r w g Hm Hw) as Hs. cbn zeta in Hs.
  destruct (serve _ _ _ _ _ _ _ _ _ _ _) as [[p w'] g']. destruct Hs as [-> Hs]. split; [done|]. intros H200.
  destruct Hs as [(m & _ & H400 & _)|(req & Hreq & [(i & s & resp & Hd & Hh & Hst)|[(m & Hst)|[(i & e & Hd & Hst)|(i & s & st & Hh & Hst)]]])].
  - congruence.
  - rewrite coordinator_write_reply in Hh. exists req, i, s.1, resp. pose proof (write_replies (q i) req s.1) as Hr.
    destruct (handler_WriteKeyValue (q i) req s.1) as [[r1 rec] s1]. cbn [fst] in Hh |- *. subst r1.
    destruct Hr as (_ & _ & _ & Hr). split_and!; [done..| |by intros Hdup; apply Hr].
    destruct (kwp_Success resp); [done|congruence].
  - rewrite Hst in H200. done.
  - rewrite Hst in H200. apply (inj Some) in H200. by destruct (Htr i e Hd).
  - exfalso. rewrite coordinator_write_reply in Hh. pose proof (write_replies (q i) req s.1) as Hr.
    destruct (handler_WriteKeyValue (q i) req s.1) as [[r1 rec] s1]. cbn [fst] in Hh. subst r1.
    assert (st_Code st = code_InvalidArgument ∨ failure_code (st_Code st)) as Hc%failure_status
      by (destruct Hr as (_ & [(m & _ & -> & _)|[_ Hf]]); auto).
    rewrite Hst in H200. apply (inj Some) in H200. rewrite H200 in Hc. set_solver.
Qed.

(** C37: a missing key is never answered 404.  If no replica has a value for the
    key, a [GET /v1/key-value] that reaches the coordinator is answered neither
    200 nor 404 with [KEY_NOT_FOUND], although the interface promises the latter.
    No read of any key is answered 404 unless the transport says so. *)
Theorem http_read_missing_key `{MapRange} `{StoreErrors} `{GoErrors} cfg wakes client deliver q r w g :
  0 ≤ MaxRetries cfg → w_status w = None →
  rpc_ReadKeyValue client = (λ i req, call (deliver i) (coordinator_read (q i) req)) →
  (∀ i e, deliver i = Lost e ∨ deliver i = ReplyLost e → GRPCToHTTPStatus (Some e) ∉ [200; 404]) →
  let '(panicked, w', g') := http_ReadKeyValue cfg wakes client r w g in
  panicked = false ∧ status_of w' ≠ Some 404 ∧
  (∀ req, to_ReadKeyValueRequest r = Ok req → (∀ i, absent (q_read (q i)) (krq_TenantId req) (krq_Key req)) →
     status_of w' ≠ Some 200).
Proof.
  intros Hm Hw Hrpc Htr. unfold http_ReadKeyValue, Client_ReadKeyValue. rewrite Hrpc.
  pose proof (serve_status cfg wakes to_ReadKeyValueRequest deliver (λ i, coordinator_read (q i)) krp_Success
    krp_ErrorMessage 404 "KEY_NOT_FOUND" 200 (Some ∘ of_ReadKeyValueResponse) r w g Hm Hw) as Hs. cbn zeta in Hs.
  destruct (serve _ _ _ _ _ _ _ _ _ _ _) as [[p w'] g']. destruct Hs as [-> Hs]. split; [done|].
  destruct Hs as [(m & Hreq & H400 & _)|(req & Hreq & [(i & s & resp & Hd & Hh & Hst)|[(m & Hst)|[(i & e & Hd & Hst)|(i & s & st & Hh & Hst)]]])].
  - rewrite H400, Hreq. by split.
  - rewrite coordinator_read_reply in Hh. destruct (read_replies (q i) req s.1) as (Hok & _ & Habs).
    destruct (Hok resp Hh) as [Hsucc _]. rewrite Hst, Hsucc. split; [done|]. intros req' Hreq' Hall.
    rewrite Hreq in Hreq'. injection Hreq' as <-. specialize (Habs (Hall i)). by rewrite Hh in Habs.
  - rewrite Hst. by split.
  - rewrite Hst. specialize (Htr i e Hd). split; [|intros _ _ _]; intros Heq%(inj Some); rewrite Heq in Htr; set_solver.
  - rewrite coordinator_read_reply in Hh. destruct (read_replies (q i) req s.1) as (_ & Herr & _).
    pose proof (failure_status st (Herr st Hh)) as Hc. rewrite Hst.
    split; [|intros _ _ _]; intros Heq%(inj Some); rewrite Heq in Hc; set_solver.
Qed.

(** A request that runs out of time is answered 500.  When the gateway's
    deadline passes during a call, the call fails with [DeadlineExceeded], which
    is retried; the wait before the retry ends at once with the context's error,
    which is no gRPC status; so, with any retry configured, every handler answers
    500 with [INTERNAL_ERROR] instead of the 504 with [TIMEOUT] that the mapping of
    [DeadlineExceeded] gives. *)
Theorem deadline_answered_500 {St Req Resp} cfg wakes (convert : http_request → res string Req)
    (rpc : nat → Req → St → res call_error Resp * St) success message fs fc os render r w g req text c m :
  1 ≤ MaxRetries cfg → w_status w = None → convert r = Ok req →
  rpc 0%nat req (coordinator g) = (Err (StatusError (mkStatus code_DeadlineExceeded text)), c) →
  wakes 1%nat = ContextDone m →
  let w' := writeJSONResponse 500 (Some (error_fields "INTERNAL_ERROR" m (header_Get RequestIDHeader r))) w in
  let invoke req s := withRetry cfg wakes (λ i, rpc i req) s in
  serve convert invoke success message fs fc os render r w g = (false, w', with_coordinator c g) ∧
  status_of w' = Some 500 ∧
  GRPCToHTTPStatus (Some (StatusError (mkStatus code_DeadlineExceeded text))) = 504.
Proof.
  intros Hm Hw Hconv Hrpc Hwake. split_and!; [|by apply status_of_response|done].
  unfold serve. rewrite Hconv. cbn zeta. unfold withRetry.
  replace (Z.to_nat (MaxRetries cfg + 1)) with (S (S (Z.to_nat (MaxRetries cfg - 1)))) by lia.
  cbn [retry_from Nat.ltb Nat.leb Nat.add]. rewrite Hrpc. cbn [negb isRetryable FromError st_Code]. by rewrite Hwake.
Qed.

(** Every request is answered, under its id.  Whatever the router decides and
    whatever the handler does, a panic included, the server answers; the answer
    of a route carries the request's id or a fresh one; and a request over the
    rate limit is answered 429 without reaching the coordinator. *)
Theorem gateway_always_answers `{GoErrors} `{Float32Json} `{Mux} {St} cfg limiting (client : stub St) v r g :
  let '(panicked, w, g') := ServeHTTP cfg limiting client v r g in
  panicked = false ∧ is_Some (w_status w) ∧
  (∀ i vars, mux_match (fst <$> routes cfg client v) (hq_Method r) (hq_Path r) = Matched i vars →
     identified v r w ∧ (limiting = true → v_allow v = false → status_of w = Some 429 ∧ g' = g)).
Proof.
  assert (∀ code ec m, is_Some (w_status (WriteErrorResponse code ec m (header_Get RequestIDHeader r) NewWriter))) as Hfb
    by (intros; by eexists).
  unfold ServeHTTP, NotFoundHandler, MethodNotAllowedHandler.
  destruct (mux_match _ _ _) as [i vars| |] eqn:Hmx; [|by split_and!; [| |]..].
  apply mux_methods in Hmx as [template Hi]. rewrite list_lookup_fmap in Hi.
  destruct (routes cfg client v !! i) as [[mt h]|] eqn:Hr; [|done]. injection Hi as ->.
  assert (hq_Method r ≠ "OPTIONS") as Hne.
  { intros Heq. rewrite Heq in Hr. do 11 (destruct i as [|i]; [done|]). done. }
  pose proof (chain_answers limiting v h (with_vars vars r) g (routes_answer cfg client v i _ h Hr) Hne) as Hc.
  destruct (Chain _ _ _ _ _) as [[p w] g']. destruct Hc as (-> & Hid & Hlim). split; [done|].
  split; [|done]. destruct Hid as (code & hd & -> & _). by eexists.
Qed.

(** A CORS preflight is refused.  No route accepts [OPTIONS], and the router
    runs the middleware only around a route, so the gateway answers every
    preflight 404 or 405 and without the CORS headers; the branch of the
    middleware that answers them is never reached. *)
Theorem preflight_refused `{GoErrors} `{Float32Json} `{Mux} {St} cfg limiting (client : stub St) v r g :
  hq_Method r = "OPTIONS" →
  let '(panicked, w, g') := ServeHTTP cfg limiting client v r g in
  panicked = false ∧ g' = g ∧
  ∃ code h, w_status w = Some (code, h) ∧ (code = 404 ∨ code = 405) ∧ h !! AllowOrigin = None.
Proof.
  intros Hm. unfold ServeHTTP, NotFoundHandler, MethodNotAllowedHandler.
  destruct (mux_match _ _ _) as [i vars| |] eqn:Hmx; [exfalso|..].
  - apply mux_methods in Hmx as [template Hi]. rewrite list_lookup_fmap, Hm in Hi.
    do 11 (destruct i as [|i]; [done|]). done.
  - split_and!; [done|done|]. do 2 eexists. split; [by apply writeJSONResponse_status|]. split; [by left|done].
  - split_and!; [done|done|]. do 2 eexists. split; [by apply writeJSONResponse_status|]. split; [by right|done].
Qed.

(** ** Witnesses *)

#[local] Instance x_store_errors : StoreErrors := {| is_deadline m := bool_decide (m = "timeout"); is_canceled _ := false |}.
#[local] Instance x_float32 : Float32Json := {| float32_json _ := Some (bytes "0") |}.

(** A router that compares paths with templates. *)
Definition x_match (rs : list (string * string)) (method path : string) : mux_result :=
  match list_find (λ r, r = (method, path)) rs with
  | Some (i, _) => Matched i ∅
  | None => if existsb (λ r, bool_decide (r.2 = path)) rs then MethodMismatch else NoRoute
  end.

#[local] Instance x_mux : Mux.
Proof.
  refine {| mux_match := x_match |}. intros rs method path i vars. unfold x_match.
  destruct (list_find _ rs) as [[j r]|] eqn:Hf; [|by destruct (existsb _ _)]. intros [= <- _].
  apply list_find_Some in Hf as (Hj & -> & _). by eexists.
Defined.

(** Three nodes that hold nothing yet and accept every write. *)
Definition x_empty : read_net := λ node, mkLink true (λ _, Ok (mkPbReadResponse false [] None "key not found" pb_UNKNOWN)).
Definition x_accept : write_net := λ node,
  mkLink true (λ req, Ok (mkPbWriteResponse true (wq_VectorClock req) EmptyString pb_UNKNOWN)).

Definition x_gateway_env (i : nat) : request_env :=
  {| q_now := 1; q_clock := λ _, 1; q_later := 1; q_tenant := Ok x_tenant; q_nodes := Ok demo_nodes;
     q_stored := Err ErrNotFound; q_nano := 5; q_uuid := "u"; q_read := x_empty; q_write := x_accept; q_late := λ _, false;
     q_hint_time := λ _, 1; q_order := λ l, l; q_order_perm := λ l, Permutation_refl l |}.

Definition x_state : gateway (CoordinatorService * list (string * any)) := mkGateway true true (x_coordinator, []).

(** The first reply is lost; the writes and reads of the later tries come back. *)
Definition x_stub : stub (CoordinatorService * list (string * any)) :=
  mkStub _ (λ i req, call (x_deliver i) (coordinator_write (x_gateway_env i) req))
    (λ i req, call (x_deliver i) (coordinator_read (x_gateway_env i) req))
    (λ _ _ s, (Err x_unavailable, s)) (λ _ _ s, (Err x_unavailable, s)) (λ _ _ s, (Err x_unavailable, s))
    (λ _ _ s, (Err x_unavailable, s)) (λ _ _ s, (Err x_unavailable, s)) (λ _ _ s, (Err x_unavailable, s))
    (λ _ _ s, (Err x_unavailable, s)).

Lemma x_transport i e : x_deliver i = Lost e ∨ x_deliver i = ReplyLost e → e = x_unavailable.
Proof. unfold x_deliver. case_decide; intros [Hd|Hd]; try done. by injection Hd as <-. Qed.

Lemma http_write_acknowledged_witness :
  let '(panicked, w, g) := http_WriteKeyValue x_config (λ _, TimerFired) x_stub x_write_request NewWriter x_state in
  status_of w = Some 200 ∧ length (coordinator g).2 = 2%nat ∧
  ∃ req i s resp, to_WriteKeyValueRequest x_write_request = Ok req ∧
    (handler_WriteKeyValue (x_gateway_env i) req s).1.1 = Ok resp ∧ kwp_Success resp = true.
Proof.
  pose proof (http_write_acknowledged x_config (λ _, TimerFired) x_stub x_deliver x_gateway_env x_write_request NewWriter x_state)
    as Hw.
  assert (let '(_, w, g) := http_WriteKeyValue x_config (λ _, TimerFired) x_stub x_write_request NewWriter x_state in
          status_of w = Some 200 ∧ length (coordinator g).2 = 2%nat) as Hc by (vm_compute; by split).
  destruct (http_WriteKeyValue _ _ _ _ _ _) as [[p w] g]. destruct Hc as [H200 Hlog]. split_and!; [done|done|].
  destruct Hw as [_ Hw]; [by vm_compute|done|done|intros i e ->%x_transport; by vm_compute|].
  destruct (Hw H200) as (req & i & s & resp & H1 & _ & H2 & H3 & _). eauto 10.
Defined.

Definition x_read_request : http_request :=
  mkHttpRequest "GET" "/v1/key-value" (bytes "key=user%3A1&tenant_id=acme") ∅ ∅ (Ok []).

Lemma http_read_missing_key_witness :
  let '(panicked, w, g) := http_ReadKeyValue x_config (λ _, TimerFired) x_stub x_read_request NewWriter x_state in
  status_of w = Some 500 ∧ status_of w ≠ Some 404 ∧ status_of w ≠ Some 200.
Proof.
  pose proof (http_read_missing_key x_config (λ _, TimerFired) x_stub x_deliver x_gateway_env x_read_request NewWriter x_state)
    as Hw.
  assert (let '(_, w, _) := http_ReadKeyValue x_config (λ _, TimerFired) x_stub x_read_request NewWriter x_state in
          status_of w = Some 500) as Hc by by vm_compute.
  destruct (http_ReadKeyValue _ _ _ _ _ _) as [[p w] g]. split; [exact Hc|].
  destruct Hw as (_ & H1 & H2); [by vm_compute|done|done| |].
  { intros i e ->%x_transport. apply (bool_decide_unpack _). by vm_compute. }
  split; [exact H1|]. apply (H2 (mkReadKeyValueRequest "acme" "user:1" "quorum")); [by vm_compute|].
  intros i node a. cbn. by intros [= <-].
Defined.

Lemma deadline_answered_500_witness :
  let late := λ (i : nat) (req : WriteKeyValueRequest) (s : unit),
    (Err (StatusError (mkStatus code_DeadlineExceeded "context deadline exceeded")) : res call_error WriteKeyValueResponse, s) in
  let m := "context deadline exceeded" in
  ∃ w, serve to_WriteKeyValueRequest (λ req s, withRetry x_config (λ _, ContextDone m) (λ i, late i req) s) kwp_Success kwp_ErrorMessage 400 "INVALID_REQUEST" 200
         (Some ∘ of_WriteKeyValueResponse) x_write_request NewWriter (mkGateway true true tt) = (false, w, mkGateway true true tt) ∧
       status_of w = Some 500.
Proof.
  intros late m. eexists.
  destruct (deadline_answered_500 x_config (λ _, ContextDone m) to_WriteKeyValueRequest late kwp_Success kwp_ErrorMessage
    400 "INVALID_REQUEST" 200 (Some ∘ of_WriteKeyValueResponse) x_write_request NewWriter (mkGateway true true tt)
    (mkWriteKeyValueRequest "acme" "user:1" (bytes "café") "quorum" "k-1") m tt m) as (H1 & H2 & _);
    [by vm_compute|done|by vm_compute|done|done|].
  split; [exact H1|exact H2].
Defined.

Definition x_preflight : http_request :=
  mkHttpRequest "OPTIONS" "/v1/key-value" [] {[ "Origin" := "https://app.example" ]} ∅ (Ok []).
Definition x_visit : visit := mkVisit "u" true (λ _, TimerFired) error_message.

Lemma preflight_refused_witness :
  let '(panicked, w, g) := ServeHTTP x_config true x_stub x_visit x_preflight x_state in
  status_of w = Some 405 ∧ panicked = false ∧ g = x_state ∧
  ∃ code h, w_status w = Some (code, h) ∧ (code = 404 ∨ code = 405) ∧ h !! AllowOrigin = None.
Proof.
  pose proof (preflight_refused x_config true x_stub x_visit x_preflight x_state eq_refl) as Hp.
  assert (let '(_, w, _) := ServeHTTP x_config true x_stub x_visit x_preflight x_state in status_of w = Some 405) as H405
    by by vm_compute.
  destruct (ServeHTTP _ _ _ _ _ _) as [[p w] g]. by split.
Defined.
