(* ===== verification/EndToEnd.v ===== *)
(** * EndToEnd: from an HTTP write to an HTTP read

    The gateway of Gateway.v, the coordinator's handlers of CoordinatorHandlers.v
    and Coordinator.v, and the storage nodes of Storage.v composed: what a client
    that was told its write succeeded reads afterwards.  The requests go through
    the gateway's retries, tenant lookup and routing, the fan-out to the
    replicas, and the storage service of each node. *)

From S2P Require Import Prelude Model VectorClock Ring Routing Consistency Validator Codec GoJson CommitLog Storage StorageHandler StorageClient Conflict HintedHandoff Tenant Idempotency Coordinator CoordinatorHandlers GatewayClient GatewayConvert Gateway.
#[local] Open Scope Z_scope.

(** ** A coordinator whose topology does not change *)

(** The ring is the one of [os], and every object of the tenant has the
    replication factor [rf]. *)
Record settled (os : list ring_op) (tenantID : string) (rf : Z) (s : CoordinatorService) : Prop := {
  settled_ring : routingService s = mkRouting (run_ring os);
  settled_tenants : tenants_ok (tenantService s);
  settled_factor p t : tenant_heap (tenantService s) !! p = Some t → TenantID t = tenantID → ReplicationFactor t = rf;
}.

(** The metadata store lists [nodes], and its row of the tenant, if it answers,
    has the factor [rf]. *)
Record steady (nodes : list StorageNode) (tenantID : string) (rf : Z) (q : request_env) : Prop := {
  steady_row t : q_tenant q = Ok t → row_ok tenantID t ∧ ReplicationFactor t = rf;
  steady_nodes : q_nodes q = Ok nodes;
}.

Section coordinator.
Context `{MapRange} `{StoreErrors} (os : list ring_op) (nodes : list StorageNode) (tenantID : string) (rf : Z).

Lemma tenant_factor_settled q s r s' :
  settled os tenantID rf s → steady nodes tenantID rf q → tenant_factor q tenantID s = (r, s') →
  settled os tenantID rf s' ∧ ∀ f, r = Ok f → f = rf.
Proof.
  intros [Hring Hok Hf] [Hrow _]. unfold tenant_factor. destruct (GetTenant _ _ _ _ _ _) as [r1 ts] eqn:Hg.
  destruct (GetTenant_ok _ _ _ _ _ _ _ _ Hok (λ t Ht, proj1 (Hrow t Ht)) Hg) as [Hok' Hp].
  assert (∀ p t, tenant_heap ts !! p = Some t → TenantID t = tenantID → ReplicationFactor t = rf) as Hf'.
  { revert Hg. unfold GetTenant. destruct (mc_Get _ _ _) as [p|]; [by intros [= _ <-]|].
    destruct (q_tenant q) as [t|e]; [|by intros [= _ <-]]. intros [= _ <-] p u. cbn [with_cache tenant_heap with_tenants].
    intros [Hu|[_ Hu]]%lookup_app_Some; [by apply (Hf p)|].
    apply list_lookup_singleton_Some in Hu as [_ <-]. intros _. by apply (Hrow t). }
  destruct r1 as [p|e]; [|by intros [= <- <-]]. destruct (Hp p eq_refl) as (t & Ht & Hid). rewrite Ht.
  intros [= <- <-]. split; [done|]. intros f [= <-]. by apply (Hf' p).
Qed.

Lemma write_fresh_settled q key value level s :
  settled os tenantID rf s → steady nodes tenantID rf q → settled os tenantID rf (write_fresh q tenantID key value level s).2.
Proof.
  intros Hs Hq. unfold write_fresh. destruct (tenant_factor q tenantID s) as [r s1] eqn:Ht.
  destruct (tenant_factor_settled _ _ _ _ Hs Hq Ht) as [[H1 H2 H3] _]. destruct r as [f|e]; [|done].
  destruct (GetWriteReplicas _ _ _ _ _) as [replicas|e]; [|done].
  destruct (readExistingValue _ _ _ _ _ _) as [existing c]. destruct (next_clock _ _) as [vc vs].
  destruct (writeToReplicasWithHints _ _ _ _ _ _ _ _ _ _ _) as [[r h] c']. done.
Qed.

Lemma write_handler_settled q req s :
  kwq_TenantId req = tenantID → settled os tenantID rf s → steady nodes tenantID rf q →
  settled os tenantID rf (handler_WriteKeyValue q req s).2.
Proof.
  intros Hreq Hs Hq. unfold handler_WriteKeyValue. destruct (CoordinatorHandlers.validateWriteRequest req); [done|].
  rewrite Hreq. unfold WriteKeyValue. destruct (NormalizeConsistencyLevel _ _) as [level|]; [|done]. cbn zeta.
  pose proof (write_fresh_settled q (kwq_Key req) (kwq_Value req) level s Hs Hq) as Hf.
  destruct (write_fresh _ _ _ _ _ _) as [[w|e] s1]; cbn [snd] in Hf;
    (destruct (decide _); [done|]); destruct (idem_Get _) as [[r|]|]; done.
Qed.

Lemma read_handler_settled q req s :
  krq_TenantId req = tenantID → settled os tenantID rf s → steady nodes tenantID rf q →
  settled os tenantID rf (handler_ReadKeyValue q req s).2.
Proof.
  intros Hreq Hs Hq. unfold handler_ReadKeyValue. destruct (CoordinatorHandlers.validateReadRequest req); [done|].
  rewrite Hreq. unfold ReadKeyValue. destruct (NormalizeConsistencyLevel _ _) as [level|]; [|done].
  destruct (tenant_factor _ _ _) as [r s1] eqn:Ht.
  destruct (tenant_factor_settled _ _ _ _ Hs Hq Ht) as [[H1 H2 H3] _]. destruct r as [f|e]; [|done].
  destruct (GetReadReplicas _ _ _ _ _) as [replicas|e]; [|done].
  destruct (readFromReplicasWithRepair _ _ _ _ _ _ _) as [[[r|e] tasks] c]; done.
Qed.

(** *** The replies *)

Lemma write_result_clock net now order replicas key value vc level h c w h' c' :
  writeToReplicasWithHints net now order replicas tenantID key value vc level h c = (Ok w, h', c') → wr_VectorClock w = vc.
Proof.
  unfold writeToReplicasWithHints. destruct (foldl _ _ _) as [[responses h1] c1]. by destruct (negb _); intros [= <- _ _].
Qed.

(** The connections after the read of the existing version that precedes a write. *)
Definition connections (q : request_env) (replicas : list StorageNode) (tenantID key : string) (s : CoordinatorService)
    : StorageClient :=
  (readExistingValue (q_read q) (q_late q) (q_order q replicas) tenantID key (storageClient s)).2.

(** The answers of the replicas to a write the coordinator makes in state [s]. *)
Definition replica_answers (q : request_env) (replicas : list StorageNode) (tenantID key : string) (value : list byte)
    (vc : VectorClock) (s : CoordinatorService) : list StorageResponse :=
  write_responses (q_write q) (q_hint_time q) (q_order q replicas) tenantID key value vc (hintedHandoffService s)
    (connections q replicas tenantID key s).

(** The write a successful reply at quorum stands for. *)
Lemma write_reply_quorum q req s resp :
  kwq_TenantId req = tenantID → kwq_Consistency req = "quorum" → kwq_IdempotencyKey req = EmptyString →
  settled os tenantID rf s → steady nodes tenantID rf q → (handler_WriteKeyValue q req s).1.1 = Ok resp →
  tenantID ≠ EmptyString ∧ kwq_Key req ≠ EmptyString ∧
  ∃ replicas vc w h' c', kwp_VectorClock resp = Some vc ∧
    GetWriteReplicas (mkRouting (run_ring os)) (Ok (E := string) nodes) tenantID (kwq_Key req) (Z.to_nat rf) = Ok replicas ∧
    writeToReplicasWithHints (q_write q) (q_hint_time q) (q_order q replicas) replicas tenantID (kwq_Key req)
      (kwq_Value req) vc "quorum" (hintedHandoffService s) (connections q replicas tenantID (kwq_Key req) s) = (Ok w, h', c').
Proof.
  intros Hreq Hlevel Hik Hs Hq. unfold handler_WriteKeyValue.
  destruct (CoordinatorHandlers.validateWriteRequest req) as [m|] eqn:Hv; [done|].
  assert (kwq_TenantId req ≠ EmptyString ∧ kwq_Key req ≠ EmptyString) as [Ht Hk].
  { unfold CoordinatorHandlers.validateWriteRequest in Hv. by repeat case_decide. }
  rewrite Hreq in Ht |- *. unfold WriteKeyValue. rewrite Hlevel, Hik.
  change (NormalizeConsistencyLevel (consistencyService s) "quorum") with (Ok (E := consistency_error) "quorum").
  cbn beta iota zeta. rewrite decide_True by done. unfold write_fresh.
  destruct (tenant_factor q tenantID s) as [r s1] eqn:Hf.
  destruct (tenant_factor_settled _ _ _ _ Hs Hq Hf) as [[Hring _ _] Hrf]. destruct r as [f|e]; [|done].
  destruct (tenant_factor_other _ _ _ _ _ Hf) as (_ & _ & _ & Hh & Hc).
  rewrite (Hrf f eq_refl), Hring, (steady_nodes _ _ _ _ Hq), Hh, Hc.
  destruct (GetWriteReplicas _ _ _ _ _) as [replicas|e] eqn:Hg; [|done].
  destruct (readExistingValue _ _ _ _ _ _) as [existing c] eqn:Hex. destruct (next_clock _ _) as [vc vs].
  destruct (writeToReplicasWithHints _ _ _ _ _ _ _ _ _ _ _) as [[r h'] c'] eqn:Hw. destruct r as [w|e]; [|done].
  intros [= <-]. split_and!; [done..|]. exists replicas, vc, w, h', c'. unfold connections. rewrite Hex.
  split_and!; [|done|done]. cbn. f_equal. by apply write_result_clock in Hw.
Qed.

(** The read a successful reply at quorum stands for. *)
Lemma read_reply_quorum q req s resp :
  krq_TenantId req = tenantID → krq_Consistency req = "quorum" →
  settled os tenantID rf s → steady nodes tenantID rf q → (handler_ReadKeyValue q req s).1.1 = Ok resp →
  ∃ replicas c r tasks c',
    GetReadReplicas (mkRouting (run_ring os)) (Ok (E := string) nodes) tenantID (krq_Key req) (Z.to_nat rf) = Ok replicas ∧
    readFromReplicasWithRepair (q_read q) (q_order q replicas) replicas tenantID (krq_Key req) "quorum" c = (Ok r, tasks, c') ∧
    resp = mkReadKeyValueResponse true (krq_Key req) (rd_Value r) (Some (rd_VectorClock r)) EmptyString.
Proof.
  intros Hreq Hlevel Hs Hq. unfold handler_ReadKeyValue.
  destruct (CoordinatorHandlers.validateReadRequest req) as [m|] eqn:Hv; [done|]. rewrite Hreq.
  destruct (ReadKeyValue _ _ _ _ _) as [[[r|e] tasks] s2] eqn:Hr; [|done]. intros [= <-].
  destruct (ReadKeyValue_ok _ _ _ _ _ _ _ _ Hr) as [-> ->]. revert Hr. unfold ReadKeyValue. rewrite Hlevel.
  change (NormalizeConsistencyLevel (consistencyService s) "quorum") with (Ok (E := consistency_error) "quorum").
  cbn beta iota zeta. destruct (tenant_factor q tenantID s) as [r1 s1] eqn:Hf.
  destruct (tenant_factor_settled _ _ _ _ Hs Hq Hf) as [[Hring _ _] Hrf]. destruct r1 as [f|e]; [|done].
  rewrite (Hrf f eq_refl), Hring, (steady_nodes _ _ _ _ Hq).
  destruct (GetReadReplicas _ _ _ _ _) as [replicas|e] eqn:Hg; [|done].
  destruct (readFromReplicasWithRepair _ _ _ _ _ _ _) as [[r2 tasks2] c2] eqn:Hread. intros [= -> -> _].
  by exists replicas, (storageClient s1), r, tasks, c2.
Qed.
End coordinator.

(** ** The gateway's answers *)

(** An invariant of the handler holds for the state of every try. *)
Lemma retried_invariant {St R} (I : St → Prop) wakes deliver (handler : nat → St → res Status R * St) i j s s' :
  (∀ i s, I s → I (handler i s).2) → retried wakes (λ i, call (deliver i) (handler i)) i j s s' → I s → I s'.
Proof.
  intros Hstep. induction 1 as [i s|i j s s' e _ _ _ _ IH]; [done|]. intros Hs. apply IH.
  rewrite call_state. destruct (handled _); [by apply Hstep|done].
Qed.

(** The transport does not report success for a request or a reply it lost. *)
Definition honest (deliver : nat → delivery) : Prop :=
  ∀ i e, deliver i = Lost e ∨ deliver i = ReplyLost e → GRPCToHTTPStatus (Some e) ≠ 200.

(** A request answered 200: its conversion, the try whose reply came back, the
    states of the coordinator up to it, and the document that was sent. *)
Lemma serve_200 {St Req Resp} (I : St → Prop) cfg wakes convert deliver (handler : nat → Req → St → res Status Resp * St)
    success message fs fc render r w g req :
  0 ≤ MaxRetries cfg → w_status w = None → fs ≠ 200 → honest deliver → convert r = Ok req →
  (∀ i s, I s → I (handler i req s).2) → I (coordinator g) →
  (∀ i s st, (handler i req s).1 = Err st → GRPCToHTTPStatus (Some (StatusError st)) ≠ 200) →
  let invoke req s := withRetry cfg wakes (λ i, call (deliver i) (handler i req)) s in
  let w' := (serve convert invoke success message fs fc 200 render r w g).1.2 in
  status_of w' = Some 200 →
  ∃ i s resp, retried wakes (λ i, call (deliver i) (handler i req)) 0 i (coordinator g) s ∧ I s ∧
    deliver i = Replied ∧ (handler i req s).1 = Ok resp ∧ success resp = true ∧ w' = writeJSONResponse 200 (render resp) w.
Proof.
  intros Hm Hw Hfs Hhonest Hreq HI Hg Herr invoke. unfold serve, HandleError, WriteErrorResponse. rewrite Hreq.
  destruct (invoke req (coordinator g)) as [[result waits] c] eqn:Hr. cbn [fst snd].
  destruct (withRetry_spec _ _ _ _ _ _ _ Hm Hr) as (j & s1 & _ & Hret & _ & Hc & _).
  pose proof (retried_invariant I wakes deliver (λ i, handler i req) 0 j (coordinator g) s1 HI Hret Hg) as Hs1.
  unfold concludes, call in Hc.
  destruct (deliver j) as [e| |e] eqn:Hd; cbn [fst] in Hc.
  2: destruct (handler j req s1) as [[x|st] s2] eqn:Hh; cbn [fst] in Hc.
  2: { subst result. destruct (success x) eqn:Hx; cbn [negb fst snd]; [|rewrite status_of_response by done; congruence].
       intros _. exists j, s1, x. by rewrite Hh. }
  all: assert (∃ e, result = Err e ∧ GRPCToHTTPStatus (Some e) ≠ 200) as (e' & -> & Hne);
    [|cbn [fst snd]; rewrite status_of_response by done; congruence].
  all: destruct Hc as [[_ ->]|(_ & _ & m & _ & ->)]; eexists; (split; [reflexivity|]); [|by vm_compute].
  - eapply Hhonest. left. exact Hd.
  - apply (Herr j s1). by rewrite Hh.
  - eapply Hhonest. right. exact Hd.
Qed.

(** No error the coordinator replies with is answered 200. *)
Lemma error_status st :
  st_Code st = code_InvalidArgument ∨ failure_code (st_Code st) → GRPCToHTTPStatus (Some (StatusError st)) ≠ 200.
Proof. intros Hc%failure_status H200. rewrite H200 in Hc. set_solver. Qed.

Lemma write_error_status `{MapRange} `{StoreErrors} q req s st :
  (handler_WriteKeyValue q req s).1.1 = Err st → GRPCToHTTPStatus (Some (StatusError st)) ≠ 200.
Proof.
  intros Hh. apply error_status. pose proof (write_replies q req s) as Hr.
  destruct (handler_WriteKeyValue q req s) as [[r rec] s1]. cbn [fst] in Hh. subst r.
  destruct Hr as (_ & [(m & _ & -> & _)|[_ Hf]]); auto.
Qed.

Lemma read_error_status `{MapRange} `{StoreErrors} q req s st :
  (handler_ReadKeyValue q req s).1.1 = Err st → GRPCToHTTPStatus (Some (StatusError st)) ≠ 200.
Proof. intros Hh. apply error_status. by apply (read_replies q req s). Qed.

Lemma GetWriteReplicas_NoDup {E} os nodes tenantID key rf replicas :
  GetWriteReplicas (E := E) (mkRouting (run_ring os)) (Ok nodes) tenantID key rf = Ok replicas → NoDup (NodeID <$> replicas).
Proof. intros (-> & _)%GetWriteReplicas_ids. apply GetNodes_NoDup. Qed.

Lemma response_body code fields w :
  w_body (writeJSONResponse code (Some fields) w) = w_body w ++ json_object fields ++ [x0a].
Proof. unfold writeJSONResponse, Encode, Write, WriteHeader, header_Set. by destruct (w_status w). Qed.

(** ** Properties *)

Section read_after_write.
Context `{MapRange} `{Codec MemTableEntry} `{Codec CommitLogEntry} `{!CutCodec CommitLogEntry} `{StoreErrors} `{GoErrors}.

(** C1: a client reads what it was told is written.  Suppose a [POST] at quorum
    was answered 200 and a later [GET] of the key at quorum is answered 200,
    both through the gateway with its retries, while the ring, the node list and
    the tenant's replication factor are the same; the write has no idempotency
    key, and the transport gives no error that stands for 200.  The answer to the write is the
    reply of one try, and the answer to the read is a JSON document with a value
    and a clock.  If every node that acknowledged that try answers the read from
    a state of its storage service whose last mutation of the key is the write,
    the version read is not older than the write; and if the other nodes that
    answer hold only older versions, it is exactly the value that was sent. *)
Theorem http_read_after_write os nodes rf cfg client wakes deliver q r w g req wakes' deliver' q' r' w' g' req' :
  let tenantID := kwq_TenantId req in let key := kwq_Key req in let value := kwq_Value req in
  0 ≤ MaxRetries cfg → w_status w = None → w_status w' = None → honest deliver → honest deliver' →
  rpc_WriteKeyValue client = (λ i req, call (deliver i) (coordinator_write (q i) req)) →
  rpc_ReadKeyValue client = (λ i req, call (deliver' i) (coordinator_read (q' i) req)) →
  to_WriteKeyValueRequest r = Ok req → kwq_Consistency req = "quorum" → kwq_IdempotencyKey req = EmptyString →
  to_ReadKeyValueRequest r' = Ok req' → krq_TenantId req' = tenantID → krq_Key req' = key →
  krq_Consistency req' = "quorum" →
  settled os tenantID rf (coordinator g).1 → (∀ i, steady nodes tenantID rf (q i)) →
  settled os tenantID rf (coordinator g').1 → (∀ i, steady nodes tenantID rf (q' i)) →
  let written := (http_WriteKeyValue cfg wakes client r w g).1.2 in
  let answered := (http_ReadKeyValue cfg wakes' client r' w' g').1.2 in
  status_of written = Some 200 → status_of answered = Some 200 →
  ∃ i s resp vc replicas found clock,
    retried wakes (λ i, call (deliver i) (coordinator_write (q i) req)) 0 i (coordinator g) s ∧
    deliver i = Replied ∧ (handler_WriteKeyValue (q i) req s.1).1.1 = Ok resp ∧ kwp_VectorClock resp = Some vc ∧
    w_body written = w_body w ++ json_object (of_WriteKeyValueResponse resp) ++ [x0a] ∧
    GetWriteReplicas (mkRouting (run_ring os)) (Ok (E := string) nodes) tenantID key (Z.to_nat rf) = Ok replicas ∧
    w_body answered = w_body w' ++ json_object (of_ReadKeyValueResponse
      (mkReadKeyValueResponse true key found (Some clock) EmptyString)) ++ [x0a] ∧
    let acks := replica_answers (q i) replicas tenantID key value vc s.1 in
    ((∀ j node, node ∈ replicas → acknowledged acks node → holds_write (q_read (q' j)) tenantID key value vc node) →
     (vc_le clock vc → vc_le vc clock) ∧
     ((∀ j node b, node ∈ replicas → ¬ acknowledged acks node →
         answer (q_read (q' j) node) (mkPbReadRequest tenantID key) = Ok b → rp_Success b = true →
         vc_le (fromProtoVectorClock (rp_VectorClock b)) vc ∧ ¬ vc_le vc (fromProtoVectorClock (rp_VectorClock b))) →
      found = value ∧ clock = vc)).
Proof.
  intros tenantID key value Hm Hw Hw' Hd Hd' Hwrite Hread Hreq Hlevel Hik Hreq' Ht' Hk' Hlevel' Hg Hq Hg' Hq' written answered.
  unfold written, http_WriteKeyValue, Client_WriteKeyValue. rewrite Hwrite. intros H200.
  apply (serve_200 (λ s, settled os tenantID rf s.1) _ _ _ _ (λ i, coordinator_write (q i)) _ _ _ _ _ _ _ _ req) in H200
    as (i & s & resp & Hret & Hs & Hdi & Hh & _ & ->); [|done..| |done|].
  2: { intros i s Hs. unfold coordinator_write. pose proof (write_handler_settled os nodes tenantID rf (q i) req s.1 eq_refl Hs (Hq i)).
       by destruct (handler_WriteKeyValue _ _ _) as [[]]. }
  2: { intros i s st. rewrite coordinator_write_reply. apply write_error_status. }
  unfold answered, http_ReadKeyValue, Client_ReadKeyValue. rewrite Hread. intros H200.
  apply (serve_200 (λ s, settled os tenantID rf s.1) _ _ _ _ (λ i, coordinator_read (q' i)) _ _ _ _ _ _ _ _ req') in H200
    as (j & s' & rresp & _ & Hs' & _ & Hh' & _ & ->); [|done..| |done|].
  2: { intros j s' Hs'. unfold coordinator_read. pose proof (read_handler_settled os nodes tenantID rf (q' j) req' s'.1 Ht' Hs' (Hq' j)).
       by destruct (handler_ReadKeyValue _ _ _) as [[]]. }
  2: { intros j s' st. rewrite coordinator_read_reply. apply read_error_status. }
  rewrite coordinator_write_reply in Hh. rewrite coordinator_read_reply in Hh'. unfold compose. rewrite !response_body.
  destruct (write_reply_quorum os nodes tenantID rf _ _ _ _ eq_refl Hlevel Hik Hs (Hq i) Hh)
    as (Hne & Hkne & replicas & vc & wr & h' & c' & Hvc & Hreps & Hw1).
  destruct (read_reply_quorum os nodes tenantID rf _ _ _ _ Ht' Hlevel' Hs' (Hq' j) Hh')
    as (replicas' & c1 & rd & tasks & c2 & Hreps' & Hr1 & ->). rewrite Hk' in *.
  assert (replicas' = replicas) as ->. { assert (Ok (E := routing_error) replicas' = Ok replicas) as Heq by (rewrite <-Hreps, <-Hreps'; reflexivity). by injection Heq. }
  exists i, s, resp, vc, replicas, (rd_Value rd), (rd_VectorClock rd). split_and!; [done..|].
  intros Hholds.
  destruct (quorum_read_after_write (q_write (q i)) (q_hint_time (q i)) (q_order (q i) replicas) (q_read (q' j)) (q_order (q' j) replicas)
    replicas tenantID key value vc (hintedHandoffService s.1) (connections (q i) replicas tenantID key s.1) wr h' c' c1 rd tasks c2) as [Hfresh Hexact];
    [apply (GetWriteReplicas_NoDup _ _ _ _ _ _ Hreps)|apply q_order_perm|apply q_order_perm|done|done|exact Hw1|by intros; apply Hholds|exact Hr1|].
  split; [exact Hfresh|]. intros Hold. apply Hexact. intros node b. by apply (Hold j).
Qed.
End read_after_write.

(** ** Witnesses *)

(** The third node of the ring cannot be reached; the first request is lost. *)
Definition e_wnet : write_net := λ node,
  mkLink (negb (bool_decide (NodeID node = "c"))) (λ req, Ok (mkPbWriteResponse true (wq_VectorClock req) EmptyString pb_UNKNOWN)).

Definition e_rnet : read_net := λ node,
  mkLink true (λ _, if decide (NodeID node = "c") then Err "unavailable" else Ok x_read_answer).

Definition e_env (net : read_net) (i : nat) : request_env :=
  {| q_now := 1; q_clock := λ _, 1; q_later := 1; q_tenant := Ok (mkTenant "t1" 3 0 0 1); q_nodes := Ok demo_nodes;
     q_stored := Err ErrNotFound; q_nano := 5; q_uuid := "u"; q_read := net; q_write := e_wnet; q_late := λ _, false;
     q_hint_time := λ _, 1; q_order := λ l, l; q_order_perm := λ l, Permutation_refl l |}.

Definition e_deliver (i : nat) : delivery := if decide (i = 0%nat) then Lost x_unavailable else Replied.

#[local] Instance e_store_errors : StoreErrors := {| is_deadline _ := false; is_canceled _ := false |}.

Definition e_stub : stub (CoordinatorService * list (string * any)) :=
  mkStub _ (λ i req, call (e_deliver i) (coordinator_write (e_env x_empty i) req))
    (λ i req, call (e_deliver i) (coordinator_read (e_env e_rnet i) req))
    (λ _ _ s, (Err x_unavailable, s)) (λ _ _ s, (Err x_unavailable, s)) (λ _ _ s, (Err x_unavailable, s))
    (λ _ _ s, (Err x_unavailable, s)) (λ _ _ s, (Err x_unavailable, s)) (λ _ _ s, (Err x_unavailable, s))
    (λ _ _ s, (Err x_unavailable, s)).

Definition e_post : http_request :=
  mkHttpRequest "POST" "/v1/key-value" [] ∅ ∅ (Ok (write_body "t1" "a" "new" "quorum")).
Definition e_get : http_request :=
  mkHttpRequest "GET" "/v1/key-value" (bytes "key=a&tenant_id=t1&consistency=quorum") ∅ ∅ (Ok []).

Definition e_message : WriteKeyValueRequest := mkWriteKeyValueRequest "t1" "a" (bytes "new") "quorum" EmptyString.

Lemma e_honest : honest e_deliver.
Proof. intros i e. unfold e_deliver. case_decide; intros [Hd|Hd]; try done. injection Hd as <-. by vm_compute. Qed.

Lemma e_holds j node : holds_write (q_read (e_env e_rnet j)) "t1" "a" (bytes "new") Storage.x_vc node.
Proof.
  intros b Hb. cbn [q_read e_env e_rnet answer] in Hb. destruct (decide _); [discriminate Hb|].
  pose proof (f_equal (λ r, match r with Ok a => a | Err _ => b end) Hb) as Heq. cbn iota in Heq. rewrite <-Heq.
  destruct x_read_state as [s' Hs].
  exists x_lcfg, x5, (Some x_log), x_A, 1700000001, 1700000003, (x_env 1700000009 9), (x_env 1700000002 2), s'.
  split; [exact x_run|]. split; [vm_compute; reflexivity|exact Hs].
Qed.

Lemma e_settled : settled demo_ring "t1" 3 x_coordinator.
Proof.
  split; [reflexivity| |by intros p t Ht]. split; [by intros p t Ht|by intros k item Hk|by vm_compute].
Qed.

Lemma e_steady net i : steady demo_nodes "t1" 3 (e_env net i).
Proof. split; [|done]. intros t [= <-]. by vm_compute. Qed.

(** The second try, in the state in which the request came. *)
Lemma e_tries i s :
  retried (λ _, TimerFired) (λ i, call (e_deliver i) (coordinator_write (e_env x_empty i) e_message)) 0 i (x_coordinator, []) s →
  e_deliver i = Replied → i = 1%nat ∧ s = (x_coordinator, []).
Proof.
  intros Hr Hd. inversion Hr as [|? ? ? ? e He _ _ Hr2]; subst; [done|]. clear Hr.
  inversion Hr2 as [|? ? ? ? e2 He2 _ _ _]; subst; [done|]. exfalso. vm_compute in He2. discriminate He2.
Qed.

Lemma e_replicas replicas :
  GetWriteReplicas (mkRouting (run_ring demo_ring)) (Ok (E := string) demo_nodes) "t1" "a" (Z.to_nat 3) = Ok replicas →
  ∀ node, node ∈ replicas → NodeID node ≠ "c" →
    acknowledged (replica_answers (e_env x_empty 1) replicas "t1" "a" (bytes "new") Storage.x_vc x_coordinator) node.
Proof.
  intros Hr. vm_compute in Hr. apply (f_equal (λ r, match r with Ok l => l | Err _ => [] end)) in Hr. cbn iota in Hr. subst replicas.
  intros node Hin Hne.
  exists (mkStorageResponse (NodeID node) true [] Storage.x_vc 0 false None). split; [|by split].
  repeat (apply elem_of_cons in Hin as [->|Hin]; [try (by destruct Hne)|]); [..|by apply elem_of_nil in Hin];
    apply list_elem_of_In; vm_compute; tauto.
Qed.

Lemma http_read_after_write_witness :
  let answered := (http_ReadKeyValue x_config (λ _, TimerFired) e_stub e_get NewWriter x_state).1.2 in
  status_of answered = Some 200 ∧
  w_body answered = json_object (of_ReadKeyValueResponse
    (mkReadKeyValueResponse true "a" (bytes "new") (Some Storage.x_vc) EmptyString)) ++ [x0a].
Proof.
  cbn zeta. split; [by vm_compute|].
  destruct (http_read_after_write demo_ring demo_nodes 3 x_config e_stub (λ _, TimerFired) e_deliver (e_env x_empty) e_post NewWriter
    x_state e_message (λ _, TimerFired) e_deliver (e_env e_rnet) e_get NewWriter x_state (mkReadKeyValueRequest "t1" "a" "quorum"))
    as (i & s & resp & vc & replicas & found & clock & Htries & Hi & Hresp & Hvc & _ & Hreps & -> & Hfresh);
    [done|done|done|exact e_honest|exact e_honest|reflexivity|reflexivity|by vm_compute|reflexivity|reflexivity|by vm_compute
    |reflexivity|reflexivity|reflexivity|exact e_settled|intros; apply e_steady|exact e_settled|intros; apply e_steady
    |by vm_compute|by vm_compute|].
  destruct (e_tries i s Htries Hi) as [-> ->].
  assert (vc = Storage.x_vc) as ->.
  { apply (f_equal (λ r, match r with Ok a => kwp_VectorClock a | Err _ => None end)) in Hresp. cbn beta iota in Hresp.
    rewrite Hvc in Hresp. apply (inj Some). rewrite <-Hresp. by vm_compute. }
  pose proof (e_replicas replicas Hreps) as Hacks.
  destruct Hfresh as [_ Hexact]; [intros; apply e_holds|].
  destruct Hexact as [-> ->]; [|reflexivity].
  intros j node b Hin Hnak Hb _. exfalso. destruct (decide (NodeID node = "c")) as [Hc|Hc].
  - cbn [q_read e_env e_rnet answer] in Hb. rewrite decide_True in Hb by done. discriminate Hb.
  - by apply Hnak, Hacks.
Defined.
