(* ===== verification/Registration.v ===== *)
(** * Registration: [storage-node/internal/client/coordinator_client.go]

    A storage node registers itself with the coordinator when it starts, with
    retries.  The requests go to the coordinator's [AddStorageNode] handler of
    NodeHandler.v; whether a request and its reply arrive is an argument, as is
    the end of the context during a wait. *)

From S2P Require Import Prelude GoHash Model Ring Consistency Routing KeyRange StorageHandler StorageClient MetadataStore StorageNodeClient HintReplay NodeHandler.
#[local] Open Scope Z_scope.

(** ** Definitions *)

(** What becomes of one request and its reply. *)
Inductive fate := RequestLost | ReplyArrives | ReplyIsLost.

(** The error of one attempt, and of all. *)
Inductive attempt_error := RegisterRpcFailed | RegisterRefused (e : handler_error).
Inductive register_error := RegistrationCancelled | RegistrationExhausted (attempts : Z) (last : option attempt_error).

Section registration.
Context `{MapRange} `{Scanner} (ev : node_env).

(** The result, and the monitor the coordinator has started.  A reply of the
    handler without an error has [Success] set. *)
Definition RegisterNode (f : fate) (req : AddStorageNodeRequest) : M (res attempt_error unit * list monitor) :=
  match f with
  | RequestLost => mret (Err RegisterRpcFailed, [])
  | ReplyArrives =>
      r ← AddStorageNodeV2 ev req;
      mret (match r with Ok resp => (Ok tt, [nr_monitor resp]) | Err e => (Err (RegisterRefused e), []) end)
  | ReplyIsLost =>
      r ← AddStorageNodeV2 ev req;
      mret (Err RegisterRpcFailed, match r with Ok resp => [nr_monitor resp] | Err _ => [] end)
  end.

(** The attempts from [attempt] on, [n] of them; [done] says whether the context
    ends during the wait after an attempt. *)
Fixpoint register_from (n : nat) (fates : nat → fate) (done : nat → bool) (maxRetries : Z) (attempt : nat)
    (lastErr : option attempt_error) (req : AddStorageNodeRequest) : M (res register_error unit * list monitor) :=
  match n with
  | O => mret (Err (RegistrationExhausted maxRetries lastErr), [])
  | S n =>
      r ← RegisterNode (fates attempt) req;
      match r with
      | (Ok _, started) => mret (Ok tt, started)
      | (Err err, started) =>
          if (Z.of_nat attempt <? maxRetries) && done attempt then mret (Err RegistrationCancelled, started)
          else
            r' ← register_from n fates done maxRetries (attempt + 1) (Some err) req;
            mret (r'.1, started ++ r'.2)
      end
  end.

Definition RegisterWithRetry (fates : nat → fate) (done : nat → bool) (maxRetries : Z) (req : AddStorageNodeRequest)
    : M (res register_error unit * list monitor) :=
  register_from (Z.to_nat maxRetries) fates done maxRetries 1 None req.
End registration.

(** ** Lemmas *)

Section lemmas.
Context `{MapRange} `{Scanner} (ev : node_env).

Lemma bind_Some {A B} (m : M A) (f : A → M B) c a c' : m c = Some (a, c') → (m ≫= f) c = f a c'.
Proof. intros Hm. unfold mbind, M_bind. by rewrite Hm. Qed.

(** The coordinator refuses a node that has a row, and keeps the tables. *)
Lemma add_existing req c node :
  storage_nodes (cl_db c) !! ar_NodeId req = Some node →
  ∃ e c', AddStorageNodeV2 ev req c = Some (Err e, c') ∧ cl_db c' = cl_db c.
Proof.
  intros Hn. unfold AddStorageNodeV2.
  destruct (decide _); [by eexists _, c|]. destruct (decide _); [by eexists _, c|]. destruct (_ =? 0); [by eexists _, c|].
  erewrite bind_Some by reflexivity. erewrite bind_Some by reflexivity. cbn [cl_calls cl_db cl_routing cl_client cl_hints cl_trace].
  match goal with |- context [db_exec ev ?f] => destruct (db_exec ev f (mkCluster (cl_db c) (cl_routing c) (cl_client c)
    (cl_hints c) (cl_trace c) (S (S (cl_calls c))))) as [[r c']|] eqn:Hx end; [|by unfold db_exec in Hx; destruct (pg_AddStorageNode _ _ _ _)].
  rewrite (bind_Some _ _ _ _ _ Hx). unfold db_exec in Hx. cbn [cl_calls cl_db] in Hx.
  assert (∃ e, r = Err e ∧ cl_db c' = cl_db c) as (e & -> & Hdb).
  { unfold pg_AddStorageNode, exec in Hx. destruct (ne_db ev _); [injection Hx as <- <-; by eexists|].
    destruct (negb _); [injection Hx as <- <-; by eexists|].
    unfold new_node in Hx. cbn [NodeID] in Hx. rewrite Hn in Hx. injection Hx as <- <-. by eexists. }
  by exists (Internal e), c'.
Qed.

Lemma register_once_existing f req c node :
  storage_nodes (cl_db c) !! ar_NodeId req = Some node →
  ∃ e c', RegisterNode ev f req c = Some ((Err e, []), c') ∧ cl_db c' = cl_db c.
Proof.
  intros Hn. destruct (add_existing req c node Hn) as (e & c1 & Ha & Hdb). unfold RegisterNode.
  destruct f; [by exists RegisterRpcFailed, c|..]; rewrite (bind_Some _ _ _ _ _ Ha).
  - by exists (RegisterRefused e), c1.
  - by exists RegisterRpcFailed, c1.
Qed.

(** So no attempt to register it succeeds. *)
Lemma register_existing n fates done maxRetries attempt lastErr req c node :
  storage_nodes (cl_db c) !! ar_NodeId req = Some node →
  ∃ e c', register_from ev n fates done maxRetries attempt lastErr req c = Some (Err e, [], c') ∧ cl_db c' = cl_db c.
Proof.
  revert attempt lastErr c. induction n as [|n IH]; intros attempt lastErr c Hn; [by eexists _, c|].
  destruct (register_once_existing (fates attempt) req c node Hn) as (e & c1 & Hr & Hdb).
  cbn [register_from]. rewrite (bind_Some _ _ _ _ _ Hr). destruct (_ && _); [by exists RegistrationCancelled, c1|].
  destruct (IH (attempt + 1)%nat (Some e) c1) as (e' & c2 & Hr' & Hdb'); [by rewrite Hdb|].
  rewrite (bind_Some _ _ _ _ _ Hr'). exists e', c2. split; [done|]. by rewrite Hdb'.
Qed.
End lemmas.

(** ** Properties *)

(** A node that is known cannot register.  If the coordinator has a row for
    the node, because the node restarted or because the reply to its first
    registration was lost, registration fails whatever the number of attempts and
    whatever becomes of the messages; the row, with the address it names, stays
    as it was, and no bootstrap is started. *)
Theorem reregistration_fails `{MapRange} `{Scanner} ev fates done maxRetries req c node :
  storage_nodes (cl_db c) !! ar_NodeId req = Some node →
  ∃ e c', RegisterWithRetry ev fates done maxRetries req c = Some (Err e, [], c') ∧ cl_db c' = cl_db c.
Proof.
  intros Hn. exact (register_existing ev (Z.to_nat maxRetries) fates done maxRetries 1 None req c node Hn).
Qed.

(** ** Witnesses *)

#[local] Instance registration_scanner : Scanner := None.

(** The node restarts at another address. *)
Lemma reregistration_fails_witness :
  storage_nodes (cl_db (x_cluster "bootstrap" NodeStateNormal)) !! "b" = Some (x_row "b" NodeStateNormal) ∧
  ∃ e c', RegisterWithRetry (x_world 0) (λ _, ReplyArrives) (λ _, false) 10 (mkAddStorageNode "b" "10.0.0.9" 9090 1)
            (x_cluster "bootstrap" NodeStateNormal) = Some (Err e, [], c') ∧
    cl_db c' = cl_db (x_cluster "bootstrap" NodeStateNormal).
Proof.
  assert (storage_nodes (cl_db (x_cluster "bootstrap" NodeStateNormal)) !! "b" = Some (x_row "b" NodeStateNormal)) as Hb
    by by vm_compute.
  split; [exact Hb|].
  exact (reregistration_fails (x_world 0) (λ _, ReplyArrives) (λ _, false) 10 (mkAddStorageNode "b" "10.0.0.9" 9090 1)
    (x_cluster "bootstrap" NodeStateNormal) (x_row "b" NodeStateNormal) Hb).
Defined.
