(* ===== verification/CoordinatorConfig.v ===== *)
(** * The coordinator's configuration:
    [coordinator/internal/config/config.go] and [loader.go]

    The defaults, the environment overrides with [strconv.Atoi], and
    [Validate], which fills in what is missing.  Reading and decoding the YAML
    file is viper's: [Load] takes its outcome as an argument.  Durations are in
    nanoseconds. *)

From S2P Require Import Prelude Float64 Json Consistency.
#[local] Open Scope Z_scope.

(** ** Definitions *)

Record ServerConfig := mkServerConfig {
  server_Host : string;
  server_Port : Z;
  server_NodeID : string;
  server_MaxConnections : Z;
  server_ReadTimeout : Z;
  server_WriteTimeout : Z;
  server_ShutdownTimeout : Z;
}.

Record DatabaseConfig := mkDatabaseConfig {
  db_Host : string;
  db_Port : Z;
  db_Database : string;
  db_User : string;
  db_Password : string;
  db_MaxConnections : Z;
  db_MinConnections : Z;
  db_ConnMaxLifetime : Z;
}.

Record RedisConfig := mkRedisConfig {
  redis_Host : string;
  redis_Port : Z;
  redis_Password : string;
  redis_DB : Z;
  redis_MaxRetries : Z;
  redis_PoolSize : Z;
  redis_MinIdleConns : Z;
}.

Record HashRingConfig := mkHashRingConfig { VirtualNodes : Z; UpdateInterval : Z }.

Record ConsistencyConfig := mkConsistencyConfig {
  DefaultLevel : string;
  consistency_WriteTimeout : Z;
  consistency_ReadTimeout : Z;
  RepairAsync : bool;
}.

Record CacheConfig := mkCacheConfig { TenantConfigTTL : Z; cache_MaxSize : Z }.

Record MetricsConfig := mkMetricsConfig { metrics_Enabled : bool; metrics_Port : Z; metrics_Path : string }.

Record LoggingConfig := mkLoggingConfig { Level : string; Format : string }.

Record Config := mkConfig {
  cfg_Server : ServerConfig;
  cfg_Database : DatabaseConfig;
  cfg_Redis : RedisConfig;
  cfg_HashRing : HashRingConfig;
  cfg_Consistency : ConsistencyConfig;
  cfg_Cache : CacheConfig;
  cfg_Metrics : MetricsConfig;
  cfg_Logging : LoggingConfig;
}.

Definition DefaultConfig : Config :=
  mkConfig
    (mkServerConfig "0.0.0.0" 50051 "coordinator-1" 1000 (10 * second) (10 * second) (30 * second))
    (mkDatabaseConfig "localhost" 5432 "pairdb_metadata" "coordinator" EmptyString 50 10 (30 * 60 * second))
    (mkRedisConfig "localhost" 6379 EmptyString 0 3 100 10)
    (mkHashRingConfig 150 (30 * second))
    (mkConsistencyConfig "quorum" (5 * second) (3 * second) true)
    (mkCacheConfig (5 * 60 * second) 10000)
    (mkMetricsConfig true 9090 "/metrics")
    (mkLoggingConfig "info" "json").

(** [strconv.Atoi]: an optional sign and decimal digits, within an [int]. *)
Definition Atoi (s : string) : option Z :=
  let '(neg, ds) :=
    match bytes s with
    | b :: l => if decide (b = minus) then (true, l) else if decide (b = x2b) then (false, l) else (false, b :: l)
    | [] => (false, [])
    end in
  match ds with
  | [] => None
  | _ =>
      n ← dec_digits ds;
      let n := if (neg : bool) then - n else n in
      if (- 2 ^ 63 <=? n) && (n <? 2 ^ 63) then Some n else None
  end.

(** [getenv] is [os.Getenv]: an unset variable is the empty string. *)
Definition override (getenv : string → string) (name old : string) : string :=
  let v := getenv name in if decide (v = EmptyString) then old else v.

Definition override_int (getenv : string → string) (name : string) (old : Z) : Z :=
  let v := getenv name in if decide (v = EmptyString) then old else default old (Atoi v).

Definition applyEnvironmentOverrides (getenv : string → string) (cfg : Config) : Config :=
  let s := cfg_Server cfg in let d := cfg_Database cfg in let r := cfg_Redis cfg in
  mkConfig
    (mkServerConfig (override getenv "SERVER_HOST" (server_Host s)) (override_int getenv "SERVER_PORT" (server_Port s))
       (override getenv "COORDINATOR_NODE_ID" (server_NodeID s)) (server_MaxConnections s)
       (server_ReadTimeout s) (server_WriteTimeout s) (server_ShutdownTimeout s))
    (mkDatabaseConfig (override getenv "DATABASE_HOST" (db_Host d)) (override_int getenv "DATABASE_PORT" (db_Port d))
       (override getenv "DATABASE_NAME" (db_Database d)) (override getenv "DATABASE_USER" (db_User d))
       (override getenv "DATABASE_PASSWORD" (db_Password d)) (db_MaxConnections d) (db_MinConnections d)
       (db_ConnMaxLifetime d))
    (mkRedisConfig (override getenv "REDIS_HOST" (redis_Host r)) (override_int getenv "REDIS_PORT" (redis_Port r))
       (override getenv "REDIS_PASSWORD" (redis_Password r)) (redis_DB r) (redis_MaxRetries r) (redis_PoolSize r)
       (redis_MinIdleConns r))
    (cfg_HashRing cfg) (cfg_Consistency cfg) (cfg_Cache cfg) (cfg_Metrics cfg)
    (mkLoggingConfig (override getenv "LOG_LEVEL" (Level (cfg_Logging cfg))) (Format (cfg_Logging cfg))).

Definition isValidConsistencyLevel (level : string) : bool :=
  bool_decide (level = "one") || bool_decide (level = "quorum") || bool_decide (level = "all").

(** [if x == "" { x = d }]. *)
Definition or_default (x d : string) : string := if decide (x = EmptyString) then d else x.

Definition nonempty (s : string) : bool := bool_decide (s ≠ EmptyString).

(** [Validate] updates the configuration it checks. *)
Definition Validate (c : Config) : res string Config :=
  let s := cfg_Server c in let d := cfg_Database c in
  _ ← ensure (nonempty (server_Host s)) "server.host is required";
  _ ← ensure (negb ((server_Port s <=? 0) || (65535 <? server_Port s))) "server.port must be between 1 and 65535";
  _ ← ensure (nonempty (server_NodeID s)) "server.node_id is required";
  _ ← ensure (nonempty (db_Host d)) "database.host is required";
  _ ← ensure (nonempty (db_Database d)) "database.database is required";
  _ ← ensure (nonempty (db_User d)) "database.user is required";
  _ ← ensure (nonempty (redis_Host (cfg_Redis c))) "redis.host is required";
  _ ← ensure (negb (VirtualNodes (cfg_HashRing c) <=? 0)) "hash_ring.virtual_nodes must be positive";
  let k := cfg_Consistency c in
  let level := or_default (DefaultLevel k) "quorum" in
  _ ← ensure (isValidConsistencyLevel level) "consistency.default_level must be one of: one, quorum, all";
  let l := cfg_Logging c in
  Ok (mkConfig s d (cfg_Redis c) (cfg_HashRing c)
        (mkConsistencyConfig level (consistency_WriteTimeout k) (consistency_ReadTimeout k) (RepairAsync k))
        (cfg_Cache c) (cfg_Metrics c)
        (mkLoggingConfig (or_default (Level l) "info") (or_default (Format l) "json"))).

(** What viper makes of the file: it cannot be read, it cannot be decoded, or
    it is decoded over the defaults. *)
Inductive config_file :=
  | Unreadable
  | Undecodable (message : string)
  | Decoded (overlay : Config → Config).

Inductive load_error := UnmarshalFailed (message : string) | ValidationFailed (message : string).

Definition Load (file : config_file) (getenv : string → string) : res load_error Config :=
  let cfg := DefaultConfig in
  cfg ← match file with
        | Unreadable => Ok cfg
        | Undecodable e => Err (UnmarshalFailed e)
        | Decoded overlay => Ok (overlay cfg)
        end;
  match Validate (applyEnvironmentOverrides getenv cfg) with
  | Err e => Err (ValidationFailed e)
  | Ok cfg => Ok cfg
  end.

(** ** Lemmas *)

Lemma level_valid level : isValidConsistencyLevel level = ValidateConsistencyLevel level.
Proof.
  unfold isValidConsistencyLevel, ValidateConsistencyLevel. apply eq_true_iff_eq.
  rewrite !orb_true_iff, !bool_decide_eq_true, !list_elem_of_In. simpl. naive_solver.
Qed.

(** What a configuration that passes [Validate] satisfies. *)
Record valid (c : Config) : Prop := {
  valid_host : server_Host (cfg_Server c) ≠ EmptyString;
  valid_port : 1 ≤ server_Port (cfg_Server c) ≤ 65535;
  valid_node : server_NodeID (cfg_Server c) ≠ EmptyString;
  valid_database : db_Host (cfg_Database c) ≠ EmptyString ∧ db_Database (cfg_Database c) ≠ EmptyString ∧
    db_User (cfg_Database c) ≠ EmptyString;
  valid_redis : redis_Host (cfg_Redis c) ≠ EmptyString;
  valid_vnodes : 1 ≤ VirtualNodes (cfg_HashRing c);
  valid_level : ValidateConsistencyLevel (DefaultLevel (cfg_Consistency c)) = true;
  valid_logging : Level (cfg_Logging c) ≠ EmptyString ∧ Format (cfg_Logging c) ≠ EmptyString;
}.

Lemma nonempty_iff s : nonempty s = true ↔ s ≠ EmptyString.
Proof. apply bool_decide_eq_true. Qed.

Lemma or_default_nonempty x d : d ≠ EmptyString → or_default x d ≠ EmptyString.
Proof. unfold or_default. by case_decide. Qed.

Lemma or_default_id x d : x ≠ EmptyString → or_default x d = x.
Proof. unfold or_default. by case_decide. Qed.

Lemma level_nonempty level : ValidateConsistencyLevel level = true → level ≠ EmptyString.
Proof. intros Hl ->. by vm_compute in Hl. Qed.

(** The part of the configuration [Validate] does not touch. *)
Definition same_but_defaults (c c' : Config) : Prop :=
  cfg_Server c' = cfg_Server c ∧ cfg_Database c' = cfg_Database c ∧ cfg_Redis c' = cfg_Redis c ∧
  cfg_HashRing c' = cfg_HashRing c ∧ cfg_Cache c' = cfg_Cache c ∧ cfg_Metrics c' = cfg_Metrics c.

Lemma Validate_ok c c' : Validate c = Ok c' → valid c' ∧ same_but_defaults c c'.
Proof.
  unfold Validate. cbn zeta. intros H.
  repeat match goal with
  | H : (_ ← ensure ?b _; _) = Ok _ |- _ =>
      let E := fresh "E" in destruct b eqn:E; [cbn [ensure mbind res_bind] in H|discriminate H]
  end.
  injection H as <-. rewrite ?nonempty_iff in *. rewrite ?negb_true_iff, ?orb_false_iff in *.
  split; [|done]. split; cbn; [done|lia|done|done|done|lia|by rewrite <-level_valid|].
  split; by apply or_default_nonempty.
Qed.

Lemma Validate_valid c : valid c → Validate c = Ok c.
Proof.
  intros [Hh Hp Hn (Hd1 & Hd2 & Hd3) Hr Hv Hl [Hl1 Hl2]]. unfold Validate. cbn zeta.
  rewrite !(proj2 (nonempty_iff _)) by done.
  rewrite (or_default_id _ _ Hl1), (or_default_id _ _ Hl2), (or_default_id _ _ (level_nonempty _ Hl)), level_valid, Hl.
  rewrite (proj2 (Z.leb_gt _ 0)), (proj2 (Z.ltb_ge 65535 _)), (proj2 (Z.leb_gt _ 0)) by lia.
  cbn. by destruct c as [? ? ? ? [] ? ? []].
Qed.

Lemma Load_ok file getenv cfg :
  Load file getenv = Ok cfg →
  ∃ c, Validate (applyEnvironmentOverrides getenv c) = Ok cfg.
Proof.
  unfold Load. destruct file as [|e|overlay]; [|discriminate|]; cbn;
    destruct (Validate _) as [c|e] eqn:Hv; try discriminate; intros [= ->]; eauto.
Qed.

Lemma Atoi_pretty (z : Z) : - 2 ^ 63 ≤ z < 2 ^ 63 → Atoi (pretty z) = Some z.
Proof.
  intros Hz. assert ((- 2 ^ 63 <=? z) && (z <? 2 ^ 63) = true) as Hr by lia. unfold Atoi.
  destruct z as [|x|x]; [done|..].
  - change (pretty (Z.pos x)) with (pretty (N.pos x)).
    pose proof (pretty_N_digits (N.pos x)) as Hc. pose proof (dec_pretty_N (N.pos x)) as Hd.
    destruct (bytes (pretty (N.pos x))) as [|b l]; [discriminate|].
    rewrite !decide_False; [|intros ->; inversion Hc as [|? ? [Hlo _] _]; by vm_compute in Hlo..].
    rewrite Hd. cbn [mbind option_bind Z.of_N Z.opp]. by rewrite Hr.
  - change (bytes (pretty (Z.neg x))) with (minus :: bytes (pretty (N.pos x))). cbn [decide_rel].
    destruct (decide (minus = minus)) as [_|]; [|done].
    pose proof (dec_pretty_N (N.pos x)) as Hd. destruct (bytes (pretty (N.pos x))) as [|b l]; [discriminate|].
    rewrite Hd. change ((if (- 2 ^ 63 <=? Z.neg x) && (Z.neg x <? 2 ^ 63) then Some (Z.neg x) else None) = Some (Z.neg x)).
    by rewrite Hr.
Qed.

(** ** Properties *)

(** A coordinator that starts has a usable configuration, whatever the file and
    the environment: ports, names and the number of virtual nodes are in range,
    and the consistency service built from it resolves every request, with or
    without a level, to a level it knows or refuses it.  Validating the result
    again changes nothing. *)
Theorem loaded_config_valid (file : config_file) (getenv : string → string) (cfg : Config) :
  Load file getenv = Ok cfg →
  valid cfg ∧ Validate cfg = Ok cfg ∧
  (∀ level, match NormalizeConsistencyLevel (mkConsistency (DefaultLevel (cfg_Consistency cfg))) level with
            | Ok l => ValidateConsistencyLevel l = true
            | Err _ => level ≠ EmptyString ∧ ValidateConsistencyLevel level = false
            end).
Proof.
  intros (c & Hv)%Load_ok. apply Validate_ok in Hv as [Hv _]. split_and!; [done|by apply Validate_valid|].
  intros level. unfold NormalizeConsistencyLevel. cbn [defaultLevel].
  case_decide; [apply Hv|]. by destruct (ValidateConsistencyLevel level) eqn:Hl.
Qed.

(** The environment takes precedence over the file: a set string variable is
    the value used, and so is a port written in decimal that fits an [int]; a
    port that is not a number is ignored without an error. *)
Theorem environment_precedence (overlay : Config → Config) (getenv : string → string) (cfg : Config) :
  Load (Decoded overlay) getenv = Ok cfg →
  (getenv "SERVER_HOST" ≠ EmptyString → server_Host (cfg_Server cfg) = getenv "SERVER_HOST") ∧
  (getenv "COORDINATOR_NODE_ID" ≠ EmptyString → server_NodeID (cfg_Server cfg) = getenv "COORDINATOR_NODE_ID") ∧
  (∀ p : Z, getenv "SERVER_PORT" = pretty p → - 2 ^ 63 ≤ p < 2 ^ 63 → server_Port (cfg_Server cfg) = p) ∧
  (Atoi (getenv "SERVER_PORT") = None →
   server_Port (cfg_Server cfg) = server_Port (cfg_Server (overlay DefaultConfig))).
Proof.
  unfold Load. cbn [mbind res_bind]. destruct (Validate _) as [c|e] eqn:Hv; [|discriminate]. intros [= ->].
  apply Validate_ok in Hv as [_ (Hs & _)]. rewrite Hs. cbn. unfold override, override_int.
  split_and!.
  - intros Hne. by rewrite decide_False.
  - intros Hne. by rewrite decide_False.
  - intros p Hp Hr. rewrite Hp, Atoi_pretty by done. rewrite decide_False; [done|].
    intros He. pose proof (Atoi_pretty p Hr) as Ha. by rewrite He in Ha.
  - intros ->. by case_decide.
Qed.

(** ** Witnesses *)

Definition x_getenv (name : string) : string :=
  if decide (name = "SERVER_PORT") then "6000"
  else if decide (name = "COORDINATOR_NODE_ID") then "c7"
  else if decide (name = "REDIS_PORT") then "none" else EmptyString.

Definition x_loaded : Config := if Load Unreadable x_getenv is Ok c then c else DefaultConfig.

Lemma loaded_config_valid_witness :
  server_Port (cfg_Server x_loaded) = 6000 ∧ redis_Port (cfg_Redis x_loaded) = 6379 ∧ Validate x_loaded = Ok x_loaded.
Proof.
  split_and!; [by vm_compute..|]. apply (loaded_config_valid Unreadable x_getenv x_loaded). reflexivity.
Defined.

Lemma environment_precedence_witness :
  server_Port (cfg_Server x_loaded) = 6000 ∧ server_NodeID (cfg_Server x_loaded) = "c7".
Proof.
  destruct (environment_precedence (λ c, c) x_getenv x_loaded) as (_ & Hn & Hp & _); [reflexivity|].
  split; [by apply Hp; [vm_compute|lia]|by apply Hn; vm_compute].
Defined.
