(* ===== verification/NodeConfig.v ===== *)
(** * The storage node's configuration:
    [storage-node/internal/config/config.go]

    [setDefaults] and [Validate] on the configuration the YAML decoder yields,
    which is an argument of [LoadConfig] as is the outcome of reading the file,
    and the services [main] builds from the result.  Durations are in
    nanoseconds. *)

From S2P Require Import Prelude Float64 Errors Validator Codec Model MemTable SSTable SSTableService CommitLog Cache DiskManager Storage.
#[local] Open Scope Z_scope.

(** ** Definitions *)

Record ServerConfig := mkServerConfig {
  server_NodeID : string;
  server_Host : string;
  server_Port : Z;
  server_MaxConnections : Z;
  server_ReadTimeout : Z;
  server_WriteTimeout : Z;
  server_ShutdownTimeout : Z;
}.

Record CoordinatorConfig := mkCoordinatorConfig {
  coord_Enabled : bool;
  coord_Host : string;
  coord_Port : Z;
  coord_VirtualNodes : Z;
  coord_RetryInterval : Z;
  coord_MaxRetries : Z;
}.

Record StorageConfig := mkStorageConfig {
  DataDir : string;
  CommitLogDir : string;
  SSTableDir : string;
  MaxDiskUsage : float64;
}.

Record MemTableConfig := mkMemTableConfig { mem_MaxSize : Z; mem_FlushThreshold : Z; mem_NumMemTables : Z }.

(** The sections [setDefaults] and [Validate] leave alone. *)
Record CommitLogSection := mkCommitLogSection {
  log_SegmentSize : Z; log_MaxAge : Z; log_SyncWrites : bool; log_BufferSize : Z;
}.

Record SSTableSection := mkSSTableSection {
  L0Size : Z; L1Size : Z; L2Size : Z; LevelMultiplier : Z;
  BloomFilterFP : float64; BlockSize : Z; IndexInterval : Z;
}.

Record CompactionSection := mkCompactionSection { L0Trigger : Z; Workers : Z; Throttle : Z }.

Record GossipSection := mkGossipSection {
  gossip_Enabled : bool; BindPort : Z; SeedNodes : list string;
  GossipInterval : Z; ProbeTimeout : Z; ProbeInterval : Z;
}.

Record MetricsSection := mkMetricsSection { metrics_Enabled : bool; metrics_Port : Z; metrics_Path : string }.

Record LoggingSection := mkLoggingSection { log_Level : string; log_Format : string }.

(** The cache section has the fields of the cache's own configuration. *)
Record Config := mkConfig {
  cfg_Server : ServerConfig;
  cfg_Coordinator : CoordinatorConfig;
  cfg_Storage : StorageConfig;
  cfg_CommitLog : CommitLogSection;
  cfg_MemTable : MemTableConfig;
  cfg_SSTable : SSTableSection;
  cfg_Cache : CacheConfig;
  cfg_Compaction : CompactionSection;
  cfg_Gossip : GossipSection;
  cfg_Metrics : MetricsSection;
  cfg_Logging : LoggingSection;
}.

(** [if x == "" { x = d }] and [if x == 0 { x = d }]; a negative zero is 0, a
    NaN is not. *)
Definition str_or (x d : string) : string := if decide (x = EmptyString) then d else x.
Definition int_or (x d : Z) : Z := if x =? 0 then d else x.
Definition float_or (x d : float64) : float64 := if f64_le x (f64_of 0) && f64_le (f64_of 0) x then d else x.

Definition setDefaults (cfg : Config) : Config :=
  let s := cfg_Server cfg in let k := cfg_Coordinator cfg in let t := cfg_Storage cfg in
  let m := cfg_MemTable cfg in let c := cfg_Cache cfg in
  let dataDir := str_or (DataDir t) "/var/lib/pairdb" in
  mkConfig
    (mkServerConfig (server_NodeID s) (str_or (server_Host s) "0.0.0.0") (int_or (server_Port s) 50052)
       (int_or (server_MaxConnections s) 1000) (int_or (server_ReadTimeout s) (10 * second))
       (int_or (server_WriteTimeout s) (10 * second)) (int_or (server_ShutdownTimeout s) (30 * second)))
    (mkCoordinatorConfig (coord_Enabled k) (coord_Host k) (int_or (coord_Port k) 50051)
       (int_or (coord_VirtualNodes k) 150) (int_or (coord_RetryInterval k) (5 * second))
       (int_or (coord_MaxRetries k) 10))
    (mkStorageConfig dataDir (str_or (CommitLogDir t) (dataDir +:+ "/commitlog"))
       (str_or (SSTableDir t) (dataDir +:+ "/sstables")) (float_or (MaxDiskUsage t) (f64_lit 9 10)))
    (cfg_CommitLog cfg)
    (mkMemTableConfig (int_or (mem_MaxSize m) 67108864) (int_or (mem_FlushThreshold m) 60000000) (mem_NumMemTables m))
    (cfg_SSTable cfg)
    (mkCacheConfig (cache_MaxSize c) (float_or (FrequencyWeight c) (f64_lit 5 10))
       (float_or (RecencyWeight c) (f64_lit 5 10)) (AdaptiveWindow c))
    (cfg_Compaction cfg) (cfg_Gossip cfg) (cfg_Metrics cfg) (cfg_Logging cfg).

Definition Validate (c : Config) : res string unit :=
  _ ← ensure (negb (bool_decide (server_NodeID (cfg_Server c) = EmptyString))) "server.node_id is required";
  _ ← ensure (negb ((server_Port (cfg_Server c) <? 1) || (65535 <? server_Port (cfg_Server c))))
        "server.port must be between 1 and 65535";
  ensure (negb (f64_lt (MaxDiskUsage (cfg_Storage c)) (f64_of 0) || f64_lt (f64_of 1) (MaxDiskUsage (cfg_Storage c))))
    "storage.max_disk_usage must be between 0 and 1".

Inductive load_error := ReadFailed (message : string) | ParseFailed (message : string) | InvalidConfig (message : string).

(** [data] is what [os.ReadFile] returns, [unmarshal] is [yaml.Unmarshal] into a
    zero [Config]. *)
Definition LoadConfig (data : res string (list byte)) (unmarshal : list byte → res string Config)
    : res load_error Config :=
  match data with
  | Err e => Err (ReadFailed e)
  | Ok data =>
      match unmarshal data with
      | Err e => Err (ParseFailed e)
      | Ok cfg =>
          let cfg := setDefaults cfg in
          match Validate cfg with
          | Err e => Err (InvalidConfig e)
          | Ok _ => Ok cfg
          end
      end
  end.

(** [main]: the cache service of a node that starts with [cfg]. *)
Definition main_cache (cfg : Config) : CacheService :=
  NewCacheService (mkCacheConfig (cache_MaxSize (cfg_Cache cfg)) (FrequencyWeight (cfg_Cache cfg))
                     (RecencyWeight (cfg_Cache cfg)) (AdaptiveWindow (cfg_Cache cfg))).

(** ** Lemmas *)

Lemma LoadConfig_ok data unmarshal cfg :
  LoadConfig data unmarshal = Ok cfg →
  ∃ text raw, data = Ok text ∧ unmarshal text = Ok raw ∧ cfg = setDefaults raw ∧ Validate cfg = Ok tt.
Proof.
  unfold LoadConfig. destruct data as [text|]; [|discriminate]. destruct (unmarshal text) as [raw|] eqn:Hu; [|discriminate].
  destruct (Validate _) as [[]|] eqn:Hv; [|discriminate]. intros [= <-]. by exists text, raw.
Qed.

Lemma int_or_nonzero x d : d ≠ 0 → int_or x d ≠ 0.
Proof. unfold int_or. destruct (Z.eqb_spec x 0); lia. Qed.

Lemma str_or_nonempty x d : d ≠ EmptyString → str_or x d ≠ EmptyString.
Proof. unfold str_or. by case_decide. Qed.

Lemma str_app_nonempty (a b : string) : b ≠ EmptyString → a +:+ b ≠ EmptyString.
Proof. by destruct a. Qed.

Section composition.
Context `{MapRange} `{Codec MemTableEntry} `{Codec CommitLogEntry}.

Lemma log_and_put_cache ev op msg tenantID key value vc s r s' :
  log_and_put ev op msg tenantID key value vc s = Some (r, s') → cacheService s' = cacheService s.
Proof.
  unfold log_and_put. repeat (case_match; try discriminate); intros; simplify_option_eq; done.
Qed.

(** A cache without room never takes its first entry. *)
Lemma fresh_cache_put t1 t2 key value vc c :
  cache_MaxSize c ≤ 0 → cache_size key value < 2 ^ 63 → cache_Put t1 t2 key value vc (NewCacheService c) = None.
Proof.
  intros Hmax Hsize. unfold cache_Put, put_fuel. change (cache (NewCacheService c) !! key) with (@None CacheEntry).
  assert (0 < cache_size key value) by (unfold cache_size; lia).
  rewrite (make_room_oversized (cache_size key value)); [done|done|apply NewCacheService_inv|cbn; lia|].
  change (total_bytes (cache (NewCacheService c))) with 0. lia.
Qed.

Lemma validated_size tenantID key value vc :
  ValidateWrite NewValidator tenantID key value vc = Ok tt → cache_size (buildKey tenantID key) value < 2 ^ 63.
Proof.
  intros ((_ & Ht & _) & (_ & Hk & _) & Hv & _)%validate_write_spec. unfold str_len in *.
  assert (length (bytes (buildKey tenantID key)) = length (bytes tenantID) + S (length (bytes key)))%nat as Hl.
  { unfold buildKey. rewrite !bytes_app. rewrite !length_app. reflexivity. }
  assert (Z.of_nat (length value) ≤ maxValueSize NewValidator) as Hv' by (by destruct Hv as [->|Hv]).
  unfold cache_size. rewrite Hl. cbn in Ht, Hk, Hv'. unfold MaxTenantIDSize, MaxKeySize, MaxValueSize in *. lia.
Qed.

(** ** Properties *)

(** A loaded configuration names the node, has a usable port, directories and
    memtable sizes, and a disk limit that is neither negative nor above 1. *)
Theorem node_config_valid data unmarshal cfg :
  LoadConfig data unmarshal = Ok cfg →
  server_NodeID (cfg_Server cfg) ≠ EmptyString ∧ 1 ≤ server_Port (cfg_Server cfg) ≤ 65535 ∧
  CommitLogDir (cfg_Storage cfg) ≠ EmptyString ∧ SSTableDir (cfg_Storage cfg) ≠ EmptyString ∧
  mem_MaxSize (cfg_MemTable cfg) ≠ 0 ∧ mem_FlushThreshold (cfg_MemTable cfg) ≠ 0 ∧
  coord_VirtualNodes (cfg_Coordinator cfg) ≠ 0 ∧ coord_MaxRetries (cfg_Coordinator cfg) ≠ 0 ∧
  f64_lt (MaxDiskUsage (cfg_Storage cfg)) (f64_of 0) = false ∧ f64_lt (f64_of 1) (MaxDiskUsage (cfg_Storage cfg)) = false.
Proof.
  intros (text & raw & _ & _ & -> & Hv)%LoadConfig_ok. unfold Validate in Hv.
  rewrite !ensure_bind_ok, ensure_ok, !negb_true_iff, !orb_false_iff, bool_decide_eq_false in Hv.
  destruct Hv as (Hn & [Hp1 Hp2] & Hd1 & Hd2). split_and!; try done; try lia.
  1, 2: apply str_or_nonempty; by apply str_app_nonempty.
  all: by apply int_or_nonzero.
Qed.

(** C39: When a configuration without [cache.max_size] is loaded, which nothing
    prevents (no default is set for it and [Validate] does not look at it), on the
    node that starts with it no first write ever succeeds: it is refused, or it
    does not return. *)
Theorem unset_cache_size_blocks_writes text unmarshal raw cfg cl mem sst dm ev tenantID key value vc :
  unmarshal text = Ok raw → cache_MaxSize (cfg_Cache raw) = 0 →
  LoadConfig (Ok text) unmarshal = Ok cfg →
  let result := storage_Write ev tenantID key value vc (NewStorageService cl mem sst (main_cache cfg) dm) in
  result = None ∨ ∃ e s', result = Some (Err e, s').
Proof.
  intros Hu Hmax (text' & raw' & [= <-] & Hu' & -> & _)%LoadConfig_ok. rewrite Hu in Hu'. injection Hu' as <-.
  cbn zeta. unfold storage_Write. change (validator (NewStorageService _ _ _ _ _)) with NewValidator.
  destruct (ValidateWrite NewValidator tenantID key value vc) as [[]|e] eqn:Hv; [|by eauto].
  destruct (CheckBeforeWrite _ _ _ _) as [[[]|c] dm']; [|by eauto].
  destruct (log_and_put _ _ _ _ _ _ _ _) as [[r1 s1]|] eqn:Hlp; [|by left].
  apply log_and_put_cache in Hlp as Hc. destruct r1 as [[]|e]; cbn [mbind option_bind]; [|by eauto].
  rewrite Hc. change (cacheService (set_disk dm' (NewStorageService cl mem sst (main_cache (setDefaults raw)) dm)))
    with (main_cache (setDefaults raw)).
  unfold main_cache. left. rewrite fresh_cache_put; [done|cbn; lia|by eapply validated_size].
Qed.
End composition.

(** ** Witnesses *)

(** A file with a node identifier and nothing else. *)
Definition x_raw : Config :=
  mkConfig (mkServerConfig "node-1" EmptyString 0 0 0 0 0) (mkCoordinatorConfig false EmptyString 0 0 0 0)
    (mkStorageConfig EmptyString EmptyString EmptyString (f64_of 0)) (mkCommitLogSection 0 0 false 0) (mkMemTableConfig 0 0 0)
    (mkSSTableSection 0 0 0 0 (f64_of 0) 0 0) (mkCacheConfig 0 (f64_of 0) (f64_of 0) 0) (mkCompactionSection 0 0 0)
    (mkGossipSection false 0 [] 0 0 0) (mkMetricsSection false 0 EmptyString) (mkLoggingSection EmptyString EmptyString).

Definition x_unmarshal (data : list byte) : res string Config := Ok x_raw.

Lemma node_config_valid_witness : server_Port (cfg_Server (setDefaults x_raw)) ≤ 65535.
Proof. apply (node_config_valid (Ok []) x_unmarshal (setDefaults x_raw)). by vm_compute. Defined.

(** The write of Storage.v that succeeds with a cache of 4096 bytes. *)
Lemma unset_cache_size_blocks_writes_witness :
  let s := NewStorageService (commitLogService x0) (memTableService x0) (sstableService x0)
             (main_cache (setDefaults x_raw)) (diskManager x0) in
  storage_Write (x_env 1700000001 1) "t1" "a" (bytes "old") x_vc s = None ∧
  is_ok <$> (fst <$> storage_Write (x_env 1700000001 1) "t1" "a" (bytes "old") x_vc x0) = Some true.
Proof.
  cbn zeta. split; [|by vm_compute].
  destruct (unset_cache_size_blocks_writes [] x_unmarshal x_raw (setDefaults x_raw) (commitLogService x0) (memTableService x0)
    (sstableService x0) (diskManager x0) (x_env 1700000001 1) "t1" "a" (bytes "old") x_vc) as [Hn|(e & s' & He)];
    [reflexivity|reflexivity|by vm_compute|exact Hn|]. by vm_compute in He.
Defined.
