(* ===== verification/GatewayConfig.v ===== *)
(** * The gateway's configuration: [api-gateway/internal/config/config.go]

    The defaults, [Validate] and [Load], and what the client does with the
    result.  Viper is an argument: whether it could read the file, and the
    configuration it decodes from the defaults, the file and the environment.
    Durations are in nanoseconds. *)

From S2P Require Import Prelude Float64 GatewayClient GatewayConvert Gateway.
#[local] Open Scope Z_scope.

(** ** Definitions *)

Record ServerConfig := mkServerConfig {
  server_Port : Z;
  server_ReadTimeout : Z;
  server_WriteTimeout : Z;
  server_IdleTimeout : Z;
  server_ShutdownTimeout : Z;
}.

Record CoordinatorConfig := mkCoordinatorConfig {
  coord_Endpoints : list string;
  coord_Timeout : Z;
  coord_MaxRetries : Z;
  coord_RetryBackoff : Z;
  coord_KeepaliveTime : Z;
  coord_KeepaliveTimeout : Z;
  coord_MaxReceiveMessageSize : Z;
  coord_MaxSendMessageSize : Z;
}.

Record RateLimiterConfig := mkRateLimiterConfig {
  limiter_Enabled : bool;
  RequestsPerSecond : float64;
  BurstSize : Z;
}.

Record MetricsConfig := mkMetricsConfig { metrics_Enabled : bool; metrics_Port : Z; metrics_Path : string }.

Record LoggingConfig := mkLoggingConfig { log_Level : string; log_Format : string; log_Output : string }.

Record Config := mkConfig {
  cfg_Server : ServerConfig;
  cfg_Coordinator : CoordinatorConfig;
  cfg_RateLimiter : RateLimiterConfig;
  cfg_Metrics : MetricsConfig;
  cfg_Logging : LoggingConfig;
}.

(** The values [setDefaults] registers, by key. *)
Inductive setting :=
  | SInt (n : Z) | SBool (b : bool) | SFloat (f : float64) | SString (s : string) | SStrings (l : list string).

Definition setDefaults : list (string * setting) :=
  [("server.port", SInt 8080); ("server.read_timeout", SString "30s"); ("server.write_timeout", SString "30s");
   ("server.idle_timeout", SString "120s"); ("server.shutdown_timeout", SString "30s");
   ("coordinator.endpoints", SStrings ["localhost:50051"]); ("coordinator.timeout", SString "30s");
   ("coordinator.max_retries", SInt 3); ("coordinator.retry_backoff", SString "100ms");
   ("coordinator.keepalive_time", SString "30s"); ("coordinator.keepalive_timeout", SString "10s");
   ("coordinator.max_receive_message_size", SInt 16777216); ("coordinator.max_send_message_size", SInt 16777216);
   ("rate_limiter.enabled", SBool true); ("rate_limiter.requests_per_second", SFloat (f64_of 1000));
   ("rate_limiter.burst_size", SInt 100);
   ("metrics.enabled", SBool true); ("metrics.port", SInt 9090); ("metrics.path", SString "/metrics");
   ("logging.level", SString "info"); ("logging.format", SString "json"); ("logging.output", SString "stdout")].

(** [x <= 0] on a [float64]: false for a NaN. *)
Definition Validate (c : Config) : res string unit :=
  let port := server_Port (cfg_Server c) in let l := cfg_RateLimiter c in let m := cfg_Metrics c in
  _ ← ensure (negb ((port <=? 0) || (65535 <? port))) "invalid server port";
  _ ← ensure (negb (bool_decide (coord_Endpoints (cfg_Coordinator c) = []))) "at least one coordinator endpoint is required";
  _ ← ensure (negb (coord_Timeout (cfg_Coordinator c) <=? 0)) "coordinator timeout must be positive";
  _ ← (if limiter_Enabled l then
         _ ← ensure (negb (f64_le (RequestsPerSecond l) (f64_of 0))) "rate limiter requests per second must be positive";
         ensure (negb (BurstSize l <=? 0)) "rate limiter burst size must be positive"
       else Ok tt);
  if metrics_Enabled m then
    ensure (negb ((metrics_Port m <=? 0) || (65535 <? metrics_Port m))) "invalid metrics port"
  else Ok tt.

(** What [ReadInConfig] reports. *)
Inductive config_file := FileRead | FileNotFound | FileUnreadable (message : string).

Inductive load_error := ReadFailed (message : string) | UnmarshalFailed (message : string) | ValidationFailed (message : string).

(** [unmarshal] is what viper decodes, given the registered defaults and
    whether the file was found. *)
Definition Load (file : config_file) (unmarshal : list (string * setting) → config_file → res string Config)
    : res load_error Config :=
  let decoded :=
    match unmarshal setDefaults file with
    | Err e => Err (UnmarshalFailed e)
    | Ok cfg => match Validate cfg with Err e => Err (ValidationFailed e) | Ok _ => Ok cfg end
    end in
  match file with
  | FileUnreadable e => Err (ReadFailed e)
  | _ => decoded
  end.

(** The part of the configuration the client's retries use. *)
Definition client_config (cfg : Config) : ClientConfig :=
  mkClientConfig (coord_MaxRetries (cfg_Coordinator cfg)) (coord_RetryBackoff (cfg_Coordinator cfg)).

(** ** Lemmas *)

Lemma gateway_Load_ok file unmarshal cfg :
  Load file unmarshal = Ok cfg → unmarshal setDefaults file = Ok cfg ∧ Validate cfg = Ok tt.
Proof.
  unfold Load. destruct file; [| |discriminate]; destruct (unmarshal _ _) as [c|]; try discriminate;
    destruct (Validate c) as [[]|] eqn:Hv; try discriminate; by intros [= ->].
Qed.

Lemma withRetry_none {St R} cfg wakes (operation : nat → St → res call_error R * St) s :
  MaxRetries cfg < 0 → withRetry cfg wakes operation s = (Ok None, [], s).
Proof. intros Hneg. unfold withRetry. by replace (Z.to_nat (MaxRetries cfg + 1)) with 0%nat by lia. Qed.

(** ** Properties *)

(** A loaded configuration has ports in range, an endpoint and a positive
    timeout, and a limiter that, when it is on, has a positive burst and a rate
    that is not zero or negative. *)
Theorem gateway_config_valid file unmarshal cfg :
  Load file unmarshal = Ok cfg →
  1 ≤ server_Port (cfg_Server cfg) ≤ 65535 ∧ coord_Endpoints (cfg_Coordinator cfg) ≠ [] ∧
  0 < coord_Timeout (cfg_Coordinator cfg) ∧
  (limiter_Enabled (cfg_RateLimiter cfg) = true →
   f64_le (RequestsPerSecond (cfg_RateLimiter cfg)) (f64_of 0) = false ∧ 0 < BurstSize (cfg_RateLimiter cfg)) ∧
  (metrics_Enabled (cfg_Metrics cfg) = true → 1 ≤ metrics_Port (cfg_Metrics cfg) ≤ 65535).
Proof.
  intros [_ Hv]%gateway_Load_ok. unfold Validate in Hv. cbn zeta in Hv.
  repeat match type of Hv with
  | (_ ← ensure ?b _; _) = Ok _ =>
      let E := fresh "E" in destruct b eqn:E; [cbn [ensure mbind res_bind] in Hv|discriminate Hv]
  end.
  rewrite ?negb_true_iff, ?orb_false_iff, ?bool_decide_eq_false in *.
  split_and!; [lia|lia|done|lia|..].
  - intros Hl. rewrite Hl in Hv. destruct (f64_le _ _); [discriminate|]. cbn in Hv.
    destruct (BurstSize _ <=? 0) eqn:Hb; [discriminate|]. lia.
  - intros Hm. rewrite Hm in Hv. destruct (if limiter_Enabled _ then _ else _) as [[]|]; [|discriminate].
    cbn [mbind res_bind] in Hv. apply ensure_ok in Hv. rewrite negb_true_iff, orb_false_iff in Hv. lia.
Qed.

(** [Validate] does not look at the number of retries.  A gateway that starts
    with a negative one never calls the coordinator: the handler of a valid write panics on
    the missing reply, writes nothing and leaves the coordinator as it was. *)
Theorem negative_retries_never_call {St} cfg wakes (client : stub St) r req w g :
  coord_MaxRetries (cfg_Coordinator cfg) < 0 →
  to_WriteKeyValueRequest r = Ok req →
  let '(panicked, w', g') := http_WriteKeyValue (client_config cfg) wakes client r w g in
  panicked = true ∧ w' = w ∧ coordinator g' = coordinator g.
Proof.
  intros Hneg Hreq. unfold http_WriteKeyValue, serve. rewrite Hreq. unfold Client_WriteKeyValue.
  by rewrite withRetry_none.
Qed.

(** ** Witnesses *)

Definition x_gateway_config (retries : Z) : Config :=
  mkConfig (mkServerConfig 8080 (30 * second) (30 * second) (120 * second) (30 * second))
    (mkCoordinatorConfig ["localhost:50051"] (30 * second) retries (second / 10) (30 * second) (10 * second) 16777216 16777216)
    (mkRateLimiterConfig true (f64_of 1000) 100) (mkMetricsConfig true 9090 "/metrics")
    (mkLoggingConfig "info" "json" "stdout").

Lemma gateway_config_valid_witness :
  Load FileNotFound (λ _ _, Ok (x_gateway_config 3)) = Ok (x_gateway_config 3) ∧ 0 < BurstSize (cfg_RateLimiter (x_gateway_config 3)).
Proof.
  split; [reflexivity|].
  apply (gateway_config_valid FileNotFound (λ _ _, Ok (x_gateway_config 3)) (x_gateway_config 3)); reflexivity.
Defined.

Lemma negative_retries_never_call_witness :
  Load FileRead (λ _ _, Ok (x_gateway_config (-1))) = Ok (x_gateway_config (-1)) ∧
  (http_WriteKeyValue (client_config (x_gateway_config (-1))) (λ _, TimerFired) x_stub x_write_request NewWriter x_state).1.1 = true.
Proof.
  split; [reflexivity|].
  pose proof (negative_retries_never_call (x_gateway_config (-1)) (λ _, TimerFired) x_stub x_write_request) as Hn.
  destruct (to_WriteKeyValueRequest x_write_request) as [req|] eqn:Hreq; [|by vm_compute in Hreq].
  specialize (Hn req NewWriter x_state ltac:(reflexivity) eq_refl).
  destruct (http_WriteKeyValue _ _ _ _ _ _) as [[p w] g]. apply Hn.
Defined.
