(* ===== verification/Endpoints.v ===== *)
(** * Status endpoints:
    [coordinator/internal/health/health_check.go],
    [storage-node/internal/server/metrics_server.go],
    [storage-node/internal/service/gossip_service.go], and the address a node
    registers in [storage-node/cmd/storage/main.go]

    The handlers write on the response writer of Gateway.v.  What the stores
    answer to a ping, what [Statfs] reports, the clock and the environment are
    arguments.  The membership protocol itself is hashicorp/memberlist. *)

From S2P Require Import Prelude Float64 Json GoJson Health GatewayConvert Gateway.
#[local] Open Scope Z_scope.

(** ** Definitions *)

(** *** The coordinator's probes *)

(** A store that was not set up is [None]; otherwise its answer to a ping. *)
Record HealthChecker := mkChecker {
  metadataStore : option (res string unit);
  idempotencyStore : option (res string unit);
}.

Record HealthStatus := mkHealthStatus {
  hs_Status : string;
  hs_Timestamp : Z;
  hs_Checks : gmap string string;
}.

(** The keys of a map are written in order; [Checks] is left out when empty. *)
Definition encode_status (s : HealthStatus) : list (string * list byte) :=
  str "status" (hs_Status s) ++ int "timestamp" (hs_Timestamp s) ++
  (if decide (hs_Checks s = ∅) then []
   else [("checks", json_object ((λ kv, (kv.1, json_string kv.2)) <$>
           merge_sort (λ a b : string * string, String.le a.1 b.1) (map_to_list (hs_Checks s))))]).

Definition LivenessHandler (now : Z) (w : Writer) : Writer :=
  writeJSONResponse 200 (Some (encode_status (mkHealthStatus "alive" now ∅))) w.

Definition checkStore (store : option (res string unit)) : res string unit := default (Ok tt) store.

Definition check_text (r : res string unit) : string :=
  match r with Ok _ => "healthy" | Err e => "unhealthy: " +:+ e end.

Definition ReadinessHandler (h : HealthChecker) (now : Z) (w : Writer) : Writer :=
  let metadata := checkStore (metadataStore h) in
  let idempotency := checkStore (idempotencyStore h) in
  let cache : res string unit := Ok tt in
  let checks := <["cache" := check_text cache]> (<["idempotency_store" := check_text idempotency]>
                  {["metadata_store" := check_text metadata]}) in
  let allHealthy := is_ok metadata && is_ok idempotency && is_ok cache in
  let status := mkHealthStatus (if allHealthy then "ready" else "not_ready") now checks in
  let w := header_Set "Content-Type" "application/json" w in
  Encode (Some (encode_status status)) (WriteHeader (if allHealthy then 200 else 503) w).

(** *** The storage node's metrics server *)

(** [int64(stat.Bsize)] and the others are conversions of 64-bit values. *)
Definition getDiskStats (stat : option (fs_stat * Z)) : option (Z * Z) :=
  '(st, bavail) ← stat;
  let available := i64 (i64 bavail * i64 (fs_Bsize st)) in
  let total := i64 (i64 (fs_Blocks st) * i64 (fs_Bsize st)) in
  Some (i64 (total - i64 (i64 (fs_Bfree st) * i64 (fs_Bsize st))), available).

Definition disk_usage_percent (used available : Z) : float64 :=
  f64_mul (f64_div (f64_of used) (f64_of (i64 (used + available)))) (f64_of 100).

(** A line of text with quotes, as the format strings of the source. *)
Definition field (name value : string) : list byte := json_string name ++ [x3a] ++ bytes value.

Definition quoted (s : string) : string := string_of (json_string s).

Definition healthHandler (now : string) (w : Writer) : Writer :=
  let w := WriteHeader 200 (header_Set "Content-Type" "application/json" w) in
  Write ([lbrace] ++ field "status" (quoted "healthy") ++ [x2c] ++ field "timestamp" (string_of ([quote] ++ bytes now ++ [quote])) ++ [rbrace]) w.

Definition readyHandler (stat : option (fs_stat * Z)) (now : string) (w : Writer) : Writer :=
  match getDiskStats stat with
  | None =>
      Write ([lbrace] ++ field "status" (quoted "not_ready") ++ [x2c] ++ field "reason" (quoted "disk_stats_unavailable") ++ [rbrace])
        (WriteHeader 503 w)
  | Some (used, available) =>
      let percent := disk_usage_percent used available in
      if f64_lt (f64_of 90) percent then
        Write ([lbrace] ++ field "status" (quoted "not_ready") ++ [x2c] ++ field "reason" (quoted "disk_full") ++ [x2c] ++
               field "disk_usage_percent" (sprintf_2f percent) ++ [rbrace]) (WriteHeader 503 w)
      else
        Write ([lbrace] ++ field "status" (quoted "ready") ++ [x2c] ++
               field "timestamp" (string_of ([quote] ++ bytes now ++ [quote])) ++ [x2c] ++
               field "disk_usage_percent" (sprintf_2f percent) ++ [rbrace])
          (WriteHeader 200 (header_Set "Content-Type" "application/json" w))
  end.

(** *** Gossip *)

Record HealthMetrics := mkHealthMetrics {
  CPUUsage : float64;
  MemoryUsage : float64;
  DiskUsage : float64;
  RequestRate : float64;
  ErrorRate : float64;
  CacheHitRate : float64;
}.

Record GossipHealth := mkGossipHealth {
  gh_NodeID : string;
  gh_Status : HealthNodeStatus;
  gh_Timestamp : Z;
  gh_Metrics : HealthMetrics;
}.

Definition NewGossipService (nodeID : string) (now : Z) : GossipHealth :=
  let zero := f64_of 0 in mkGossipHealth nodeID NodeStatusHealthy now (mkHealthMetrics zero zero zero zero zero zero).

Definition UpdateHealthStatus (metrics : HealthMetrics) (now : Z) (g : GossipHealth) : GossipHealth :=
  let status :=
    if f64_lt (f64_of 90) (CPUUsage metrics) || f64_lt (f64_of 90) (MemoryUsage metrics) || f64_lt (f64_of 90) (DiskUsage metrics)
    then NodeStatusDegraded
    else if f64_lt (f64_lit 1 10) (ErrorRate metrics) then NodeStatusUnhealthy
    else NodeStatusHealthy in
  mkGossipHealth (gh_NodeID g) status now metrics.

(** [NodeMeta]: [data] is the JSON of the health data, [limit] is not negative. *)
Definition NodeMeta (data : list byte) (limit : nat) : list byte :=
  if (limit <? length data)%nat then take limit data else data.

(** *** The address a node registers *)

Definition registrationHost (getenv : string → string) (host nodeID : string) : string :=
  let podNamespace := getenv "POD_NAMESPACE" in
  let podIP := getenv "POD_IP" in
  if decide (podNamespace ≠ EmptyString)
  then nodeID +:+ "." +:+ "pairdb-storage-node-headless" +:+ "." +:+ podNamespace +:+ ".svc.cluster.local"
  else if decide (podIP ≠ EmptyString) then podIP
  else host.

(** ** Properties *)

(** The coordinator reports itself ready exactly when no configured store
    failed its ping, and answers 503 otherwise; the answer names the check that
    failed. *)
Theorem coordinator_ready_iff (h : HealthChecker) (now : Z) :
  let w := ReadinessHandler h now NewWriter in
  (status_of w = Some 200 ∨ status_of w = Some 503) ∧
  (status_of w = Some 200 ↔ ∀ e, metadataStore h ≠ Some (Err e) ∧ idempotencyStore h ≠ Some (Err e)) ∧
  ∃ checks, w_body w = json_object (encode_status (mkHealthStatus (if decide (status_of w = Some 200) then "ready" else "not_ready") now checks)) ++ [x0a] ∧
    checks !! "metadata_store" = Some (check_text (default (Ok tt) (metadataStore h))) ∧
    checks !! "idempotency_store" = Some (check_text (default (Ok tt) (idempotencyStore h))).
Proof.
  destruct h as [[[[]|e1]|] [[[]|e2]|]]; cbn; (split; [naive_solver|]); (split; [naive_solver|]);
    (eexists; split; [reflexivity|]); by rewrite lookup_insert_ne, ?lookup_insert_eq, ?lookup_insert_ne, ?lookup_singleton_eq by done.
Qed.

(** The storage node's readiness probe: 503 without disk figures or above 90
    percent, 200 otherwise, so also when the file system has no space at all to
    divide by. *)
Theorem node_ready_iff (stat : option (fs_stat * Z)) (now : string) :
  status_of (readyHandler stat now NewWriter) =
  Some (match getDiskStats stat with
        | Some (used, available) => if f64_lt (f64_of 90) (disk_usage_percent used available) then 503 else 200
        | None => 503
        end) ∧
  getDiskStats (Some (mkFsStat 0 0 4096, 0)) = Some (0, 0) ∧
  f64_lt (f64_of 90) (disk_usage_percent 0 0) = false.
Proof.
  split; [|by vm_compute]. unfold readyHandler. destruct (getDiskStats stat) as [[used available]|]; [|done].
  by destruct (f64_lt _ _).
Qed.

(** Load hides errors: a node above a resource limit is announced as degraded
    whatever its error rate, and only one below every limit as unhealthy. *)
Theorem gossip_status (metrics : HealthMetrics) (now : Z) (g : GossipHealth) :
  let loaded := ∃ x, x ∈ [CPUUsage metrics; MemoryUsage metrics; DiskUsage metrics] ∧ f64_lt (f64_of 90) x = true in
  let s := gh_Status (UpdateHealthStatus metrics now g) in
  (s = NodeStatusDegraded ↔ loaded) ∧
  (s = NodeStatusUnhealthy ↔ ¬ loaded ∧ f64_lt (f64_lit 1 10) (ErrorRate metrics) = true).
Proof.
  cbn zeta. unfold UpdateHealthStatus. cbn [gh_Status].
  assert ((∃ x, x ∈ [CPUUsage metrics; MemoryUsage metrics; DiskUsage metrics] ∧ f64_lt (f64_of 90) x = true) ↔
    f64_lt (f64_of 90) (CPUUsage metrics) || f64_lt (f64_of 90) (MemoryUsage metrics) || f64_lt (f64_of 90) (DiskUsage metrics) = true)
    as ->.
  { setoid_rewrite list_elem_of_In. rewrite !orb_true_iff. simpl. naive_solver. }
  destruct (_ || _); [split; naive_solver|]. destruct (f64_lt _ (ErrorRate _)); split; naive_solver.
Qed.
