(* ===== verification/Prometheus.v ===== *)
(** * What the programs rely on of the Prometheus client library

    The three [internal/metrics] packages only declare instruments and call
    them.  The client library is a registry behind an interface: what it holds,
    and for every instrument and label values the updates made so far.  Its
    laws are the documented ones: names are unique, [WithLabelValues] wants one
    value per label, [Add] of a counter does not take a negative number.  [None]
    is a panic.  Help texts are left out. *)

From S2P Require Import Prelude Float64 Utf8 Json.
#[local] Open Scope Z_scope.

(** ** Instruments *)

Inductive Buckets :=
  | DefBuckets
  | ExponentialBuckets (start factor : Z) (count : nat)
  | LinearBuckets (start width : Z) (count : nat)
  | BucketList (bounds : list float64).

Inductive instrument := Counter | Gauge | Histogram (b : Buckets).

Record Opts := mkOpts {
  o_instrument : instrument;
  Namespace : string;
  Subsystem : string;
  Name : string;
  ConstLabels : list (string * string);
  Labels : list string;
}.

(** The name of the metric: the components that are not empty, joined by underscores. *)
Definition fqName (o : Opts) : string :=
  let part s := if decide (s = EmptyString) then EmptyString else s +:+ "_" in
  part (Namespace o) +:+ part (Subsystem o) +:+ Name o.

Inductive update := Inc | Dec | Add (x : float64) | Set_ (x : float64) | Observe (x : float64).

(** A call of an instrument: its label values and the update. *)
Definition call : Type := Opts * list string * update.

(** The calls that do not panic, on an instrument of the right kind. *)
Definition admissible (c : call) : Prop :=
  let '(o, values, u) := c in
  length values = length (Labels o) ∧ Forall (λ v, valid_utf8 v = true) values ∧
  match o_instrument o, u with
  | Counter, Inc => True
  | Counter, Add x => f64_lt x (f64_of 0) = false
  | Gauge, (Inc | Dec | Add _ | Set_ _) => True
  | Histogram _, Observe _ => True
  | _, _ => False
  end.

(** ** The library *)

Class Prometheus := {
  registry : Type;
  registered : registry → list Opts;
  history : registry → string → list string → list update;
  register : Opts → registry → option registry;
  apply_call : call → registry → option registry;
  register_new o r :
    fqName o ∉ fqName <$> registered r →
    ∃ r', register o r = Some r' ∧ registered r' = registered r ++ [o] ∧
      ∀ n values, history r' n values = history r n values;
  register_again o r : o ∈ registered r → register o r = None;
  history_unused r n values : n ∉ fqName <$> registered r → history r n values = [];
  apply_admissible o values u r :
    o ∈ registered r → admissible (o, values, u) →
    ∃ r', apply_call (o, values, u) r = Some r' ∧ registered r' = registered r ∧
      ∀ n vs, history r' n vs =
        if decide (n = fqName o ∧ vs = values) then history r n vs ++ [u] else history r n vs;
  apply_negative o values x r :
    o_instrument o = Counter → f64_lt x (f64_of 0) = true → apply_call (o, values, Add x) r = None;
}.

Section registry.
Context `{Prometheus}.

Definition register_all (os : list Opts) (r : registry) : option registry :=
  foldM (λ r o, register o r) r os.

Definition perform (cs : list call) (r : registry) : option registry :=
  foldM (λ r c, apply_call c r) r cs.

(** The updates among [cs] that concern the metric [n] with these label values. *)
Definition updates (n : string) (values : list string) (cs : list call) : list update :=
  (λ c : call, c.2) <$> filter (λ c : call, fqName c.1.1 = n ∧ c.1.2 = values) cs.

(** Instruments with names of their own can be registered. *)
Lemma register_all_new os r :
  NoDup (fqName <$> (registered r ++ os)) →
  ∃ r', register_all os r = Some r' ∧ registered r' = registered r ++ os ∧
    ∀ n values, history r' n values = history r n values.
Proof.
  revert r. induction os as [|o os IH]; intros r Hnd.
  { exists r. by rewrite app_nil_r. }
  destruct (register_new o r) as (r1 & Hr1 & Hreg & Hh).
  { rewrite fmap_app, fmap_cons in Hnd. apply NoDup_app in Hnd as (_ & Hd & _).
    intros Hin. apply (Hd _ Hin). by left. }
  destruct (IH r1) as (r2 & Hr2 & Hreg2 & Hh2).
  { rewrite Hreg. by rewrite <-(assoc (++)). }
  exists r2. unfold register_all. cbn [foldM]. rewrite Hr1. split; [done|].
  split; [by rewrite Hreg2, Hreg, <-(assoc (++))|]. intros n values. by rewrite Hh2.
Qed.

(** Registering the first instrument again panics. *)
Lemma register_all_again os r o : os !! 0%nat = Some o → o ∈ registered r → register_all os r = None.
Proof. destruct os; [done|]. intros [= ->] Hin. unfold register_all. cbn [foldM]. by rewrite register_again. Qed.

(** Admissible calls of registered instruments all take effect, and nothing else does. *)
Lemma perform_admissible cs r :
  Forall (λ c, c.1.1 ∈ registered r ∧ admissible c) cs →
  ∃ r', perform cs r = Some r' ∧ registered r' = registered r ∧
    ∀ n values, history r' n values = history r n values ++ updates n values cs.
Proof.
  revert r. induction cs as [|[[o values] u] cs IH]; intros r Hall.
  { exists r. split_and!; [done..|]. intros. by rewrite app_nil_r. }
  apply Forall_cons in Hall as [[Hin Had] Hall].
  destruct (apply_admissible o values u r Hin Had) as (r1 & Hr1 & Hreg & Hh).
  destruct (IH r1) as (r2 & Hr2 & Hreg2 & Hh2); [by rewrite Hreg|].
  exists r2. unfold perform. cbn [foldM]. rewrite Hr1. split; [done|]. split; [congruence|].
  intros n vs. rewrite Hh2, Hh. unfold updates. rewrite filter_cons. cbn [fst snd].
  case_decide as Hd; [rewrite decide_True by naive_solver; by rewrite <-(assoc (++))|].
  rewrite decide_False by naive_solver. done.
Qed.

(** A package that registers its instruments and calls only them. *)
Lemma register_perform os cs r :
  NoDup (fqName <$> registered r) → NoDup (fqName <$> os) → (∀ o, o ∈ os → fqName o ∉ fqName <$> registered r) →
  Forall (λ c, c.1.1 ∈ os ∧ admissible c) cs →
  ∃ r1 r2, register_all os r = Some r1 ∧ perform cs r1 = Some r2 ∧ registered r2 = registered r ++ os ∧
    ∀ n values, history r2 n values = history r n values ++ updates n values cs.
Proof.
  intros Hr Hos Hfree Hcs. destruct (register_all_new os r) as (r1 & Hr1 & Hreg & Hh1).
  { rewrite fmap_app. apply NoDup_app. split; [done|]. split; [|done].
    intros n Hn (o & -> & Ho)%list_elem_of_fmap. by apply (Hfree o). }
  destruct (perform_admissible cs r1) as (r2 & Hr2 & Hreg2 & Hh2).
  { eapply Forall_impl; [exact Hcs|]. intros c [Hin Had]. split; [|done]. rewrite Hreg. apply elem_of_app. by right. }
  exists r1, r2. split_and!; [done|done|congruence|]. intros n values. by rewrite Hh2, Hh1.
Qed.

Lemma updates_app n values cs1 cs2 : updates n values (cs1 ++ cs2) = updates n values cs1 ++ updates n values cs2.
Proof. unfold updates. by rewrite filter_app, fmap_app. Qed.

(** A negative amount for a counter stops the calls that follow. *)
Lemma perform_negative cs1 cs2 o values x r :
  o_instrument o = Counter → f64_lt x (f64_of 0) = true → perform (cs1 ++ (o, values, Add x) :: cs2) r = None.
Proof.
  intros Hc Hx. unfold perform. rewrite foldM_app. destruct (foldM (λ r c, apply_call c r) r cs1) as [r1|]; [|done].
  cbn [mbind option_bind foldM]. by rewrite apply_negative.
Qed.
End registry.

(** ** An instance: the instruments, and the updates by name and label values *)

#[global] Instance float64_eq_dec : EqDecision float64.
Proof. unfold float64. solve_decision. Defined.
#[global] Instance Buckets_eq_dec : EqDecision Buckets.
Proof. solve_decision. Defined.
#[global] Instance instrument_eq_dec : EqDecision instrument.
Proof. solve_decision. Defined.
#[global] Instance Opts_eq_dec : EqDecision Opts.
Proof. solve_decision. Defined.

#[global] Instance admissible_dec (c : call) : Decision (admissible c).
Proof. destruct c as [[o values] u]. unfold admissible. destruct (o_instrument o), u; apply _. Defined.

Definition table : Type := list Opts * (string → list string → list update).

Definition table_history (r : table) (n : string) (values : list string) : list update :=
  if decide (n ∈ fqName <$> r.1) then r.2 n values else [].

Definition table_register (o : Opts) (r : table) : option table :=
  if decide (fqName o ∈ fqName <$> r.1) then None
  else Some (r.1 ++ [o], λ n values, if decide (n = fqName o) then [] else r.2 n values).

Definition table_apply (c : call) (r : table) : option table :=
  let '(o, values, u) := c in
  if decide (o ∈ r.1 ∧ admissible c)
  then Some (r.1, λ n vs, if decide (n = fqName o ∧ vs = values) then r.2 n vs ++ [u] else r.2 n vs)
  else None.

#[global] Program Instance table_Prometheus : Prometheus := {
  registry := table;
  registered := fst;
  history := table_history;
  register := table_register;
  apply_call := table_apply;
}.
Next Obligation.
  intros o r Hni. unfold table_register. rewrite decide_False by done. eexists. split; [done|]. split; [done|].
  intros n values. unfold table_history. cbn [fst snd]. destruct (decide (n = fqName o)) as [->|Hne].
  - rewrite (decide_False (P := fqName o ∈ fqName <$> r.1)) by done. by case_decide.
  - destruct (decide (n ∈ fqName <$> r.1)) as [Hi|Hi]; [rewrite decide_True|rewrite decide_False]; try done;
      rewrite fmap_app, elem_of_app; [by left|]. by intros [?|?%list_elem_of_singleton].
Qed.
Next Obligation.
  intros o r Hin. unfold table_register. rewrite decide_True; [done|]. by apply list_elem_of_fmap_2.
Qed.
Next Obligation. intros r n values Hni. unfold table_history. by rewrite decide_False. Qed.
Next Obligation.
  intros o values u r Hin Had. unfold table_apply. rewrite decide_True by done. eexists. split; [done|]. split; [done|].
  intros n vs. unfold table_history. cbn [fst snd]. destruct (decide (n = fqName o ∧ vs = values)) as [[-> ->]|Hne]; [|done].
  assert (fqName o ∈ fqName <$> r.1) as Hf by (by apply list_elem_of_fmap_2). repeat case_decide; naive_solver.
Qed.
Next Obligation.
  intros o values x r Hc Hx. unfold table_apply. rewrite decide_False; [done|]. unfold admissible. rewrite Hc, Hx. naive_solver.
Qed.

Definition empty_table : @registry table_Prometheus := (([], λ _ _, []) : table).

Definition table_of (os : list Opts) : @registry table_Prometheus := ((os, λ _ _, []) : table).
