(* ===== verification/NodeMetrics.v ===== *)
(** * The storage node's metrics: [storage-node/internal/metrics/prometheus.go],
    and what [storage-node/internal/server/metrics_server.go] records

    The fields of [Metrics] are kept in the groups their comments name.  A
    method is the list of calls it makes on the instruments. *)

From S2P Require Import Prelude Float64 Utf8 Json Prometheus Health Endpoints.
#[local] Open Scope Z_scope.

(** ** Definitions *)

Record RequestMetrics := mkRequestMetrics {
  WriteRequestsTotal : Opts;
  WriteRequestsDuration : Opts;
  WriteRequestsBytes : Opts;
  ReadRequestsTotal : Opts;
  ReadRequestsDuration : Opts;
  ReadRequestsBytes : Opts;
  RepairRequestsTotal : Opts;
  RepairRequestsDuration : Opts;
}.

Record CacheMetrics := mkCacheMetrics {
  CacheHitsTotal : Opts;
  CacheMissesTotal : Opts;
  CacheEvictionsTotal : Opts;
  CacheSizeBytes : Opts;
  CacheEntriesTotal : Opts;
}.

Record TableMetrics := mkTableMetrics {
  MemTableSizeBytes : Opts;
  MemTableEntriesTotal : Opts;
  MemTableFlushesTotal : Opts;
  MemTableFlushDuration : Opts;
  SSTableCountByLevel : Opts;
  SSTableSizeByLevel : Opts;
  SSTableReadsTotal : Opts;
  SSTableReadDuration : Opts;
  SSTableWritesTotal : Opts;
  SSTableWriteDuration : Opts;
}.

Record LogMetrics := mkLogMetrics {
  CommitLogSegmentsTotal : Opts;
  CommitLogSizeBytes : Opts;
  CommitLogAppendsTotal : Opts;
  CommitLogAppendDuration : Opts;
  CommitLogSyncsTotal : Opts;
  CommitLogSyncDuration : Opts;
}.

Record CompactionMetrics := mkCompactionMetrics {
  CompactionJobsTotal : Opts;
  CompactionJobDuration : Opts;
  CompactionBytesProcessed : Opts;
  CompactionBytesWritten : Opts;
  CompactionTablesInput : Opts;
  CompactionTablesOutput : Opts;
}.

Record GossipMetrics := mkGossipMetrics {
  GossipMembersTotal : Opts;
  GossipMembersHealthy : Opts;
  GossipMessagesTotal : Opts;
  GossipMessagesDuration : Opts;
}.

Record SystemMetrics := mkSystemMetrics {
  DiskUsageBytes : Opts;
  DiskAvailableBytes : Opts;
  DiskUsagePercent : Opts;
  MemoryUsageBytes : Opts;
  GoroutinesTotal : Opts;
}.

Definition NewRequestMetrics (labels : list (string * string)) : RequestMetrics :=
  mkRequestMetrics
    (mkOpts Counter "pairdb" "storage" "write_requests_total" labels [])
    (mkOpts (Histogram DefBuckets) "pairdb" "storage" "write_requests_duration_seconds" labels [])
    (mkOpts (Histogram (ExponentialBuckets 256 2 10%nat)) "pairdb" "storage" "write_requests_bytes" labels [])
    (mkOpts Counter "pairdb" "storage" "read_requests_total" labels [])
    (mkOpts (Histogram DefBuckets) "pairdb" "storage" "read_requests_duration_seconds" labels [])
    (mkOpts (Histogram (ExponentialBuckets 256 2 10%nat)) "pairdb" "storage" "read_requests_bytes" labels [])
    (mkOpts Counter "pairdb" "storage" "repair_requests_total" labels [])
    (mkOpts (Histogram DefBuckets) "pairdb" "storage" "repair_requests_duration_seconds" labels []).

Definition NewCacheMetrics (labels : list (string * string)) : CacheMetrics :=
  mkCacheMetrics
    (mkOpts Counter "pairdb" "cache" "hits_total" labels [])
    (mkOpts Counter "pairdb" "cache" "misses_total" labels [])
    (mkOpts Counter "pairdb" "cache" "evictions_total" labels [])
    (mkOpts Gauge "pairdb" "cache" "size_bytes" labels [])
    (mkOpts Gauge "pairdb" "cache" "entries_total" labels []).

Definition NewTableMetrics (labels : list (string * string)) : TableMetrics :=
  mkTableMetrics
    (mkOpts Gauge "pairdb" "memtable" "size_bytes" labels [])
    (mkOpts Gauge "pairdb" "memtable" "entries_total" labels [])
    (mkOpts Counter "pairdb" "memtable" "flushes_total" labels [])
    (mkOpts (Histogram DefBuckets) "pairdb" "memtable" "flush_duration_seconds" labels [])
    (mkOpts Gauge "pairdb" "sstable" "count_by_level" labels ["level"])
    (mkOpts Gauge "pairdb" "sstable" "size_bytes_by_level" labels ["level"])
    (mkOpts Counter "pairdb" "sstable" "reads_total" labels [])
    (mkOpts (Histogram DefBuckets) "pairdb" "sstable" "read_duration_seconds" labels [])
    (mkOpts Counter "pairdb" "sstable" "writes_total" labels [])
    (mkOpts (Histogram DefBuckets) "pairdb" "sstable" "write_duration_seconds" labels []).

Definition NewLogMetrics (labels : list (string * string)) : LogMetrics :=
  mkLogMetrics
    (mkOpts Gauge "pairdb" "commitlog" "segments_total" labels [])
    (mkOpts Gauge "pairdb" "commitlog" "size_bytes" labels [])
    (mkOpts Counter "pairdb" "commitlog" "appends_total" labels [])
    (mkOpts (Histogram DefBuckets) "pairdb" "commitlog" "append_duration_seconds" labels [])
    (mkOpts Counter "pairdb" "commitlog" "syncs_total" labels [])
    (mkOpts (Histogram DefBuckets) "pairdb" "commitlog" "sync_duration_seconds" labels []).

Definition NewCompactionMetrics (labels : list (string * string)) : CompactionMetrics :=
  mkCompactionMetrics
    (mkOpts Counter "pairdb" "compaction" "jobs_total" labels ["status"])
    (mkOpts (Histogram DefBuckets) "pairdb" "compaction" "job_duration_seconds" labels [])
    (mkOpts Counter "pairdb" "compaction" "bytes_processed_total" labels [])
    (mkOpts Counter "pairdb" "compaction" "bytes_written_total" labels [])
    (mkOpts (Histogram (LinearBuckets 1 1 10%nat)) "pairdb" "compaction" "tables_input" labels [])
    (mkOpts (Histogram (LinearBuckets 1 1 10%nat)) "pairdb" "compaction" "tables_output" labels []).

Definition NewGossipMetrics (labels : list (string * string)) : GossipMetrics :=
  mkGossipMetrics
    (mkOpts Gauge "pairdb" "gossip" "members_total" labels [])
    (mkOpts Gauge "pairdb" "gossip" "members_healthy" labels [])
    (mkOpts Counter "pairdb" "gossip" "messages_total" labels ["type"])
    (mkOpts (Histogram DefBuckets) "pairdb" "gossip" "messages_duration_seconds" labels []).

Definition NewSystemMetrics (labels : list (string * string)) : SystemMetrics :=
  mkSystemMetrics
    (mkOpts Gauge "pairdb" "system" "disk_usage_bytes" labels [])
    (mkOpts Gauge "pairdb" "system" "disk_available_bytes" labels [])
    (mkOpts Gauge "pairdb" "system" "disk_usage_percent" labels [])
    (mkOpts Gauge "pairdb" "system" "memory_usage_bytes" labels [])
    (mkOpts Gauge "pairdb" "system" "goroutines_total" labels []).

Record Metrics := mkMetrics {
  requests : RequestMetrics;
  cache : CacheMetrics;
  tables : TableMetrics;
  commitlog : LogMetrics;
  compaction : CompactionMetrics;
  gossip : GossipMetrics;
  system : SystemMetrics;
}.

Definition node_metrics (nodeID : string) : Metrics :=
  let labels := [("node_id", nodeID)] in
  mkMetrics (NewRequestMetrics labels) (NewCacheMetrics labels) (NewTableMetrics labels) (NewLogMetrics labels)
    (NewCompactionMetrics labels) (NewGossipMetrics labels) (NewSystemMetrics labels).

(** The instruments in the order in which [NewMetrics] registers them. *)
Definition instruments (m : Metrics) : list Opts :=
  let q := requests m in let c := cache m in let t := tables m in let l := commitlog m in
  let k := compaction m in let g := gossip m in let s := system m in
  [WriteRequestsTotal q; WriteRequestsDuration q; WriteRequestsBytes q; ReadRequestsTotal q; ReadRequestsDuration q; ReadRequestsBytes q; RepairRequestsTotal q; RepairRequestsDuration q] ++
  [CacheHitsTotal c; CacheMissesTotal c; CacheEvictionsTotal c; CacheSizeBytes c; CacheEntriesTotal c] ++
  [MemTableSizeBytes t; MemTableEntriesTotal t; MemTableFlushesTotal t; MemTableFlushDuration t; SSTableCountByLevel t; SSTableSizeByLevel t; SSTableReadsTotal t; SSTableReadDuration t; SSTableWritesTotal t; SSTableWriteDuration t] ++
  [CommitLogSegmentsTotal l; CommitLogSizeBytes l; CommitLogAppendsTotal l; CommitLogAppendDuration l; CommitLogSyncsTotal l; CommitLogSyncDuration l] ++
  [CompactionJobsTotal k; CompactionJobDuration k; CompactionBytesProcessed k; CompactionBytesWritten k; CompactionTablesInput k; CompactionTablesOutput k] ++
  [GossipMembersTotal g; GossipMembersHealthy g; GossipMessagesTotal g; GossipMessagesDuration g] ++
  [DiskUsageBytes s; DiskAvailableBytes s; DiskUsagePercent s; MemoryUsageBytes s; GoroutinesTotal s].

Definition NewMetrics `{Prometheus} (nodeID : string) (r : registry) : option (Metrics * registry) :=
  let m := node_metrics nodeID in r ← register_all (instruments m) r; Some (m, r).

(** *** Recording *)

Section record.
Context (m : Metrics).

Definition RecordWriteRequest (duration : float64) (bytes : Z) : list call :=
  [(WriteRequestsTotal (requests m), [], Inc); (WriteRequestsDuration (requests m), [], Observe duration);
   (WriteRequestsBytes (requests m), [], Observe (f64_of bytes))].

Definition RecordReadRequest (duration : float64) (bytes : Z) : list call :=
  [(ReadRequestsTotal (requests m), [], Inc); (ReadRequestsDuration (requests m), [], Observe duration);
   (ReadRequestsBytes (requests m), [], Observe (f64_of bytes))].

Definition RecordRepairRequest (duration : float64) : list call :=
  [(RepairRequestsTotal (requests m), [], Inc); (RepairRequestsDuration (requests m), [], Observe duration)].

Definition RecordCacheHit : list call := [(CacheHitsTotal (cache m), [], Inc)].
Definition RecordCacheMiss : list call := [(CacheMissesTotal (cache m), [], Inc)].
Definition RecordCacheEviction : list call := [(CacheEvictionsTotal (cache m), [], Inc)].

Definition UpdateCacheSize (bytes entries : Z) : list call :=
  [(CacheSizeBytes (cache m), [], Set_ (f64_of bytes)); (CacheEntriesTotal (cache m), [], Set_ (f64_of entries))].

Definition UpdateMemTableSize (bytes entries : Z) : list call :=
  [(MemTableSizeBytes (tables m), [], Set_ (f64_of bytes)); (MemTableEntriesTotal (tables m), [], Set_ (f64_of entries))].

Definition RecordMemTableFlush (duration : float64) : list call :=
  [(MemTableFlushesTotal (tables m), [], Inc); (MemTableFlushDuration (tables m), [], Observe duration)].

Definition UpdateSSTableStats (level : string) (count sizeBytes : Z) : list call :=
  [(SSTableCountByLevel (tables m), [level], Set_ (f64_of count));
   (SSTableSizeByLevel (tables m), [level], Set_ (f64_of sizeBytes))].

Definition RecordSSTableRead (duration : float64) : list call :=
  [(SSTableReadsTotal (tables m), [], Inc); (SSTableReadDuration (tables m), [], Observe duration)].

Definition RecordSSTableWrite (duration : float64) : list call :=
  [(SSTableWritesTotal (tables m), [], Inc); (SSTableWriteDuration (tables m), [], Observe duration)].

Definition UpdateCommitLogStats (segments sizeBytes : Z) : list call :=
  [(CommitLogSegmentsTotal (commitlog m), [], Set_ (f64_of segments));
   (CommitLogSizeBytes (commitlog m), [], Set_ (f64_of sizeBytes))].

Definition RecordCommitLogAppend (duration : float64) : list call :=
  [(CommitLogAppendsTotal (commitlog m), [], Inc); (CommitLogAppendDuration (commitlog m), [], Observe duration)].

Definition RecordCommitLogSync (duration : float64) : list call :=
  [(CommitLogSyncsTotal (commitlog m), [], Inc); (CommitLogSyncDuration (commitlog m), [], Observe duration)].

Definition RecordCompactionJob (status : string) (duration : float64)
    (inputTables outputTables bytesProcessed bytesWritten : Z) : list call :=
  [(CompactionJobsTotal (compaction m), [status], Inc); (CompactionJobDuration (compaction m), [], Observe duration);
   (CompactionTablesInput (compaction m), [], Observe (f64_of inputTables));
   (CompactionTablesOutput (compaction m), [], Observe (f64_of outputTables));
   (CompactionBytesProcessed (compaction m), [], Add (f64_of bytesProcessed));
   (CompactionBytesWritten (compaction m), [], Add (f64_of bytesWritten))].

Definition UpdateGossipStats (totalMembers healthyMembers : Z) : list call :=
  [(GossipMembersTotal (gossip m), [], Set_ (f64_of totalMembers));
   (GossipMembersHealthy (gossip m), [], Set_ (f64_of healthyMembers))].

Definition RecordGossipMessage (messageType : string) (duration : float64) : list call :=
  [(GossipMessagesTotal (gossip m), [messageType], Inc); (GossipMessagesDuration (gossip m), [], Observe duration)].

(** The sum of the two sizes is an [int64]. *)
Definition UpdateSystemStats (diskUsage diskAvailable memoryUsage goroutines : Z) : list call :=
  [(DiskUsageBytes (system m), [], Set_ (f64_of diskUsage)); (DiskAvailableBytes (system m), [], Set_ (f64_of diskAvailable))] ++
  (if 0 <? i64 (diskUsage + diskAvailable)
   then [(DiskUsagePercent (system m), [], Set_ (disk_usage_percent diskUsage diskAvailable))] else []) ++
  [(MemoryUsageBytes (system m), [], Set_ (f64_of memoryUsage)); (GoroutinesTotal (system m), [], Set_ (f64_of goroutines))].

(** A tick of [collectSystemMetrics].  [getDiskStats] returns zeros with its
    error, which is only logged. *)
Definition updateSystemMetrics (stat : option (fs_stat * Z)) (alloc goroutines : Z) : list call :=
  let '(diskUsage, diskAvailable) := default (0, 0) (getDiskStats stat) in
  UpdateSystemStats diskUsage diskAvailable (i64 alloc) goroutines.
End record.

(** A method of [Metrics] with its arguments. *)
Inductive event :=
  | WriteRequest (duration : float64) (bytes : Z) | ReadRequest (duration : float64) (bytes : Z)
  | RepairRequest (duration : float64) | CacheHit | CacheMiss | CacheEviction
  | CacheSize (bytes entries : Z) | MemTableSize (bytes entries : Z) | MemTableFlush (duration : float64)
  | SSTableStats (level : string) (count sizeBytes : Z) | SSTableRead (duration : float64) | SSTableWrite (duration : float64)
  | CommitLogStats (segments sizeBytes : Z) | CommitLogAppend (duration : float64) | CommitLogSync (duration : float64)
  | CompactionJob (status : string) (duration : float64) (inputTables outputTables bytesProcessed bytesWritten : Z)
  | GossipStats (totalMembers healthyMembers : Z) | GossipMessage (messageType : string) (duration : float64)
  | SystemStats (diskUsage diskAvailable memoryUsage goroutines : Z).

Definition calls (m : Metrics) (ev : event) : list call :=
  match ev with
  | WriteRequest d b => RecordWriteRequest m d b
  | ReadRequest d b => RecordReadRequest m d b
  | RepairRequest d => RecordRepairRequest m d
  | CacheHit => RecordCacheHit m
  | CacheMiss => RecordCacheMiss m
  | CacheEviction => RecordCacheEviction m
  | CacheSize b n => UpdateCacheSize m b n
  | MemTableSize b n => UpdateMemTableSize m b n
  | MemTableFlush d => RecordMemTableFlush m d
  | SSTableStats l n b => UpdateSSTableStats m l n b
  | SSTableRead d => RecordSSTableRead m d
  | SSTableWrite d => RecordSSTableWrite m d
  | CommitLogStats n b => UpdateCommitLogStats m n b
  | CommitLogAppend d => RecordCommitLogAppend m d
  | CommitLogSync d => RecordCommitLogSync m d
  | CompactionJob st d i o p w => RecordCompactionJob m st d i o p w
  | GossipStats t h => UpdateGossipStats m t h
  | GossipMessage ty d => RecordGossipMessage m ty d
  | SystemStats u a mem g => UpdateSystemStats m u a mem g
  end.

(** What the client library asks of the arguments. *)
Definition event_ok (ev : event) : Prop :=
  match ev with
  | SSTableStats level _ _ => valid_utf8 level = true
  | CompactionJob status _ _ _ p w =>
      valid_utf8 status = true ∧ f64_lt (f64_of p) (f64_of 0) = false ∧ f64_lt (f64_of w) (f64_of 0) = false
  | GossipMessage messageType _ => valid_utf8 messageType = true
  | _ => True
  end.

(** ** Lemmas *)

Create HintDb node_metrics.
#[local] Hint Unfold RecordWriteRequest RecordReadRequest RecordRepairRequest RecordCacheHit RecordCacheMiss RecordCacheEviction
  UpdateCacheSize UpdateMemTableSize RecordMemTableFlush UpdateSSTableStats RecordSSTableRead RecordSSTableWrite
  UpdateCommitLogStats RecordCommitLogAppend RecordCommitLogSync RecordCompactionJob UpdateGossipStats
  RecordGossipMessage UpdateSystemStats : node_metrics.

Lemma instruments_NoDup nodeID : NoDup (fqName <$> instruments (node_metrics nodeID)).
Proof. apply (bool_decide_unpack _). by vm_compute. Qed.

Ltac find_instrument := cbn [fst snd]; apply list_elem_of_In; cbv; repeat first [left; reflexivity|right].

Ltac admissible_calls :=
  repeat match goal with
  | |- Forall _ [] => constructor
  | |- Forall _ (_ :: _) =>
      constructor; [split; [find_instrument|split; [reflexivity|split; [repeat constructor; assumption|cbn; done]]]|]
  end.

Lemma calls_admissible nodeID ev :
  event_ok ev → Forall (λ c : call, c.1.1 ∈ instruments (node_metrics nodeID) ∧ admissible c) (calls (node_metrics nodeID) ev).
Proof.
  intros Hok. destruct ev; cbn [calls event_ok] in *; destruct_and?;
    autounfold with node_metrics; rewrite ?Forall_app; try admissible_calls.
  destruct (_ <? _); split_and!; admissible_calls.
Qed.

(** The values do not matter for where an update goes. *)
Ltac compute_updates :=
  autounfold with node_metrics;
  try destruct (_ <? _);
  repeat match goal with
  | |- context [f64_of ?n] => generalize (f64_of n); intro
  | |- context [disk_usage_percent ?a ?b] => generalize (disk_usage_percent a b); intro
  end; vm_compute; reflexivity.

Definition is_write (ev : event) : bool := if ev is WriteRequest _ _ then true else false.

Definition is_job (status : string) (ev : event) : bool :=
  if ev is CompactionJob st _ _ _ _ _ then bool_decide (st = status) else false.

(** The updates one method makes of a counter without labels. *)
Lemma write_updates nodeID ev :
  updates "pairdb_storage_write_requests_total" [] (calls (node_metrics nodeID) ev) =
  if is_write ev then [Inc] else [].
Proof. destruct ev; cbn [calls]; compute_updates. Qed.

Lemma status_updates nodeID ev status :
  updates "pairdb_compaction_jobs_total" [status] (calls (node_metrics nodeID) ev) =
  if is_job status ev then [Inc] else [].
Proof.
  destruct ev as [| | | | | | | | | | | | | | |st d i o p w| | |]; cbn [calls]; try (compute_updates).
  autounfold with node_metrics. unfold updates. rewrite !filter_cons. cbn [fst snd filter list_filter].
  cbn [is_job]. destruct (decide (st = status)) as [->|Hne].
  - rewrite bool_decide_eq_true_2, decide_True by done. by rewrite !decide_False by (by intros [? ?]).
  - rewrite bool_decide_eq_false_2 by done. by rewrite !decide_False by (by intros [? [= ?]]).
Qed.

Lemma counted (f : event → bool) n values m evs :
  (∀ ev, updates n values (calls m ev) = if f ev then [Inc] else []) →
  updates n values (evs ≫= calls m) = replicate (length (List.filter f evs)) Inc.
Proof.
  intros Hf. induction evs as [|ev evs IH]; [done|]. rewrite bind_cons, updates_app, Hf, IH. simpl. by destruct (f ev).
Qed.

(** ** Properties *)

Section properties.
Context `{Prometheus}.

(** The names of the node's metrics are its own. *)
Definition free_names (nodeID : string) (r : registry) : Prop :=
  NoDup (fqName <$> registered r) ∧
  ∀ o, o ∈ instruments (node_metrics nodeID) → fqName o ∉ fqName <$> registered r.

(** The node's metrics count what happens.  In a registry without the node's
    names [NewMetrics] registers all its instruments.  Any sequence of calls of its
    methods that satisfies [event_ok] (label values in UTF-8, amounts added to a
    counter not negative) then goes through and changes exactly the metrics that the
    methods name: the counter of writes is the number of writes recorded, and the
    counter of compactions with a status the number of those with this status.  A
    second [NewMetrics] with the same node panics. *)
Theorem node_metrics_count (nodeID : string) (r : registry) (evs : list event) :
  free_names nodeID r → Forall event_ok evs →
  ∃ m r1 r2, NewMetrics nodeID r = Some (m, r1) ∧ perform (evs ≫= calls m) r1 = Some r2 ∧
    (∀ n values, history r2 n values = history r n values ++ updates n values (evs ≫= calls m)) ∧
    history r2 "pairdb_storage_write_requests_total" [] =
      replicate (length (List.filter is_write evs)) Inc ∧
    (∀ status, history r2 "pairdb_compaction_jobs_total" [status] =
      replicate (length (List.filter (is_job status) evs)) Inc) ∧
    NewMetrics nodeID r2 = None.
Proof.
  intros [Hnd Hfree] Hok. set (m := node_metrics nodeID).
  destruct (register_perform (instruments m) (evs ≫= calls m) r) as (r1 & r2 & Hr1 & Hr2 & Hreg & Hh);
    [done|apply instruments_NoDup|done| |].
  { apply Forall_bind. eapply Forall_impl; [exact Hok|]. intros ev. apply calls_admissible. }
  assert (∀ n values, n ∈ fqName <$> instruments m → history r n values = []) as Hnew.
  { intros n values (o & -> & Ho)%list_elem_of_fmap. apply history_unused. by apply Hfree. }
  exists m, r1, r2. unfold NewMetrics. fold m. rewrite Hr1. split_and!; [done..| | |].
  - rewrite Hh, Hnew by (apply (bool_decide_unpack _); by vm_compute). apply (counted is_write), write_updates.
  - intros status. rewrite Hh, Hnew by (apply (bool_decide_unpack _); by vm_compute).
    apply (counted (is_job status)). intros ev. apply status_updates.
  - rewrite (register_all_again _ r2 (WriteRequestsTotal (requests m))); [done|done|].
    rewrite Hreg. apply elem_of_app. right. by left.
Qed.

(** A compaction that reports a negative number of bytes brings the process down. *)
Theorem negative_compaction_panics (m : Metrics) (r : registry) status duration i o p w :
  o_instrument (CompactionBytesProcessed (compaction m)) = Counter → f64_lt (f64_of p) (f64_of 0) = true →
  perform (RecordCompactionJob m status duration i o p w) r = None.
Proof. intros Hc Hp. unfold RecordCompactionJob. by apply (perform_negative [_; _; _; _]). Qed.

(** A failed [statfs] is published as a disk without any space: both gauges are
    set to zero, and the percentage keeps the value it had. *)
Theorem failed_statfs_published (nodeID : string) (r : registry) (alloc goroutines : Z) :
  instruments (node_metrics nodeID) ⊆ registered r →
  ∃ r', perform (updateSystemMetrics (node_metrics nodeID) None alloc goroutines) r = Some r' ∧
    history r' "pairdb_system_disk_usage_bytes" [] = history r "pairdb_system_disk_usage_bytes" [] ++ [Set_ (f64_of 0)] ∧
    history r' "pairdb_system_disk_available_bytes" [] = history r "pairdb_system_disk_available_bytes" [] ++ [Set_ (f64_of 0)] ∧
    history r' "pairdb_system_disk_usage_percent" [] = history r "pairdb_system_disk_usage_percent" [].
Proof.
  intros Hsub. set (cs := updateSystemMetrics _ _ _ _).
  assert (cs = calls (node_metrics nodeID) (SystemStats 0 0 (i64 alloc) goroutines)) as Hcs by done.
  destruct (perform_admissible cs r) as (r' & Hr & _ & Hh).
  { rewrite Hcs. eapply Forall_impl; [by apply calls_admissible|]. intros c [Hin ?]. split; [by apply Hsub|done]. }
  exists r'. split; [done|]. rewrite !Hh, Hcs. cbn [calls]. unfold UpdateSystemStats.
  generalize (f64_of (i64 alloc)) (f64_of goroutines). intros x y.
  split_and!; [f_equal; by vm_compute..|]. by rewrite <-(app_nil_r (history r _ _)) at 2.
Qed.
End properties.

(** ** Witnesses *)

Lemma node_metrics_count_witness :
  ∃ m r1 r2, NewMetrics "node-1" empty_table = Some (m, r1) ∧
    perform ([WriteRequest (f64_of 1) 5; CacheHit; WriteRequest (f64_of 2) 7] ≫= calls m) r1 = Some r2 ∧
    history r2 "pairdb_storage_write_requests_total" [] = [Inc; Inc].
Proof.
  destruct (node_metrics_count "node-1" empty_table [WriteRequest (f64_of 1) 5; CacheHit; WriteRequest (f64_of 2) 7])
    as (m & r1 & r2 & Hm & Hp & _ & Hw & _).
  - split; [constructor|]. intros o _ Hin. by apply elem_of_nil in Hin.
  - by repeat constructor.
  - exists m, r1, r2. split; [exact Hm|]. split; [exact Hp|exact Hw].
Defined.

Lemma failed_statfs_published_witness :
  ∃ r', perform (updateSystemMetrics (node_metrics "n") None 1024 8) (table_of (instruments (node_metrics "n"))) = Some r' ∧
    history r' "pairdb_system_disk_available_bytes" [] = [Set_ (f64_of 0)].
Proof.
  destruct (failed_statfs_published "n" (table_of (instruments (node_metrics "n"))) 1024 8) as (r' & Hr & _ & Ha & _).
  - done.
  - exists r'. split; [exact Hr|exact Ha].
Defined.
