(* ===== verification/CoordinatorMetrics.v ===== *)
(** * The coordinator's metrics: [coordinator/internal/metrics/prometheus.go] *)

From S2P Require Import Prelude Float64 Utf8 Json Prometheus.
#[local] Open Scope Z_scope.

(** ** Definitions *)

Record Metrics := mkMetrics {
  RequestsTotal : Opts;
  RequestDuration : Opts;
  RequestErrors : Opts;
  CacheHits : Opts;
  CacheMisses : Opts;
  QuorumFailures : Opts;
  ConflictsTotal : Opts;
  RepairsTotal : Opts;
  RepairQueueSize : Opts;
  RepairDuration : Opts;
  StorageNodesActive : Opts;
  ReplicaWrites : Opts;
  ReplicaReads : Opts;
}.

Definition vec (i : instrument) (name : string) (labels : list string) : Opts :=
  mkOpts i EmptyString EmptyString name [] labels.

Definition coordinator_metrics : Metrics :=
  mkMetrics
    (vec Counter "coordinator_requests_total" ["operation"; "tenant_id"; "consistency"])
    (vec (Histogram DefBuckets) "coordinator_request_duration_seconds" ["operation"; "consistency"])
    (vec Counter "coordinator_request_errors_total" ["operation"; "error_type"])
    (vec Counter "coordinator_cache_hits_total" ["cache_type"])
    (vec Counter "coordinator_cache_misses_total" ["cache_type"])
    (vec Counter "coordinator_quorum_failures_total" ["operation"; "consistency"])
    (vec Counter "coordinator_conflicts_total" ["tenant_id"])
    (vec Counter "coordinator_repairs_total" ["status"])
    (vec Gauge "coordinator_repair_queue_size" [])
    (vec (Histogram DefBuckets) "coordinator_repair_duration_seconds" ["status"])
    (vec Gauge "coordinator_storage_nodes_active" [])
    (vec Counter "coordinator_replica_writes_total" ["node_id"; "status"])
    (vec Counter "coordinator_replica_reads_total" ["node_id"; "status"]).

(** The instruments in the order in which [NewMetrics] registers them. *)
Definition instruments (m : Metrics) : list Opts :=
  [RequestsTotal m; RequestDuration m; RequestErrors m; CacheHits m; CacheMisses m; QuorumFailures m; ConflictsTotal m;
   RepairsTotal m; RepairQueueSize m; RepairDuration m; StorageNodesActive m; ReplicaWrites m; ReplicaReads m].

Definition NewMetrics `{Prometheus} (r : registry) : option (Metrics * registry) :=
  r ← register_all (instruments coordinator_metrics) r; Some (coordinator_metrics, r).

Section record.
Context (m : Metrics).

Definition RecordRequest (operation tenantID consistency : string) (duration : float64) : list call :=
  [(RequestsTotal m, [operation; tenantID; consistency], Inc); (RequestDuration m, [operation; consistency], Observe duration)].

Definition RecordError (operation errorType : string) : list call := [(RequestErrors m, [operation; errorType], Inc)].
Definition RecordCacheHit (cacheType : string) : list call := [(CacheHits m, [cacheType], Inc)].
Definition RecordCacheMiss (cacheType : string) : list call := [(CacheMisses m, [cacheType], Inc)].

Definition RecordQuorumFailure (operation consistency : string) : list call :=
  [(QuorumFailures m, [operation; consistency], Inc)].

Definition RecordConflict (tenantID : string) : list call := [(ConflictsTotal m, [tenantID], Inc)].

Definition RecordRepair (status : string) (duration : float64) : list call :=
  [(RepairsTotal m, [status], Inc); (RepairDuration m, [status], Observe duration)].

Definition UpdateRepairQueueSize (size : Z) : list call := [(RepairQueueSize m, [], Set_ (f64_of size))].
Definition UpdateStorageNodesActive (count : Z) : list call := [(StorageNodesActive m, [], Set_ (f64_of count))].
Definition RecordReplicaWrite (nodeID status : string) : list call := [(ReplicaWrites m, [nodeID; status], Inc)].
Definition RecordReplicaRead (nodeID status : string) : list call := [(ReplicaReads m, [nodeID; status], Inc)].
End record.

(** A method of [Metrics] with its arguments. *)
Inductive event :=
  | Request (operation tenantID consistency : string) (duration : float64)
  | Error (operation errorType : string)
  | CacheHit (cacheType : string) | CacheMiss (cacheType : string)
  | QuorumFailure (operation consistency : string)
  | Conflict (tenantID : string)
  | Repair (status : string) (duration : float64)
  | QueueSize (size : Z) | NodesActive (count : Z)
  | ReplicaWrite (nodeID status : string) | ReplicaRead (nodeID status : string).

Definition calls (m : Metrics) (ev : event) : list call :=
  match ev with
  | Request o t c d => RecordRequest m o t c d
  | Error o e => RecordError m o e
  | CacheHit c => RecordCacheHit m c
  | CacheMiss c => RecordCacheMiss m c
  | QuorumFailure o c => RecordQuorumFailure m o c
  | Conflict t => RecordConflict m t
  | Repair s d => RecordRepair m s d
  | QueueSize n => UpdateRepairQueueSize m n
  | NodesActive n => UpdateStorageNodesActive m n
  | ReplicaWrite n s => RecordReplicaWrite m n s
  | ReplicaRead n s => RecordReplicaRead m n s
  end.

(** The label values of an event. *)
Definition texts (ev : event) : list string :=
  match ev with
  | Request o t c _ => [o; t; c]
  | Error o e => [o; e]
  | CacheHit c | CacheMiss c => [c]
  | QuorumFailure o c => [o; c]
  | Conflict t => [t]
  | Repair s _ => [s]
  | ReplicaWrite n s | ReplicaRead n s => [n; s]
  | _ => []
  end.

(** ** Lemmas *)

Lemma coordinator_calls_admissible ev :
  Forall (λ v, valid_utf8 v = true) (texts ev) →
  Forall (λ c : call, c.1.1 ∈ instruments coordinator_metrics ∧ admissible c) (calls coordinator_metrics ev).
Proof.
  assert (∀ (b : bool) o, b = bool_decide (o ∈ instruments coordinator_metrics) → b = true → o ∈ instruments coordinator_metrics)
    as Hin by (intros b o -> ?%bool_decide_eq_true; done).
  intros Hok. destruct ev; cbn [calls texts] in *; repeat apply Forall_cons_2; try apply Forall_nil_2;
    (split; [cbn [fst]; by eapply Hin|]); (split; [done|]); (split; [|done]);
    repeat (apply Forall_cons in Hok as [? Hok]); by repeat constructor.
Qed.

(** ** Properties *)

(** The coordinator's metrics can be registered once, and every call of a
    method, with labels in UTF-8, takes effect on the metrics it names and on
    no other. *)
Theorem coordinator_metrics_recorded `{Prometheus} (r : registry) (evs : list event) :
  NoDup (fqName <$> registered r) →
  (∀ o, o ∈ instruments coordinator_metrics → fqName o ∉ fqName <$> registered r) →
  Forall (λ v, valid_utf8 v = true) (evs ≫= texts) →
  ∃ r1 r2, NewMetrics r = Some (coordinator_metrics, r1) ∧ perform (evs ≫= calls coordinator_metrics) r1 = Some r2 ∧
    (∀ n values, history r2 n values = history r n values ++ updates n values (evs ≫= calls coordinator_metrics)) ∧
    NewMetrics r2 = None.
Proof.
  intros Hnd Hfree Hok. set (m := coordinator_metrics).
  destruct (register_perform (instruments m) (evs ≫= calls m) r) as (r1 & r2 & Hr1 & Hr2 & Hreg & Hh);
    [done|apply (bool_decide_unpack _); by vm_compute|done| |].
  { apply Forall_bind. apply Forall_bind in Hok. eapply Forall_impl; [exact Hok|]. intros ev. apply coordinator_calls_admissible. }
  exists r1, r2. unfold NewMetrics. fold m. rewrite Hr1. split_and!; [done..|].
  rewrite (register_all_again _ r2 (RequestsTotal m)); [done|done|]. rewrite Hreg. apply elem_of_app. right. by left.
Qed.

Lemma coordinator_metrics_recorded_witness :
  ∃ r1 r2, NewMetrics empty_table = Some (coordinator_metrics, r1) ∧
    perform ([RecordRequest coordinator_metrics "write" "acme" "quorum" (f64_of 1)] ≫= id) r1 = Some r2 ∧
    history r2 "coordinator_requests_total" ["write"; "acme"; "quorum"] = [Inc].
Proof.
  destruct (coordinator_metrics_recorded empty_table [Request "write" "acme" "quorum" (f64_of 1)]) as (r1 & r2 & Hm & Hp & Hh & _).
  - constructor.
  - intros o _ Hin. by apply elem_of_nil in Hin.
  - by repeat constructor.
  - exists r1, r2. split; [exact Hm|]. split; [exact Hp|]. rewrite Hh. by vm_compute.
Defined.
