(* ===== verification/GatewayMetrics.v ===== *)
(** * The gateway's metrics: [api-gateway/internal/metrics/prometheus.go], and
    the status recorder of [api-gateway/internal/middleware/middleware.go]

    A handler is the list of calls it makes on its [http.ResponseWriter]; both
    the plain writer of Gateway.v and the wrappers that remember the status
    implement them. *)

From S2P Require Import Prelude Float64 Utf8 Json Prometheus Gateway.
#[local] Open Scope Z_scope.

(** ** Definitions *)

Record Metrics := mkMetrics {
  requestsTotal : Opts;
  requestDuration : Opts;
  requestsInFlight : Opts;
  responseSize : Opts;
  grpcRequestsTotal : Opts;
  grpcRequestDuration : Opts;
  grpcErrors : Opts;
  healthStatus : Opts;
}.

Definition latency_buckets : list float64 :=
  [f64_lit 1 1000; f64_lit 5 1000; f64_lit 1 100; f64_lit 25 1000; f64_lit 5 100; f64_lit 1 10; f64_lit 25 100; f64_lit 5 10;
   f64_of 1; f64_lit 25 10; f64_of 5; f64_of 10].

Definition size_buckets : list float64 := f64_of <$> [100; 500; 1000; 5000; 10000; 50000; 100000].

Definition gateway_metrics : Metrics :=
  let vec i name labels := mkOpts i EmptyString EmptyString name [] labels in
  mkMetrics
    (vec Counter "api_gateway_http_requests_total" ["method"; "path"; "status"])
    (vec (Histogram (BucketList latency_buckets)) "api_gateway_http_request_duration_seconds" ["method"; "path"; "status"])
    (vec Gauge "api_gateway_http_requests_in_flight" [])
    (vec (Histogram (BucketList size_buckets)) "api_gateway_http_response_size_bytes" ["method"; "path"])
    (vec Counter "api_gateway_grpc_requests_total" ["method"; "status"])
    (vec (Histogram (BucketList latency_buckets)) "api_gateway_grpc_request_duration_seconds" ["method"])
    (vec Counter "api_gateway_grpc_errors_total" ["method"; "code"])
    (vec Gauge "api_gateway_health_status" []).

(** The instruments in the order in which [NewMetrics] registers them. *)
Definition instruments (m : Metrics) : list Opts :=
  [requestsTotal m; requestDuration m; requestsInFlight m; responseSize m; grpcRequestsTotal m; grpcRequestDuration m;
   grpcErrors m; healthStatus m].

(** [globalMetrics] makes every call after the first return the same object. *)
Definition NewMetrics `{Prometheus} (globalMetrics : option Metrics) (r : registry)
    : option (Metrics * option Metrics * registry) :=
  match globalMetrics with
  | Some m => Some (m, globalMetrics, r)
  | None => r ← register_all (instruments gateway_metrics) r; Some (gateway_metrics, Some gateway_metrics, r)
  end.

Section record.
Context (m : Metrics).

Definition RecordHTTPRequest (method path : string) (statusCode duration : Z) : list call :=
  let status := pretty statusCode in
  [(requestsTotal m, [method; path; status], Inc); (requestDuration m, [method; path; status], Observe (seconds duration))].

Definition RecordResponseSize (method path : string) (size : Z) : list call :=
  [(responseSize m, [method; path], Observe (f64_of size))].

Definition IncRequestsInFlight : list call := [(requestsInFlight m, [], Inc)].
Definition DecRequestsInFlight : list call := [(requestsInFlight m, [], Dec)].

Definition RecordGRPCRequest (method status : string) (duration : Z) : list call :=
  [(grpcRequestsTotal m, [method; status], Inc); (grpcRequestDuration m, [method], Observe (seconds duration))].

Definition RecordGRPCError (method code : string) : list call := [(grpcErrors m, [method; code], Inc)].

Definition SetHealthStatus (healthy : bool) : list call :=
  [(healthStatus m, [], Set_ (f64_of (if healthy then 1 else 0)))].
End record.

(** *** Response writers *)

Inductive writer_call := HeaderSet (k v : string) | CallWriteHeader (code : Z) | CallWrite (data : list byte).

Definition plain_call (w : Writer) (c : writer_call) : Writer :=
  match c with
  | HeaderSet k v => header_Set k v w
  | CallWriteHeader code => WriteHeader code w
  | CallWrite data => Write data w
  end.

(** [metricsResponseWriter]; the [responseWriter] of the logging middleware is
    the same without the size. *)
Record recorder := mkRecorder { ResponseWriter : Writer; statusCode : Z; size : Z }.

Definition new_recorder (w : Writer) : recorder := mkRecorder w 200 0.

Definition recorder_WriteHeader (code : Z) (rw : recorder) : recorder :=
  mkRecorder (WriteHeader code (ResponseWriter rw)) code (size rw).

Definition recorder_Write (data : list byte) (rw : recorder) : recorder :=
  mkRecorder (Write data (ResponseWriter rw)) (statusCode rw) (size rw + Z.of_nat (length data)).

Definition recorder_call (rw : recorder) (c : writer_call) : recorder :=
  match c with
  | HeaderSet k v => mkRecorder (header_Set k v (ResponseWriter rw)) (statusCode rw) (size rw)
  | CallWriteHeader code => recorder_WriteHeader code rw
  | CallWrite data => recorder_Write data rw
  end.

(** [MetricsMiddleware]: [handler] are the calls the next handler makes, and
    [panics] whether it panics after them; the deferred [Dec] runs in any case. *)
Definition MetricsMiddleware (m : Metrics) (method path : string) (duration : Z) (handler : list writer_call)
    (panics : bool) (w : Writer) : recorder * list call :=
  let rw := foldl recorder_call (new_recorder w) handler in
  (rw, IncRequestsInFlight m ++
       (if panics then []
        else RecordHTTPRequest m method path (statusCode rw) duration ++ RecordResponseSize m method path (size rw)) ++
       DecRequestsInFlight m).

(** ** Lemmas *)

(** The client sees what it would see without the wrapper. *)
Lemma recorder_transparent handler rw :
  ResponseWriter (foldl recorder_call rw handler) = foldl plain_call (ResponseWriter rw) handler.
Proof. revert rw. induction handler as [|c handler IH]; intros rw; [done|]. simpl. rewrite IH. by destruct c. Qed.

(** Handlers that set the status at most once, before any output. *)
Fixpoint status_first (handler : list writer_call) : bool :=
  match handler with
  | [] => true
  | HeaderSet _ _ :: handler => status_first handler
  | _ :: handler => forallb (λ c, if c is CallWriteHeader _ then false else true) handler
  end.

Lemma sent_stays w sent handler :
  w_status w = Some sent → w_status (foldl plain_call w handler) = Some sent.
Proof.
  revert w. induction handler as [|c handler IH]; intros w Hw; [done|]. simpl. apply IH.
  destruct c; simpl; unfold Write, WriteHeader; by rewrite ?Hw.
Qed.

Lemma recorded_stays rw handler :
  forallb (λ c, if c is CallWriteHeader _ then false else true) handler = true →
  statusCode (foldl recorder_call rw handler) = statusCode rw.
Proof.
  revert rw. induction handler as [|c handler IH]; intros rw; [done|]. simpl. intros [Hc Hh]%andb_true_iff.
  rewrite (IH _ Hh). by destruct c.
Qed.

Lemma recorded_is_sent handler rw :
  status_first handler = true → w_status (ResponseWriter rw) = None → statusCode rw = 200 →
  default 200 (status_of (foldl plain_call (ResponseWriter rw) handler)) = statusCode (foldl recorder_call rw handler).
Proof.
  revert rw. induction handler as [|c handler IH]; intros rw Hf Hw Hs; [simpl; unfold status_of; by rewrite Hw, Hs|].
  destruct c as [k v|code|data]; simpl in *.
  - by apply (IH (recorder_call rw (HeaderSet k v))).
  - rewrite (recorded_stays _ _ Hf). unfold status_of. rewrite (sent_stays _ (code, w_header (ResponseWriter rw))); [done|].
    unfold WriteHeader. by rewrite Hw.
  - rewrite (recorded_stays _ _ Hf). unfold status_of. rewrite (sent_stays _ (200, w_header (ResponseWriter rw))); [done|].
    unfold Write, WriteHeader. by rewrite Hw.
Qed.

Lemma recorded_size rw handler :
  size (foldl recorder_call rw handler) =
  size rw + (Z.of_nat (length (w_body (foldl plain_call (ResponseWriter rw) handler))) - Z.of_nat (length (w_body (ResponseWriter rw)))).
Proof.
  revert rw. induction handler as [|c handler IH]; intros rw; [simpl; lia|]. simpl. rewrite IH.
  destruct c as [k v|code|data]; simpl; unfold Write, WriteHeader; [lia|destruct (w_status _); simpl; lia|].
  destruct (w_status (ResponseWriter rw)); simpl; rewrite length_app; lia.
Qed.

(** ** Properties *)

(** The middleware changes nothing of the response and counts it as it was
    sent.  For a handler that sets the status before its output and once, the
    request is counted under the status the client got, the recorded size is
    the number of bytes of the body, and the gauge of requests in flight goes
    up and down by one, also when the handler panics. *)
Theorem http_request_counted (method path : string) (duration : Z) (handler : list writer_call) (panics : bool) :
  let '(rw, cs) := MetricsMiddleware gateway_metrics method path duration handler panics NewWriter in
  let w := foldl plain_call NewWriter handler in
  ResponseWriter rw = w ∧
  updates "api_gateway_http_requests_in_flight" [] cs = [Inc; Dec] ∧
  (status_first handler = true → panics = false →
   updates "api_gateway_http_requests_total" [method; path; pretty (default 200 (status_of w))] cs = [Inc] ∧
   updates "api_gateway_http_response_size_bytes" [method; path] cs = [Observe (f64_of (Z.of_nat (length (w_body w))))]).
Proof.
  cbn zeta. unfold MetricsMiddleware. set (rw := foldl recorder_call _ _).
  assert (size rw = Z.of_nat (length (w_body (foldl plain_call NewWriter handler)))) as Hsize.
  { unfold rw. rewrite recorded_size. simpl. lia. }
  split; [apply (recorder_transparent handler (new_recorder NewWriter))|].
  unfold updates, RecordHTTPRequest, RecordResponseSize, IncRequestsInFlight, DecRequestsInFlight. split.
  - destruct panics; cbn [app]; rewrite !filter_cons; cbn [fst snd]; repeat case_decide; naive_solver.
  - intros Hf ->. rewrite <-Hsize.
    pose proof (recorded_is_sent handler (new_recorder NewWriter) Hf eq_refl eq_refl) as Hst.
    change (ResponseWriter (new_recorder NewWriter)) with NewWriter in Hst. rewrite Hst. fold rw.
    cbn [app]. rewrite !filter_cons. cbn [fst snd filter list_filter].
    split; repeat case_decide; naive_solver.
Qed.

(** A handler that changes its mind is counted under the status it set last,
    which is not the one that was sent. *)
Lemma late_status_miscounted :
  let handler := [CallWriteHeader 200; CallWrite (bytes "partial"); CallWriteHeader 500] in
  let '(rw, _) := MetricsMiddleware gateway_metrics "GET" "/v1/x" 0 handler false NewWriter in
  statusCode rw = 500 ∧ status_of (ResponseWriter rw) = Some 200.
Proof. done. Qed.

(** The metrics of the gateway are created once: after [NewMetrics] returned,
    every further call returns the same object and registers nothing. *)
Theorem gateway_metrics_once `{Prometheus} (r : registry) :
  NoDup (fqName <$> registered r) →
  (∀ o, o ∈ instruments gateway_metrics → fqName o ∉ fqName <$> registered r) →
  ∃ r1, NewMetrics None r = Some (gateway_metrics, Some gateway_metrics, r1) ∧
    registered r1 = registered r ++ instruments gateway_metrics ∧
    ∀ r2, NewMetrics (Some gateway_metrics) r2 = Some (gateway_metrics, Some gateway_metrics, r2).
Proof.
  intros Hnd Hfree.
  destruct (register_perform (instruments gateway_metrics) [] r) as (r1 & r2 & Hr1 & Hr2 & Hreg & _);
    [done|apply (bool_decide_unpack _); by vm_compute|done|constructor|].
  injection Hr2 as <-. exists r1. unfold NewMetrics. by rewrite Hr1.
Qed.
